(** * Movement clipping of DOOM Retro (src/p_map.c)

    A shallow embedding of the movement, teleport, slide, radius-attack,
    friction and sector-node code of [p_map.c], and the properties of the
    specification proved (or refuted) about it.

    Conventions.
    - [fixed_t], [int] and [angle_t] values are integers of [Z]; every
      arithmetic operation of the C code wraps to 32 bits ([wrap32] for
      signed, [wrapu32] for [angle_t]).
    - Pointers are indices into stores; a nullable pointer is an [option].
    - Calls that leave [p_map.c] for the damage, pickup, state, sound and
      line-trigger code are recorded, in order, in the [events] of the world;
      what the callees do to the world is not modelled.
    - What the headers and the other translation units declare (constants,
      tables, the blockmap, the BSP, the sight test, the thing linker ...)
      is collected in the class [engine]; nothing is assumed about it
      beyond what a theorem states. *)

From Stdlib Require Import ZArith Lia List.
From stdpp Require Import base tactics option list functions numbers gmap.

Local Open Scope Z_scope.

(** ** Machine integers *)

Definition wrap32 (z : Z) : Z := (z + 2 ^ 31) mod 2 ^ 32 - 2 ^ 31.
Definition wrapu32 (z : Z) : Z := z mod 2 ^ 32.

Definition add32 (a b : Z) : Z := wrap32 (a + b).
Definition sub32 (a b : Z) : Z := wrap32 (a - b).
Definition mul32 (a b : Z) : Z := wrap32 (a * b).
Definition neg32 (a : Z) : Z := wrap32 (- a).
(** [a / b] of C truncates toward zero. *)
Definition div32 (a b : Z) : Z := wrap32 (Z.quot a b).
(** [a >> n] on a signed int is the arithmetic shift. *)
Definition shr32 (a n : Z) : Z := Z.shiftr a n.
Definition shl32 (a n : Z) : Z := wrap32 (Z.shiftl a n).

(** The macros [ABS], [MAX] and [MIN] of the headers. *)
Definition ABS (a : Z) : Z := if decide (a < 0) then neg32 a else a.
Definition MAX (a b : Z) : Z := if decide (b < a) then a else b.
Definition MIN (a b : Z) : Z := if decide (a < b) then a else b.

(** A C condition [flags & mask]. *)
Definition tst (flags mask : Z) : bool := bool_decide (Z.land flags mask ≠ 0).

(** ** Data model *)

Definition mobj_id := nat.
Definition player_id := nat.
Definition sector_id := nat.
Definition subsector_id := nat.
Definition line_id := nat.
Definition node_id := nat.

(** The members of [mobjtype_t] that [p_map.c] names; [MT_MISC] stands for
    the rest of the enumeration. *)
Inductive mobjtype_t :=
  | MT_PLAYER | MT_BRUISER | MT_KNIGHT | MT_SPIDER | MT_CYBORG | MT_BARREL
  | MT_PLASMA | MT_ROCKET | MT_BOSSBRAIN | MT_MISC (n : nat).

#[global] Instance mobjtype_eq_dec : EqDecision mobjtype_t.
Proof. solve_decision. Defined.

Inductive terraintype_t := SOLID | LIQUID (kind : nat).

#[global] Instance terraintype_eq_dec : EqDecision terraintype_t.
Proof. solve_decision. Defined.

Inductive slopetype_t := ST_HORIZONTAL | ST_VERTICAL | ST_POSITIVE | ST_NEGATIVE.

#[global] Instance slopetype_eq_dec : EqDecision slopetype_t.
Proof. solve_decision. Defined.

Inductive sfxenum_t := sfx_oof.

(** [fixed_t bbox[4]], indexed by [BOXTOP], [BOXBOTTOM], [BOXLEFT], [BOXRIGHT]. *)
Record bbox_t := Build_bbox {
  BOXTOP : Z;
  BOXBOTTOM : Z;
  BOXLEFT : Z;
  BOXRIGHT : Z
}.

(** [mobjinfo_t]: the entries of [thing->info] the code reads. *)
Record mobjinfo_t := Build_mobjinfo {
  mi_pickupradius : Z;
  mi_projectilepassheight : Z;
  mi_damage : Z;
  mi_spawnstate : Z
}.

(** [line_t]; a line is static while the functions below run. *)
Record line_t := Build_line {
  ld_v1x : Z;
  ld_v1y : Z;
  ld_dx : Z;
  ld_dy : Z;
  ld_flags : Z;
  ld_special : Z;
  ld_bbox : bbox_t;
  ld_slopetype : slopetype_t;
  ld_frontsector : sector_id;
  ld_backsector : option sector_id
}.

(** [intercept_t] of a line ([in->frac], [in->d.line]). *)
Record intercept_t := Build_intercept {
  in_frac : Z;
  in_line : line_id
}.

(** The globals [opentop], [openbottom], [openrange], [lowfloor] that
    [P_LineOpening] sets. *)
Record opening_t := Build_opening {
  opentop : Z;
  openbottom : Z;
  openrange : Z;
  lowfloor : Z
}.

(** The console variables and game globals the code reads. *)
Record cvars_t := Build_cvars {
  infiniteheight : bool;
  freeze : bool;
  r_corpses_nudge : bool;
  r_liquid_bob : bool;
  infight : bool;
  species_infighting : bool;
  telefragonmap30 : bool;
  gamemap : Z
}.

(** Calls into other translation units, in the order they are made. *)
Inductive event :=
  | P_DamageMobj (target : mobj_id) (inflictor source : option mobj_id)
                 (damage : Z) (adjust : bool)
  | P_TouchSpecialThing (special toucher : mobj_id) (message stat : bool)
  | P_SetMobjState (mobj : mobj_id) (state : Z)
  | P_CrossSpecialLine (line : line_id) (side : Z) (thing : mobj_id)
  | S_StartSound (origin : mobj_id) (sfx : sfxenum_t).

(** mobj_t: the fields of a map object that p_map.c reads or writes. *)
Record mobj_t := Build_mobj {
  mo_x : Z;
  mo_y : Z;
  mo_z : Z;
  mo_radius : Z;
  mo_height : Z;
  mo_momx : Z;
  mo_momy : Z;
  mo_momz : Z;
  mo_flags : Z;
  mo_flags2 : Z;
  mo_floorz : Z;
  mo_ceilingz : Z;
  mo_dropoffz : Z;
  mo_type : mobjtype_t;
  mo_info : mobjinfo_t;
  mo_player : option player_id;
  mo_target : option mobj_id;
  mo_nudge : Z;
  mo_health : Z;
  mo_interpolate : Z;
  mo_subsector : subsector_id;
  mo_touching_sectorlist : option node_id
}.

Definition set_mo_x (v : Z) (mo : mobj_t) : mobj_t :=
  {| mo_x := v; mo_y := mo_y mo; mo_z := mo_z mo; mo_radius := mo_radius mo;
     mo_height := mo_height mo; mo_momx := mo_momx mo; mo_momy := mo_momy mo;
     mo_momz := mo_momz mo; mo_flags := mo_flags mo; mo_flags2 := mo_flags2 mo;
     mo_floorz := mo_floorz mo; mo_ceilingz := mo_ceilingz mo; mo_dropoffz := mo_dropoffz mo;
     mo_type := mo_type mo; mo_info := mo_info mo; mo_player := mo_player mo;
     mo_target := mo_target mo; mo_nudge := mo_nudge mo; mo_health := mo_health mo;
     mo_interpolate := mo_interpolate mo; mo_subsector := mo_subsector mo;
     mo_touching_sectorlist := mo_touching_sectorlist mo |}.
Definition set_mo_y (v : Z) (mo : mobj_t) : mobj_t :=
  {| mo_x := mo_x mo; mo_y := v; mo_z := mo_z mo; mo_radius := mo_radius mo;
     mo_height := mo_height mo; mo_momx := mo_momx mo; mo_momy := mo_momy mo;
     mo_momz := mo_momz mo; mo_flags := mo_flags mo; mo_flags2 := mo_flags2 mo;
     mo_floorz := mo_floorz mo; mo_ceilingz := mo_ceilingz mo; mo_dropoffz := mo_dropoffz mo;
     mo_type := mo_type mo; mo_info := mo_info mo; mo_player := mo_player mo;
     mo_target := mo_target mo; mo_nudge := mo_nudge mo; mo_health := mo_health mo;
     mo_interpolate := mo_interpolate mo; mo_subsector := mo_subsector mo;
     mo_touching_sectorlist := mo_touching_sectorlist mo |}.
Definition set_mo_momx (v : Z) (mo : mobj_t) : mobj_t :=
  {| mo_x := mo_x mo; mo_y := mo_y mo; mo_z := mo_z mo; mo_radius := mo_radius mo;
     mo_height := mo_height mo; mo_momx := v; mo_momy := mo_momy mo; mo_momz := mo_momz mo;
     mo_flags := mo_flags mo; mo_flags2 := mo_flags2 mo; mo_floorz := mo_floorz mo;
     mo_ceilingz := mo_ceilingz mo; mo_dropoffz := mo_dropoffz mo; mo_type := mo_type mo;
     mo_info := mo_info mo; mo_player := mo_player mo; mo_target := mo_target mo;
     mo_nudge := mo_nudge mo; mo_health := mo_health mo; mo_interpolate := mo_interpolate mo;
     mo_subsector := mo_subsector mo; mo_touching_sectorlist := mo_touching_sectorlist mo |}.
Definition set_mo_momy (v : Z) (mo : mobj_t) : mobj_t :=
  {| mo_x := mo_x mo; mo_y := mo_y mo; mo_z := mo_z mo; mo_radius := mo_radius mo;
     mo_height := mo_height mo; mo_momx := mo_momx mo; mo_momy := v; mo_momz := mo_momz mo;
     mo_flags := mo_flags mo; mo_flags2 := mo_flags2 mo; mo_floorz := mo_floorz mo;
     mo_ceilingz := mo_ceilingz mo; mo_dropoffz := mo_dropoffz mo; mo_type := mo_type mo;
     mo_info := mo_info mo; mo_player := mo_player mo; mo_target := mo_target mo;
     mo_nudge := mo_nudge mo; mo_health := mo_health mo; mo_interpolate := mo_interpolate mo;
     mo_subsector := mo_subsector mo; mo_touching_sectorlist := mo_touching_sectorlist mo |}.
Definition set_mo_momz (v : Z) (mo : mobj_t) : mobj_t :=
  {| mo_x := mo_x mo; mo_y := mo_y mo; mo_z := mo_z mo; mo_radius := mo_radius mo;
     mo_height := mo_height mo; mo_momx := mo_momx mo; mo_momy := mo_momy mo; mo_momz := v;
     mo_flags := mo_flags mo; mo_flags2 := mo_flags2 mo; mo_floorz := mo_floorz mo;
     mo_ceilingz := mo_ceilingz mo; mo_dropoffz := mo_dropoffz mo; mo_type := mo_type mo;
     mo_info := mo_info mo; mo_player := mo_player mo; mo_target := mo_target mo;
     mo_nudge := mo_nudge mo; mo_health := mo_health mo; mo_interpolate := mo_interpolate mo;
     mo_subsector := mo_subsector mo; mo_touching_sectorlist := mo_touching_sectorlist mo |}.
Definition set_mo_flags (v : Z) (mo : mobj_t) : mobj_t :=
  {| mo_x := mo_x mo; mo_y := mo_y mo; mo_z := mo_z mo; mo_radius := mo_radius mo;
     mo_height := mo_height mo; mo_momx := mo_momx mo; mo_momy := mo_momy mo;
     mo_momz := mo_momz mo; mo_flags := v; mo_flags2 := mo_flags2 mo;
     mo_floorz := mo_floorz mo; mo_ceilingz := mo_ceilingz mo; mo_dropoffz := mo_dropoffz mo;
     mo_type := mo_type mo; mo_info := mo_info mo; mo_player := mo_player mo;
     mo_target := mo_target mo; mo_nudge := mo_nudge mo; mo_health := mo_health mo;
     mo_interpolate := mo_interpolate mo; mo_subsector := mo_subsector mo;
     mo_touching_sectorlist := mo_touching_sectorlist mo |}.
Definition set_mo_flags2 (v : Z) (mo : mobj_t) : mobj_t :=
  {| mo_x := mo_x mo; mo_y := mo_y mo; mo_z := mo_z mo; mo_radius := mo_radius mo;
     mo_height := mo_height mo; mo_momx := mo_momx mo; mo_momy := mo_momy mo;
     mo_momz := mo_momz mo; mo_flags := mo_flags mo; mo_flags2 := v;
     mo_floorz := mo_floorz mo; mo_ceilingz := mo_ceilingz mo; mo_dropoffz := mo_dropoffz mo;
     mo_type := mo_type mo; mo_info := mo_info mo; mo_player := mo_player mo;
     mo_target := mo_target mo; mo_nudge := mo_nudge mo; mo_health := mo_health mo;
     mo_interpolate := mo_interpolate mo; mo_subsector := mo_subsector mo;
     mo_touching_sectorlist := mo_touching_sectorlist mo |}.
Definition set_mo_floorz (v : Z) (mo : mobj_t) : mobj_t :=
  {| mo_x := mo_x mo; mo_y := mo_y mo; mo_z := mo_z mo; mo_radius := mo_radius mo;
     mo_height := mo_height mo; mo_momx := mo_momx mo; mo_momy := mo_momy mo;
     mo_momz := mo_momz mo; mo_flags := mo_flags mo; mo_flags2 := mo_flags2 mo;
     mo_floorz := v; mo_ceilingz := mo_ceilingz mo; mo_dropoffz := mo_dropoffz mo;
     mo_type := mo_type mo; mo_info := mo_info mo; mo_player := mo_player mo;
     mo_target := mo_target mo; mo_nudge := mo_nudge mo; mo_health := mo_health mo;
     mo_interpolate := mo_interpolate mo; mo_subsector := mo_subsector mo;
     mo_touching_sectorlist := mo_touching_sectorlist mo |}.
Definition set_mo_ceilingz (v : Z) (mo : mobj_t) : mobj_t :=
  {| mo_x := mo_x mo; mo_y := mo_y mo; mo_z := mo_z mo; mo_radius := mo_radius mo;
     mo_height := mo_height mo; mo_momx := mo_momx mo; mo_momy := mo_momy mo;
     mo_momz := mo_momz mo; mo_flags := mo_flags mo; mo_flags2 := mo_flags2 mo;
     mo_floorz := mo_floorz mo; mo_ceilingz := v; mo_dropoffz := mo_dropoffz mo;
     mo_type := mo_type mo; mo_info := mo_info mo; mo_player := mo_player mo;
     mo_target := mo_target mo; mo_nudge := mo_nudge mo; mo_health := mo_health mo;
     mo_interpolate := mo_interpolate mo; mo_subsector := mo_subsector mo;
     mo_touching_sectorlist := mo_touching_sectorlist mo |}.
Definition set_mo_dropoffz (v : Z) (mo : mobj_t) : mobj_t :=
  {| mo_x := mo_x mo; mo_y := mo_y mo; mo_z := mo_z mo; mo_radius := mo_radius mo;
     mo_height := mo_height mo; mo_momx := mo_momx mo; mo_momy := mo_momy mo;
     mo_momz := mo_momz mo; mo_flags := mo_flags mo; mo_flags2 := mo_flags2 mo;
     mo_floorz := mo_floorz mo; mo_ceilingz := mo_ceilingz mo; mo_dropoffz := v;
     mo_type := mo_type mo; mo_info := mo_info mo; mo_player := mo_player mo;
     mo_target := mo_target mo; mo_nudge := mo_nudge mo; mo_health := mo_health mo;
     mo_interpolate := mo_interpolate mo; mo_subsector := mo_subsector mo;
     mo_touching_sectorlist := mo_touching_sectorlist mo |}.
Definition set_mo_nudge (v : Z) (mo : mobj_t) : mobj_t :=
  {| mo_x := mo_x mo; mo_y := mo_y mo; mo_z := mo_z mo; mo_radius := mo_radius mo;
     mo_height := mo_height mo; mo_momx := mo_momx mo; mo_momy := mo_momy mo;
     mo_momz := mo_momz mo; mo_flags := mo_flags mo; mo_flags2 := mo_flags2 mo;
     mo_floorz := mo_floorz mo; mo_ceilingz := mo_ceilingz mo; mo_dropoffz := mo_dropoffz mo;
     mo_type := mo_type mo; mo_info := mo_info mo; mo_player := mo_player mo;
     mo_target := mo_target mo; mo_nudge := v; mo_health := mo_health mo;
     mo_interpolate := mo_interpolate mo; mo_subsector := mo_subsector mo;
     mo_touching_sectorlist := mo_touching_sectorlist mo |}.
Definition set_mo_interpolate (v : Z) (mo : mobj_t) : mobj_t :=
  {| mo_x := mo_x mo; mo_y := mo_y mo; mo_z := mo_z mo; mo_radius := mo_radius mo;
     mo_height := mo_height mo; mo_momx := mo_momx mo; mo_momy := mo_momy mo;
     mo_momz := mo_momz mo; mo_flags := mo_flags mo; mo_flags2 := mo_flags2 mo;
     mo_floorz := mo_floorz mo; mo_ceilingz := mo_ceilingz mo; mo_dropoffz := mo_dropoffz mo;
     mo_type := mo_type mo; mo_info := mo_info mo; mo_player := mo_player mo;
     mo_target := mo_target mo; mo_nudge := mo_nudge mo; mo_health := mo_health mo;
     mo_interpolate := v; mo_subsector := mo_subsector mo;
     mo_touching_sectorlist := mo_touching_sectorlist mo |}.
Definition set_mo_subsector (v : subsector_id) (mo : mobj_t) : mobj_t :=
  {| mo_x := mo_x mo; mo_y := mo_y mo; mo_z := mo_z mo; mo_radius := mo_radius mo;
     mo_height := mo_height mo; mo_momx := mo_momx mo; mo_momy := mo_momy mo;
     mo_momz := mo_momz mo; mo_flags := mo_flags mo; mo_flags2 := mo_flags2 mo;
     mo_floorz := mo_floorz mo; mo_ceilingz := mo_ceilingz mo; mo_dropoffz := mo_dropoffz mo;
     mo_type := mo_type mo; mo_info := mo_info mo; mo_player := mo_player mo;
     mo_target := mo_target mo; mo_nudge := mo_nudge mo; mo_health := mo_health mo;
     mo_interpolate := mo_interpolate mo; mo_subsector := v;
     mo_touching_sectorlist := mo_touching_sectorlist mo |}.
Definition set_mo_touching_sectorlist (v : option node_id) (mo : mobj_t) : mobj_t :=
  {| mo_x := mo_x mo; mo_y := mo_y mo; mo_z := mo_z mo; mo_radius := mo_radius mo;
     mo_height := mo_height mo; mo_momx := mo_momx mo; mo_momy := mo_momy mo;
     mo_momz := mo_momz mo; mo_flags := mo_flags mo; mo_flags2 := mo_flags2 mo;
     mo_floorz := mo_floorz mo; mo_ceilingz := mo_ceilingz mo; mo_dropoffz := mo_dropoffz mo;
     mo_type := mo_type mo; mo_info := mo_info mo; mo_player := mo_player mo;
     mo_target := mo_target mo; mo_nudge := mo_nudge mo; mo_health := mo_health mo;
     mo_interpolate := mo_interpolate mo; mo_subsector := mo_subsector mo;
     mo_touching_sectorlist := v |}.

(** player_t: the player fields used by the movement code. *)
Record player_t := Build_player {
  pl_mo : mobj_id;
  pl_momx : Z;
  pl_momy : Z;
  pl_distancetraveled : Z;
  pl_shotshit : Z
}.

Definition set_pl_momx (v : Z) (p : player_t) : player_t :=
  {| pl_mo := pl_mo p; pl_momx := v; pl_momy := pl_momy p;
     pl_distancetraveled := pl_distancetraveled p; pl_shotshit := pl_shotshit p |}.
Definition set_pl_momy (v : Z) (p : player_t) : player_t :=
  {| pl_mo := pl_mo p; pl_momx := pl_momx p; pl_momy := v;
     pl_distancetraveled := pl_distancetraveled p; pl_shotshit := pl_shotshit p |}.
Definition set_pl_distancetraveled (v : Z) (p : player_t) : player_t :=
  {| pl_mo := pl_mo p; pl_momx := pl_momx p; pl_momy := pl_momy p; pl_distancetraveled := v;
     pl_shotshit := pl_shotshit p |}.
Definition set_pl_shotshit (v : Z) (p : player_t) : player_t :=
  {| pl_mo := pl_mo p; pl_momx := pl_momx p; pl_momy := pl_momy p;
     pl_distancetraveled := pl_distancetraveled p; pl_shotshit := v |}.

(** sector_t: heights, friction data and the head of the touching-thing thread. *)
Record sector_t := Build_sector {
  sec_floorheight : Z;
  sec_ceilingheight : Z;
  sec_special : Z;
  sec_friction : Z;
  sec_movefactor : Z;
  sec_heightsec : option sector_id;
  sec_terraintype : terraintype_t;
  sec_touching_thinglist : option node_id
}.

Definition set_sec_touching_thinglist (v : option node_id) (s : sector_t) : sector_t :=
  {| sec_floorheight := sec_floorheight s; sec_ceilingheight := sec_ceilingheight s;
     sec_special := sec_special s; sec_friction := sec_friction s;
     sec_movefactor := sec_movefactor s; sec_heightsec := sec_heightsec s;
     sec_terraintype := sec_terraintype s; sec_touching_thinglist := v |}.

(** msecnode_t: one (sector, thing) membership node, threaded on two doubly linked lists. *)
Record msecnode_t := Build_msecnode {
  m_sector : sector_id;
  m_thing : option mobj_id;
  m_tprev : option node_id;
  m_tnext : option node_id;
  m_sprev : option node_id;
  m_snext : option node_id;
  visited : bool
}.

Definition set_m_sector (v : sector_id) (n : msecnode_t) : msecnode_t :=
  {| m_sector := v; m_thing := m_thing n; m_tprev := m_tprev n; m_tnext := m_tnext n;
     m_sprev := m_sprev n; m_snext := m_snext n; visited := visited n |}.
Definition set_m_thing (v : option mobj_id) (n : msecnode_t) : msecnode_t :=
  {| m_sector := m_sector n; m_thing := v; m_tprev := m_tprev n; m_tnext := m_tnext n;
     m_sprev := m_sprev n; m_snext := m_snext n; visited := visited n |}.
Definition set_m_tprev (v : option node_id) (n : msecnode_t) : msecnode_t :=
  {| m_sector := m_sector n; m_thing := m_thing n; m_tprev := v; m_tnext := m_tnext n;
     m_sprev := m_sprev n; m_snext := m_snext n; visited := visited n |}.
Definition set_m_tnext (v : option node_id) (n : msecnode_t) : msecnode_t :=
  {| m_sector := m_sector n; m_thing := m_thing n; m_tprev := m_tprev n; m_tnext := v;
     m_sprev := m_sprev n; m_snext := m_snext n; visited := visited n |}.
Definition set_m_sprev (v : option node_id) (n : msecnode_t) : msecnode_t :=
  {| m_sector := m_sector n; m_thing := m_thing n; m_tprev := m_tprev n; m_tnext := m_tnext n;
     m_sprev := v; m_snext := m_snext n; visited := visited n |}.
Definition set_m_snext (v : option node_id) (n : msecnode_t) : msecnode_t :=
  {| m_sector := m_sector n; m_thing := m_thing n; m_tprev := m_tprev n; m_tnext := m_tnext n;
     m_sprev := m_sprev n; m_snext := v; visited := visited n |}.
Definition set_visited (v : bool) (n : msecnode_t) : msecnode_t :=
  {| m_sector := m_sector n; m_thing := m_thing n; m_tprev := m_tprev n; m_tnext := m_tnext n;
     m_sprev := m_sprev n; m_snext := m_snext n; visited := v |}.

(** The file-scope scratch variables of one validation (the trial state). *)
Record trial_t := Build_trial {
  tmthing : option mobj_id;
  tmx : Z;
  tmy : Z;
  tmz : Z;
  tmbbox : bbox_t;
  tmfloorz : Z;
  tmceilingz : Z;
  tmdropoffz : Z;
  ceilingline : option line_id;
  blockline : option line_id;
  floorline : option line_id;
  tmunstuck : bool;
  spechit : list line_id;
  numspechit : Z;
  spechit_max : Z;
  floatok : bool;
  felldown : bool;
  telefrag : bool;
  onmobj : option mobj_id
}.

Definition set_tmthing (v : option mobj_id) (t : trial_t) : trial_t :=
  {| tmthing := v; tmx := tmx t; tmy := tmy t; tmz := tmz t; tmbbox := tmbbox t;
     tmfloorz := tmfloorz t; tmceilingz := tmceilingz t; tmdropoffz := tmdropoffz t;
     ceilingline := ceilingline t; blockline := blockline t; floorline := floorline t;
     tmunstuck := tmunstuck t; spechit := spechit t; numspechit := numspechit t;
     spechit_max := spechit_max t; floatok := floatok t; felldown := felldown t;
     telefrag := telefrag t; onmobj := onmobj t |}.
Definition set_tmx (v : Z) (t : trial_t) : trial_t :=
  {| tmthing := tmthing t; tmx := v; tmy := tmy t; tmz := tmz t; tmbbox := tmbbox t;
     tmfloorz := tmfloorz t; tmceilingz := tmceilingz t; tmdropoffz := tmdropoffz t;
     ceilingline := ceilingline t; blockline := blockline t; floorline := floorline t;
     tmunstuck := tmunstuck t; spechit := spechit t; numspechit := numspechit t;
     spechit_max := spechit_max t; floatok := floatok t; felldown := felldown t;
     telefrag := telefrag t; onmobj := onmobj t |}.
Definition set_tmy (v : Z) (t : trial_t) : trial_t :=
  {| tmthing := tmthing t; tmx := tmx t; tmy := v; tmz := tmz t; tmbbox := tmbbox t;
     tmfloorz := tmfloorz t; tmceilingz := tmceilingz t; tmdropoffz := tmdropoffz t;
     ceilingline := ceilingline t; blockline := blockline t; floorline := floorline t;
     tmunstuck := tmunstuck t; spechit := spechit t; numspechit := numspechit t;
     spechit_max := spechit_max t; floatok := floatok t; felldown := felldown t;
     telefrag := telefrag t; onmobj := onmobj t |}.
Definition set_tmz (v : Z) (t : trial_t) : trial_t :=
  {| tmthing := tmthing t; tmx := tmx t; tmy := tmy t; tmz := v; tmbbox := tmbbox t;
     tmfloorz := tmfloorz t; tmceilingz := tmceilingz t; tmdropoffz := tmdropoffz t;
     ceilingline := ceilingline t; blockline := blockline t; floorline := floorline t;
     tmunstuck := tmunstuck t; spechit := spechit t; numspechit := numspechit t;
     spechit_max := spechit_max t; floatok := floatok t; felldown := felldown t;
     telefrag := telefrag t; onmobj := onmobj t |}.
Definition set_tmbbox (v : bbox_t) (t : trial_t) : trial_t :=
  {| tmthing := tmthing t; tmx := tmx t; tmy := tmy t; tmz := tmz t; tmbbox := v;
     tmfloorz := tmfloorz t; tmceilingz := tmceilingz t; tmdropoffz := tmdropoffz t;
     ceilingline := ceilingline t; blockline := blockline t; floorline := floorline t;
     tmunstuck := tmunstuck t; spechit := spechit t; numspechit := numspechit t;
     spechit_max := spechit_max t; floatok := floatok t; felldown := felldown t;
     telefrag := telefrag t; onmobj := onmobj t |}.
Definition set_tmfloorz (v : Z) (t : trial_t) : trial_t :=
  {| tmthing := tmthing t; tmx := tmx t; tmy := tmy t; tmz := tmz t; tmbbox := tmbbox t;
     tmfloorz := v; tmceilingz := tmceilingz t; tmdropoffz := tmdropoffz t;
     ceilingline := ceilingline t; blockline := blockline t; floorline := floorline t;
     tmunstuck := tmunstuck t; spechit := spechit t; numspechit := numspechit t;
     spechit_max := spechit_max t; floatok := floatok t; felldown := felldown t;
     telefrag := telefrag t; onmobj := onmobj t |}.
Definition set_tmceilingz (v : Z) (t : trial_t) : trial_t :=
  {| tmthing := tmthing t; tmx := tmx t; tmy := tmy t; tmz := tmz t; tmbbox := tmbbox t;
     tmfloorz := tmfloorz t; tmceilingz := v; tmdropoffz := tmdropoffz t;
     ceilingline := ceilingline t; blockline := blockline t; floorline := floorline t;
     tmunstuck := tmunstuck t; spechit := spechit t; numspechit := numspechit t;
     spechit_max := spechit_max t; floatok := floatok t; felldown := felldown t;
     telefrag := telefrag t; onmobj := onmobj t |}.
Definition set_tmdropoffz (v : Z) (t : trial_t) : trial_t :=
  {| tmthing := tmthing t; tmx := tmx t; tmy := tmy t; tmz := tmz t; tmbbox := tmbbox t;
     tmfloorz := tmfloorz t; tmceilingz := tmceilingz t; tmdropoffz := v;
     ceilingline := ceilingline t; blockline := blockline t; floorline := floorline t;
     tmunstuck := tmunstuck t; spechit := spechit t; numspechit := numspechit t;
     spechit_max := spechit_max t; floatok := floatok t; felldown := felldown t;
     telefrag := telefrag t; onmobj := onmobj t |}.
Definition set_ceilingline (v : option line_id) (t : trial_t) : trial_t :=
  {| tmthing := tmthing t; tmx := tmx t; tmy := tmy t; tmz := tmz t; tmbbox := tmbbox t;
     tmfloorz := tmfloorz t; tmceilingz := tmceilingz t; tmdropoffz := tmdropoffz t;
     ceilingline := v; blockline := blockline t; floorline := floorline t;
     tmunstuck := tmunstuck t; spechit := spechit t; numspechit := numspechit t;
     spechit_max := spechit_max t; floatok := floatok t; felldown := felldown t;
     telefrag := telefrag t; onmobj := onmobj t |}.
Definition set_blockline (v : option line_id) (t : trial_t) : trial_t :=
  {| tmthing := tmthing t; tmx := tmx t; tmy := tmy t; tmz := tmz t; tmbbox := tmbbox t;
     tmfloorz := tmfloorz t; tmceilingz := tmceilingz t; tmdropoffz := tmdropoffz t;
     ceilingline := ceilingline t; blockline := v; floorline := floorline t;
     tmunstuck := tmunstuck t; spechit := spechit t; numspechit := numspechit t;
     spechit_max := spechit_max t; floatok := floatok t; felldown := felldown t;
     telefrag := telefrag t; onmobj := onmobj t |}.
Definition set_floorline (v : option line_id) (t : trial_t) : trial_t :=
  {| tmthing := tmthing t; tmx := tmx t; tmy := tmy t; tmz := tmz t; tmbbox := tmbbox t;
     tmfloorz := tmfloorz t; tmceilingz := tmceilingz t; tmdropoffz := tmdropoffz t;
     ceilingline := ceilingline t; blockline := blockline t; floorline := v;
     tmunstuck := tmunstuck t; spechit := spechit t; numspechit := numspechit t;
     spechit_max := spechit_max t; floatok := floatok t; felldown := felldown t;
     telefrag := telefrag t; onmobj := onmobj t |}.
Definition set_tmunstuck (v : bool) (t : trial_t) : trial_t :=
  {| tmthing := tmthing t; tmx := tmx t; tmy := tmy t; tmz := tmz t; tmbbox := tmbbox t;
     tmfloorz := tmfloorz t; tmceilingz := tmceilingz t; tmdropoffz := tmdropoffz t;
     ceilingline := ceilingline t; blockline := blockline t; floorline := floorline t;
     tmunstuck := v; spechit := spechit t; numspechit := numspechit t;
     spechit_max := spechit_max t; floatok := floatok t; felldown := felldown t;
     telefrag := telefrag t; onmobj := onmobj t |}.
Definition set_spechit (v : list line_id) (t : trial_t) : trial_t :=
  {| tmthing := tmthing t; tmx := tmx t; tmy := tmy t; tmz := tmz t; tmbbox := tmbbox t;
     tmfloorz := tmfloorz t; tmceilingz := tmceilingz t; tmdropoffz := tmdropoffz t;
     ceilingline := ceilingline t; blockline := blockline t; floorline := floorline t;
     tmunstuck := tmunstuck t; spechit := v; numspechit := numspechit t;
     spechit_max := spechit_max t; floatok := floatok t; felldown := felldown t;
     telefrag := telefrag t; onmobj := onmobj t |}.
Definition set_numspechit (v : Z) (t : trial_t) : trial_t :=
  {| tmthing := tmthing t; tmx := tmx t; tmy := tmy t; tmz := tmz t; tmbbox := tmbbox t;
     tmfloorz := tmfloorz t; tmceilingz := tmceilingz t; tmdropoffz := tmdropoffz t;
     ceilingline := ceilingline t; blockline := blockline t; floorline := floorline t;
     tmunstuck := tmunstuck t; spechit := spechit t; numspechit := v;
     spechit_max := spechit_max t; floatok := floatok t; felldown := felldown t;
     telefrag := telefrag t; onmobj := onmobj t |}.
Definition set_spechit_max (v : Z) (t : trial_t) : trial_t :=
  {| tmthing := tmthing t; tmx := tmx t; tmy := tmy t; tmz := tmz t; tmbbox := tmbbox t;
     tmfloorz := tmfloorz t; tmceilingz := tmceilingz t; tmdropoffz := tmdropoffz t;
     ceilingline := ceilingline t; blockline := blockline t; floorline := floorline t;
     tmunstuck := tmunstuck t; spechit := spechit t; numspechit := numspechit t;
     spechit_max := v; floatok := floatok t; felldown := felldown t; telefrag := telefrag t;
     onmobj := onmobj t |}.
Definition set_floatok (v : bool) (t : trial_t) : trial_t :=
  {| tmthing := tmthing t; tmx := tmx t; tmy := tmy t; tmz := tmz t; tmbbox := tmbbox t;
     tmfloorz := tmfloorz t; tmceilingz := tmceilingz t; tmdropoffz := tmdropoffz t;
     ceilingline := ceilingline t; blockline := blockline t; floorline := floorline t;
     tmunstuck := tmunstuck t; spechit := spechit t; numspechit := numspechit t;
     spechit_max := spechit_max t; floatok := v; felldown := felldown t;
     telefrag := telefrag t; onmobj := onmobj t |}.
Definition set_felldown (v : bool) (t : trial_t) : trial_t :=
  {| tmthing := tmthing t; tmx := tmx t; tmy := tmy t; tmz := tmz t; tmbbox := tmbbox t;
     tmfloorz := tmfloorz t; tmceilingz := tmceilingz t; tmdropoffz := tmdropoffz t;
     ceilingline := ceilingline t; blockline := blockline t; floorline := floorline t;
     tmunstuck := tmunstuck t; spechit := spechit t; numspechit := numspechit t;
     spechit_max := spechit_max t; floatok := floatok t; felldown := v;
     telefrag := telefrag t; onmobj := onmobj t |}.
Definition set_telefrag (v : bool) (t : trial_t) : trial_t :=
  {| tmthing := tmthing t; tmx := tmx t; tmy := tmy t; tmz := tmz t; tmbbox := tmbbox t;
     tmfloorz := tmfloorz t; tmceilingz := tmceilingz t; tmdropoffz := tmdropoffz t;
     ceilingline := ceilingline t; blockline := blockline t; floorline := floorline t;
     tmunstuck := tmunstuck t; spechit := spechit t; numspechit := numspechit t;
     spechit_max := spechit_max t; floatok := floatok t; felldown := felldown t;
     telefrag := v; onmobj := onmobj t |}.

(** The msecnode_t store: node contents, the freelist head, the number of nodes Z_Malloc has handed out, and the sector_list under construction. *)
Record secmem_t := Build_secmem {
  nodes : node_id -> msecnode_t;
  headsecnode : option node_id;
  numsecnodes : nat;
  sector_list : option node_id
}.

Definition set_nodes (v : node_id -> msecnode_t) (sm : secmem_t) : secmem_t :=
  {| nodes := v; headsecnode := headsecnode sm; numsecnodes := numsecnodes sm;
     sector_list := sector_list sm |}.
Definition set_headsecnode (v : option node_id) (sm : secmem_t) : secmem_t :=
  {| nodes := nodes sm; headsecnode := v; numsecnodes := numsecnodes sm;
     sector_list := sector_list sm |}.
Definition set_numsecnodes (v : nat) (sm : secmem_t) : secmem_t :=
  {| nodes := nodes sm; headsecnode := headsecnode sm; numsecnodes := v;
     sector_list := sector_list sm |}.
Definition set_sector_list (v : option node_id) (sm : secmem_t) : secmem_t :=
  {| nodes := nodes sm; headsecnode := headsecnode sm; numsecnodes := numsecnodes sm;
     sector_list := v |}.

(** Scratch variables of P_SlideMove. *)
Record slide_t := Build_slide {
  bestslidefrac : Z;
  bestslideline : option line_id;
  slidemo : option mobj_id;
  tmxmove : Z;
  tmymove : Z
}.

Definition set_bestslidefrac (v : Z) (sl : slide_t) : slide_t :=
  {| bestslidefrac := v; bestslideline := bestslideline sl; slidemo := slidemo sl;
     tmxmove := tmxmove sl; tmymove := tmymove sl |}.
Definition set_bestslideline (v : option line_id) (sl : slide_t) : slide_t :=
  {| bestslidefrac := bestslidefrac sl; bestslideline := v; slidemo := slidemo sl;
     tmxmove := tmxmove sl; tmymove := tmymove sl |}.
Definition set_slidemo (v : option mobj_id) (sl : slide_t) : slide_t :=
  {| bestslidefrac := bestslidefrac sl; bestslideline := bestslideline sl; slidemo := v;
     tmxmove := tmxmove sl; tmymove := tmymove sl |}.
Definition set_tmxmove (v : Z) (sl : slide_t) : slide_t :=
  {| bestslidefrac := bestslidefrac sl; bestslideline := bestslideline sl;
     slidemo := slidemo sl; tmxmove := v; tmymove := tmymove sl |}.
Definition set_tmymove (v : Z) (sl : slide_t) : slide_t :=
  {| bestslidefrac := bestslidefrac sl; bestslideline := bestslideline sl;
     slidemo := slidemo sl; tmxmove := tmxmove sl; tmymove := v |}.

(** Scratch variables of P_RadiusAttack. *)
Record bomb_t := Build_bomb {
  bombsource : option mobj_id;
  bombspot : option mobj_id;
  bombdamage : Z;
  bombverticality : bool
}.

Definition set_bombsource (v : option mobj_id) (b : bomb_t) : bomb_t :=
  {| bombsource := v; bombspot := bombspot b; bombdamage := bombdamage b;
     bombverticality := bombverticality b |}.
Definition set_bombspot (v : option mobj_id) (b : bomb_t) : bomb_t :=
  {| bombsource := bombsource b; bombspot := v; bombdamage := bombdamage b;
     bombverticality := bombverticality b |}.
Definition set_bombdamage (v : Z) (b : bomb_t) : bomb_t :=
  {| bombsource := bombsource b; bombspot := bombspot b; bombdamage := v;
     bombverticality := bombverticality b |}.
Definition set_bombverticality (v : bool) (b : bomb_t) : bomb_t :=
  {| bombsource := bombsource b; bombspot := bombspot b; bombdamage := bombdamage b;
     bombverticality := v |}.

(** The whole mutable state the modelled functions work on. *)
Record world := Build_world {
  mobjs : mobj_id -> mobj_t;
  players : player_id -> player_t;
  sectors : sector_id -> sector_t;
  mem : secmem_t;
  tm : trial_t;
  slide : slide_t;
  bomb : bomb_t;
  cv : cvars_t;
  validcount : Z;
  line_validcount : line_id -> Z;
  blocklinks : Z -> Z -> list mobj_id;
  events : list event;
  prndindex : nat;
  stat_distancetraveled : Z;
  stat_shotshit : Z;
  viewplayer : player_id
}.

Definition set_mobjs (v : mobj_id -> mobj_t) (w : world) : world :=
  {| mobjs := v; players := players w; sectors := sectors w; mem := mem w; tm := tm w;
     slide := slide w; bomb := bomb w; cv := cv w; validcount := validcount w;
     line_validcount := line_validcount w; blocklinks := blocklinks w; events := events w;
     prndindex := prndindex w; stat_distancetraveled := stat_distancetraveled w;
     stat_shotshit := stat_shotshit w; viewplayer := viewplayer w |}.
Definition set_players (v : player_id -> player_t) (w : world) : world :=
  {| mobjs := mobjs w; players := v; sectors := sectors w; mem := mem w; tm := tm w;
     slide := slide w; bomb := bomb w; cv := cv w; validcount := validcount w;
     line_validcount := line_validcount w; blocklinks := blocklinks w; events := events w;
     prndindex := prndindex w; stat_distancetraveled := stat_distancetraveled w;
     stat_shotshit := stat_shotshit w; viewplayer := viewplayer w |}.
Definition set_sectors (v : sector_id -> sector_t) (w : world) : world :=
  {| mobjs := mobjs w; players := players w; sectors := v; mem := mem w; tm := tm w;
     slide := slide w; bomb := bomb w; cv := cv w; validcount := validcount w;
     line_validcount := line_validcount w; blocklinks := blocklinks w; events := events w;
     prndindex := prndindex w; stat_distancetraveled := stat_distancetraveled w;
     stat_shotshit := stat_shotshit w; viewplayer := viewplayer w |}.
Definition set_mem (v : secmem_t) (w : world) : world :=
  {| mobjs := mobjs w; players := players w; sectors := sectors w; mem := v; tm := tm w;
     slide := slide w; bomb := bomb w; cv := cv w; validcount := validcount w;
     line_validcount := line_validcount w; blocklinks := blocklinks w; events := events w;
     prndindex := prndindex w; stat_distancetraveled := stat_distancetraveled w;
     stat_shotshit := stat_shotshit w; viewplayer := viewplayer w |}.
Definition set_tm (v : trial_t) (w : world) : world :=
  {| mobjs := mobjs w; players := players w; sectors := sectors w; mem := mem w; tm := v;
     slide := slide w; bomb := bomb w; cv := cv w; validcount := validcount w;
     line_validcount := line_validcount w; blocklinks := blocklinks w; events := events w;
     prndindex := prndindex w; stat_distancetraveled := stat_distancetraveled w;
     stat_shotshit := stat_shotshit w; viewplayer := viewplayer w |}.
Definition set_slide (v : slide_t) (w : world) : world :=
  {| mobjs := mobjs w; players := players w; sectors := sectors w; mem := mem w; tm := tm w;
     slide := v; bomb := bomb w; cv := cv w; validcount := validcount w;
     line_validcount := line_validcount w; blocklinks := blocklinks w; events := events w;
     prndindex := prndindex w; stat_distancetraveled := stat_distancetraveled w;
     stat_shotshit := stat_shotshit w; viewplayer := viewplayer w |}.
Definition set_bomb (v : bomb_t) (w : world) : world :=
  {| mobjs := mobjs w; players := players w; sectors := sectors w; mem := mem w; tm := tm w;
     slide := slide w; bomb := v; cv := cv w; validcount := validcount w;
     line_validcount := line_validcount w; blocklinks := blocklinks w; events := events w;
     prndindex := prndindex w; stat_distancetraveled := stat_distancetraveled w;
     stat_shotshit := stat_shotshit w; viewplayer := viewplayer w |}.
Definition set_validcount (v : Z) (w : world) : world :=
  {| mobjs := mobjs w; players := players w; sectors := sectors w; mem := mem w; tm := tm w;
     slide := slide w; bomb := bomb w; cv := cv w; validcount := v;
     line_validcount := line_validcount w; blocklinks := blocklinks w; events := events w;
     prndindex := prndindex w; stat_distancetraveled := stat_distancetraveled w;
     stat_shotshit := stat_shotshit w; viewplayer := viewplayer w |}.
Definition set_line_validcount (v : line_id -> Z) (w : world) : world :=
  {| mobjs := mobjs w; players := players w; sectors := sectors w; mem := mem w; tm := tm w;
     slide := slide w; bomb := bomb w; cv := cv w; validcount := validcount w;
     line_validcount := v; blocklinks := blocklinks w; events := events w;
     prndindex := prndindex w; stat_distancetraveled := stat_distancetraveled w;
     stat_shotshit := stat_shotshit w; viewplayer := viewplayer w |}.
Definition set_blocklinks (v : Z -> Z -> list mobj_id) (w : world) : world :=
  {| mobjs := mobjs w; players := players w; sectors := sectors w; mem := mem w; tm := tm w;
     slide := slide w; bomb := bomb w; cv := cv w; validcount := validcount w;
     line_validcount := line_validcount w; blocklinks := v; events := events w;
     prndindex := prndindex w; stat_distancetraveled := stat_distancetraveled w;
     stat_shotshit := stat_shotshit w; viewplayer := viewplayer w |}.
Definition set_events (v : list event) (w : world) : world :=
  {| mobjs := mobjs w; players := players w; sectors := sectors w; mem := mem w; tm := tm w;
     slide := slide w; bomb := bomb w; cv := cv w; validcount := validcount w;
     line_validcount := line_validcount w; blocklinks := blocklinks w; events := v;
     prndindex := prndindex w; stat_distancetraveled := stat_distancetraveled w;
     stat_shotshit := stat_shotshit w; viewplayer := viewplayer w |}.
Definition set_prndindex (v : nat) (w : world) : world :=
  {| mobjs := mobjs w; players := players w; sectors := sectors w; mem := mem w; tm := tm w;
     slide := slide w; bomb := bomb w; cv := cv w; validcount := validcount w;
     line_validcount := line_validcount w; blocklinks := blocklinks w; events := events w;
     prndindex := v; stat_distancetraveled := stat_distancetraveled w;
     stat_shotshit := stat_shotshit w; viewplayer := viewplayer w |}.
Definition set_stat_distancetraveled (v : Z) (w : world) : world :=
  {| mobjs := mobjs w; players := players w; sectors := sectors w; mem := mem w; tm := tm w;
     slide := slide w; bomb := bomb w; cv := cv w; validcount := validcount w;
     line_validcount := line_validcount w; blocklinks := blocklinks w; events := events w;
     prndindex := prndindex w; stat_distancetraveled := v; stat_shotshit := stat_shotshit w;
     viewplayer := viewplayer w |}.
Definition set_stat_shotshit (v : Z) (w : world) : world :=
  {| mobjs := mobjs w; players := players w; sectors := sectors w; mem := mem w; tm := tm w;
     slide := slide w; bomb := bomb w; cv := cv w; validcount := validcount w;
     line_validcount := line_validcount w; blocklinks := blocklinks w; events := events w;
     prndindex := prndindex w; stat_distancetraveled := stat_distancetraveled w;
     stat_shotshit := v; viewplayer := viewplayer w |}.

(** ** Declarations the sources at hand do not contain

    [p_map.c] is compiled against the headers and the other translation
    units of the engine.  Their constants, lookup tables, static map data
    and helper functions are the fields of [engine]. *)

Class engine := Build_engine {
  (* m_fixed.h, p_local.h, tables.h, doomdef.h *)
  FRACBITS : Z;
  MAXRADIUS : Z;
  TICRATE : Z;
  ORIG_FRICTION : Z;
  ORIG_FRICTION_FACTOR : Z;
  FRICTION_MASK : Z;
  ANG45 : Z;
  ANG90 : Z;
  ANG180 : Z;
  ANGLETOFINESHIFT : Z;
  finesine : Z -> Z;
  finecosine : Z -> Z;
  (* p_mobj.h: bits of mobj_t.flags and mobj_t.flags2 *)
  MF_SPECIAL : Z;
  MF_SOLID : Z;
  MF_SHOOTABLE : Z;
  MF_SPAWNCEILING : Z;
  MF_NOGRAVITY : Z;
  MF_DROPOFF : Z;
  MF_PICKUP : Z;
  MF_NOCLIP : Z;
  MF_FLOAT : Z;
  MF_TELEPORT : Z;
  MF_MISSILE : Z;
  MF_DROPPED : Z;
  MF_CORPSE : Z;
  MF_SKULLFLY : Z;
  MF_FRIEND : Z;
  MF2_PASSMOBJ : Z;
  MF2_FOOTCLIP : Z;
  MF2_FEETARECLIPPED : Z;
  MF2_FALLING : Z;
  MF2_RESURRECTING : Z;
  (* doomdata.h: bits of line_t.flags *)
  ML_BLOCKING : Z;
  ML_BLOCKMONSTERS : Z;
  ML_TWOSIDED : Z;
  (* the level: lines, subsectors, blockmap *)
  lines : line_id -> line_t;
  subsector_sector : subsector_id -> sector_id;
  bmaporgx : Z;
  bmaporgy : Z;
  bmapwidth : Z;
  bmapheight : Z;
  blockmap : Z -> Z -> list line_id;
  (* m_fixed.h, m_random.c, r_main.c, p_maputl.c, p_sight.c *)
  FixedMul : Z -> Z -> Z;
  SafeAdd : Z -> Z -> Z;
  hypot : Z -> Z -> Z;
  M_Random : nat -> Z;
  M_RandomInt : nat -> Z -> Z -> Z;
  M_RandomIntNoRepeat : nat -> Z -> Z -> Z -> Z;
  R_PointInSubsector : Z -> Z -> subsector_id;
  R_PointToAngle2 : Z -> Z -> Z -> Z -> Z;
  P_ApproxDistance : Z -> Z -> Z;
  P_PointOnLineSide : Z -> Z -> line_id -> Z;
  P_BoxOnLineSide : bbox_t -> line_id -> Z;
  P_LineOpening : (sector_id -> sector_t) -> line_id -> opening_t;
  P_GetSafeBlockX : Z -> Z;
  P_GetSafeBlockY : Z -> Z;
  P_CheckSight : world -> mobj_id -> mobj_id -> bool;
  (* the line intercepts of a path, nearest first, as P_PathTraverse
     with PT_ADDLINES hands them to its callback *)
  path_intercepts : world -> Z -> Z -> Z -> Z -> list intercept_t;
  (* the thing linker of p_maputl.c *)
  P_UnsetThingPosition : mobj_id -> world -> world;
  P_SetThingPosition : mobj_id -> world -> world
}.

(** ** State helpers *)

Definition upd_tm (f : trial_t -> trial_t) (w : world) : world := set_tm (f (tm w)) w.
Definition upd_mem (f : secmem_t -> secmem_t) (w : world) : world := set_mem (f (mem w)) w.
Definition upd_slide (f : slide_t -> slide_t) (w : world) : world := set_slide (f (slide w)) w.
Definition upd_bomb (f : bomb_t -> bomb_t) (w : world) : world := set_bomb (f (bomb w)) w.

(** [p->field = ...] on a map object, a player, a sector, a node. *)
Definition upd_mobj (p : mobj_id) (f : mobj_t -> mobj_t) (w : world) : world :=
  set_mobjs (<[p := f (mobjs w p)]> (mobjs w)) w.
Definition upd_player (p : player_id) (f : player_t -> player_t) (w : world) : world :=
  set_players (<[p := f (players w p)]> (players w)) w.
Definition upd_sector (p : sector_id) (f : sector_t -> sector_t) (w : world) : world :=
  set_sectors (<[p := f (sectors w p)]> (sectors w)) w.
Definition upd_node (p : node_id) (f : msecnode_t -> msecnode_t) (w : world) : world :=
  upd_mem (fun sm => set_nodes (<[p := f (nodes sm p)]> (nodes sm)) sm) w.

Definition node (w : world) (p : node_id) : msecnode_t := nodes (mem w) p.

(** A call into another translation unit: the call is recorded.  What the
    callee writes is not part of [p_map.c] and is not modelled (P_DamageMobj
    lowers the health of its target and can remove it, P_TouchSpecialThing
    can remove the thing picked up, P_CrossSpecialLine can move the thing
    that crosses): the world after the call is the world before it with the
    call added to the log.  What is proved of the world after a run is
    therefore proved of the writes of [p_map.c] itself, and of the calls it
    makes; it describes the world as a whole in the runs that make no call,
    those in which [events] is the same before and after. *)
Definition emit (e : event) (w : world) : world := set_events (events w ++ [e]) w.

(** The scratch pointers are dereferenced without a test; the record read
    through a null pointer is the one at index 0. *)
Definition deref (p : option nat) : nat := default 0%nat p.

(** [for (i = lo; i <= hi; i++)]. *)
Definition int_range (lo hi : Z) : list Z := seqZ lo (hi - lo + 1).

(** A callback applied along a sequence until it returns false. *)
Fixpoint iterate {A : Type} (func : A -> world -> bool * world) (l : list A) (w : world)
  : bool * world :=
  match l with
  | [] => (true, w)
  | a :: l' =>
      let '(ok, w') := func a w in
      if ok then iterate func l' w' else (false, w')
  end.

(** [for (bx = xl; bx <= xh; bx++) for (by = yl; by <= yh; by++)
       if (!body(bx, by)) return false;] *)
Definition for_each_block (xl xh yl yh : Z) (body : Z -> Z -> world -> bool * world)
  : world -> bool * world :=
  iterate (fun bx => iterate (fun by_ => body bx by_) (int_range yl yh)) (int_range xl xh).

(** A walk along a thread of nodes.  The store holds [numsecnodes] nodes, so
    a null-terminated thread is walked to its end. *)
Fixpoint walk (fuel : nat) (next : node_id -> option node_id) (p : option node_id)
  : list node_id :=
  match fuel, p with
  | S fuel', Some n => n :: walk fuel' next (next n)
  | _, _ => []
  end.

Definition tthread (w : world) (head : option node_id) : list node_id :=
  walk (numsecnodes (mem w)) (fun n => m_tnext (node w n)) head.
Definition sthread (w : world) (head : option node_id) : list node_id :=
  walk (numsecnodes (mem w)) (fun n => m_snext (node w n)) head.

Section P_MAP.
Context {E : engine}.

Definition FRACUNIT : Z := Z.shiftl 1 FRACBITS.

(** Modelled from the spec: P_BlockThingsIterator and P_BlockLinesIterator of
    p_maputl.c (section 6: entitiesInCell, linesInCell).  A cell outside the
    grid holds nothing; a line is handed to the callback once per value of
    validcount. *)
Definition P_BlockThingsIterator (x y : Z) (func : mobj_id -> world -> bool * world)
  (w : world) : bool * world :=
  if decide (x < 0 \/ y < 0 \/ bmapwidth <= x \/ bmapheight <= y) then (true, w)
  else iterate func (blocklinks w x y) w.

Definition P_BlockLinesIterator (x y : Z) (func : line_id -> world -> bool * world)
  (w : world) : bool * world :=
  if decide (x < 0 \/ y < 0 \/ bmapwidth <= x \/ bmapheight <= y) then (true, w)
  else
    iterate
      (fun ld w =>
         if decide (line_validcount w ld = validcount w) then (true, w)
         else func ld (set_line_validcount (<[ld := validcount w]> (line_validcount w)) w))
      (blockmap x y) w.

(** Modelled from the spec: P_PathTraverse of p_maputl.c with PT_ADDLINES
    (section 6: castPath): the intercepts go to the callback nearest first
    until it returns false. *)
Definition P_PathTraverse (x1 y1 x2 y2 : Z)
  (trav : intercept_t -> world -> bool * world) (w : world) : bool * world :=
  iterate trav (path_intercepts w x1 y1 x2 y2) w.

(** ** TELEPORT MOVE *)

Definition PIT_StompThing (thing : mobj_id) (w : world) : bool * world :=
  let mover := deref (tmthing (tm w)) in
  (* don't clip against self *)
  if decide (tmthing (tm w) = Some thing) then (true, w)
  else if negb (tst (mo_flags (mobjs w thing)) MF_SHOOTABLE) then (true, w)
  else
    let blockdist := add32 (mo_radius (mobjs w thing)) (mo_radius (mobjs w mover)) in
    if decide (blockdist <= ABS (sub32 (mo_x (mobjs w thing)) (tmx (tm w)))
               \/ blockdist <= ABS (sub32 (mo_y (mobjs w thing)) (tmy (tm w))))
    then (true, w)                                  (* didn't hit it *)
    else if negb (telefrag (tm w)) then (false, w)  (* monsters don't stomp things *)
    else if tst (mo_flags2 (mobjs w mover)) MF2_PASSMOBJ && negb (infiniteheight (cv w))
            && (bool_decide (add32 (mo_z (mobjs w thing)) (mo_height (mobjs w thing))
                               < tmz (tm w))                         (* overhead *)
                || bool_decide (add32 (tmz (tm w)) (mo_height (mobjs w mover))
                                  < mo_z (mobjs w thing)))           (* underneath *)
    then (true, w)
    else (true, emit (P_DamageMobj thing (Some mover) (Some mover) 10000 true) w).

(** P_GetFriction returns the friction and, through [frictionfactor], the
    move factor. *)
Definition P_GetFriction (mo : mobj_id) (w : world) : Z * Z :=
  if tst (mo_flags (mobjs w mo)) (Z.lor MF_NOCLIP MF_NOGRAVITY)
  then (ORIG_FRICTION, ORIG_FRICTION_FACTOR)
  else
    fold_left
      (fun '(friction, movefactor) m =>
         let sec := sectors w (m_sector (node w m)) in
         if tst (sec_special sec) FRICTION_MASK
            && (bool_decide (sec_friction sec < friction)
                || bool_decide (friction = ORIG_FRICTION))
            && (bool_decide (mo_z (mobjs w mo) <= sec_floorheight sec)
                || match sec_heightsec sec with
                   | Some hs => bool_decide (mo_z (mobjs w mo) <= sec_floorheight (sectors w hs))
                   | None => false
                   end)
         then (sec_friction sec, sec_movefactor sec)
         else (friction, movefactor))
      (tthread w (mo_touching_sectorlist (mobjs w mo)))
      (ORIG_FRICTION, ORIG_FRICTION_FACTOR).

Definition P_IsInLiquid (thing : mobj_id) (w : world) : bool :=
  if negb (tst (mo_flags (mobjs w thing)) MF_SHOOTABLE)
  then bool_decide (sec_terraintype (sectors w (subsector_sector (mo_subsector (mobjs w thing))))
                    <> SOLID)
  else
    forallb (fun seclist => bool_decide (sec_terraintype (sectors w (m_sector (node w seclist)))
                                         <> SOLID))
      (tthread w (mo_touching_sectorlist (mobjs w thing))).

(** The tail shared by P_TeleportMove and P_TryMove: clip or unclip the feet. *)
Definition update_feetclip (thing : mobj_id) (w : world) : world :=
  if tst (mo_flags2 (mobjs w thing)) MF2_FOOTCLIP && P_IsInLiquid thing w
  then upd_mobj thing (fun mo => set_mo_flags2 (Z.lor (mo_flags2 mo) MF2_FEETARECLIPPED) mo) w
  else upd_mobj thing
         (fun mo => set_mo_flags2 (Z.land (mo_flags2 mo) (Z.lnot MF2_FEETARECLIPPED)) mo) w.

(** The set-up shared word for word by P_TeleportMove and P_CheckPosition:
    the bounding box of the destination. *)
Definition box_around (x y radius : Z) : bbox_t :=
  {| BOXTOP := add32 y radius; BOXBOTTOM := sub32 y radius;
     BOXLEFT := sub32 x radius; BOXRIGHT := add32 x radius |}.

(** P_TeleportMove up to the walk over the blockmap. *)
Definition stomp_setup (thing : mobj_id) (x y z : Z) (boss : bool) (w : world) : world :=
  let radius := mo_radius (mobjs w thing) in
  let w := upd_tm (set_telefrag
                     (bool_decide (is_Some (mo_player (mobjs w thing))) || boss
                      || (bool_decide (gamemap (cv w) = 30) && telefragonmap30 (cv w)))) w in
  (* kill anything occupying the position *)
  let w := upd_tm (set_tmthing (Some thing)) w in
  let w := upd_tm (set_tmx x) w in
  let w := upd_tm (set_tmy y) w in
  let w := upd_tm (set_tmz z) w in
  let w := upd_tm (set_tmbbox (box_around x y radius)) w in
  let newsec := sectors w (subsector_sector (R_PointInSubsector x y)) in
  let w := upd_tm (set_ceilingline None) w in
  let w := upd_tm (set_tmdropoffz (sec_floorheight newsec)) w in
  let w := upd_tm (set_tmfloorz (sec_floorheight newsec)) w in
  let w := upd_tm (set_tmceilingz (sec_ceilingheight newsec)) w in
  let w := set_validcount (add32 (validcount w) 1) w in
  upd_tm (set_numspechit 0) w.

(** stomp on any things contacted *)
Definition stomp_things (w : world) : bool * world :=
  let xl := P_GetSafeBlockX (sub32 (sub32 (BOXLEFT (tmbbox (tm w))) bmaporgx) MAXRADIUS) in
  let xh := P_GetSafeBlockX (add32 (sub32 (BOXRIGHT (tmbbox (tm w))) bmaporgx) MAXRADIUS) in
  let yl := P_GetSafeBlockY (sub32 (sub32 (BOXBOTTOM (tmbbox (tm w))) bmaporgy) MAXRADIUS) in
  let yh := P_GetSafeBlockY (add32 (sub32 (BOXTOP (tmbbox (tm w))) bmaporgy) MAXRADIUS) in
  for_each_block xl xh yl yh (fun bx by_ => P_BlockThingsIterator bx by_ PIT_StompThing) w.

(** the move is ok, so link the thing into its new position *)
Definition teleport_commit (thing : mobj_id) (x y : Z) (w : world) : world :=
  let w := P_UnsetThingPosition thing w in
  let w := upd_mobj thing (set_mo_floorz (tmfloorz (tm w))) w in
  let w := upd_mobj thing (set_mo_ceilingz (tmceilingz (tm w))) w in
  let w := upd_mobj thing (set_mo_dropoffz (tmdropoffz (tm w))) w in  (* killough 11/98 *)
  let w := upd_mobj thing (set_mo_x x) w in
  let w := upd_mobj thing (set_mo_y y) w in
  (* [AM] Don't interpolate mobjs that pass through teleporters *)
  let w := upd_mobj thing (set_mo_interpolate 0) w in
  let w := P_SetThingPosition thing w in
  update_feetclip thing w.

Definition P_TeleportMove (thing : mobj_id) (x y z : Z) (boss : bool) (w : world)
  : bool * world :=
  let w := stomp_setup thing x y z boss w in
  let '(ok, w) := stomp_things w in
  if negb ok then (false, w) else (true, teleport_commit thing x y w).

(** ** MOVEMENT ITERATOR FUNCTIONS *)

(** killough 8/1/98: used to test intersection between thing and line
    assuming NO movement occurs -- used to avoid sticky situations. *)
Definition untouched (ld : line_id) (w : world) : bool :=
  let mover := mobjs w (deref (tmthing (tm w))) in
  let tmradius := mo_radius mover in
  let x := mo_x mover in
  let y := mo_y mover in
  let bbox := {| BOXTOP := add32 y tmradius; BOXBOTTOM := sub32 y tmradius;
                 BOXLEFT := sub32 x tmradius; BOXRIGHT := add32 x tmradius |} in
  bool_decide (add32 x tmradius <= BOXLEFT (ld_bbox (lines ld)))
  || bool_decide (BOXRIGHT (ld_bbox (lines ld)) <= sub32 x tmradius)
  || bool_decide (add32 y tmradius <= BOXBOTTOM (ld_bbox (lines ld)))
  || bool_decide (BOXTOP (ld_bbox (lines ld)) <= sub32 y tmradius)
  || bool_decide (P_BoxOnLineSide bbox ld <> -1).

(** [I_Realloc] (i_system.c) resizes the array to [n] cells; what the new
    cells hold is not specified, here 0.  A failed allocation ends the
    process in [I_Error] and is not part of the model. *)
Definition I_Realloc (arr : list line_id) (n : Z) : list line_id :=
  take (Z.to_nat n) arr ++ replicate (Z.to_nat n - length arr) 0%nat.

(** The last block of PIT_CheckLine: 1/11/98 killough: remove limit on
    lines hit, by array doubling. *)
Definition spechit_push (ld : line_id) (w : world) : world :=
  let w :=
    if decide (spechit_max (tm w) <= numspechit (tm w)) then
      let new_max := if decide (spechit_max (tm w) <> 0) then mul32 (spechit_max (tm w)) 2
                     else 8 in
      let w := upd_tm (set_spechit_max new_max) w in
      upd_tm (set_spechit (I_Realloc (spechit (tm w)) new_max)) w
    else w in
  let w := upd_tm (set_spechit (<[Z.to_nat (numspechit (tm w)) := ld]> (spechit (tm w)))) w in
  upd_tm (set_numspechit (add32 (numspechit (tm w)) 1)) w.

(** PIT_CheckLine: adjusts tmfloorz and tmceilingz as lines are contacted. *)
Definition PIT_CheckLine (ld : line_id) (w : world) : bool * world :=
  let l := lines ld in
  let mover := mobjs w (deref (tmthing (tm w))) in
  if decide (BOXRIGHT (tmbbox (tm w)) <= BOXLEFT (ld_bbox l)
             \/ BOXRIGHT (ld_bbox l) <= BOXLEFT (tmbbox (tm w))
             \/ BOXTOP (tmbbox (tm w)) <= BOXBOTTOM (ld_bbox l)
             \/ BOXTOP (ld_bbox l) <= BOXBOTTOM (tmbbox (tm w)))
  then (true, w)                                          (* didn't hit it *)
  else if decide (P_BoxOnLineSide (tmbbox (tm w)) ld <> -1)
  then (true, w)                                          (* didn't hit it *)
  else
    (* A line has been hit *)
    match ld_backsector l with
    | None =>                                             (* one sided line *)
        let w := upd_tm (set_blockline (Some ld)) w in
        (tmunstuck (tm w) && negb (untouched ld w)
         && bool_decide (FixedMul (sub32 (tmy (tm w)) (mo_y mover)) (ld_dx l)
                         < FixedMul (sub32 (tmx (tm w)) (mo_x mover)) (ld_dy l)), w)
    | Some _ =>
        if negb (tst (mo_flags mover) MF_MISSILE) && tst (ld_flags l) ML_BLOCKING
        then (tmunstuck (tm w) && negb (untouched ld w), w)   (* explicitly blocking everything *)
        else if negb (tst (mo_flags mover) MF_MISSILE)
                && negb (bool_decide (is_Some (mo_player mover)))
                && negb (tst (mo_flags mover) MF_CORPSE)
                && negb (tst (mo_flags mover) MF_FRIEND)
                && tst (ld_flags l) ML_BLOCKMONSTERS
        then (false, w)                                       (* block monsters only *)
        else
          (* set openrange, opentop, openbottom *)
          let o := P_LineOpening (sectors w) ld in
          (* adjust floor/ceiling heights *)
          let w :=
            if decide (opentop o < tmceilingz (tm w)) then
              let w := upd_tm (set_tmceilingz (opentop o)) w in
              let w := upd_tm (set_ceilingline (Some ld)) w in
              upd_tm (set_blockline (Some ld)) w
            else w in
          let w :=
            if decide (tmfloorz (tm w) < openbottom o) then
              let w := upd_tm (set_tmfloorz (openbottom o)) w in
              let w := upd_tm (set_floorline (Some ld)) w in
              upd_tm (set_blockline (Some ld)) w
            else w in
          let w :=
            if decide (lowfloor o < tmdropoffz (tm w))
            then upd_tm (set_tmdropoffz (lowfloor o)) w else w in
          (* if contacted a special line, add it to the list *)
          let w := if decide (ld_special l <> 0) then spechit_push ld w else w in
          (true, w)
    end.

(** The first block of PIT_CheckThing: [BH] apply small amount of momentum
    to a corpse when a monster walks over it. *)
Definition nudge_corpse (thing : mobj_id) (w : world) : world :=
  let mover := mobjs w (deref (tmthing (tm w))) in
  let t := mobjs w thing in
  if tst (mo_flags t) MF_CORPSE && tst (mo_flags mover) MF_SHOOTABLE
     && bool_decide (mo_type t <> MT_BARREL) && bool_decide (mo_nudge t = 0)
     && bool_decide (mo_z t = mo_z mover) && r_corpses_nudge (cv w)
     && bool_decide (P_ApproxDistance (sub32 (mo_x t) (mo_x mover)) (sub32 (mo_y t) (mo_y mover))
                     < 16 * FRACUNIT)
  then
    let r := M_RandomInt (prndindex w) (-1) 1 in
    let w := set_prndindex (S (prndindex w)) w in
    let w := upd_mobj thing (fun mo => set_mo_momx (add32 (mo_momx mo) (mul32 FRACUNIT r)) mo) w in
    let r2 := M_RandomIntNoRepeat (prndindex w) (-1) 1 (if decide (r = 0) then 0 else 2) in
    let w := set_prndindex (S (prndindex w)) w in
    let w := upd_mobj thing (fun mo => set_mo_momy (add32 (mo_momy mo) (mul32 FRACUNIT r2)) mo) w in
    let w := upd_mobj thing (set_mo_nudge TICRATE) w in
    if negb (tst (mo_flags2 (mobjs w thing)) MF2_FEETARECLIPPED) then
      let w := upd_mobj thing (fun mo => set_mo_momx (div32 (mo_momx mo) 2) mo) w in
      upd_mobj thing (fun mo => set_mo_momy (div32 (mo_momy mo) 2) mo) w
    else w
  else w.

(** [viewplayer->shotshit++; stat_shotshit = SafeAdd(stat_shotshit, 1);] *)
Definition count_shot_hit (w : world) : world :=
  let w := upd_player (viewplayer w) (fun p => set_pl_shotshit (add32 (pl_shotshit p) 1) p) w in
  set_stat_shotshit (SafeAdd (stat_shotshit w) 1) w.

(** [((M_Random() & 7) + 1) * tmthing->info->damage] *)
Definition random_damage (w : world) : Z * world :=
  let mover := mobjs w (deref (tmthing (tm w))) in
  (mul32 (add32 (Z.land (M_Random (prndindex w)) 7) 1) (mi_damage (mo_info mover)),
   set_prndindex (S (prndindex w)) w).

Definition PIT_CheckThing (thing : mobj_id) (w : world) : bool * world :=
  let tmthing_ := deref (tmthing (tm w)) in
  (* don't clip against self *)
  if decide (tmthing (tm w) = Some thing) then (true, w)
  else
  let flags := mo_flags (mobjs w thing) in
  let tmflags := mo_flags (mobjs w tmthing_) in
  let corpse := tst flags MF_CORPSE in
  let type := mo_type (mobjs w thing) in
  let w := nudge_corpse thing w in
  let t := mobjs w thing in
  let mover := mobjs w tmthing_ in
  if negb (tst flags (Z.lor (Z.lor MF_SOLID MF_SPECIAL) MF_SHOOTABLE)) then (true, w)
  else
  (* [BH] specify standard radius of 20 for pickups here *)
  let blockdist := add32 (mi_pickupradius (mo_info t)) (mo_radius mover) in
  if decide (blockdist <= ABS (sub32 (mo_x t) (tmx (tm w)))
             \/ blockdist <= ABS (sub32 (mo_y t) (tmy (tm w))))
  then (true, w)                                          (* didn't hit it *)
  else
  (* [BH] check if things are stuck and allow move if it makes them further apart *)
  let unblocking :=
    if negb (bool_decide (is_Some (mo_player t))) && negb corpse then
      if decide (tmx (tm w) = mo_x mover /\ tmy (tm w) = mo_y mover) then true
      else if decide (P_ApproxDistance (sub32 (mo_x t) (mo_x mover)) (sub32 (mo_y t) (mo_y mover))
                      < P_ApproxDistance (sub32 (mo_x t) (tmx (tm w))) (sub32 (mo_y t) (tmy (tm w))))
      then bool_decide (mo_z mover < add32 (mo_z t) (mo_height t))
           && bool_decide (mo_z t < add32 (mo_z mover) (mo_height mover))
      else false
    else false in
  (* check if a mobj passed over/under another object *)
  if tst (mo_flags2 mover) MF2_PASSMOBJ && negb (infiniteheight (cv w))
     && negb (tst flags MF_SPECIAL)
     && (bool_decide (add32 (mo_z t) (mo_height t) <= mo_z mover)             (* over thing *)
         || bool_decide (add32 (mo_z mover) (mo_height mover) <= mo_z t))     (* under thing *)
  then (true, w)
  (* check for skulls slamming into things *)
  else if tst tmflags MF_SKULLFLY && (tst flags MF_SOLID || infiniteheight (cv w)) then
    let '(damage, w) := random_damage w in
    let w := emit (P_DamageMobj thing (Some tmthing_) (Some tmthing_) damage true) w in
    let w := upd_mobj tmthing_
               (fun mo => set_mo_flags (Z.land (mo_flags mo) (Z.lnot MF_SKULLFLY)) mo) w in
    let w := upd_mobj tmthing_ (set_mo_momx 0) w in
    let w := upd_mobj tmthing_ (set_mo_momy 0) w in
    let w := upd_mobj tmthing_ (set_mo_momz 0) w in
    let w := emit (P_SetMobjState tmthing_ (mi_spawnstate (mo_info (mobjs w tmthing_)))) w in
    (false, w)                                            (* stop moving *)
  (* missiles can hit other things *)
  else if tst tmflags MF_MISSILE then
    let height :=
      if decide (mi_projectilepassheight (mo_info t) = 0 \/ infiniteheight (cv w) = true)
      then mo_height t else mi_projectilepassheight (mo_info t) in
    (* see if it went over/under *)
    if decide (add32 (mo_z t) height < mo_z mover) then (true, w)             (* overhead *)
    else if decide (add32 (mo_z mover) (mo_height mover) < mo_z t) then (true, w) (* underneath *)
    else
    let same_species :=
      match mo_target mover with
      | Some target =>
          let ttype := mo_type (mobjs w target) in
          bool_decide (ttype = type)
          || (bool_decide (ttype = MT_KNIGHT) && bool_decide (type = MT_BRUISER))
          || (bool_decide (ttype = MT_BRUISER) && bool_decide (type = MT_KNIGHT))
      | None => false
      end in
    (* Don't hit same species as originator. *)
    if same_species && bool_decide (mo_target mover = Some thing) then (true, w)
    else if same_species && bool_decide (type <> MT_PLAYER) && negb (infight (cv w))
            && negb (species_infighting (cv w))
    then (false, w)                                       (* Explode, but do no damage. *)
    (* killough 8/10/98: if moving thing is not a missile, no damage is
       inflicted, and momentum is reduced if object hit is solid. *)
    else if negb (tst tmflags MF_MISSILE) then
      if negb (tst flags MF_SOLID) then (true, w)
      else
        let w := upd_mobj tmthing_ (fun mo => set_mo_momx (neg32 (mo_momx mo)) mo) w in
        let w := upd_mobj tmthing_ (fun mo => set_mo_momy (neg32 (mo_momy mo)) mo) w in
        let w :=
          if negb (tst tmflags MF_NOGRAVITY) then
            let w := upd_mobj tmthing_ (fun mo => set_mo_momx (shr32 (mo_momx mo) 2) mo) w in
            upd_mobj tmthing_ (fun mo => set_mo_momy (shr32 (mo_momy mo) 2) mo) w
          else w in
        (false, w)
    else if negb (tst flags MF_SHOOTABLE)
    then (negb (tst flags MF_SOLID), w)                   (* didn't do any damage *)
    else
      (* damage/explode *)
      let '(damage, w) := random_damage w in
      let w := emit (P_DamageMobj thing (Some tmthing_) (mo_target (mobjs w tmthing_)) damage true) w in
      let w :=
        if decide (mo_type (mobjs w thing) <> MT_BARREL) then
          if decide (mo_type (mobjs w tmthing_) = MT_PLASMA) then count_shot_hit w
          else if decide (mo_type (mobjs w tmthing_) = MT_ROCKET) then
            let w := if decide (mo_nudge (mobjs w tmthing_) = 1) then count_shot_hit w else w in
            upd_mobj tmthing_ (fun mo => set_mo_nudge (add32 (mo_nudge mo) 1) mo) w
          else w
        else w in
      (false, w)                                          (* don't traverse anymore *)
  (* check for special pickup *)
  else if tst flags MF_SPECIAL then
    let w := if tst tmflags MF_PICKUP
             then emit (P_TouchSpecialThing thing tmthing_ true true) w  (* can remove thing *)
             else w in
    (negb (tst flags MF_SOLID), w)
  (* [BH] don't hit if either thing is a corpse *)
  else if negb (tst (mo_flags2 t) MF2_RESURRECTING) && (corpse || tst tmflags MF_CORPSE)
          && bool_decide (type <> MT_BARREL)
  then (true, w)
  (* RjY: a solid hanging body will allow sufficiently small things underneath it *)
  else if bool_decide (Z.land (Z.lnot flags) (Z.lor MF_SOLID MF_SPAWNCEILING) = 0)
          && bool_decide (add32 (mo_z mover) (mo_height mover) <= mo_z t)
  then (true, upd_tm (set_tmceilingz (mo_z t)) w)  (* pretend ceiling height is at body's base *)
  (* killough 3/16/98, 4/11/98 *)
  else (negb (tst flags MF_SOLID && negb (tst flags MF_NOCLIP) && negb (freeze (cv w))
              && tst tmflags MF_SOLID)
        || unblocking, w).

(** ** MOVEMENT CLIPPING *)

(** P_CheckPosition, first part: the scratch variables are set from the
    thing and the position to be checked. *)
Definition check_setup (thing : mobj_id) (x y : Z) (w : world) : world :=
  let radius := mo_radius (mobjs w thing) in
  let w := upd_tm (set_tmthing (Some thing)) w in
  let w := upd_tm (set_tmx x) w in
  let w := upd_tm (set_tmy y) w in
  let w := upd_tm (set_tmbbox (box_around x y radius)) w in
  let newsec := sectors w (subsector_sector (R_PointInSubsector x y)) in
  let w := upd_tm (set_floorline None) w in              (* killough 8/1/98 *)
  let w := upd_tm (set_blockline None) w in
  let w := upd_tm (set_ceilingline None) w in
  (* Whether object can get out of a sticky situation: only players, not voodoo dolls *)
  let w := upd_tm (set_tmunstuck
                     match mo_player (mobjs w thing) with
                     | Some p => bool_decide (pl_mo (players w p) = thing)
                     | None => false
                     end) w in
  (* the base floor/ceiling is from the subsector that contains the point *)
  let w := upd_tm (set_tmdropoffz (sec_floorheight newsec)) w in
  let w := upd_tm (set_tmfloorz (sec_floorheight newsec)) w in
  let w := upd_tm (set_tmceilingz (sec_ceilingheight newsec)) w in
  let w := set_validcount (add32 (validcount w) 1) w in
  upd_tm (set_numspechit 0) w.

(** Check things first, possibly picking things up.  The bounding box is
    extended by MAXRADIUS because mobj_ts are grouped into mapblocks based
    on their origin point. *)
Definition check_things (w : world) : bool * world :=
  let xl := P_GetSafeBlockX (sub32 (sub32 (BOXLEFT (tmbbox (tm w))) bmaporgx) MAXRADIUS) in
  let xh := P_GetSafeBlockX (add32 (sub32 (BOXRIGHT (tmbbox (tm w))) bmaporgx) MAXRADIUS) in
  let yl := P_GetSafeBlockY (sub32 (sub32 (BOXBOTTOM (tmbbox (tm w))) bmaporgy) MAXRADIUS) in
  let yh := P_GetSafeBlockY (add32 (sub32 (BOXTOP (tmbbox (tm w))) bmaporgy) MAXRADIUS) in
  for_each_block xl xh yl yh (fun bx by_ => P_BlockThingsIterator bx by_ PIT_CheckThing) w.

(** check lines *)
Definition check_lines (thing : mobj_id) (x y : Z) (w : world) : bool * world :=
  let w :=
    if negb (tst (mo_flags (mobjs w thing)) MF_DROPPED)
       && (bool_decide (mo_x (mobjs w thing) <> x) || bool_decide (mo_y (mobjs w thing) <> y))
    then upd_tm (set_tmbbox (box_around x y (mi_pickupradius (mo_info (mobjs w thing))))) w
    else w in
  let xl := P_GetSafeBlockX (sub32 (BOXLEFT (tmbbox (tm w))) bmaporgx) in
  let xh := P_GetSafeBlockX (sub32 (BOXRIGHT (tmbbox (tm w))) bmaporgx) in
  let yl := P_GetSafeBlockY (sub32 (BOXBOTTOM (tmbbox (tm w))) bmaporgy) in
  let yh := P_GetSafeBlockY (sub32 (BOXTOP (tmbbox (tm w))) bmaporgy) in
  for_each_block xl xh yl yh (fun bx by_ => P_BlockLinesIterator bx by_ PIT_CheckLine) w.

(** P_CheckPosition: this is purely informative, nothing is modified
    (except things picked up). *)
Definition P_CheckPosition (thing : mobj_id) (x y : Z) (w : world) : bool * world :=
  let w := check_setup thing x y w in
  if tst (mo_flags (mobjs w thing)) MF_NOCLIP || freeze (cv w) then (true, w)
  else
    let '(ok, w) := check_things w in
    if negb ok then (false, w) else check_lines thing x y w.

(** [return (tmunstuck && !(ceilingline && untouched(ceilingline))
                       && !(floorline && untouched(floorline)));] *)
Definition unstuck_escape (w : world) : bool :=
  tmunstuck (tm w)
  && negb (match ceilingline (tm w) with Some ld => untouched ld w | None => false end)
  && negb (match floorline (tm w) with Some ld => untouched ld w | None => false end).

(** [while (numspechit--)] of P_TryMove, entered with [numspechit = n]:
    the entries are visited from the last to the first. *)
Fixpoint cross_specials (n : nat) (thing : mobj_id) (oldx oldy : Z) (w : world) : world :=
  match n with
  | O => upd_tm (set_numspechit (-1)) w
  | S k =>
      let w := upd_tm (set_numspechit (Z.of_nat k)) w in
      (* see if the line was crossed *)
      let ld := spechit (tm w) !!! k in
      let oldside := P_PointOnLineSide oldx oldy ld in
      let w :=
        if decide (oldside <> P_PointOnLineSide (mo_x (mobjs w thing)) (mo_y (mobjs w thing)) ld
                   /\ ld_special (lines ld) <> 0)
        then emit (P_CrossSpecialLine ld oldside thing) w
        else w in
      cross_specials k thing oldx oldy w
  end.

(** [thing->floorz = tmfloorz; thing->ceilingz = tmceilingz;
     thing->dropoffz = tmdropoffz; thing->x = x; thing->y = y;] *)
Definition place_thing (thing : mobj_id) (x y : Z) (w : world) : world :=
  let w := upd_mobj thing (set_mo_floorz (tmfloorz (tm w))) w in
  let w := upd_mobj thing (set_mo_ceilingz (tmceilingz (tm w))) w in
  let w := upd_mobj thing (set_mo_dropoffz (tmdropoffz (tm w))) w in  (* killough 11/98 *)
  let w := upd_mobj thing (set_mo_x x) w in
  upd_mobj thing (set_mo_y y) w.

(** The travel statistics of the player's own body. *)
Definition count_distance (thing : mobj_id) (x y oldx oldy : Z) (w : world) : world :=
  match mo_player (mobjs w thing) with
  | Some p =>
      if decide (pl_mo (players w p) = thing) then
        let dist := hypot (shr32 (sub32 x oldx) FRACBITS) (shr32 (sub32 y oldy) FRACBITS) in
        if decide (dist <> 0) then
          let w := set_stat_distancetraveled (SafeAdd (stat_distancetraveled w) dist) w in
          upd_player p
            (fun pl => set_pl_distancetraveled (add32 (pl_distancetraveled pl) dist) pl) w
        else w
      else w
  | None => w
  end.

(** if any special lines were hit, do the effect *)
Definition fire_specials (thing : mobj_id) (oldx oldy : Z) (w : world) : world :=
  if negb (tst (mo_flags (mobjs w thing)) (Z.lor MF_TELEPORT MF_NOCLIP)) && negb (freeze (cv w))
  then cross_specials (Z.to_nat (numspechit (tm w))) thing oldx oldy w
  else w.

(** P_TryMove from "the move is ok, so link the thing into its new
    position" to the end. *)
Definition commit_move (thing : mobj_id) (x y : Z) (w : world) : world :=
  let w := P_UnsetThingPosition thing w in
  let oldx := mo_x (mobjs w thing) in
  let oldy := mo_y (mobjs w thing) in
  let w := place_thing thing x y w in
  let w := P_SetThingPosition thing w in
  let w := count_distance thing x y oldx oldy w in
  (* [BH] check if new sector is liquid and clip/unclip feet as necessary *)
  let w := update_feetclip thing w in
  fire_specials thing oldx oldy w.

(** P_TryMove: attempt to move to a new position, crossing special lines
    unless MF_TELEPORT is set. *)
Definition P_TryMove (thing : mobj_id) (x y : Z) (dropoff : bool) (w : world)
  : bool * world :=
  let w := upd_tm (set_felldown false) w in              (* killough 11/98 *)
  let w := upd_tm (set_floatok false) w in
  let '(ok, w) := P_CheckPosition thing x y w in
  if negb ok then (false, w)                             (* solid wall or thing *)
  else
    let flags := mo_flags (mobjs w thing) in
    let mo := mobjs w thing in
    if negb (tst flags MF_NOCLIP) && negb (freeze (cv w)) then
      (* killough 8/1/98: Possibly allow escape if otherwise stuck *)
      if decide (sub32 (tmceilingz (tm w)) (tmfloorz (tm w)) < mo_height mo)  (* doesn't fit *)
      then (unstuck_escape w, w)
      else
        let w := upd_tm (set_floatok true) w in
        if (negb (tst flags MF_TELEPORT)                  (* mobj must lower to fit *)
            && bool_decide (sub32 (tmceilingz (tm w)) (mo_z mo) < mo_height mo))
           || (negb (tst flags MF_TELEPORT)               (* too big a step up *)
               && bool_decide (24 * FRACUNIT < sub32 (tmfloorz (tm w)) (mo_z mo)))
        then (unstuck_escape w, w)
        else if negb (tst flags (Z.lor MF_DROPOFF MF_FLOAT)) && negb dropoff
                && (bool_decide (24 * FRACUNIT < sub32 (mo_floorz mo) (tmfloorz (tm w)))
                    || bool_decide (24 * FRACUNIT < sub32 (mo_dropoffz mo) (tmdropoffz (tm w))))
        then (false, w)
        else
          let w :=
            if negb (tst flags (Z.lor MF_DROPOFF MF_FLOAT)) && dropoff then
              (* dropoff allowed -- check for whether it fell more than 24 *)
              upd_tm (set_felldown
                        (negb (tst flags MF_NOGRAVITY)
                         && bool_decide (24 * FRACUNIT < sub32 (mo_z mo) (tmfloorz (tm w))))) w
            else w in
          (* killough 11/98: prevent falling objects from going up too many steps *)
          if tst (mo_flags2 mo) MF2_FALLING
             && bool_decide (add32 (FixedMul (mo_momx mo) (mo_momx mo))
                                   (FixedMul (mo_momy mo) (mo_momy mo))
                             < sub32 (tmfloorz (tm w)) (mo_z mo))
          then (false, w)
          else (true, commit_move thing x y w)
    else (true, commit_move thing x y w).

(** ** SLIDE MOVE *)

(** P_HitSlideLine: adjusts the xmove/ymove so that the next move will
    slide along the wall. *)
Definition oof (w : world) : world :=
  let mo := slidemo (slide w) in
  if bool_decide (is_Some (mo_player (mobjs w (deref mo))))
     && bool_decide (0 < mo_health (mobjs w (deref mo)))
  then emit (S_StartSound (deref mo) sfx_oof) w else w.

Definition P_HitSlideLine (ld : line_id) (w : world) : world :=
  let mo := mobjs w (deref (slidemo (slide w))) in
  let l := lines ld in
  (* killough 10/98: only bounce if hit hard (prevents wobbling) *)
  let icyfloor :=
    bool_decide (4 * FRACUNIT < P_ApproxDistance (tmxmove (slide w)) (tmymove (slide w)))
    && bool_decide (mo_z mo <= mo_floorz mo)
    && bool_decide (ORIG_FRICTION < fst (P_GetFriction (deref (slidemo (slide w))) w)) in
  if decide (ld_slopetype l = ST_HORIZONTAL) then
    if icyfloor && bool_decide (ABS (tmxmove (slide w)) < ABS (tmymove (slide w))) then
      let w := oof w in                                   (* oooff! *)
      let w := upd_slide (set_tmxmove (div32 (tmxmove (slide w)) 2)) w in
      upd_slide (set_tmymove (div32 (neg32 (tmymove (slide w))) 2)) w
    else upd_slide (set_tmymove 0) w                      (* no more movement in the Y direction *)
  else if decide (ld_slopetype l = ST_VERTICAL) then
    if icyfloor && bool_decide (ABS (tmymove (slide w)) < ABS (tmxmove (slide w))) then
      let w := oof w in                                   (* oooff! *)
      let w := upd_slide (set_tmxmove (div32 (neg32 (tmxmove (slide w))) 2)) w in
      upd_slide (set_tmymove (div32 (tmymove (slide w)) 2)) w
    else upd_slide (set_tmxmove 0) w                      (* no more movement in the X direction *)
  else
    let side := P_PointOnLineSide (mo_x mo) (mo_y mo) ld in
    let lineangle := R_PointToAngle2 0 0 (ld_dx l) (ld_dy l) in
    let lineangle := if decide (side = 1) then wrapu32 (lineangle + ANG180) else lineangle in
    let moveangle := R_PointToAngle2 0 0 (tmxmove (slide w)) (tmymove (slide w)) in
    let moveangle := wrapu32 (moveangle + 10) in  (* prevents sudden path reversal *)
    let deltaangle := wrapu32 (moveangle - lineangle) in
    let movelen := P_ApproxDistance (tmxmove (slide w)) (tmymove (slide w)) in
    if icyfloor && bool_decide (ANG45 < deltaangle)
       && bool_decide (deltaangle < wrapu32 (ANG90 + ANG45)) then
      let moveangle := Z.shiftr (wrapu32 (lineangle - deltaangle)) ANGLETOFINESHIFT in
      let movelen := div32 movelen 2 in                   (* absorb *)
      let w := upd_slide (set_tmxmove (FixedMul movelen (finecosine moveangle))) w in
      let w := upd_slide (set_tmymove (FixedMul movelen (finesine moveangle))) w in
      oof w                                               (* oooff! *)
    else
      let deltaangle :=
        if decide (ANG180 < deltaangle) then wrapu32 (deltaangle + ANG180) else deltaangle in
      let lineangle := Z.shiftr lineangle ANGLETOFINESHIFT in
      let deltaangle := Z.shiftr deltaangle ANGLETOFINESHIFT in
      let newlen := FixedMul movelen (finecosine deltaangle) in
      let w := upd_slide (set_tmxmove (FixedMul newlen (finecosine lineangle))) w in
      upd_slide (set_tmymove (FixedMul newlen (finesine lineangle))) w.

Definition PTR_SlideTraverse (i : intercept_t) (w : world) : bool * world :=
  let li := in_line i in
  let mo := mobjs w (deref (slidemo (slide w))) in
  let o := P_LineOpening (sectors w) li in
  let isblocking (w : world) : bool * world :=
    (* the line does block movement, see if it is closer than best so far *)
    (false,
     if decide (in_frac i < bestslidefrac (slide w)) then
       let w := upd_slide (set_bestslidefrac (in_frac i)) w in
       upd_slide (set_bestslideline (Some li)) w
     else w) in
  if negb (tst (ld_flags (lines li)) ML_TWOSIDED) then
    if decide (P_PointOnLineSide (mo_x mo) (mo_y mo) li <> 0)
    then (true, w)                                        (* don't hit the back side *)
    else isblocking w
  else if decide (openrange o < mo_height mo) then isblocking w        (* doesn't fit *)
  else if decide (sub32 (opentop o) (mo_z mo) < mo_height mo)
  then isblocking w                                                    (* mobj is too high *)
  else if decide (24 * FRACUNIT < sub32 (openbottom o) (mo_z mo))
  then isblocking w                                                    (* too big a step up *)
  else (true, w).                                         (* this line doesn't block movement *)

(** The label [stairstep] of P_SlideMove. *)
Definition stairstep (mo : mobj_id) (w : world) : world :=
  (* killough 3/15/98: Allow objects to drop off ledges *)
  let '(ok, w) :=
    P_TryMove mo (mo_x (mobjs w mo)) (add32 (mo_y (mobjs w mo)) (mo_momy (mobjs w mo))) true w in
  if ok then w
  else snd (P_TryMove mo (add32 (mo_x (mobjs w mo)) (mo_momx (mobjs w mo)))
              (mo_y (mobjs w mo)) true w).

(** trace along the three leading corners *)
Definition slide_trace (mo : mobj_id) (radius : Z) (w : world) : world :=
  let x := mo_x (mobjs w mo) in
  let y := mo_y (mobjs w mo) in
  let momx := mo_momx (mobjs w mo) in
  let momy := mo_momy (mobjs w mo) in
  let '(leadx, trailx) :=
    if decide (0 < momx) then (add32 x radius, sub32 x radius)
    else (sub32 x radius, add32 x radius) in
  let '(leady, traily) :=
    if decide (0 < momy) then (add32 y radius, sub32 y radius)
    else (sub32 y radius, add32 y radius) in
  let w := upd_slide (set_bestslidefrac (FRACUNIT + 1)) w in
  let w := snd (P_PathTraverse leadx leady (add32 leadx momx) (add32 leady momy)
                  PTR_SlideTraverse w) in
  let w := snd (P_PathTraverse trailx leady (add32 trailx momx) (add32 leady momy)
                  PTR_SlideTraverse w) in
  snd (P_PathTraverse leadx traily (add32 leadx momx) (add32 traily momy)
         PTR_SlideTraverse w).

(** Now continue along the wall: the remaining move is clipped against the
    line that was hit and becomes the momentum. *)
Definition slide_redirect (mo : mobj_id) (w : world) : world :=
  let w := upd_slide (set_tmxmove
                        (FixedMul (mo_momx (mobjs w mo)) (bestslidefrac (slide w)))) w in
  let w := upd_slide (set_tmymove
                        (FixedMul (mo_momy (mobjs w mo)) (bestslidefrac (slide w)))) w in
  let w := P_HitSlideLine (deref (bestslideline (slide w))) w in  (* clip the moves *)
  let w := upd_mobj mo (set_mo_momx (tmxmove (slide w))) w in
  let w := upd_mobj mo (set_mo_momy (tmymove (slide w))) w in
  (* killough 10/98: affect the bobbing the same way (but not voodoo dolls) *)
  match mo_player (mobjs w mo) with
  | Some p =>
      if decide (pl_mo (players w p) = mo) then
        let w :=
          if decide (ABS (tmxmove (slide w)) < ABS (pl_momx (players w p)))
          then upd_player p (set_pl_momx (tmxmove (slide w))) w else w in
        if decide (ABS (tmymove (slide w)) < ABS (pl_momy (players w p)))
        then upd_player p (set_pl_momy (tmymove (slide w))) w else w
      else w
  | None => w
  end.

(** One pass through the body of the [do ... while] of P_SlideMove, entered
    with the given [hitcount]; [again hitcount w] stands for the next pass,
    taken when the P_TryMove of the loop condition fails. *)
Definition slide_pass (again : Z -> world -> option world) (mo : mobj_id) (radius : Z)
  (hitcount : Z) (w : world) : option world :=
  let hitcount := sub32 hitcount 1 in
  if decide (hitcount = 0) then Some (stairstep mo w)    (* don't loop forever *)
  else
    let w := slide_trace mo radius w in
    (* move up to the wall *)
    if decide (bestslidefrac (slide w) = FRACUNIT + 1)
    then Some (stairstep mo w)       (* the move must have hit the middle, so stairstep *)
    else
      (* fudge a bit to make sure it doesn't hit *)
      let w := upd_slide (set_bestslidefrac (sub32 (bestslidefrac (slide w)) 2048)) w in
      let '(moved, w) :=
        if decide (0 < bestslidefrac (slide w)) then
          let newx := FixedMul (mo_momx (mobjs w mo)) (bestslidefrac (slide w)) in
          let newy := FixedMul (mo_momy (mobjs w mo)) (bestslidefrac (slide w)) in
          P_TryMove mo (add32 (mo_x (mobjs w mo)) newx) (add32 (mo_y (mobjs w mo)) newy)
            true w
        else (true, w) in
      if negb moved then Some (stairstep mo w)
      else
        (* Now continue along the wall.  First calculate remainder. *)
        let w := upd_slide (set_bestslidefrac
                              (sub32 FRACUNIT (add32 (bestslidefrac (slide w)) 2048))) w in
        let slide_along (w : world) : option world :=
          let w := slide_redirect mo w in
          let '(ok, w) :=
            P_TryMove mo (add32 (mo_x (mobjs w mo)) (tmxmove (slide w)))
              (add32 (mo_y (mobjs w mo)) (tmymove (slide w))) true w in
          if ok then Some w else again hitcount w in
        if decide (FRACUNIT < bestslidefrac (slide w))
        then slide_along (upd_slide (set_bestslidefrac FRACUNIT) w)
        else if decide (bestslidefrac (slide w) <= 0) then Some w
        else slide_along w.

(** The [do ... while] of P_SlideMove.  One unit of [fuel] is one pass
    through the body; [None] says the passes allowed did not suffice. *)
Fixpoint P_SlideMove_loop (fuel : nat) (mo : mobj_id) (radius : Z) (hitcount : Z)
  (w : world) : option world :=
  match fuel with
  | O => None
  | S fuel' => slide_pass (P_SlideMove_loop fuel' mo radius) mo radius hitcount w
  end.

(** P_SlideMove: the momx/momy move is bad, so try to slide along a wall. *)
Definition P_SlideMove (fuel : nat) (mo : mobj_id) (w : world) : option world :=
  let radius := mo_radius (mobjs w mo) in
  let w := upd_slide (set_slidemo (Some mo)) w in        (* the object that's sliding *)
  P_SlideMove_loop fuel mo radius 3 w.

(** ** RADIUS ATTACK *)

(** PIT_RadiusAttack: "bombsource" is the creature that caused the
    explosion at "bombspot". *)
Definition PIT_RadiusAttack (thing : mobj_id) (w : world) : bool * world :=
  let t := mobjs w thing in
  let spot := deref (bombspot (bomb w)) in
  let bombdamage_ := bombdamage (bomb w) in
  if negb (tst (mo_flags t) MF_SHOOTABLE)
     (* [BH] allow corpses to react to blast damage *)
     && negb (tst (mo_flags t) MF_CORPSE)
  then (true, w)
  else
  let type := mo_type t in
  if decide (type = MT_CYBORG \/ type = MT_SPIDER) then (true, w)
  else
  let dist := sub32 (MAX (ABS (sub32 (mo_x t) (mo_x (mobjs w spot))))
                         (ABS (sub32 (mo_y t) (mo_y (mobjs w spot)))))
                    (mo_radius t) in
  let in_range : option Z :=
    if negb (bombverticality (bomb w)) || infiniteheight (cv w)
       || bool_decide (type = MT_BOSSBRAIN)
    then
      (* [BH] if killing boss in DOOM II MAP30, use old code that
         doesn't use z height in blast radius *)
      let dist := MAX 0 (shr32 dist FRACBITS) in
      if decide (bombdamage_ <= dist) then None          (* out of range *)
      else Some dist
    else
      let dz := ABS (sub32 (add32 (mo_z t) (shr32 (mo_height t) 1)) (mo_z (mobjs w spot))) in
      let dist := MAX 0 (shr32 (MAX dist dz) FRACBITS) in
      if decide (bombdamage_ <= dist) then None          (* out of range *)
      (* [BH] check z height for blast damage *)
      else if decide ((mo_z (mobjs w spot) < mo_floorz t /\ mo_ceilingz (mobjs w spot) < mo_z t)
                      \/ (mo_ceilingz t < mo_z (mobjs w spot)
                          /\ mo_z t < mo_floorz (mobjs w spot)))
      then None
      else Some dist in
  match in_range with
  | None => (true, w)
  | Some dist =>
      if P_CheckSight w thing spot then
        (* must be in direct path *)
        let w := emit (P_DamageMobj thing (Some spot) (bombsource (bomb w))
                         (sub32 bombdamage_ dist) true) w in
        (* [BH] count number of times player's rockets hit a monster *)
        let w :=
          if bool_decide (mo_type (mobjs w spot) = MT_ROCKET) && bool_decide (type <> MT_BARREL)
             && negb (tst (mo_flags (mobjs w thing)) MF_CORPSE)
          then
            let w := if decide (mo_nudge (mobjs w spot) = 1) then count_shot_hit w else w in
            upd_mobj spot (fun mo => set_mo_nudge (add32 (mo_nudge mo) 1) mo) w
          else w in
        (true, w)
      else (true, w)
  end.

(** [for (y = yl; y <= yh; y++) for (x = xl; x <= xh; x++)
       P_BlockThingsIterator(x, y, PIT_RadiusAttack);] *)
Definition radius_scan (xl xh yl yh : Z) (w : world) : world :=
  fold_left
    (fun w y => fold_left (fun w x => snd (P_BlockThingsIterator x y PIT_RadiusAttack w))
                  (int_range xl xh) w)
    (int_range yl yh) w.

(** P_RadiusAttack: source is the creature that caused the explosion at spot. *)
Definition P_RadiusAttack (spot : mobj_id) (source : option mobj_id) (damage : Z)
  (verticality : bool) (w : world) : world :=
  let dist := shl32 (add32 damage MAXRADIUS) FRACBITS in
  let xh := P_GetSafeBlockX (sub32 (add32 (mo_x (mobjs w spot)) dist) bmaporgx) in
  let xl := P_GetSafeBlockX (sub32 (sub32 (mo_x (mobjs w spot)) dist) bmaporgx) in
  let yh := P_GetSafeBlockY (sub32 (add32 (mo_y (mobjs w spot)) dist) bmaporgy) in
  let yl := P_GetSafeBlockY (sub32 (sub32 (mo_y (mobjs w spot)) dist) bmaporgy) in
  let w := upd_bomb (set_bombspot (Some spot)) w in
  let w := upd_bomb (set_bombsource source) w in
  let w := upd_bomb (set_bombdamage damage) w in
  let w := upd_bomb (set_bombverticality verticality) w in
  radius_scan xl xh yl yh w.

(** ** SECTOR NODES

    phares 3/21/98: maintain a freelist of msecnode_t's to reduce memory
    allocs and frees. *)

Definition P_FreeSecNodeList (w : world) : world := upd_mem (set_headsecnode None) w.

(** P_GetSecnode retrieves a node from the freelist, or has Z_Malloc make
    one: the nodes handed out so far are [0 .. numsecnodes - 1], the new
    one is [numsecnodes]. *)
Definition P_GetSecnode (w : world) : node_id * world :=
  match headsecnode (mem w) with
  | Some n => (n, upd_mem (set_headsecnode (m_snext (node w n))) w)
  | None => (numsecnodes (mem w), upd_mem (set_numsecnodes (S (numsecnodes (mem w)))) w)
  end.

(** P_PutSecnode returns a node to the freelist. *)
Definition P_PutSecnode (n : node_id) (w : world) : world :=
  let w := upd_node n (set_m_snext (headsecnode (mem w))) w in
  upd_mem (set_headsecnode (Some n)) w.

(** P_AddSecnode searches the current list to see if this sector is already
    there.  If not, it adds a sector node at the head of the list of sectors
    this object appears in.  Returns the new head of the list. *)
Definition P_AddSecnode (s : sector_id) (thing : mobj_id) (nextnode : option node_id)
  (w : world) : option node_id * world :=
  match find (fun n => bool_decide (m_sector (node w n) = s)) (tthread w nextnode) with
  | Some n =>
      (* Already have a node for this sector: setting m_thing says 'keep it'. *)
      (nextnode, upd_node n (set_m_thing (Some thing)) w)
  | None =>
      (* Couldn't find an existing node for this sector.  Add one at the head of the list. *)
      let '(n, w) := P_GetSecnode w in
      let w := upd_node n (set_m_sector s) w in           (* sector *)
      let w := upd_node n (set_m_thing (Some thing)) w in (* mobj *)
      let w := upd_node n (set_m_tprev None) w in         (* prev node on Thing thread *)
      let w := upd_node n (set_m_tnext nextnode) w in     (* next node on Thing thread *)
      let w := match nextnode with
               | Some nn => upd_node nn (set_m_tprev (Some n)) w  (* set back link on Thing *)
               | None => w
               end in
      (* Add new node at head of sector thread starting at s->touching_thinglist *)
      let w := upd_node n (set_m_sprev None) w in
      let w := upd_node n (set_m_snext (sec_touching_thinglist (sectors w s))) w in
      let w := match sec_touching_thinglist (sectors w s), m_snext (node w n) with
               | Some _, Some sn => upd_node sn (set_m_sprev (Some n)) w
               | _, _ => w
               end in
      let w := upd_sector s (set_sec_touching_thinglist (Some n)) w in
      (Some n, w)
  end.

(** P_DelSecnode deletes a sector node from the list of sectors this object
    appears in.  Returns the next node on the thing thread. *)
Definition P_DelSecnode (n : node_id) (w : world) : option node_id * world :=
  let tp := m_tprev (node w n) in                         (* prev node on thing thread *)
  let tn := m_tnext (node w n) in                         (* next node on thing thread *)
  (* Unlink from the Thing thread. *)
  let w := match tp with Some p => upd_node p (set_m_tnext tn) w | None => w end in
  let w := match tn with Some q => upd_node q (set_m_tprev tp) w | None => w end in
  (* Unlink from the sector thread. *)
  let sp := m_sprev (node w n) in
  let sn := m_snext (node w n) in
  let w := match sp with
           | Some p => upd_node p (set_m_snext sn) w
           | None => upd_sector (m_sector (node w n)) (set_sec_touching_thinglist sn) w
           end in
  let w := match sn with Some q => upd_node q (set_m_sprev sp) w | None => w end in
  (* Return this node to the freelist *)
  let w := P_PutSecnode n w in
  (tn, w).

(** Delete an entire sector list: [while (node) node = P_DelSecnode(node);] *)
Fixpoint P_DelSeclist_loop (fuel : nat) (p : option node_id) (w : world) : world :=
  match fuel, p with
  | S fuel', Some n => let '(next, w) := P_DelSecnode n w in P_DelSeclist_loop fuel' next w
  | _, _ => w
  end.

Definition P_DelSeclist (p : option node_id) (w : world) : world :=
  P_DelSeclist_loop (numsecnodes (mem w)) p w.

(** PIT_GetSectors locates all the sectors the object is in by looking at
    the lines that cross through it. *)
Definition PIT_GetSectors (ld : line_id) (w : world) : bool * world :=
  let l := lines ld in
  if decide (BOXRIGHT (tmbbox (tm w)) <= BOXLEFT (ld_bbox l)
             \/ BOXRIGHT (ld_bbox l) <= BOXLEFT (tmbbox (tm w))
             \/ BOXTOP (tmbbox (tm w)) <= BOXBOTTOM (ld_bbox l)
             \/ BOXTOP (ld_bbox l) <= BOXBOTTOM (tmbbox (tm w)))
  then (true, w)
  else if decide (P_BoxOnLineSide (tmbbox (tm w)) ld <> -1) then (true, w)
  else
    (* This line crosses through the object. *)
    let '(head, w) :=
      P_AddSecnode (ld_frontsector l) (deref (tmthing (tm w))) (sector_list (mem w)) w in
    let w := upd_mem (set_sector_list head) w in
    (* killough 8/1/98: avoid duplicate if same sector on both sides *)
    match ld_backsector l with
    | Some back =>
        if decide (back <> ld_frontsector l) then
          let '(head, w) := P_AddSecnode back (deref (tmthing (tm w))) (sector_list (mem w)) w in
          (true, upd_mem (set_sector_list head) w)
        else (true, w)
    | None => (true, w)
    end.

(** The last loop of P_CreateSecNodeList: delete any nodes that won't be
    used.  These are the ones where m_thing is still NULL. *)
Fixpoint delete_unused (fuel : nat) (p : option node_id) (w : world) : world :=
  match fuel, p with
  | S fuel', Some n =>
      if decide (m_thing (node w n) = None) then
        let w := if decide (sector_list (mem w) = Some n)
                 then upd_mem (set_sector_list (m_tnext (node w n))) w else w in
        let '(next, w) := P_DelSecnode n w in
        delete_unused fuel' next w
      else delete_unused fuel' (m_tnext (node w n)) w
  | _, _ => w
  end.

(** The parts of P_CreateSecNodeList, in order.  First, clear out the
    existing m_thing fields. *)
Definition clear_marks (w : world) : world :=
  fold_left (fun w n => upd_node n (set_m_thing None) w)
    (tthread w (sector_list (mem w))) w.

Definition rebuild_setup (thing : mobj_id) (x y radius : Z) (w : world) : world :=
  let w := upd_tm (set_tmthing (Some thing)) w in
  let w := upd_tm (set_tmx x) w in
  let w := upd_tm (set_tmy y) w in
  let w := upd_tm (set_tmbbox (box_around x y radius)) w in
  set_validcount (add32 (validcount w) 1) w.  (* process a line only once *)

Definition scan_lines (w : world) : world :=
  let xl := P_GetSafeBlockX (sub32 (BOXLEFT (tmbbox (tm w))) bmaporgx) in
  let xh := P_GetSafeBlockX (sub32 (BOXRIGHT (tmbbox (tm w))) bmaporgx) in
  let yl := P_GetSafeBlockY (sub32 (BOXBOTTOM (tmbbox (tm w))) bmaporgy) in
  let yh := P_GetSafeBlockY (sub32 (BOXTOP (tmbbox (tm w))) bmaporgy) in
  fold_left
    (fun w bx => fold_left
                   (fun w by_ => snd (P_BlockLinesIterator bx by_ PIT_GetSectors w))
                   (int_range yl yh) w)
    (int_range xl xh) w.

(** Add the sector of the (x,y) point to sector_list. *)
Definition add_own_sector (thing : mobj_id) (w : world) : world :=
  let '(head, w) := P_AddSecnode (subsector_sector (mo_subsector (mobjs w thing))) thing
                      (sector_list (mem w)) w in
  upd_mem (set_sector_list head) w.

(** cph - we restore the previous value of tmthing, tmx, tmy *)
Definition restore_trial (saved_tmthing : option mobj_id) (saved_tmx saved_tmy : Z)
  (w : world) : world :=
  let w := upd_tm (set_tmthing saved_tmthing) w in
  let w := upd_tm (set_tmx saved_tmx) w in
  let w := upd_tm (set_tmy saved_tmy) w in
  match tmthing (tm w) with
  | Some t => upd_tm (set_tmbbox (box_around (tmx (tm w)) (tmy (tm w)) (mo_radius (mobjs w t)))) w
  | None => w
  end.

(** P_CreateSecNodeList alters/creates the sector_list that shows what
    sectors the object resides in. *)
Definition P_CreateSecNodeList (thing : mobj_id) (x y : Z) (w : world) : world :=
  let saved_tmthing := tmthing (tm w) in
  let saved_tmx := tmx (tm w) in
  let saved_tmy := tmy (tm w) in
  let radius := mi_pickupradius (mo_info (mobjs w thing)) in
  let w := clear_marks w in
  let w := rebuild_setup thing x y radius w in
  let w := scan_lines w in
  let w := add_own_sector thing w in
  (* Now delete any nodes that won't be used. *)
  let w := delete_unused (numsecnodes (mem w)) (sector_list (mem w)) w in
  restore_trial saved_tmthing saved_tmx saved_tmy w.

Definition P_MapEnd (w : world) : world := upd_tm (set_tmthing None) w.

End P_MAP.

(** ** A concrete engine and level

    The usual values of the header constants, the textbook bodies of the
    helpers, and a small level: sector 0 (floor 0) west of the line
    x = 32, sector 1 (floor 24) between x = 32 and x = 160, sector 2
    (floor 49) east of x = 160; every ceiling is at 128.  Coordinates are
    in map units scaled by 2^16. *)

Definition fx (units : Z) : Z := units * 65536.

Definition demo_line (x : Z) (front back : sector_id) (special : Z) : line_t :=
  {| ld_v1x := fx x; ld_v1y := fx (-128); ld_dx := 0; ld_dy := fx 256;
     ld_flags := 4; ld_special := special;
     ld_bbox := {| BOXTOP := fx 128; BOXBOTTOM := fx (-128); BOXLEFT := fx x; BOXRIGHT := fx x |};
     ld_slopetype := ST_VERTICAL; ld_frontsector := front; ld_backsector := Some back |}.

Definition demo_lines (ld : line_id) : line_t :=
  match ld with
  | O => demo_line 32 1%nat 0%nat 0
  | _ => demo_line 160 2%nat 1%nat 97
  end.

Definition demo_FixedMul (a b : Z) : Z := wrap32 (Z.shiftr (a * b) 16).

Definition demo_PointOnLineSide (x y : Z) (ld : line_id) : Z :=
  let l := demo_lines ld in
  if decide (ld_dx l = 0) then
    if decide (x <= ld_v1x l) then (if decide (0 < ld_dy l) then 1 else 0)
    else (if decide (ld_dy l < 0) then 1 else 0)
  else if decide (ld_dy l = 0) then
    if decide (y <= ld_v1y l) then (if decide (ld_dx l < 0) then 1 else 0)
    else (if decide (0 < ld_dx l) then 1 else 0)
  else if decide (demo_FixedMul (Z.shiftr (ld_dy l) 16) (sub32 x (ld_v1x l))
                  <= demo_FixedMul (sub32 y (ld_v1y l)) (Z.shiftr (ld_dx l) 16))
  then 1 else 0.

Definition demo_BoxOnLineSide (box : bbox_t) (ld : line_id) : Z :=
  let l := demo_lines ld in
  let flip (c : bool) (p : Z) : Z := if c then Z.lxor p 1 else p in
  let '(p1, p2) :=
    match ld_slopetype l with
    | ST_HORIZONTAL =>
        let p1 := if decide (ld_v1y l < BOXTOP box) then 1 else 0 in
        let p2 := if decide (ld_v1y l < BOXBOTTOM box) then 1 else 0 in
        (flip (bool_decide (ld_dx l < 0)) p1, flip (bool_decide (ld_dx l < 0)) p2)
    | ST_VERTICAL =>
        let p1 := if decide (BOXRIGHT box < ld_v1x l) then 1 else 0 in
        let p2 := if decide (BOXLEFT box < ld_v1x l) then 1 else 0 in
        (flip (bool_decide (ld_dy l < 0)) p1, flip (bool_decide (ld_dy l < 0)) p2)
    | ST_POSITIVE =>
        (demo_PointOnLineSide (BOXLEFT box) (BOXTOP box) ld,
         demo_PointOnLineSide (BOXRIGHT box) (BOXBOTTOM box) ld)
    | ST_NEGATIVE =>
        (demo_PointOnLineSide (BOXRIGHT box) (BOXTOP box) ld,
         demo_PointOnLineSide (BOXLEFT box) (BOXBOTTOM box) ld)
    end in
  if decide (p1 = p2) then p1 else -1.

Definition demo_LineOpening (secs : sector_id -> sector_t) (ld : line_id) : opening_t :=
  let l := demo_lines ld in
  match ld_backsector l with
  | None => {| opentop := 0; openbottom := 0; openrange := 0; lowfloor := 0 |}
  | Some b =>
      let front := secs (ld_frontsector l) in
      let back := secs b in
      let top := MIN (sec_ceilingheight front) (sec_ceilingheight back) in
      let bottom := MAX (sec_floorheight front) (sec_floorheight back) in
      {| opentop := top; openbottom := bottom; openrange := sub32 top bottom;
         lowfloor := MIN (sec_floorheight front) (sec_floorheight back) |}
  end.

Definition demo_ApproxDistance (dx dy : Z) : Z :=
  let dx := ABS dx in
  let dy := ABS dy in
  if decide (dx < dy) then sub32 (add32 dx dy) (Z.shiftr dx 1)
  else sub32 (add32 dx dy) (Z.shiftr dy 1).

(** A linker that only records the subsector of the new position. *)
Definition demo_PointInSubsector (x y : Z) : subsector_id :=
  if decide (x < fx 32) then 0%nat else if decide (x < fx 160) then 1%nat else 2%nat.

Definition demo_SetThingPosition (thing : mobj_id) (w : world) : world :=
  upd_mobj thing
    (fun mo => set_mo_subsector (demo_PointInSubsector (mo_x mo) (mo_y mo)) mo) w.

Definition demo_engine : engine :=
  {| FRACBITS := 16; MAXRADIUS := fx 32; TICRATE := 35;
     ORIG_FRICTION := 59392; ORIG_FRICTION_FACTOR := 2048; FRICTION_MASK := 256;
     ANG45 := 536870912; ANG90 := 1073741824; ANG180 := 2147483648;
     ANGLETOFINESHIFT := 19; finesine := fun _ => 0; finecosine := fun _ => 65536;
     MF_SPECIAL := 1; MF_SOLID := 2; MF_SHOOTABLE := 4; MF_SPAWNCEILING := 256;
     MF_NOGRAVITY := 512; MF_DROPOFF := 1024; MF_PICKUP := 2048; MF_NOCLIP := 4096;
     MF_FLOAT := 16384; MF_TELEPORT := 32768; MF_MISSILE := 65536; MF_DROPPED := 131072;
     MF_CORPSE := 1048576; MF_SKULLFLY := 16777216; MF_FRIEND := 268435456;
     MF2_PASSMOBJ := 8; MF2_FOOTCLIP := 64; MF2_FEETARECLIPPED := 256;
     MF2_FALLING := 2; MF2_RESURRECTING := 16;
     ML_BLOCKING := 1; ML_BLOCKMONSTERS := 2; ML_TWOSIDED := 4;
     lines := demo_lines; subsector_sector := fun ss => ss;
     bmaporgx := fx (-256); bmaporgy := fx (-256); bmapwidth := 5; bmapheight := 4;
     blockmap := fun x y => if decide (x = 2) then [0%nat]
                            else if decide (x = 3) then [1%nat] else [];
     FixedMul := demo_FixedMul;
     SafeAdd := fun a b => a + b;
     hypot := fun a b => Z.sqrt (a * a + b * b);
     M_Random := fun _ => 0; M_RandomInt := fun _ lo _ => lo;
     M_RandomIntNoRepeat := fun _ lo _ _ => lo;
     R_PointInSubsector := demo_PointInSubsector;
     R_PointToAngle2 := fun _ _ _ _ => 0;
     P_ApproxDistance := demo_ApproxDistance;
     P_PointOnLineSide := demo_PointOnLineSide;
     P_BoxOnLineSide := demo_BoxOnLineSide;
     P_LineOpening := demo_LineOpening;
     P_GetSafeBlockX := fun c => Z.shiftr c 23;
     P_GetSafeBlockY := fun c => Z.shiftr c 23;
     P_CheckSight := fun _ _ _ => true;
     path_intercepts := fun _ _ _ _ _ => [];
     P_UnsetThingPosition := fun _ w => w;
     P_SetThingPosition := demo_SetThingPosition |}.

Definition demo_info : mobjinfo_t :=
  {| mi_pickupradius := fx 20; mi_projectilepassheight := 0; mi_damage := 3; mi_spawnstate := 0 |}.

(** A map object of radius 20 and height 56 standing at (x, 0, z). *)
Definition demo_mobj (x z flags : Z) (player : option player_id) : mobj_t :=
  {| mo_x := fx x; mo_y := 0; mo_z := fx z; mo_radius := fx 20; mo_height := fx 56;
     mo_momx := 0; mo_momy := 0; mo_momz := 0; mo_flags := flags; mo_flags2 := 0;
     mo_floorz := fx z; mo_ceilingz := fx 128; mo_dropoffz := fx z; mo_type := MT_MISC 0;
     mo_info := demo_info; mo_player := player; mo_target := None; mo_nudge := 0;
     mo_health := 100; mo_interpolate := 0;
     mo_subsector := demo_PointInSubsector (fx x) 0; mo_touching_sectorlist := None |}.

Definition demo_sector (floor : Z) : sector_t :=
  {| sec_floorheight := fx floor; sec_ceilingheight := fx 128; sec_special := 0;
     sec_friction := 59392; sec_movefactor := 2048; sec_heightsec := None;
     sec_terraintype := SOLID; sec_touching_thinglist := None |}.

Definition blank_node : msecnode_t :=
  {| m_sector := 0%nat; m_thing := None; m_tprev := None; m_tnext := None;
     m_sprev := None; m_snext := None; visited := false |}.

(** The level with the given map objects, all listed in every blockmap cell
    given by [links], and nothing else in flight. *)
Definition demo_world (things : mobj_id -> mobj_t) (links : Z -> Z -> list mobj_id) : world :=
  {| mobjs := things;
     players := fun _ => {| pl_mo := 1%nat; pl_momx := 0; pl_momy := 0;
                            pl_distancetraveled := 0; pl_shotshit := 0 |};
     sectors := fun s => match s with
                         | O => demo_sector 0
                         | S O => demo_sector 24
                         | _ => demo_sector 49
                         end;
     mem := {| nodes := fun _ => blank_node; headsecnode := None; numsecnodes := 0;
               sector_list := None |};
     tm := {| tmthing := None; tmx := 0; tmy := 0; tmz := 0;
              tmbbox := {| BOXTOP := 0; BOXBOTTOM := 0; BOXLEFT := 0; BOXRIGHT := 0 |};
              tmfloorz := 0; tmceilingz := 0; tmdropoffz := 0;
              ceilingline := None; blockline := None; floorline := None;
              tmunstuck := false; spechit := []; numspechit := 0; spechit_max := 0;
              floatok := false; felldown := false; telefrag := false; onmobj := None |};
     slide := {| bestslidefrac := 0; bestslideline := None; slidemo := None;
                 tmxmove := 0; tmymove := 0 |};
     bomb := {| bombsource := None; bombspot := None; bombdamage := 0;
                bombverticality := false |};
     cv := {| infiniteheight := false; freeze := false; r_corpses_nudge := true;
              r_liquid_bob := true; infight := false; species_infighting := false;
              telefragonmap30 := false; gamemap := 1 |};
     validcount := 0; line_validcount := fun _ => 0; blocklinks := links;
     events := []; prndindex := 0;
     stat_distancetraveled := 0; stat_shotshit := 0; viewplayer := 0%nat |}.

(** A monster at x = 0 on the floor of sector 0. *)
Definition monster_world : world :=
  demo_world (fun _ => demo_mobj 0 0 6 None) (fun _ _ => []).

(** The player's own body at x = 120 on the floor of sector 1. *)
Definition player_world : world :=
  demo_world (fun _ => demo_mobj 120 24 6 (Some 0%nat)) (fun _ _ => []).

(** * Properties *)

(** ** Machine integers *)

Definition fits32 (z : Z) : Prop := - 2 ^ 31 <= z < 2 ^ 31.

Lemma wrap32_fits (z : Z) : fits32 z -> wrap32 z = z.
Proof.
  unfold fits32, wrap32. intros H.
  rewrite Z.mod_small by lia. lia.
Qed.

Lemma wrap32_range (z : Z) : fits32 (wrap32 z).
Proof.
  unfold fits32, wrap32.
  pose proof (Z.mod_pos_bound (z + 2 ^ 31) (2 ^ 32) ltac:(lia)). lia.
Qed.

Lemma sub32_fits (a b : Z) : fits32 (a - b) -> sub32 a b = a - b.
Proof. apply wrap32_fits. Qed.

Lemma add32_fits (a b : Z) : fits32 (a + b) -> add32 a b = a + b.
Proof. apply wrap32_fits. Qed.

(** ** Iteration *)

Section ITERATE.
Context {A : Type}.
Implicit Types (func : A -> world -> bool * world) (l : list A) (w : world).

Lemma iterate_app func l1 l2 w :
  iterate func (l1 ++ l2) w =
  if fst (iterate func l1 w) then iterate func l2 (snd (iterate func l1 w))
  else iterate func l1 w.
Proof.
  revert w. induction l1 as [|a l1 IH]; intros w; simpl; [done|].
  destruct (func a w) as [[] w']; simpl; [apply IH|done].
Qed.

(** A relation between the worlds before and after that every call of the
    callback respects holds across the whole iteration. *)
Lemma iterate_rel (R : world -> world -> Prop) func l w :
  (forall w, R w w) ->
  (forall w1 w2 w3, R w1 w2 -> R w2 w3 -> R w1 w3) ->
  (forall a w, a ∈ l -> R w (snd (func a w))) ->
  R w (snd (iterate func l w)).
Proof.
  intros Hrefl Htrans. revert w.
  induction l as [|a l IH]; intros w Hstep; simpl; [apply Hrefl|].
  pose proof (Hstep a w ltac:(left)) as Ha.
  destruct (func a w) as [[] w']; simpl in *; [|done].
  eapply Htrans; [exact Ha|]. apply IH. intros b w0 Hb. apply Hstep. by right.
Qed.

(** If the iteration ran to its end, every call returned true; a property
    kept by the calls that return true is kept by the iteration. *)
Lemma iterate_true (P : world -> Prop) func l w :
  (forall a w, a ∈ l -> P w -> fst (func a w) = true -> P (snd (func a w))) ->
  P w -> fst (iterate func l w) = true -> P (snd (iterate func l w)).
Proof.
  revert w. induction l as [|a l IH]; intros w Hstep HP Hok; simpl in *; [done|].
  pose proof (Hstep a w ltac:(left) HP) as Ha.
  destruct (func a w) as [[] w']; simpl in *; [|done].
  apply IH; [|by apply Ha|done]. intros b w0 Hb. apply Hstep. by right.
Qed.

Lemma iterate_all_true func l w :
  (forall a w, fst (func a w) = true) -> fst (iterate func l w) = true.
Proof.
  intros H. revert w. induction l as [|a l IH]; intros w; simpl; [done|].
  specialize (H a w). destruct (func a w) as [[] w']; simpl in *; [apply IH|done].
Qed.

End ITERATE.

Lemma for_each_block_rel `{E : engine} (R : world -> world -> Prop) xl xh yl yh body w :
  (forall w, R w w) ->
  (forall w1 w2 w3, R w1 w2 -> R w2 w3 -> R w1 w3) ->
  (forall bx by_ w, R w (snd (body bx by_ w))) ->
  R w (snd (for_each_block xl xh yl yh body w)).
Proof.
  intros Hrefl Htrans Hbody. unfold for_each_block.
  apply iterate_rel; [done..|]. intros bx w0 _.
  apply iterate_rel; [done..|]. intros by_ w1 _. apply Hbody.
Qed.

Lemma for_each_block_true `{E : engine} (P : world -> Prop) xl xh yl yh body w :
  (forall bx by_ w, P w -> fst (body bx by_ w) = true -> P (snd (body bx by_ w))) ->
  P w -> fst (for_each_block xl xh yl yh body w) = true ->
  P (snd (for_each_block xl xh yl yh body w)).
Proof.
  intros Hbody. unfold for_each_block.
  apply iterate_true. intros bx w0 _ HP.
  apply iterate_true; [|done]. intros by_ w1 _. apply Hbody.
Qed.

(** ** What a validation leaves alone *)

(** A map object without the fields a validation may write: momentum,
    flags and the nudge counter. *)
Definition place_of (mo : mobj_t) : mobj_t :=
  set_mo_momx 0 (set_mo_momy 0 (set_mo_momz 0 (set_mo_flags 0 (set_mo_nudge 0 mo)))).

Lemma place_of_fields (a b : mobj_t) :
  place_of a = place_of b ->
  mo_x a = mo_x b /\ mo_y a = mo_y b /\ mo_z a = mo_z b
  /\ mo_radius a = mo_radius b /\ mo_height a = mo_height b
  /\ mo_floorz a = mo_floorz b /\ mo_ceilingz a = mo_ceilingz b
  /\ mo_dropoffz a = mo_dropoffz b /\ mo_flags2 a = mo_flags2 b
  /\ mo_player a = mo_player b
  /\ mo_subsector a = mo_subsector b
  /\ mo_touching_sectorlist a = mo_touching_sectorlist b.
Proof.
  intros H. split_and!;
    [exact (f_equal mo_x H)|exact (f_equal mo_y H)|exact (f_equal mo_z H)
    |exact (f_equal mo_radius H)|exact (f_equal mo_height H)
    |exact (f_equal mo_floorz H)|exact (f_equal mo_ceilingz H)
    |exact (f_equal mo_dropoffz H)|exact (f_equal mo_flags2 H)
    |exact (f_equal mo_player H)|exact (f_equal mo_subsector H)
    |exact (f_equal mo_touching_sectorlist H)].
Qed.

(** The line triggers among the recorded calls. *)
Definition crossings (evs : list event) : list (line_id * Z * mobj_id) :=
  omap (fun e => match e with
                 | P_CrossSpecialLine ld side t => Some (ld, side, t)
                 | _ => None
                 end) evs.

(** The part of the world that P_CheckPosition and its callbacks do not
    write: the node store, the sectors, where every map object is and how
    it is linked, and the line triggers fired so far. *)
Record validation_frame (w w' : world) : Prop := {
  vf_mem : mem w' = mem w;
  vf_sectors : sectors w' = sectors w;
  vf_cv : cv w' = cv w;
  vf_blocklinks : blocklinks w' = blocklinks w;
  vf_slide : slide w' = slide w;
  vf_bomb : bomb w' = bomb w;
  vf_places : forall m, place_of (mobjs w' m) = place_of (mobjs w m);
  vf_pl_mo : forall p, pl_mo (players w' p) = pl_mo (players w p);
  vf_crossings : crossings (events w') = crossings (events w)
}.

(** The scratch variables that identify the trial: they are set before the
    blockmap is walked and the callbacks only read them. *)
Record same_trial (w w' : world) : Prop := {
  st_tmthing : tmthing (tm w') = tmthing (tm w);
  st_tmx : tmx (tm w') = tmx (tm w);
  st_tmy : tmy (tm w') = tmy (tm w);
  st_tmz : tmz (tm w') = tmz (tm w);
  st_tmbbox : tmbbox (tm w') = tmbbox (tm w);
  st_tmunstuck : tmunstuck (tm w') = tmunstuck (tm w);
  st_telefrag : telefrag (tm w') = telefrag (tm w);
  st_floatok : floatok (tm w') = floatok (tm w);
  st_felldown : felldown (tm w') = felldown (tm w)
}.

#[global] Instance validation_frame_preorder : PreOrder validation_frame.
Proof.
  split.
  - intros w. by split.
  - intros w1 w2 w3 [] []. split; intros; etrans; eauto.
Qed.

#[global] Instance same_trial_preorder : PreOrder same_trial.
Proof.
  split.
  - intros w. by split.
  - intros w1 w2 w3 [] []. split; intros; etrans; eauto.
Qed.

Lemma vf_upd_mobj p f w :
  (forall mo, place_of (f mo) = place_of mo) -> validation_frame w (upd_mobj p f w).
Proof.
  intros Hf. split; try done. intros m. simpl.
  unfold insert, fn_insert. case_decide; [subst; apply Hf|done].
Qed.

Lemma vf_upd_player p f w :
  (forall pl, pl_mo (f pl) = pl_mo pl) -> validation_frame w (upd_player p f w).
Proof.
  intros Hf. split; try done. intros q. simpl.
  unfold insert, fn_insert. case_decide; [subst; apply Hf|done].
Qed.

Lemma crossings_snoc evs e :
  crossings (evs ++ [e]) =
  crossings evs ++ match e with
                   | P_CrossSpecialLine ld side t => [(ld, side, t)]
                   | _ => []
                   end.
Proof. unfold crossings. rewrite omap_app. by destruct e. Qed.

Lemma vf_emit e w :
  match e with P_CrossSpecialLine _ _ _ => False | _ => True end ->
  validation_frame w (emit e w).
Proof.
  intros He. split; try done. simpl. rewrite crossings_snoc.
  destruct e; try done; by rewrite app_nil_r.
Qed.

(** The record of one map object is the same in both worlds. *)
Definition same_mobj (m : mobj_id) (w w' : world) : Prop := mobjs w' m = mobjs w m.

#[global] Instance same_mobj_preorder m : PreOrder (same_mobj m).
Proof. split; [done|]. intros w1 w2 w3. unfold same_mobj. congruence. Qed.

Lemma same_mobj_upd_mobj m p f w : p <> m -> same_mobj m w (upd_mobj p f w).
Proof. intros. unfold same_mobj. simpl. by rewrite fn_lookup_insert_ne. Qed.

Create HintDb frame.
#[global] Hint Extern 1 (same_mobj _ _ (upd_mobj _ _ _)) =>
  apply same_mobj_upd_mobj; congruence : frame.
#[global] Hint Extern 5 (same_mobj _ _ _) => reflexivity : frame.
#[global] Hint Extern 1 (validation_frame _ (upd_mobj _ _ _)) =>
  apply vf_upd_mobj; intros; reflexivity : frame.
#[global] Hint Extern 1 (validation_frame _ (upd_player _ _ _)) =>
  apply vf_upd_player; intros; reflexivity : frame.
#[global] Hint Extern 1 (validation_frame _ (emit _ _)) =>
  apply vf_emit; exact I : frame.
#[global] Hint Extern 5 (validation_frame _ _) => split; reflexivity : frame.
#[global] Hint Extern 5 (same_trial _ _) => split; reflexivity : frame.

(** Follow a function body down to its return points, peeling the state
    updates off the right-hand world one at a time. *)
Ltac frame_step :=
  lazymatch goal with
  | |- _ ?w ?w => reflexivity
  | |- _ _ (snd (_, _)) => cbn [snd]
  | |- _ _ (snd (if ?c then _ else _)) => destruct c
  | |- _ _ (snd (match ?c with _ => _ end)) => destruct c
  | |- _ _ (if ?c then _ else _) => destruct c
  | |- _ _ (match ?c with _ => _ end) => destruct c
  | |- _ ?w (?f ?w') =>
      transitivity w';
      [|generalize w'; intro;
        lazymatch goal with |- ?G => exact (ltac:(solve [eauto with frame]) : G) end]
  end.

Ltac frame := cbv zeta; repeat frame_step.

Section VALIDATION.
Context {E : engine}.

Lemma vf_count_shot_hit w : validation_frame w (count_shot_hit w).
Proof. unfold count_shot_hit. frame. Qed.

Lemma vf_nudge_corpse thing w : validation_frame w (nudge_corpse thing w).
Proof. unfold nudge_corpse. frame. Qed.

Lemma vf_spechit_push ld w : validation_frame w (spechit_push ld w).
Proof. unfold spechit_push. frame. Qed.

Lemma st_count_shot_hit w : same_trial w (count_shot_hit w).
Proof. unfold count_shot_hit. frame. Qed.

Lemma st_nudge_corpse thing w : same_trial w (nudge_corpse thing w).
Proof. unfold nudge_corpse. frame. Qed.

Lemma st_spechit_push ld w : same_trial w (spechit_push ld w).
Proof. unfold spechit_push. frame. Qed.

Hint Resolve vf_count_shot_hit vf_nudge_corpse vf_spechit_push
  st_count_shot_hit st_nudge_corpse st_spechit_push : frame.

Lemma vf_PIT_CheckThing thing w : validation_frame w (snd (PIT_CheckThing thing w)).
Proof. unfold PIT_CheckThing, random_damage. frame. Qed.

Lemma st_PIT_CheckThing thing w : same_trial w (snd (PIT_CheckThing thing w)).
Proof. unfold PIT_CheckThing, random_damage. frame. Qed.

Lemma vf_PIT_CheckLine ld w : validation_frame w (snd (PIT_CheckLine ld w)).
Proof. unfold PIT_CheckLine. frame. Qed.

Lemma st_PIT_CheckLine ld w : same_trial w (snd (PIT_CheckLine ld w)).
Proof. unfold PIT_CheckLine. frame. Qed.

Lemma vf_PIT_StompThing thing w : validation_frame w (snd (PIT_StompThing thing w)).
Proof. unfold PIT_StompThing. frame. Qed.

Lemma frame_P_BlockThingsIterator (R : relation world) `{!PreOrder R} x y func w :
  (forall t w, R w (snd (func t w))) -> R w (snd (P_BlockThingsIterator x y func w)).
Proof.
  intros Hf. unfold P_BlockThingsIterator. case_decide; [done|].
  apply iterate_rel; [done|apply PreOrder_Transitive|auto].
Qed.

Lemma frame_P_BlockLinesIterator (R : relation world) `{!PreOrder R} x y func w :
  (forall v w, R w (set_line_validcount v w)) ->
  (forall ld w, R w (snd (func ld w))) -> R w (snd (P_BlockLinesIterator x y func w)).
Proof.
  intros Hv Hf. unfold P_BlockLinesIterator. case_decide; [done|].
  apply iterate_rel; [done|apply PreOrder_Transitive|].
  intros ld w0 _. case_decide; [done|]. etrans; [apply Hv|apply Hf].
Qed.

Lemma frame_for_each_block (R : relation world) `{!PreOrder R} xl xh yl yh body w :
  (forall bx by_ w, R w (snd (body bx by_ w))) ->
  R w (snd (for_each_block xl xh yl yh body w)).
Proof.
  intros. apply for_each_block_rel; [done|apply PreOrder_Transitive|done].
Qed.

Lemma vf_check_setup thing x y w : validation_frame w (check_setup thing x y w).
Proof. unfold check_setup. frame. Qed.

Lemma vf_check_things w : validation_frame w (snd (check_things w)).
Proof.
  apply (frame_for_each_block validation_frame). intros.
  apply (frame_P_BlockThingsIterator validation_frame). apply vf_PIT_CheckThing.
Qed.

Lemma st_check_things w : same_trial w (snd (check_things w)).
Proof.
  apply (frame_for_each_block same_trial). intros.
  apply (frame_P_BlockThingsIterator same_trial). apply st_PIT_CheckThing.
Qed.

Lemma vf_check_lines thing x y w : validation_frame w (snd (check_lines thing x y w)).
Proof.
  unfold check_lines. cbv zeta.
  etrans; [|apply (frame_for_each_block validation_frame); intros;
            apply (frame_P_BlockLinesIterator validation_frame); [by split|];
            apply vf_PIT_CheckLine].
  frame.
Qed.

(** P_CheckPosition "is purely informative": outside its scratch variables
    it writes nothing but momentum, flags and nudge counters. *)
Lemma vf_P_CheckPosition thing x y w :
  validation_frame w (snd (P_CheckPosition thing x y w)).
Proof.
  unfold P_CheckPosition. cbv zeta.
  pose proof (vf_check_setup thing x y w) as Hsetup.
  generalize dependent (check_setup thing x y w). intros w0 Hsetup.
  destruct (_ || _); [done|].
  pose proof (vf_check_things w0) as Hthings.
  destruct (check_things w0) as [[] w1]; simpl in *; [|by etrans].
  etrans; [exact Hsetup|]. etrans; [exact Hthings|]. apply vf_check_lines.
Qed.

(** A callback result that, when it is [true], has left map object [m]
    as it was. *)
Definition true_keeps (m : mobj_id) (w : world) (r : bool * world) : Prop :=
  fst r = true -> same_mobj m w (snd r).

Lemma same_mobj_nudge_corpse m thing w : thing <> m -> same_mobj m w (nudge_corpse thing w).
Proof. intros. unfold nudge_corpse. frame. Qed.

Hint Extern 1 (same_mobj _ _ (nudge_corpse _ _)) =>
  apply same_mobj_nudge_corpse; congruence : frame.

Ltac true_keeps_leaf :=
  lazymatch goal with
  | |- true_keeps _ _ (if ?c then _ else _) => destruct c
  | |- true_keeps _ _ (match ?c with _ => _ end) => destruct c
  | |- true_keeps _ _ (_, _) =>
      let H := fresh in intros H; cbn [fst snd] in *; try discriminate H; clear H
  end.

(** The moving thing itself is written only on the paths of PIT_CheckThing
    that stop the move. *)
Lemma PIT_CheckThing_true_keeps mover thing w :
  tmthing (tm w) = Some mover -> true_keeps mover w (PIT_CheckThing thing w).
Proof.
  intros Htm. unfold PIT_CheckThing, random_damage. rewrite Htm. cbv zeta.
  destruct (decide _) as [Heq|Hne]; [by intros _|].
  assert (thing <> mover) by congruence.
  repeat true_keeps_leaf; frame.
Qed.

Lemma same_mobj_spechit_push m ld w : same_mobj m w (spechit_push ld w).
Proof. unfold spechit_push. frame. Qed.

Hint Resolve same_mobj_spechit_push : frame.

Lemma PIT_CheckLine_same_mobj m ld w : same_mobj m w (snd (PIT_CheckLine ld w)).
Proof. unfold PIT_CheckLine. frame. Qed.

Lemma check_things_true_keeps thing w :
  tmthing (tm w) = Some thing -> true_keeps thing w (check_things w).
Proof.
  intros Htm Htrue. unfold check_things in *. cbv zeta in *.
  apply (for_each_block_true (fun w' => same_mobj thing w w' /\ same_trial w w'));
    [|done|done].
  intros bx by_ w2 [Hm Ht] Htrue2. split.
  - etrans; [exact Hm|]. unfold P_BlockThingsIterator in *.
    case_decide; [done|].
    apply (iterate_true (fun w' => same_mobj thing w2 w' /\ same_trial w2 w'));
      [|done|done].
    intros t w3 _ [Hm3 Ht3] Htrue3. split.
    + etrans; [exact Hm3|]. apply PIT_CheckThing_true_keeps; [|done].
      by rewrite (st_tmthing _ _ Ht3), (st_tmthing _ _ Ht).
    + etrans; [exact Ht3|]. apply st_PIT_CheckThing.
  - etrans; [exact Ht|].
    apply (frame_P_BlockThingsIterator same_trial). apply st_PIT_CheckThing.
Qed.

Lemma same_mobj_check_lines m thing x y w : same_mobj m w (snd (check_lines thing x y w)).
Proof.
  unfold check_lines. cbv zeta.
  etrans; [|apply (frame_for_each_block (same_mobj m)); intros;
            apply (frame_P_BlockLinesIterator (same_mobj m)); [done|];
            apply PIT_CheckLine_same_mobj].
  frame.
Qed.

Lemma same_mobj_check_setup m thing x y w : same_mobj m w (check_setup thing x y w).
Proof. unfold check_setup. frame. Qed.

(** If P_CheckPosition lets the move pass, the moving thing is as it was. *)
Lemma P_CheckPosition_true_keeps thing x y w :
  true_keeps thing w (P_CheckPosition thing x y w).
Proof.
  unfold P_CheckPosition. cbv zeta.
  pose proof (same_mobj_check_setup thing thing x y w) as Hsetup.
  assert (tmthing (tm (check_setup thing x y w)) = Some thing) as Htm by done.
  generalize dependent (check_setup thing x y w). intros w0 Hsetup Htm.
  destruct (_ || _); [by intros _|].
  pose proof (check_things_true_keeps thing w0 Htm) as Hthings.
  destruct (check_things w0) as [[] w1]; simpl in *; [|by intros ?].
  intros _. etrans; [exact Hsetup|]. etrans; [by apply Hthings|].
  apply same_mobj_check_lines.
Qed.

End VALIDATION.

(** ** The thing linker

    P_UnsetThingPosition and P_SetThingPosition (p_maputl.c) take a thing
    out of, and put it back into, the blockmap and the sector lists.  What
    the movement code needs of them is that they write nothing else. *)

(** A map object without its links. *)
Definition unlinked (mo : mobj_t) : mobj_t :=
  set_mo_subsector 0%nat (set_mo_touching_sectorlist None mo).

Record linker_frame (w w' : world) : Prop := {
  lf_bodies : forall m, unlinked (mobjs w' m) = unlinked (mobjs w m);
  lf_players : players w' = players w;
  lf_cv : cv w' = cv w;
  lf_events : events w' = events w;
  lf_tmfloorz : tmfloorz (tm w') = tmfloorz (tm w);
  lf_tmceilingz : tmceilingz (tm w') = tmceilingz (tm w);
  lf_tmdropoffz : tmdropoffz (tm w') = tmdropoffz (tm w);
  lf_spechit : spechit (tm w') = spechit (tm w);
  lf_numspechit : numspechit (tm w') = numspechit (tm w)
}.

Definition linker_ok `{E : engine} : Prop :=
  forall thing w,
    linker_frame w (P_UnsetThingPosition thing w)
    /\ linker_frame w (P_SetThingPosition thing w).

(** A map object without its links and its flags2 (the feet-clip bit). *)
Definition core_of (mo : mobj_t) : mobj_t := set_mo_flags2 0 (unlinked mo).

(** What the commit of a move keeps once the thing is placed. *)
Record commit_frame (w w' : world) : Prop := {
  cf_cores : forall m, core_of (mobjs w' m) = core_of (mobjs w m);
  cf_pl_mo : forall p, pl_mo (players w' p) = pl_mo (players w p);
  cf_cv : cv w' = cv w;
  cf_events : events w' = events w;
  cf_tmfloorz : tmfloorz (tm w') = tmfloorz (tm w);
  cf_tmceilingz : tmceilingz (tm w') = tmceilingz (tm w);
  cf_tmdropoffz : tmdropoffz (tm w') = tmdropoffz (tm w);
  cf_spechit : spechit (tm w') = spechit (tm w);
  cf_numspechit : numspechit (tm w') = numspechit (tm w)
}.

#[global] Instance commit_frame_preorder : PreOrder commit_frame.
Proof.
  split.
  - intros w. by split.
  - intros w1 w2 w3 [] []. split; intros; etrans; eauto.
Qed.

Lemma linker_commit_frame w w' : linker_frame w w' -> commit_frame w w'.
Proof.
  intros []. split; try done.
  - intros m. unfold core_of. by rewrite lf_bodies0.
  - intros p. by rewrite lf_players0.
Qed.

Lemma cf_upd_mobj p f w :
  (forall mo, core_of (f mo) = core_of mo) -> commit_frame w (upd_mobj p f w).
Proof.
  intros Hf. split; try done. intros m. simpl.
  unfold insert, fn_insert. case_decide; [subst; apply Hf|done].
Qed.

Lemma cf_upd_player p f w :
  (forall pl, pl_mo (f pl) = pl_mo pl) -> commit_frame w (upd_player p f w).
Proof.
  intros Hf. split; try done. intros q. simpl.
  unfold insert, fn_insert. case_decide; [subst; apply Hf|done].
Qed.

#[global] Hint Extern 1 (commit_frame _ (upd_mobj _ _ _)) =>
  apply cf_upd_mobj; intros; reflexivity : frame.
#[global] Hint Extern 1 (commit_frame _ (upd_player _ _ _)) =>
  apply cf_upd_player; intros; reflexivity : frame.
#[global] Hint Extern 5 (commit_frame _ _) => split; reflexivity : frame.

(** The entries [spechit[0 .. numspechit - 1]]: the special lines the
    validation has collected. *)
Definition trial_list (w : world) : list line_id :=
  (fun k => spechit (tm w) !!! k) <$> seq 0 (Z.to_nat (numspechit (tm w))).

(** The state P_TryMove hands to P_CheckPosition. *)
Definition trial_start (w : world) : world :=
  upd_tm (set_floatok false) (upd_tm (set_felldown false) w).

Section TRYMOVE.
Context {E : engine}.

(** The triggers of the lines of [L], last entry first, for a move from
    (oldx, oldy) to (x, y): a line fires when the two points lie on
    different sides of it. *)
Definition crossed_lines (thing : mobj_id) (oldx oldy x y : Z) (L : list line_id)
  : list (line_id * Z * mobj_id) :=
  (fun ld => (ld, P_PointOnLineSide oldx oldy ld, thing))
    <$> filter (fun ld => P_PointOnLineSide oldx oldy ld <> P_PointOnLineSide x y ld
                          /\ ld_special (lines ld) <> 0)
          (rev L).

Lemma cross_specials_frame n thing oldx oldy w :
  let w' := cross_specials n thing oldx oldy w in
  mobjs w' = mobjs w /\ mem w' = mem w /\ sectors w' = sectors w
  /\ spechit (tm w') = spechit (tm w).
Proof.
  revert w. induction n as [|n IH]; intros w; simpl; [done|].
  match goal with |- context [cross_specials n _ _ _ ?w0] => specialize (IH w0) end.
  simpl in IH. destruct IH as (-> & -> & -> & ->). by case_decide.
Qed.

Lemma cross_specials_crossings n thing oldx oldy w :
  crossings (events (cross_specials n thing oldx oldy w)) =
  crossings (events w)
  ++ crossed_lines thing oldx oldy (mo_x (mobjs w thing)) (mo_y (mobjs w thing))
       ((fun k => spechit (tm w) !!! k) <$> seq 0 n).
Proof.
  revert w. induction n as [|n IH]; intros w.
  - simpl. unfold crossed_lines. simpl. by rewrite app_nil_r.
  - cbn [cross_specials]. cbv zeta.
    match goal with |- context [cross_specials n _ _ _ ?w0] =>
      rewrite (IH w0); set (W := w0) end.
    assert (mobjs W = mobjs w) as -> by (subst W; by case_decide).
    assert (spechit (tm W) = spechit (tm w)) as -> by (subst W; by case_decide).
    rewrite seq_S, fmap_app. simpl. unfold crossed_lines.
    rewrite rev_unit. rewrite filter_cons.
    subst W. case_decide as Hc; simpl.
    + rewrite decide_True by done. rewrite crossings_snoc.
      by rewrite <- app_assoc.
    + rewrite decide_False by done. done.
Qed.

Lemma cf_count_distance thing x y oldx oldy w :
  commit_frame w (count_distance thing x y oldx oldy w).
Proof. unfold count_distance. frame. Qed.

Lemma cf_update_feetclip thing w : commit_frame w (update_feetclip thing w).
Proof. unfold update_feetclip. frame. Qed.

Lemma place_thing_spec thing x y w :
  mobjs (place_thing thing x y w) thing =
  set_mo_y y (set_mo_x x (set_mo_dropoffz (tmdropoffz (tm w))
    (set_mo_ceilingz (tmceilingz (tm w)) (set_mo_floorz (tmfloorz (tm w)) (mobjs w thing)))))
  /\ cv (place_thing thing x y w) = cv w
  /\ events (place_thing thing x y w) = events w
  /\ tm (place_thing thing x y w) = tm w
  /\ players (place_thing thing x y w) = players w.
Proof.
  unfold place_thing. cbv zeta. split; [|done]. simpl.
  by rewrite !fn_lookup_insert.
Qed.

(** What P_TryMove commits once a move is found legal: the position, the
    bounds found by the validation, and the triggers of the special lines
    the move crosses. *)
Lemma commit_move_spec thing x y w :
  linker_ok ->
  let w' := commit_move thing x y w in
  let mo := mobjs w thing in
  let mo' := mobjs w' thing in
  mo_x mo' = x /\ mo_y mo' = y /\ mo_z mo' = mo_z mo /\ mo_height mo' = mo_height mo
  /\ mo_floorz mo' = tmfloorz (tm w) /\ mo_ceilingz mo' = tmceilingz (tm w)
  /\ mo_dropoffz mo' = tmdropoffz (tm w)
  /\ crossings (events w') =
     crossings (events w)
     ++ (if negb (tst (mo_flags mo) (Z.lor MF_TELEPORT MF_NOCLIP)) && negb (freeze (cv w))
         then crossed_lines thing (mo_x mo) (mo_y mo) x y (trial_list w) else []).
Proof.
  intros Hlink. unfold commit_move. cbv zeta.
  pose proof (linker_commit_frame _ _ (proj1 (Hlink thing w))) as H1.
  generalize dependent (P_UnsetThingPosition thing w). intros w1 H1.
  pose proof (place_thing_spec thing x y w1) as (Hp & Hcv2 & Hev2 & Htm2 & Hpl2).
  generalize dependent (place_thing thing x y w1). intros w2 Hp Hcv2 Hev2 Htm2 Hpl2.
  assert (commit_frame w2
            (update_feetclip thing
               (count_distance thing x y (mo_x (mobjs w1 thing)) (mo_y (mobjs w1 thing))
                  (P_SetThingPosition thing w2)))) as H5.
  { etrans; [apply linker_commit_frame, (Hlink thing w2)|].
    etrans; [apply cf_count_distance|]. apply cf_update_feetclip. }
  generalize dependent (update_feetclip thing
               (count_distance thing x y (mo_x (mobjs w1 thing)) (mo_y (mobjs w1 thing))
                  (P_SetThingPosition thing w2))). intros w5 H5.
  pose proof (cf_cores _ _ H1 thing) as Hc1.
  pose proof (cf_cores _ _ H5 thing) as Hc5. rewrite Hp in Hc5.
  assert (mo_x (mobjs w1 thing) = mo_x (mobjs w thing)) as Hx1
    by exact (f_equal mo_x Hc1).
  assert (mo_y (mobjs w1 thing) = mo_y (mobjs w thing)) as Hy1
    by exact (f_equal mo_y Hc1).
  assert (mo_flags (mobjs w5 thing) = mo_flags (mobjs w thing)) as Hfl
    by (etrans; [exact (f_equal mo_flags Hc5)|exact (f_equal mo_flags Hc1)]).
  assert (forall n oldx oldy,
            mobjs (cross_specials n thing oldx oldy w5) thing = mobjs w5 thing) as Hcs.
  { intros. by rewrite (proj1 (cross_specials_frame n thing oldx oldy w5)). }
  assert (mobjs (fire_specials thing (mo_x (mobjs w1 thing)) (mo_y (mobjs w1 thing)) w5) thing
          = mobjs w5 thing) as Hfs.
  { unfold fire_specials. destruct (_ && _); [apply Hcs|done]. }
  rewrite Hfs.
  split_and!.
  - exact (f_equal mo_x Hc5).
  - exact (f_equal mo_y Hc5).
  - etrans; [exact (f_equal mo_z Hc5)|]. exact (f_equal mo_z Hc1).
  - etrans; [exact (f_equal mo_height Hc5)|]. exact (f_equal mo_height Hc1).
  - etrans; [exact (f_equal mo_floorz Hc5)|]. simpl. apply (cf_tmfloorz _ _ H1).
  - etrans; [exact (f_equal mo_ceilingz Hc5)|]. simpl. apply (cf_tmceilingz _ _ H1).
  - etrans; [exact (f_equal mo_dropoffz Hc5)|]. simpl. apply (cf_tmdropoffz _ _ H1).
  - unfold fire_specials. rewrite Hfl, (cf_cv _ _ H5), Hcv2, (cf_cv _ _ H1).
    assert (events w5 = events w) as Hev
      by (rewrite (cf_events _ _ H5), Hev2; apply (cf_events _ _ H1)).
    destruct (_ && _); [|by rewrite Hev, app_nil_r].
    rewrite cross_specials_crossings, Hev. f_equal.
    rewrite Hx1, Hy1.
    rewrite (f_equal mo_x Hc5 : mo_x (mobjs w5 thing) = x).
    rewrite (f_equal mo_y Hc5 : mo_y (mobjs w5 thing) = y).
    unfold trial_list.
    by rewrite (cf_spechit _ _ H5), (cf_numspechit _ _ H5), Htm2,
      (cf_spechit _ _ H1), (cf_numspechit _ _ H1).
Qed.

End TRYMOVE.

Section TRYMOVE_THEOREMS.
Context {E : engine}.

Lemma check_lines_tmunstuck thing x y w :
  tmunstuck (tm (snd (check_lines thing x y w))) = tmunstuck (tm w).
Proof.
  unfold check_lines. cbv zeta.
  match goal with |- context [for_each_block ?a ?b ?c ?d ?f ?w0] =>
    assert (same_trial w0 (snd (for_each_block a b c d f w0))) as H
  end.
  { apply (frame_for_each_block same_trial). intros.
    apply (frame_P_BlockLinesIterator same_trial); [by split|]. apply st_PIT_CheckLine. }
  rewrite (st_tmunstuck _ _ H). by destruct (_ && _).
Qed.

(** After a validation tmunstuck says whether the thing is a player's own
    body (and not a voodoo doll). *)
Lemma P_CheckPosition_tmunstuck thing x y w :
  tmunstuck (tm (snd (P_CheckPosition thing x y w))) =
  match mo_player (mobjs w thing) with
  | Some p => bool_decide (pl_mo (players w p) = thing)
  | None => false
  end.
Proof.
  unfold P_CheckPosition. cbv zeta.
  assert (tmunstuck (tm (check_setup thing x y w)) =
          match mo_player (mobjs w thing) with
          | Some p => bool_decide (pl_mo (players w p) = thing)
          | None => false
          end) as Hsetup by done.
  generalize dependent (check_setup thing x y w). intros w0 <-.
  destruct (_ || _); [done|].
  pose proof (st_check_things w0) as Hthings.
  destruct (check_things w0) as [[] w1]; simpl in *.
  - rewrite check_lines_tmunstuck. apply (st_tmunstuck _ _ Hthings).
  - apply (st_tmunstuck _ _ Hthings).
Qed.

(** A result that, when the move is refused, has only written what a
    validation writes. *)
Definition false_frames (w : world) (r : bool * world) : Prop :=
  fst r = false -> validation_frame w (snd r).

Ltac result_branch :=
  repeat lazymatch goal with
    | |- _ _ (if ?c then _ else _) => destruct c
    | |- _ _ (match ?c with _ => _ end) => destruct c
    end.

Lemma P_TryMove_false_frames thing x y dropoff w :
  false_frames w (P_TryMove thing x y dropoff w).
Proof.
  unfold P_TryMove. cbv zeta. fold (trial_start w).
  pose proof (vf_P_CheckPosition thing x y (trial_start w)) as Hv.
  assert (validation_frame w (trial_start w)) as H0 by (unfold trial_start; frame).
  generalize dependent (trial_start w). intros w0 Hv H0.
  destruct (P_CheckPosition thing x y w0) as [ok w1]. simpl in Hv.
  assert (validation_frame w w1) as H1 by (by etrans). clear Hv H0.
  result_branch; intros Hf; cbn [fst snd] in *; try discriminate Hf;
    try exact H1; (etrans; [exact H1|]; frame).
Qed.

(** C10.  Rejected-move atomicity: when P_TryMove returns false, the moving
    thing's x, y, z, its cached floorz, ceilingz and dropoffz, and its
    links into the sector lists (subsector, touching_sectorlist, the node
    store and every sector's touching_thinglist) are what they were before
    the call. *)
Theorem P_TryMove_rejected_atomic thing x y dropoff w :
  fst (P_TryMove thing x y dropoff w) = false ->
  let w' := snd (P_TryMove thing x y dropoff w) in
  let mo := mobjs w thing in
  let mo' := mobjs w' thing in
  mo_x mo' = mo_x mo /\ mo_y mo' = mo_y mo /\ mo_z mo' = mo_z mo
  /\ mo_floorz mo' = mo_floorz mo /\ mo_ceilingz mo' = mo_ceilingz mo
  /\ mo_dropoffz mo' = mo_dropoffz mo
  /\ mo_subsector mo' = mo_subsector mo
  /\ mo_touching_sectorlist mo' = mo_touching_sectorlist mo
  /\ mem w' = mem w
  /\ (forall s, sec_touching_thinglist (sectors w' s) = sec_touching_thinglist (sectors w s)).
Proof.
  intros Hf. pose proof (P_TryMove_false_frames thing x y dropoff w Hf) as Hv.
  cbv zeta. pose proof (place_of_fields _ _ (vf_places _ _ Hv thing)) as Hp.
  destruct (P_TryMove thing x y dropoff w) as [b w']. simpl in *.
  destruct Hp as (? & ? & ? & ? & ? & ? & ? & ? & ? & ? & ? & ?).
  split_and!; try done.
  - apply (vf_mem _ _ Hv).
  - intros s. by rewrite (vf_sectors _ _ Hv).
Qed.

End TRYMOVE_THEOREMS.

Section TRYMOVE_ACCEPT.
Context {E : engine}.

Ltac result_cases :=
  repeat lazymatch goal with
    | |- _ _ (if decide ?P then _ else _) => destruct (decide P)
    | |- _ _ (if ?c then _ else _) => destruct c eqn:?
    end.

(** What a validation that lets the move pass says about the world it
    leaves: the thing is as before, and so is everything outside the
    scratch variables that the fit tests read. *)
Lemma P_CheckPosition_passed thing x y w w1 :
  P_CheckPosition thing x y (trial_start w) = (true, w1) ->
  mobjs w1 thing = mobjs w thing /\ validation_frame w w1.
Proof.
  intros Hv.
  pose proof (P_CheckPosition_true_keeps thing x y (trial_start w)) as Hk.
  pose proof (vf_P_CheckPosition thing x y (trial_start w)) as Hf.
  rewrite Hv in Hk, Hf. simpl in *. split.
  - by apply Hk.
  - etrans; [|exact Hf]. unfold trial_start. frame.
Qed.

(** The three tests of P_TryMove that send a thing without MF_TELEPORT to
    the unstuck escape, on the bounds the validation left in [w1]: the
    thing doesn't fit, it must lower to fit, or the step up is too big. *)
Definition does_not_fit (mo : mobj_t) (w1 : world) : Prop :=
  sub32 (tmceilingz (tm w1)) (tmfloorz (tm w1)) < mo_height mo
  \/ sub32 (tmceilingz (tm w1)) (mo_z mo) < mo_height mo
  \/ 24 * FRACUNIT < sub32 (tmfloorz (tm w1)) (mo_z mo).

#[global] Instance does_not_fit_dec mo w1 : Decision (does_not_fit mo w1).
Proof. unfold does_not_fit. apply _. Defined.

(** What holds of an accepted move: the thing did not fit and the unstuck
    escape of a player's own body answered true, nothing committed; or the
    thing fits and the bounds found were committed with the position. *)
Definition accepted_bounds (thing : mobj_id) (x y : Z) (w w1 : world) (r : bool * world)
  : Prop :=
  fst r = true ->
  let mo := mobjs w thing in
  let mo' := mobjs (snd r) thing in
  (does_not_fit mo w1
   /\ (exists p, mo_player mo = Some p /\ pl_mo (players w p) = thing)
   /\ unstuck_escape w1 = true
   /\ mo_x mo' = mo_x mo /\ mo_y mo' = mo_y mo /\ mo_z mo' = mo_z mo
   /\ mo_floorz mo' = mo_floorz mo /\ mo_ceilingz mo' = mo_ceilingz mo
   /\ mo_dropoffz mo' = mo_dropoffz mo)
  \/ (~ does_not_fit mo w1
      /\ mo_x mo' = x /\ mo_y mo' = y /\ mo_z mo' = mo_z mo /\ mo_height mo' = mo_height mo
      /\ mo_floorz mo' = tmfloorz (tm w1) /\ mo_ceilingz mo' = tmceilingz (tm w1)
      /\ mo_dropoffz mo' = tmdropoffz (tm w1)
      /\ mo_height mo' <= sub32 (mo_ceilingz mo') (mo_floorz mo')
      /\ mo_height mo' <= sub32 (mo_ceilingz mo') (mo_z mo')
      /\ sub32 (mo_floorz mo') (mo_z mo') <= 24 * FRACUNIT).

(** The unstuck escape answers true only for a player's own body. *)
Lemma unstuck_escape_player thing x y w :
  unstuck_escape (snd (P_CheckPosition thing x y (trial_start w))) = true ->
  exists p, mo_player (mobjs w thing) = Some p /\ pl_mo (players w p) = thing.
Proof.
  unfold unstuck_escape. rewrite P_CheckPosition_tmunstuck.
  change (mobjs (trial_start w)) with (mobjs w).
  change (players (trial_start w)) with (players w).
  destruct (mo_player (mobjs w thing)) as [p|]; [|done].
  intros [[Hp%bool_decide_eq_true _]%andb_true_iff _]%andb_true_iff. by exists p.
Qed.

Lemma accepted_bounds_escape thing x y w w1 W :
  validation_frame w W ->
  does_not_fit (mobjs w thing) w1 ->
  (unstuck_escape w1 = true ->
   exists p, mo_player (mobjs w thing) = Some p /\ pl_mo (players w p) = thing) ->
  accepted_bounds thing x y w w1 (unstuck_escape w1, W).
Proof.
  intros Hv Hstuck Hpl Hesc. left.
  destruct (place_of_fields _ _ (vf_places _ _ Hv thing))
    as (? & ? & ? & ? & ? & ? & ? & ? & ?).
  split_and!; try done. by apply Hpl.
Qed.

Lemma accepted_bounds_commit thing x y w w1 W :
  linker_ok ->
  mobjs W thing = mobjs w thing ->
  tm W = tm w1 \/ (exists f g, tm W = set_felldown f (set_floatok g (tm w1)))
               \/ (exists g, tm W = set_floatok g (tm w1)) ->
  ~ sub32 (tmceilingz (tm w1)) (tmfloorz (tm w1)) < mo_height (mobjs w thing) ->
  ~ sub32 (tmceilingz (tm w1)) (mo_z (mobjs w thing)) < mo_height (mobjs w thing) ->
  ~ 24 * FRACUNIT < sub32 (tmfloorz (tm w1)) (mo_z (mobjs w thing)) ->
  accepted_bounds thing x y w w1 (true, commit_move thing x y W).
Proof.
  intros Hlink Hmo Htm H1 H2 H3 _. cbv zeta. right. cbn [snd].
  destruct (commit_move_spec thing x y W Hlink) as (-> & -> & -> & -> & -> & -> & -> & _).
  rewrite Hmo.
  assert (tmceilingz (tm W) = tmceilingz (tm w1) /\ tmfloorz (tm W) = tmfloorz (tm w1)
          /\ tmdropoffz (tm W) = tmdropoffz (tm w1)) as (-> & -> & ->).
  { destruct Htm as [->|[(f & g & ->)|(g & ->)]]; done. }
  split_and!; try done; try lia. unfold does_not_fit. tauto.
Qed.

(** What P_TryMove leaves behind for a thing that clips and is not
    teleporting. *)
Lemma P_TryMove_accepted thing x y dropoff w :
  linker_ok ->
  tst (mo_flags (mobjs w thing)) MF_NOCLIP = false ->
  tst (mo_flags (mobjs w thing)) MF_TELEPORT = false ->
  freeze (cv w) = false ->
  accepted_bounds thing x y w (snd (P_CheckPosition thing x y (trial_start w)))
    (P_TryMove thing x y dropoff w).
Proof.
  intros Hlink Hnoclip Htele Hfreeze.
  pose proof (unstuck_escape_player thing x y w) as Hpl.
  unfold P_TryMove. cbv zeta. fold (trial_start w).
  destruct (P_CheckPosition thing x y (trial_start w)) as [[] w1] eqn:Hv;
    cbn [negb fst snd] in *; [|by intros ?].
  destruct (P_CheckPosition_passed thing x y w w1 Hv) as [Hmo Hf].
  rewrite Hmo, (vf_cv _ _ Hf), Hnoclip, Hfreeze, Htele. cbn [negb andb].
  destruct (decide _) as [|Hfit]; [apply accepted_bounds_escape; [done|by left|done]|].
  destruct (orb _ _) eqn:Hstep.
  { change (unstuck_escape (upd_tm (set_floatok true) w1)) with (unstuck_escape w1).
    apply accepted_bounds_escape; [etrans; [exact Hf|]; frame| |done].
    apply orb_true_iff in Hstep as [?%bool_decide_eq_true|?%bool_decide_eq_true];
      [right; by left|right; by right]. }
  apply orb_false_iff in Hstep as [Hroom%bool_decide_eq_false Hstep%bool_decide_eq_false].
  destruct (andb _ _); [by intros ?|].
  destruct (andb (tst (mo_flags2 _) _) _); [by intros ?|].
  apply (accepted_bounds_commit thing x y w w1); try done.
  - by destruct (negb (tst _ (Z.lor MF_DROPOFF MF_FLOAT)) && dropoff).
  - destruct (negb (tst _ (Z.lor MF_DROPOFF MF_FLOAT)) && dropoff);
      [right; left; by eexists _, _|right; right; by eexists].
Qed.

(** C1 (as amended).  Take a move P_TryMove accepts for a thing that clips
    (no MF_NOCLIP, no freeze) and is not teleporting, and the bounds the
    validation found for the new position.  Either the thing does not fit
    there (too little room, head above the ceiling, or a step up of more
    than 24 units), it is a player's own body, the unstuck escape answered
    true and the thing is where it was with its cached bounds untouched; or
    it fits, and the position and the bounds found are committed: the
    thing fits between floorz and ceilingz, its head is below ceilingz, and
    floorz is at most the step height of 24 units above its feet -- not
    necessarily below them: z is not changed by P_TryMove.  The
    differences are the 32-bit ones the code computes. *)
Theorem P_TryMove_accepted_bounds thing x y dropoff w :
  linker_ok ->
  tst (mo_flags (mobjs w thing)) MF_NOCLIP = false ->
  tst (mo_flags (mobjs w thing)) MF_TELEPORT = false ->
  freeze (cv w) = false ->
  fst (P_TryMove thing x y dropoff w) = true ->
  let w1 := snd (P_CheckPosition thing x y (trial_start w)) in
  let mo := mobjs w thing in
  let mo' := mobjs (snd (P_TryMove thing x y dropoff w)) thing in
  (does_not_fit mo w1
   /\ (exists p, mo_player mo = Some p /\ pl_mo (players w p) = thing)
   /\ unstuck_escape w1 = true
   /\ mo_x mo' = mo_x mo /\ mo_y mo' = mo_y mo /\ mo_z mo' = mo_z mo
   /\ mo_floorz mo' = mo_floorz mo /\ mo_ceilingz mo' = mo_ceilingz mo
   /\ mo_dropoffz mo' = mo_dropoffz mo)
  \/ (~ does_not_fit mo w1
      /\ mo_x mo' = x /\ mo_y mo' = y /\ mo_z mo' = mo_z mo /\ mo_height mo' = mo_height mo
      /\ mo_floorz mo' = tmfloorz (tm w1) /\ mo_ceilingz mo' = tmceilingz (tm w1)
      /\ mo_dropoffz mo' = tmdropoffz (tm w1)
      /\ mo_height mo' <= sub32 (mo_ceilingz mo') (mo_floorz mo')
      /\ mo_height mo' <= sub32 (mo_ceilingz mo') (mo_z mo')
      /\ sub32 (mo_floorz mo') (mo_z mo') <= 24 * FRACUNIT).
Proof.
  intros Hlink Hnoclip Htele Hfreeze.
  exact (P_TryMove_accepted thing x y dropoff w Hlink Hnoclip Htele Hfreeze).
Qed.

End TRYMOVE_ACCEPT.

Section TRYMOVE_STEP.
Context {E : engine}.

Lemma unstuck_escape_floatok b w :
  unstuck_escape (upd_tm (set_floatok b) w) = unstuck_escape w.
Proof. done. Qed.

(** C4 (as amended).  For a thing that clips and is not teleporting, on a
    validation that passes: a step up of at most 24 units -- in particular
    of exactly 24 -- is accepted and committed when the thing fits, has head
    room, and the drop-off and falling rules do not object; a step up of
    more than 24 units is never committed, and P_TryMove answers what the
    unstuck escape answers: false for every thing that is not a player's
    own body, but possibly true for a player (without moving it). *)
Theorem P_TryMove_step_height thing x y dropoff w :
  linker_ok ->
  tst (mo_flags (mobjs w thing)) MF_NOCLIP = false ->
  tst (mo_flags (mobjs w thing)) MF_TELEPORT = false ->
  freeze (cv w) = false ->
  fst (P_CheckPosition thing x y (trial_start w)) = true ->
  let w1 := snd (P_CheckPosition thing x y (trial_start w)) in
  let mo := mobjs w thing in
  let step := sub32 (tmfloorz (tm w1)) (mo_z mo) in
  let r := P_TryMove thing x y dropoff w in
  let mo' := mobjs (snd r) thing in
  (step <= 24 * FRACUNIT ->
   mo_height mo <= sub32 (tmceilingz (tm w1)) (tmfloorz (tm w1)) ->
   mo_height mo <= sub32 (tmceilingz (tm w1)) (mo_z mo) ->
   (tst (mo_flags mo) (Z.lor MF_DROPOFF MF_FLOAT) = true \/ dropoff = true
    \/ (sub32 (mo_floorz mo) (tmfloorz (tm w1)) <= 24 * FRACUNIT
        /\ sub32 (mo_dropoffz mo) (tmdropoffz (tm w1)) <= 24 * FRACUNIT)) ->
   (tst (mo_flags2 mo) MF2_FALLING = false
    \/ step <= add32 (FixedMul (mo_momx mo) (mo_momx mo))
                     (FixedMul (mo_momy mo) (mo_momy mo))) ->
   fst r = true /\ mo_x mo' = x /\ mo_y mo' = y /\ mo_floorz mo' = tmfloorz (tm w1))
  /\ (24 * FRACUNIT < step ->
      fst r = unstuck_escape w1
      /\ (mo_player mo = None -> fst r = false)
      /\ mo_x mo' = mo_x mo /\ mo_y mo' = mo_y mo /\ mo_z mo' = mo_z mo
      /\ mo_floorz mo' = mo_floorz mo /\ mo_ceilingz mo' = mo_ceilingz mo
      /\ mo_dropoffz mo' = mo_dropoffz mo).
Proof.
  intros Hlink Hnoclip Htele Hfreeze Hpass.
  pose proof (P_CheckPosition_tmunstuck thing x y (trial_start w)) as Hun.
  unfold P_TryMove. cbv zeta. fold (trial_start w).
  destruct (P_CheckPosition thing x y (trial_start w)) as [ok w1] eqn:Hv.
  simpl in Hpass, Hun. subst ok. cbn [negb fst snd].
  destruct (P_CheckPosition_passed thing x y w w1 Hv) as [Hmo Hf].
  rewrite Hmo, (vf_cv _ _ Hf), Hnoclip, Hfreeze, Htele. cbn [negb andb].
  split.
  - intros Hstep Hfit Hroom Hdrop Hfall.
    rewrite decide_False by lia.
    rewrite (bool_decide_eq_false_2 (sub32 _ _ < _)) by (simpl; lia).
    rewrite (bool_decide_eq_false_2 (24 * FRACUNIT < _)) by (simpl; lia).
    cbn [orb].
    assert (negb (tst (mo_flags (mobjs w thing)) (Z.lor MF_DROPOFF MF_FLOAT)) && negb dropoff
            && (bool_decide (24 * FRACUNIT
                             < sub32 (mo_floorz (mobjs w thing))
                                 (tmfloorz (tm (upd_tm (set_floatok true) w1))))
                || bool_decide (24 * FRACUNIT
                                < sub32 (mo_dropoffz (mobjs w thing))
                                    (tmdropoffz (tm (upd_tm (set_floatok true) w1)))))
            = false) as ->.
    { destruct Hdrop as [->|[->|[? ?]]]; [done|by rewrite andb_false_r|].
      rewrite !bool_decide_eq_false_2 by (simpl; lia). by rewrite andb_false_r. }
    match goal with
    | |- context [commit_move thing x y ?W0] => set (W := W0)
    end.
    assert (tmfloorz (tm W) = tmfloorz (tm w1)) as HtmW
      by (subst W; by destruct (_ && dropoff)).
    assert (mobjs W thing = mobjs w thing) as HmoW
      by (subst W; by destruct (_ && dropoff)).
    assert (tst (mo_flags2 (mobjs w thing)) MF2_FALLING
            && bool_decide
                 (add32 (FixedMul (mo_momx (mobjs w thing)) (mo_momx (mobjs w thing)))
                    (FixedMul (mo_momy (mobjs w thing)) (mo_momy (mobjs w thing)))
                  < sub32 (tmfloorz (tm W)) (mo_z (mobjs w thing))) = false) as ->.
    { rewrite HtmW. destruct Hfall as [->|?]; [done|].
      rewrite bool_decide_eq_false_2 by lia. by rewrite andb_false_r. }
    clearbody W. cbn [fst snd].
    destruct (commit_move_spec thing x y W Hlink) as (-> & -> & _ & _ & -> & _).
    by rewrite HtmW.
  - intros Hstep.
    assert (forall b W, validation_frame w1 W -> b = unstuck_escape w1 ->
              b = unstuck_escape w1
              /\ (mo_player (mobjs w thing) = None -> b = false)
              /\ mo_x (mobjs W thing) = mo_x (mobjs w thing)
              /\ mo_y (mobjs W thing) = mo_y (mobjs w thing)
              /\ mo_z (mobjs W thing) = mo_z (mobjs w thing)
              /\ mo_floorz (mobjs W thing) = mo_floorz (mobjs w thing)
              /\ mo_ceilingz (mobjs W thing) = mo_ceilingz (mobjs w thing)
              /\ mo_dropoffz (mobjs W thing) = mo_dropoffz (mobjs w thing)) as Hstay.
    { intros b W HW ->.
      assert (validation_frame w W) as HwW by (by etrans).
      destruct (place_of_fields _ _ (vf_places _ _ HwW thing))
        as (? & ? & ? & ? & ? & ? & ? & ? & ?).
      split_and!; try done.
      intros Hnone. unfold unstuck_escape. rewrite Hun. simpl. by rewrite Hnone. }
    destruct (decide _); [by apply Hstay|].
    rewrite (bool_decide_eq_true_2 (24 * FRACUNIT < _)) by (simpl; lia).
    rewrite orb_true_r. cbn [fst snd].
    apply Hstay; [frame|done].
Qed.

End TRYMOVE_STEP.

Section TRYMOVE_SPECIALS.
Context {E : engine}.

Lemma tst_lor flags a b : tst flags (Z.lor a b) = tst flags a || tst flags b.
Proof.
  unfold tst. rewrite Z.land_lor_distr_r, <- bool_decide_or. apply bool_decide_ext.
  split.
  - intros H. destruct (decide (Z.land flags a = 0)) as [Ha|Ha]; [right|by left].
    intros Hb. apply H, Z.lor_eq_0_iff. done.
  - intros [H|H] [? ?]%Z.lor_eq_0_iff; done.
Qed.

(** The line triggers a call of P_TryMove that answers [accepted] adds to
    those fired before, [w1] being the world its validation left: those of
    the lines the move crosses if the move is accepted, the thing has
    neither MF_TELEPORT nor MF_NOCLIP, freeze mode is off and the thing
    fits (so that the move is committed and not answered by the unstuck
    escape); none otherwise. *)
Definition fired_lines (thing : mobj_id) (x y : Z) (w w1 : world) (accepted : bool)
  : list (line_id * Z * mobj_id) :=
  let mo := mobjs w thing in
  if accepted && negb (tst (mo_flags mo) (Z.lor MF_TELEPORT MF_NOCLIP))
     && negb (freeze (cv w)) && negb (bool_decide (does_not_fit mo w1))
  then crossed_lines thing (mo_x mo) (mo_y mo) x y (trial_list w1)
  else [].

Definition fires (thing : mobj_id) (x y : Z) (w w1 : world) (r : bool * world) : Prop :=
  crossings (events (snd r)) = crossings (events w) ++ fired_lines thing x y w w1 (fst r).

Lemma fires_frame thing x y w w1 b W :
  validation_frame w W ->
  b = false \/ tst (mo_flags (mobjs w thing)) (Z.lor MF_TELEPORT MF_NOCLIP) = true
  \/ freeze (cv w) = true \/ does_not_fit (mobjs w thing) w1 ->
  fires thing x y w w1 (b, W).
Proof.
  intros HW Hb. unfold fires, fired_lines. cbn [fst snd].
  rewrite (vf_crossings _ _ HW).
  destruct Hb as [->|[->|[->|Hfit]]]; rewrite ?andb_false_r, ?app_nil_r; try done.
  by rewrite (bool_decide_eq_true_2 _ Hfit), andb_false_r, app_nil_r.
Qed.

Lemma fires_commit thing x y w w1 W :
  linker_ok ->
  validation_frame w W ->
  mo_flags (mobjs W thing) = mo_flags (mobjs w thing) ->
  trial_list W = trial_list w1 ->
  (tst (mo_flags (mobjs w thing)) (Z.lor MF_TELEPORT MF_NOCLIP) = false ->
   freeze (cv w) = false -> ~ does_not_fit (mobjs w thing) w1) ->
  fires thing x y w w1 (true, commit_move thing x y W).
Proof.
  intros Hlink HW Hfl Htl Hfit. unfold fires, fired_lines. cbn [fst snd andb].
  destruct (commit_move_spec thing x y W Hlink) as (_ & _ & _ & _ & _ & _ & _ & ->).
  destruct (place_of_fields _ _ (vf_places _ _ HW thing)) as (-> & -> & _).
  rewrite Hfl, Htl, (vf_cv _ _ HW), (vf_crossings _ _ HW).
  destruct (tst _ _) eqn:Ht; [done|].
  destruct (freeze (cv w)) eqn:Hfz; [done|].
  by rewrite (bool_decide_eq_false_2 _ (Hfit eq_refl eq_refl)).
Qed.

Lemma P_TryMove_fires thing x y dropoff w :
  linker_ok ->
  fires thing x y w (snd (P_CheckPosition thing x y (trial_start w)))
    (P_TryMove thing x y dropoff w).
Proof.
  intros Hlink.
  unfold P_TryMove. cbv zeta. fold (trial_start w).
  pose proof (vf_P_CheckPosition thing x y (trial_start w)) as Hf0.
  pose proof (P_CheckPosition_true_keeps thing x y (trial_start w)) as Hk.
  destruct (P_CheckPosition thing x y (trial_start w)) as [ok w1]. cbn [fst snd] in *.
  assert (validation_frame w w1) as Hf
    by (etrans; [|exact Hf0]; unfold trial_start; frame).
  destruct ok; cbn [negb]; [|by apply fires_frame; auto].
  assert (mobjs w1 thing = mobjs w thing) as Hmo by (by apply Hk).
  clear Hf0 Hk.
  assert (forall W, validation_frame w1 W -> mobjs W thing = mobjs w1 thing ->
            trial_list W = trial_list w1 ->
            (tst (mo_flags (mobjs w thing)) (Z.lor MF_TELEPORT MF_NOCLIP) = false ->
             freeze (cv w) = false -> ~ does_not_fit (mobjs w thing) w1) ->
            fires thing x y w w1 (true, commit_move thing x y W)) as Hcommit.
  { intros W HW HWm HWt Hfit. apply fires_commit; try done; [by etrans|congruence]. }
  rewrite Hmo, (vf_cv _ _ Hf).
  destruct (tst (mo_flags (mobjs w thing)) MF_NOCLIP) eqn:Hn; cbn [negb andb].
  { apply Hcommit; [done..|]. by rewrite tst_lor, Hn, orb_true_r. }
  destruct (freeze (cv w)) eqn:Hz; cbn [negb andb].
  { by apply Hcommit. }
  destruct (decide _) as [Hroom|Hroom].
  { apply fires_frame; [done|]. do 3 right. by left. }
  match goal with
  | |- fires _ _ _ _ _ (if _ then _ else ?rest) =>
      assert ((tst (mo_flags (mobjs w thing)) (Z.lor MF_TELEPORT MF_NOCLIP) = false ->
               ~ does_not_fit (mobjs w thing) w1) ->
              fires thing x y w w1 rest) as Hrest
  end.
  { intros Hfit. destruct (andb _ _).
    { apply fires_frame; [etrans; [exact Hf|]; frame|auto]. }
    match goal with
    | |- context [commit_move thing x y ?W0] => set (W := W0)
    end.
    assert (validation_frame w1 W /\ mobjs W thing = mobjs w1 thing
            /\ trial_list W = trial_list w1) as (HW1 & HW2 & HW3).
    { subst W. destruct (_ && dropoff); (split_and!; [frame|done|done]). }
    clearbody W.
    destruct (andb _ _).
    { apply fires_frame; [by etrans|auto]. }
    apply Hcommit; try done. intros Ht _. by apply Hfit. }
  destruct (tst (mo_flags (mobjs w thing)) MF_TELEPORT) eqn:Ht; cbn [negb andb orb].
  - apply Hrest. by rewrite tst_lor, Ht.
  - match goal with
    | |- fires _ _ _ _ _ (if ?c then _ else _) => destruct c eqn:Hstep
    end.
    + apply fires_frame; [etrans; [exact Hf|]; frame|]. do 3 right.
      unfold does_not_fit.
      apply orb_true_iff in Hstep as [?%bool_decide_eq_true|?%bool_decide_eq_true];
        [right; by left|right; by right].
    + apply Hrest. intros _.
      apply orb_false_iff in Hstep
        as [Hhead%bool_decide_eq_false Hstep%bool_decide_eq_false].
      by intros [?|[?|?]].
Qed.

(** C3 (as amended).  The triggers of the special lines a validation
    collected, [fired], are those of the collected entries whose line is
    special and has the old and the new position on different sides, one
    trigger for every such entry, last entry first.  A call of P_TryMove
    that returns false fires nothing.  A call that returns true fires
    exactly [fired] if the thing has neither MF_TELEPORT nor MF_NOCLIP,
    freeze mode is off and the thing fits at the new position; it fires
    nothing if the thing has MF_TELEPORT or MF_NOCLIP, in freeze mode, or
    if the thing does not fit (then true is the answer of the unstuck
    escape and nothing was committed).  The triggers are the calls of
    P_CrossSpecialLine in the order they are made. *)
Theorem special_lines_fire_once thing x y dropoff w :
  linker_ok ->
  let w1 := snd (P_CheckPosition thing x y (trial_start w)) in
  let r := P_TryMove thing x y dropoff w in
  let mo := mobjs w thing in
  let fired := crossed_lines thing (mo_x mo) (mo_y mo) x y (trial_list w1) in
  let before := crossings (events w) in
  let after := crossings (events (snd r)) in
  (fst r = false -> after = before)
  /\ (fst r = true ->
      tst (mo_flags mo) (Z.lor MF_TELEPORT MF_NOCLIP) = true \/ freeze (cv w) = true
      \/ does_not_fit mo w1 ->
      after = before)
  /\ (fst r = true ->
      tst (mo_flags mo) (Z.lor MF_TELEPORT MF_NOCLIP) = false ->
      freeze (cv w) = false ->
      ~ does_not_fit mo w1 ->
      after = before ++ fired)
  /\ after = before ++ fired_lines thing x y w w1 (fst r).
Proof.
  intros Hlink. cbv zeta.
  pose proof (P_TryMove_fires thing x y dropoff w Hlink) as H.
  destruct (P_TryMove thing x y dropoff w) as [b W]. unfold fires in H.
  cbn [fst snd] in *. rewrite H. unfold fired_lines. split_and!.
  - intros ->. by rewrite app_nil_r.
  - intros -> [->|[->|Hfit]]; rewrite ?andb_false_r, ?app_nil_r; try done.
    by rewrite (bool_decide_eq_true_2 _ Hfit), andb_false_r, app_nil_r.
  - intros -> -> -> Hfit. by rewrite (bool_decide_eq_false_2 _ Hfit).
  - done.
Qed.

End TRYMOVE_SPECIALS.

(** ** The slide loop *)

Section SLIDE.
Context {E : engine}.

(** A pass either ends the loop with a result that does not depend on what
    the next pass would do, or hands over to the next pass with the
    decremented counter. *)
Definition pass_result (mo : mobj_id) (radius hitcount : Z) (w : world) : Prop :=
  (exists w', forall again, slide_pass again mo radius hitcount w = Some w')
  \/ (sub32 hitcount 1 <> 0
      /\ exists w', forall again,
           slide_pass again mo radius hitcount w = again (sub32 hitcount 1) w').

(** How a pass through the body of the loop of P_SlideMove ends when the
    pass counter lets it run: at the label stairstep (nothing was hit by
    the corners, or the move up to the wall was refused), at the [break]
    that follows an empty remainder, with the move redirected along the
    wall accepted, or with that move refused, which starts the next
    pass. *)
Inductive pass_end : Type :=
| to_stairstep (w : world)
| stopped (w : world)
| slid (w : world)
| refused (w : world).

Definition slide_attempt (mo : mobj_id) (radius : Z) (w : world) : pass_end :=
  let w := slide_trace mo radius w in
  if decide (bestslidefrac (slide w) = FRACUNIT + 1) then to_stairstep w
  else
    let w := upd_slide (set_bestslidefrac (sub32 (bestslidefrac (slide w)) 2048)) w in
    let '(moved, w) :=
      if decide (0 < bestslidefrac (slide w)) then
        let newx := FixedMul (mo_momx (mobjs w mo)) (bestslidefrac (slide w)) in
        let newy := FixedMul (mo_momy (mobjs w mo)) (bestslidefrac (slide w)) in
        P_TryMove mo (add32 (mo_x (mobjs w mo)) newx) (add32 (mo_y (mobjs w mo)) newy)
          true w
      else (true, w) in
    if negb moved then to_stairstep w
    else
      let w := upd_slide (set_bestslidefrac
                            (sub32 FRACUNIT (add32 (bestslidefrac (slide w)) 2048))) w in
      let slide_along (w : world) : pass_end :=
        let w := slide_redirect mo w in
        let '(ok, w) :=
          P_TryMove mo (add32 (mo_x (mobjs w mo)) (tmxmove (slide w)))
            (add32 (mo_y (mobjs w mo)) (tmymove (slide w))) true w in
        if ok then slid w else refused w in
      if decide (FRACUNIT < bestslidefrac (slide w))
      then slide_along (upd_slide (set_bestslidefrac FRACUNIT) w)
      else if decide (bestslidefrac (slide w) <= 0) then stopped w
      else slide_along w.

Definition pass_world (p : pass_end) : world :=
  match p with to_stairstep w | stopped w | slid w | refused w => w end.

Definition is_refused (p : pass_end) : bool :=
  match p with refused _ => true | _ => false end.

(** The stairstep in the words of the specification: try the move along Y
    alone; if it is refused, try the move along X alone. *)
Definition try_y_then_x (mo : mobj_id) (w : world) : world :=
  let m := mobjs w mo in
  let along_y := P_TryMove mo (mo_x m) (add32 (mo_y m) (mo_momy m)) true w in
  if fst along_y then snd along_y
  else
    let m' := mobjs (snd along_y) mo in
    snd (P_TryMove mo (add32 (mo_x m') (mo_momx m')) (mo_y m') true (snd along_y)).

(** P_SlideMove in the words of the specification: at most two moves are
    redirected along a wall; when the second is refused too, or when a pass
    finds no clean slide, the stairstep is taken. *)
Definition slide_or_stairstep (mo : mobj_id) (w : world) : world :=
  let radius := mo_radius (mobjs w mo) in
  match slide_attempt mo radius (upd_slide (set_slidemo (Some mo)) w) with
  | to_stairstep w1 => try_y_then_x mo w1
  | stopped w1 | slid w1 => w1
  | refused w1 =>
      match slide_attempt mo radius w1 with
      | to_stairstep w2 => try_y_then_x mo w2
      | stopped w2 | slid w2 => w2
      | refused w2 => try_y_then_x mo w2
      end
  end.

Lemma slide_pass_result mo radius hitcount w : pass_result mo radius hitcount w.
Proof.
  unfold pass_result, slide_pass. cbv zeta.
  destruct (decide (sub32 hitcount 1 = 0)) as [|Hh]; [by left; eexists|].
  repeat lazymatch goal with
    | |- context [match ?c with _ => _ end] =>
        lazymatch c with
        | context [slide_pass] => fail
        | _ => destruct c
        end
    end;
    first [by left; eexists | right; split; [done|]; by eexists].
Qed.

(** The pass entered with [hitcount = 1] is the stairstep. *)
Lemma slide_pass_last again mo radius w :
  slide_pass again mo radius 1 w = Some (stairstep mo w).
Proof. unfold slide_pass. cbv zeta. by rewrite decide_True by done. Qed.

(** A pass the counter lets run ends as [slide_attempt] says. *)
Lemma slide_pass_attempt again mo radius hitcount w :
  sub32 hitcount 1 <> 0 ->
  slide_pass again mo radius hitcount w =
  match slide_attempt mo radius w with
  | to_stairstep w' => Some (stairstep mo w')
  | stopped w' | slid w' => Some w'
  | refused w' => again (sub32 hitcount 1) w'
  end.
Proof.
  intros Hh. unfold slide_pass, slide_attempt. cbv zeta.
  rewrite decide_False by done.
  repeat lazymatch goal with
    | |- context [match ?c with _ => _ end] =>
        lazymatch c with
        | context [slide_pass] => fail
        | context [to_stairstep] => fail
        | context [stopped] => fail
        | context [slid] => fail
        | context [refused] => fail
        | _ => destruct c
        end
    end; reflexivity.
Qed.

Lemma stairstep_try_y_then_x mo w : stairstep mo w = try_y_then_x mo w.
Proof.
  unfold stairstep, try_y_then_x. cbv zeta.
  destruct (P_TryMove mo _ _ true w) as [[] w1]; cbn [fst snd]; reflexivity.
Qed.

(** A refused move leaves the thing where it was. *)
Lemma P_TryMove_refused_place thing m x y dropoff w :
  fst (P_TryMove thing x y dropoff w) = false ->
  mo_x (mobjs (snd (P_TryMove thing x y dropoff w)) m) = mo_x (mobjs w m)
  /\ mo_y (mobjs (snd (P_TryMove thing x y dropoff w)) m) = mo_y (mobjs w m).
Proof.
  intros Hf. pose proof (P_TryMove_false_frames thing x y dropoff w Hf) as Hv.
  destruct (place_of_fields _ _ (vf_places _ _ Hv m)) as (Hx & Hy & _).
  split; assumption.
Qed.

(** C6.  P_SlideMove needs at most three passes through its loop, whatever
    the state: three units of fuel always yield a result and more fuel
    yields the same result.  The result is the one the specification
    describes: at most two passes redirect the move along a wall; a pass
    that finds no clean slide takes the stairstep, and so does the third
    pass, which the pass counter cuts short, when two redirected moves have
    been refused.  The stairstep tries the move along Y alone, to
    (x, y + momy), and, if P_TryMove refuses it, the thing being where it
    was, the move along X alone, to (x + momx, y), with the momentum the
    refused move left. *)
Theorem P_SlideMove_three_passes mo w :
  is_Some (P_SlideMove 3 mo w)
  /\ (forall fuel, (3 <= fuel)%nat -> P_SlideMove fuel mo w = P_SlideMove 3 mo w)
  /\ P_SlideMove 3 mo w = Some (slide_or_stairstep mo w)
  /\ (forall w1,
        stairstep mo w1 = try_y_then_x mo w1
        /\ let m := mobjs w1 mo in
           let along_y := P_TryMove mo (mo_x m) (add32 (mo_y m) (mo_momy m)) true w1 in
           let momx := mo_momx (mobjs (snd along_y) mo) in
           (fst along_y = true -> try_y_then_x mo w1 = snd along_y)
           /\ (fst along_y = false ->
               mo_x (mobjs (snd along_y) mo) = mo_x m
               /\ mo_y (mobjs (snd along_y) mo) = mo_y m
               /\ try_y_then_x mo w1
                  = snd (P_TryMove mo (add32 (mo_x m) momx) (mo_y m) true (snd along_y)))).
Proof.
  assert (forall k radius w0,
            exists w', P_SlideMove_loop (3 + k) mo radius 3 w0 = Some w'
                       /\ P_SlideMove_loop 3 mo radius 3 w0 = Some w') as Hloop.
  { intros k radius w0. cbn [P_SlideMove_loop Nat.add].
    destruct (slide_pass_result mo radius 3 w0) as [[w' H3]|[_ [w2 H3]]].
    { exists w'. by rewrite !H3. }
    rewrite !H3. change (sub32 3 1) with 2.
    destruct (slide_pass_result mo radius 2 w2) as [[w' H2]|[_ [w1 H2]]].
    { exists w'. by rewrite !H2. }
    rewrite !H2. change (sub32 2 1) with 1.
    exists (stairstep mo w1). by rewrite !slide_pass_last. }
  split_and!.
  - unfold P_SlideMove. cbv zeta.
    destruct (Hloop 0%nat (mo_radius (mobjs w mo)) (upd_slide (set_slidemo (Some mo)) w))
      as (w' & _ & H3).
    rewrite H3. by eexists.
  - intros fuel Hfuel. unfold P_SlideMove. cbv zeta.
    replace fuel with (3 + (fuel - 3))%nat by lia.
    destruct (Hloop (fuel - 3)%nat (mo_radius (mobjs w mo))
                (upd_slide (set_slidemo (Some mo)) w)) as (w' & Hf & H3).
    by rewrite Hf, H3.
  - unfold P_SlideMove, slide_or_stairstep. cbv zeta. cbn [P_SlideMove_loop].
    rewrite slide_pass_attempt by done. change (sub32 3 1) with 2.
    destruct (slide_attempt mo _ _) as [w1|w1|w1|w1];
      rewrite ?stairstep_try_y_then_x; try done.
    rewrite slide_pass_attempt by done. change (sub32 2 1) with 1.
    destruct (slide_attempt mo _ w1) as [w2|w2|w2|w2];
      rewrite ?slide_pass_last, ?stairstep_try_y_then_x; done.
  - intros w1. split; [apply stairstep_try_y_then_x|]. cbv zeta.
    unfold try_y_then_x. cbv zeta. split.
    + by intros ->.
    + intros Hf. rewrite Hf.
      destruct (P_TryMove_refused_place mo mo _ _ true w1 Hf) as [-> ->]. done.
Qed.

End SLIDE.

(** ** Walks over the blockmap *)

Section BLOCKS.
Context {E : engine}.

(** The things the blockmap holds for the cells [xl..xh] x [yl..yh], in
    the order in which P_TeleportMove and P_CheckPosition walk them. *)
Definition cell_things (w : world) (bx by_ : Z) : list mobj_id :=
  if decide (bx < 0 \/ by_ < 0 \/ bmapwidth <= bx \/ bmapheight <= by_) then []
  else blocklinks w bx by_.

Definition block_things (w : world) (xl xh yl yh : Z) : list mobj_id :=
  bx ← int_range xl xh; by_ ← int_range yl yh; cell_things w bx by_.

(** The things in the cells that a box extended by MAXRADIUS touches. *)
Definition things_near (w : world) (box : bbox_t) : list mobj_id :=
  block_things w
    (P_GetSafeBlockX (sub32 (sub32 (BOXLEFT box) bmaporgx) MAXRADIUS))
    (P_GetSafeBlockX (add32 (sub32 (BOXRIGHT box) bmaporgx) MAXRADIUS))
    (P_GetSafeBlockY (sub32 (sub32 (BOXBOTTOM box) bmaporgy) MAXRADIUS))
    (P_GetSafeBlockY (add32 (sub32 (BOXTOP box) bmaporgy) MAXRADIUS)).

Lemma P_BlockThingsIterator_cell bx by_ func w :
  P_BlockThingsIterator bx by_ func w = iterate func (cell_things w bx by_) w.
Proof. unfold P_BlockThingsIterator, cell_things. by case_decide. Qed.

(** A callback that does not relink things sees, cell after cell, the
    things the blockmap held at the start. *)
Lemma things_walk func xl xh yl yh w :
  (forall t w, blocklinks (snd (func t w)) = blocklinks w) ->
  for_each_block xl xh yl yh (fun bx by_ => P_BlockThingsIterator bx by_ func) w =
  iterate func (block_things w xl xh yl yh) w.
Proof.
  intros Hlinks. unfold for_each_block, block_things.
  assert (forall l w0, blocklinks (snd (iterate func l w0)) = blocklinks w0) as Hit.
  { intros l w0. apply (iterate_rel (fun w w' => blocklinks w' = blocklinks w));
      [done|congruence|auto]. }
  assert (forall bx ys w0 w1, blocklinks w1 = blocklinks w0 ->
            iterate (fun by_ => P_BlockThingsIterator bx by_ func) ys w1 =
            iterate func (by_ ← ys; cell_things w0 bx by_) w1) as Hrow.
  { intros bx ys w0. induction ys as [|by_ ys IH]; intros w1 Hw1; [done|].
    cbn [iterate mbind list_bind]. rewrite iterate_app.
    rewrite P_BlockThingsIterator_cell.
    assert (cell_things w1 bx by_ = cell_things w0 bx by_) as ->
      by (unfold cell_things; by rewrite Hw1).
    destruct (iterate func (cell_things w0 bx by_) w1) as [[] w2] eqn:Hc; cbn [fst snd]; [|done].
    apply IH. rewrite <- Hw1. rewrite <- (Hit (cell_things w0 bx by_) w1). by rewrite Hc. }
  generalize (int_range yl yh). intros ys.
  assert (forall xs w1, blocklinks w1 = blocklinks w ->
            iterate (fun bx => iterate (fun by_ => P_BlockThingsIterator bx by_ func) ys) xs w1 =
            iterate func (bx ← xs; by_ ← ys; cell_things w bx by_) w1) as Hall.
  { induction xs as [|bx xs IH]; intros w1 Hw1; [done|].
    cbn [iterate mbind list_bind]. rewrite iterate_app.
    rewrite (Hrow bx ys w w1 Hw1).
    destruct (iterate func (by_ ← ys; cell_things w bx by_) w1) as [[] w2] eqn:Hc;
      cbn [fst snd]; [|done].
    apply IH. rewrite <- Hw1. rewrite <- (Hit (by_ ← ys; cell_things w bx by_) w1).
    by rewrite Hc. }
  by apply Hall.
Qed.


End BLOCKS.

(** ** Teleport moves *)

(** Only calls into other translation units were added. *)
Record only_events (w w' : world) : Prop := {
  oe_mobjs : mobjs w' = mobjs w;
  oe_players : players w' = players w;
  oe_sectors : sectors w' = sectors w;
  oe_mem : mem w' = mem w;
  oe_tm : tm w' = tm w;
  oe_cv : cv w' = cv w;
  oe_blocklinks : blocklinks w' = blocklinks w;
  oe_events : exists evs, events w' = events w ++ evs
}.

#[global] Instance only_events_preorder : PreOrder only_events.
Proof.
  split.
  - intros w. split; try done. exists []. by rewrite app_nil_r.
  - intros w1 w2 w3 [? ? ? ? ? ? ? [e1 He1]] [? ? ? ? ? ? ? [e2 He2]].
    split; try (etrans; eauto; fail).
    exists (e1 ++ e2). by rewrite He2, He1, app_assoc.
Qed.

Lemma only_events_emit e w : only_events w (emit e w).
Proof. split; try done. by exists [e]. Qed.

#[global] Hint Resolve only_events_emit : frame.

Lemma only_events_elem e w w' : only_events w w' -> e ∈ events w -> e ∈ events w'.
Proof. intros [_ _ _ _ _ _ _ [evs ->]] He. set_solver. Qed.


Section TELEPORT.
Context {E : engine}.

Lemma PIT_StompThing_only_events t w : only_events w (snd (PIT_StompThing t w)).
Proof. unfold PIT_StompThing. frame. Qed.

Lemma PIT_StompThing_blocklinks t w :
  blocklinks (snd (PIT_StompThing t w)) = blocklinks w.
Proof. apply (oe_blocklinks _ _ (PIT_StompThing_only_events t w)). Qed.

(** With telefragging allowed PIT_StompThing never stops the walk. *)
Lemma PIT_StompThing_telefrag t w :
  telefrag (tm w) = true -> fst (PIT_StompThing t w) = true.
Proof.
  intros Ht. unfold PIT_StompThing. cbv zeta. rewrite Ht. cbn [negb].
  repeat lazymatch goal with
    | |- fst (if ?c then _ else _) = true => destruct c
    end; done.
Qed.

(** Without it PIT_StompThing writes nothing. *)
Lemma PIT_StompThing_no_telefrag t w :
  telefrag (tm w) = false -> snd (PIT_StompThing t w) = w.
Proof.
  intros Ht. unfold PIT_StompThing. cbv zeta. rewrite Ht. cbn [negb].
  repeat lazymatch goal with
    | |- snd (if ?c then _ else _) = w => destruct c
    end; done.
Qed.




(** With telefragging allowed the walk runs to its end and only adds calls. *)
Lemma stomp_walk_runs l w :
  telefrag (tm w) = true ->
  fst (iterate PIT_StompThing l w) = true
  /\ only_events w (snd (iterate PIT_StompThing l w)).
Proof.
  revert w. induction l as [|t l IH]; intros w Htele; [done|].
  cbn [iterate].
  pose proof (PIT_StompThing_telefrag t w Htele) as Ht.
  pose proof (PIT_StompThing_only_events t w) as Ho.
  destruct (PIT_StompThing t w) as [b w']. cbn [fst snd] in *. subst b.
  destruct (IH w') as [? ?]; [by rewrite (oe_tm _ _ Ho)|].
  split; [done|by etrans].
Qed.



Lemma stomp_setup_spec thing x y z boss w :
  let w' := stomp_setup thing x y z boss w in
  mobjs w' = mobjs w /\ events w' = events w /\ blocklinks w' = blocklinks w
  /\ cv w' = cv w
  /\ tmthing (tm w') = Some thing /\ tmx (tm w') = x /\ tmy (tm w') = y /\ tmz (tm w') = z
  /\ tmbbox (tm w') = box_around x y (mo_radius (mobjs w thing))
  /\ telefrag (tm w') =
       (bool_decide (is_Some (mo_player (mobjs w thing))) || boss
        || (bool_decide (gamemap (cv w) = 30) && telefragonmap30 (cv w))).
Proof. done. Qed.

Lemma stomp_things_walk w :
  stomp_things w = iterate PIT_StompThing (things_near w (tmbbox (tm w))) w.
Proof.
  unfold stomp_things, things_near. cbv zeta.
  apply things_walk. apply PIT_StompThing_blocklinks.
Qed.



End TELEPORT.

(** ** Radius attacks *)

(** What a radius attack leaves alone: the map objects up to the nudge
    counter of the blast, the sectors, the blockmap lists, the settings. *)
Record blast_frame (w w' : world) : Prop := {
  bf_bodies : forall m, set_mo_nudge 0 (mobjs w' m) = set_mo_nudge 0 (mobjs w m);
  bf_sectors : sectors w' = sectors w;
  bf_cv : cv w' = cv w;
  bf_blocklinks : blocklinks w' = blocklinks w
}.

#[global] Instance blast_frame_preorder : PreOrder blast_frame.
Proof.
  split.
  - intros w. by split.
  - intros w1 w2 w3 [] []. split; intros; etrans; eauto.
Qed.

Lemma bf_upd_mobj p f w :
  (forall mo, set_mo_nudge 0 (f mo) = set_mo_nudge 0 mo) -> blast_frame w (upd_mobj p f w).
Proof.
  intros Hf. split; try done. intros m. simpl.
  unfold insert, fn_insert. case_decide; [subst; apply Hf|done].
Qed.

#[global] Hint Extern 1 (blast_frame _ (upd_mobj _ _ _)) =>
  apply bf_upd_mobj; intros; reflexivity : frame.
#[global] Hint Extern 5 (blast_frame _ _) => split; reflexivity : frame.

(** The amounts of the P_DamageMobj calls that target [thing], in order. *)
Definition damage_to (thing : mobj_id) (evs : list event) : list Z :=
  omap (fun e => match e with
                 | P_DamageMobj target _ _ damage _ =>
                     if decide (target = thing) then Some damage else None
                 | _ => None
                 end) evs.

Lemma damage_to_app thing evs1 evs2 :
  damage_to thing (evs1 ++ evs2) = damage_to thing evs1 ++ damage_to thing evs2.
Proof. apply omap_app. Qed.




Section RADIUS.
Context {E : engine}.

(** The things P_RadiusAttack hands to PIT_RadiusAttack, in order: row
    after row of the blockmap cells within [(damage + MAXRADIUS) << FRACBITS]
    of the blast, the distance being computed in 32 bits as the code does
    (with MAXRADIUS = 32 * FRACUNIT the sum wraps to damage << FRACBITS). *)
Definition radius_things (w : world) (spot : mobj_id) (damage : Z) : list mobj_id :=
  let dist := shl32 (add32 damage MAXRADIUS) FRACBITS in
  let xh := P_GetSafeBlockX (sub32 (add32 (mo_x (mobjs w spot)) dist) bmaporgx) in
  let xl := P_GetSafeBlockX (sub32 (sub32 (mo_x (mobjs w spot)) dist) bmaporgx) in
  let yh := P_GetSafeBlockY (sub32 (add32 (mo_y (mobjs w spot)) dist) bmaporgy) in
  let yl := P_GetSafeBlockY (sub32 (sub32 (mo_y (mobjs w spot)) dist) bmaporgy) in
  by_ ← int_range yl yh; bx ← int_range xl xh; cell_things w bx by_.

Lemma bf_count_shot_hit w : blast_frame w (count_shot_hit w).
Proof. by split. Qed.

Lemma bf_emit e w : blast_frame w (emit e w).
Proof. by split. Qed.

#[local] Hint Resolve bf_count_shot_hit bf_emit : frame.

Lemma PIT_RadiusAttack_frame thing w : blast_frame w (snd (PIT_RadiusAttack thing w)).
Proof. unfold PIT_RadiusAttack. frame. Qed.

Lemma PIT_RadiusAttack_bomb thing w : bomb (snd (PIT_RadiusAttack thing w)) = bomb w.
Proof.
  set (R := fun w w' : world => bomb w' = bomb w).
  change (R w (snd (PIT_RadiusAttack thing w))).
  unfold PIT_RadiusAttack. cbv zeta.
  repeat lazymatch goal with
    | |- _ _ (snd (_, _)) => cbn [snd]
    | |- _ _ (snd (if ?c then _ else _)) => destruct c
    | |- _ _ (snd (match ?c with _ => _ end)) => destruct c
    | |- _ _ (if ?c then _ else _) => destruct c
    end; subst R; simpl; try done; by case_decide.
Qed.

Lemma PIT_RadiusAttack_true thing w : fst (PIT_RadiusAttack thing w) = true.
Proof.
  unfold PIT_RadiusAttack. cbv zeta.
  repeat lazymatch goal with
    | |- fst (if ?c then _ else _) = true => destruct c
    | |- fst (match ?c with _ => _ end) = true => destruct c
    end; done.
Qed.



Lemma MAX_le_l a b : a <= MAX a b.
Proof. unfold MAX. case_decide; lia. Qed.


(** A call of PIT_RadiusAttack makes at most one call of P_DamageMobj, on
    the thing it was handed. *)
Lemma PIT_RadiusAttack_events thing w :
  events (snd (PIT_RadiusAttack thing w)) = events w
  \/ exists inflictor source damage adjust,
       events (snd (PIT_RadiusAttack thing w)) =
       events w ++ [P_DamageMobj thing inflictor source damage adjust].
Proof.
  unfold PIT_RadiusAttack. cbv zeta.
  repeat lazymatch goal with
    | |- context [snd (_, _)] => cbn [snd]
    | |- context [snd (if ?c then _ else _)] => destruct c
    | |- context [snd (match ?c with _ => _ end)] => destruct c
    end; try (by left); right; do 4 eexists; simpl; repeat case_match; done.
Qed.

Lemma PIT_RadiusAttack_other thing t w :
  t <> thing ->
  damage_to thing (events (snd (PIT_RadiusAttack t w))) = damage_to thing (events w).
Proof.
  intros Hne. destruct (PIT_RadiusAttack_events t w) as [->|(? & ? & ? & ? & ->)]; [done|].
  rewrite damage_to_app. simpl. rewrite decide_False by done. apply app_nil_r.
Qed.



Lemma iterate_PIT_RadiusAttack_true l w : fst (iterate PIT_RadiusAttack l w) = true.
Proof. apply iterate_all_true, PIT_RadiusAttack_true. Qed.

Lemma iterate_PIT_RadiusAttack_frame l w :
  blast_frame w (snd (iterate PIT_RadiusAttack l w)).
Proof.
  apply (iterate_rel blast_frame); [done|apply PreOrder_Transitive|].
  intros. apply PIT_RadiusAttack_frame.
Qed.

Lemma iterate_PIT_RadiusAttack_app l1 l2 w :
  snd (iterate PIT_RadiusAttack (l1 ++ l2) w) =
  snd (iterate PIT_RadiusAttack l2 (snd (iterate PIT_RadiusAttack l1 w))).
Proof. by rewrite iterate_app, iterate_PIT_RadiusAttack_true. Qed.

(** The scan hands PIT_RadiusAttack, row after row, the things the blockmap
    held at the start. *)
Lemma radius_scan_walk xl xh yl yh w :
  radius_scan xl xh yl yh w =
  snd (iterate PIT_RadiusAttack
         (by_ ← int_range yl yh; bx ← int_range xl xh; cell_things w bx by_) w).
Proof.
  unfold radius_scan. generalize (int_range xl xh) (int_range yl yh). intros xs ys.
  assert (forall by_ xs w1, blocklinks w1 = blocklinks w ->
            fold_left (fun w x => snd (P_BlockThingsIterator x by_ PIT_RadiusAttack w)) xs w1 =
            snd (iterate PIT_RadiusAttack (bx ← xs; cell_things w bx by_) w1)) as Hrow.
  { intros by_ xs'. induction xs' as [|bx xs' IH]; intros w1 Hw1; [done|].
    cbn [fold_left mbind list_bind]. rewrite iterate_PIT_RadiusAttack_app.
    rewrite P_BlockThingsIterator_cell.
    assert (cell_things w1 bx by_ = cell_things w bx by_) as ->
      by (unfold cell_things; by rewrite Hw1).
    apply IH. rewrite <- Hw1. apply (bf_blocklinks _ _ (iterate_PIT_RadiusAttack_frame _ _)). }
  assert (forall w1, blocklinks w1 = blocklinks w ->
            fold_left
              (fun w y => fold_left
                  (fun w x => snd (P_BlockThingsIterator x y PIT_RadiusAttack w)) xs w)
              ys w1 =
            snd (iterate PIT_RadiusAttack (by_ ← ys; bx ← xs; cell_things w bx by_) w1)) as Hall.
  { induction ys as [|by_ ys IH]; intros w1 Hw1; [done|].
    cbn [fold_left mbind list_bind]. rewrite iterate_PIT_RadiusAttack_app.
    rewrite (Hrow by_ xs w1 Hw1).
    apply IH. rewrite <- Hw1. apply (bf_blocklinks _ _ (iterate_PIT_RadiusAttack_frame _ _)). }
  by apply Hall.
Qed.




Lemma radius_walk_miss thing l w :
  thing ∉ l ->
  damage_to thing (events (snd (iterate PIT_RadiusAttack l w))) = damage_to thing (events w).
Proof.
  revert w. induction l as [|t l IH]; intros w Hnin; [done|].
  apply not_elem_of_cons in Hnin as [Hne Hnin].
  cbn [iterate].
  pose proof (PIT_RadiusAttack_true t w) as Ht.
  pose proof (PIT_RadiusAttack_other thing t w ltac:(done)) as Ho.
  destruct (PIT_RadiusAttack t w) as [b w']. cbn [fst snd] in *. subst b.
  by rewrite IH.
Qed.



Lemma P_RadiusAttack_walk spot source damage verticality w :
  exists w0,
    P_RadiusAttack spot source damage verticality w =
      snd (iterate PIT_RadiusAttack (radius_things w spot damage) w0)
    /\ blast_frame w w0 /\ mobjs w0 = mobjs w /\ events w0 = events w
    /\ bomb w0 = {| bombsource := source; bombspot := Some spot; bombdamage := damage;
                    bombverticality := verticality |}.
Proof.
  unfold P_RadiusAttack. cbv zeta.
  match goal with |- context [radius_scan _ _ _ _ ?W] => exists W end.
  split; [|done]. by rewrite radius_scan_walk.
Qed.


End RADIUS.

(** ** Friction *)

Section FRICTION.
Context {E : engine}.

(** The node's sector has friction enabled and its floor, or that of its
    height sector, is not below the thing. *)
Definition friction_applies (w : world) (mo : mobj_id) (m : node_id) : bool :=
  let sec := sectors w (m_sector (node w m)) in
  tst (sec_special sec) FRICTION_MASK
  && (bool_decide (mo_z (mobjs w mo) <= sec_floorheight sec)
      || match sec_heightsec sec with
         | Some hs => bool_decide (mo_z (mobjs w mo) <= sec_floorheight (sectors w hs))
         | None => false
         end).

(** The friction values of the sectors on the thing's thread to which
    friction applies, in thread order. *)
Definition friction_regions (w : world) (mo : mobj_id) : list Z :=
  (fun m => sec_friction (sectors w (m_sector (node w m))))
    <$> filter (fun m => friction_applies w mo m = true)
          (tthread w (mo_touching_sectorlist (mobjs w mo))).

(** [f] is the lowest value of [l], or the default if [l] is empty. *)
Definition lowest_of (l : list Z) (f : Z) : Prop :=
  match l with
  | [] => f = ORIG_FRICTION
  | _ => f ∈ l /\ forall g, g ∈ l -> f <= g
  end.

Lemma lowest_of_cons a l f :
  lowest_of (a :: l) f <-> f ∈ a :: l /\ forall g, g ∈ a :: l -> f <= g.
Proof. done. Qed.

Lemma lowest_of_snoc l f g :
  lowest_of l f -> (l <> [] -> f <> ORIG_FRICTION) ->
  lowest_of (l ++ [g]) (if bool_decide (g < f) || bool_decide (f = ORIG_FRICTION) then g else f).
Proof.
  destruct l as [|a l].
  - simpl. intros -> _. rewrite (bool_decide_eq_true_2 (ORIG_FRICTION = ORIG_FRICTION)) by done.
    rewrite orb_true_r. split; [by left|]. intros ? ->%list_elem_of_singleton. done.
  - intros [Hin Hlow] Hne. rewrite (bool_decide_eq_false_2 (f = ORIG_FRICTION)) by auto.
    rewrite orb_false_r. rewrite <- app_comm_cons. apply lowest_of_cons.
    rewrite app_comm_cons.
    case_bool_decide.
    + split; [set_solver|]. intros h [Hh| ->%list_elem_of_singleton]%elem_of_app; [|done].
      specialize (Hlow h Hh). lia.
    + split; [set_solver|]. intros h [Hh| ->%list_elem_of_singleton]%elem_of_app; [auto|lia].
Qed.

(** If no sector to which friction applies has the default friction itself,
    P_GetFriction returns the lowest friction among those sectors, and the
    default if there is none. *)
Lemma P_GetFriction_lowest mo w :
  tst (mo_flags (mobjs w mo)) (Z.lor MF_NOCLIP MF_NOGRAVITY) = false ->
  (forall f, f ∈ friction_regions w mo -> f <> ORIG_FRICTION) ->
  lowest_of (friction_regions w mo) (fst (P_GetFriction mo w)).
Proof.
  intros Hclip. unfold P_GetFriction, friction_regions. rewrite Hclip.
  generalize (tthread w (mo_touching_sectorlist (mobjs w mo))). intros l.
  induction l as [|m l IH] using rev_ind; intros Hne; [done|].
  rewrite fold_left_app, filter_app, fmap_app in *. cbn [fold_left].
  specialize (IH ltac:(intros f Hf; apply Hne, elem_of_app; by left)).
  destruct (fold_left _ l _) as [fr mf]. cbn [fst] in *.
  set (L := _ <$> filter _ l) in *.
  assert (L <> [] -> fr <> ORIG_FRICTION) as Hfr.
  { intros HL. apply Hne, elem_of_app. left.
    destruct L; [done|]. by apply lowest_of_cons in IH as [? _]. }
  rewrite filter_cons, filter_nil.
  destruct (friction_applies w mo m) eqn:Happ.
  - rewrite decide_True by done.
    unfold friction_applies in Happ. cbv zeta in Happ.
    apply andb_true_iff in Happ as [-> ->]. rewrite andb_true_r. cbn [andb fmap list_fmap].
    pose proof (lowest_of_snoc L fr (sec_friction (sectors w (m_sector (node w m)))) IH Hfr)
      as Hs.
    by destruct (_ || _).
  - rewrite decide_False by done. cbn [fmap list_fmap]. rewrite app_nil_r.
    unfold friction_applies in Happ. cbv zeta in Happ.
    apply andb_false_iff in Happ as [-> | ->]; [done|].
    by rewrite andb_false_r.
Qed.

End FRICTION.

(** A sector with friction enabled, its floor at height 0. *)
Definition friction_sector (friction : Z) : sector_t :=
  {| sec_floorheight := 0; sec_ceilingheight := fx 128; sec_special := 256;
     sec_friction := friction; sec_movefactor := 2048; sec_heightsec := None;
     sec_terraintype := SOLID; sec_touching_thinglist := None |}.

(** A thing standing at height 0 whose thread lists sector [a], then
    sector [b].  Sector 3 has friction enabled at the default value 59392,
    every other sector is icy (61440). *)
Definition friction_world (a b : sector_id) : world :=
  set_sectors
    (fun s => if decide (s = 3%nat) then friction_sector 59392 else friction_sector 61440)
    (set_mem
       {| nodes := fun n =>
            if decide (n = 0%nat)
            then {| m_sector := a; m_thing := Some 1%nat; m_tprev := None;
                    m_tnext := Some 1%nat; m_sprev := None; m_snext := None;
                    visited := false |}
            else {| m_sector := b; m_thing := Some 1%nat; m_tprev := Some 0%nat;
                    m_tnext := None; m_sprev := None; m_snext := None;
                    visited := false |};
          headsecnode := None; numsecnodes := 2; sector_list := None |}
       (demo_world
          (fun _ => set_mo_touching_sectorlist (Some 0%nat) (demo_mobj 0 0 6 None))
          (fun _ _ => []))).

(** C9 (lowest friction, whatever the order of the thread).  P_GetFriction
    does not return the lowest friction when a sector with friction enabled
    at the default value comes before an icy one: the thing touches the same
    two sectors in both worlds, friction 59392 and friction 61440; with the
    icy sector last the result is 61440, with the icy sector first it is
    59392. *)
Theorem P_GetFriction_order_dependent :
  friction_regions (E := demo_engine) (friction_world 3%nat 4%nat) 1%nat = [59392; 61440]
  /\ friction_regions (E := demo_engine) (friction_world 4%nat 3%nat) 1%nat = [61440; 59392]
  /\ fst (P_GetFriction (E := demo_engine) 1%nat (friction_world 3%nat 4%nat)) = 61440
  /\ fst (P_GetFriction (E := demo_engine) 1%nat (friction_world 4%nat 3%nat)) = 59392.
Proof. split_and!; vm_compute; reflexivity. Qed.

(** ** Sector nodes *)

(** What the node operations leave alone: everything but the node store,
    the free list and the heads of the sector threads. *)
Record heap_frame (w w' : world) : Prop := {
  hf_mobjs : mobjs w' = mobjs w;
  hf_players : players w' = players w;
  hf_sectors : forall s, set_sec_touching_thinglist None (sectors w' s)
                         = set_sec_touching_thinglist None (sectors w s);
  hf_tm : tm w' = tm w;
  hf_cv : cv w' = cv w;
  hf_validcount : validcount w' = validcount w;
  hf_line_validcount : line_validcount w' = line_validcount w;
  hf_blocklinks : blocklinks w' = blocklinks w;
  hf_events : events w' = events w
}.

#[global] Instance heap_frame_preorder : PreOrder heap_frame.
Proof.
  split.
  - intros w. by split.
  - intros w1 w2 w3 [] []. split; intros; etrans; eauto.
Qed.

Lemma hf_upd_mem f w : heap_frame w (upd_mem f w).
Proof. by split. Qed.

Lemma hf_upd_node p f w : heap_frame w (upd_node p f w).
Proof. by split. Qed.

Lemma hf_upd_sector s v w :
  heap_frame w (upd_sector s (set_sec_touching_thinglist v) w).
Proof.
  split; try done. intros s'. simpl. unfold insert, fn_insert. by case_decide; subst.
Qed.

#[global] Hint Resolve hf_upd_mem hf_upd_node hf_upd_sector : frame.
#[global] Hint Extern 5 (heap_frame _ _) => split; reflexivity : frame.

Section SECNODES.
Context {E : engine}.

Lemma hf_P_DelSecnode n w : heap_frame w (snd (P_DelSecnode n w)).
Proof. unfold P_DelSecnode, P_PutSecnode. frame. Qed.

Lemma hf_P_GetSecnode w : heap_frame w (snd (P_GetSecnode w)).
Proof. unfold P_GetSecnode. frame. Qed.

Lemma hf_P_AddSecnode s thing nextnode w :
  heap_frame w (snd (P_AddSecnode s thing nextnode w)).
Proof.
  unfold P_AddSecnode. destruct (find _ _); [cbn [snd]; auto with frame|].
  pose proof (hf_P_GetSecnode w) as Hg.
  destruct (P_GetSecnode w) as [n w0]. cbn [snd] in Hg.
  etrans; [exact Hg|]. clear Hg. generalize dependent w0. intros w0. frame.
Qed.

(** Reading a node after a store. *)
Lemma node_proj_upd {A} (g : msecnode_t -> A) p f w m :
  (forall x, g (f x) = g x) -> g (node (upd_node p f w) m) = g (node w m).
Proof.
  intros Hf. unfold node, upd_node. simpl. unfold insert, fn_insert.
  case_decide; [subst; apply Hf|done].
Qed.

Lemma node_proj_upd_at {A} (g : msecnode_t -> A) p f w m :
  g (node (upd_node p f w) m) = if decide (m = p) then g (f (node w m)) else g (node w m).
Proof.
  unfold node, upd_node. simpl. unfold insert, fn_insert.
  repeat case_decide; by subst.
Qed.

Lemma sectors_upd_sector_at {A} (g : sector_t -> A) s f w s' :
  g (sectors (upd_sector s f w) s') =
  if decide (s' = s) then g (f (sectors w s')) else g (sectors w s').
Proof.
  unfold upd_sector. simpl. unfold insert, fn_insert. repeat case_decide; by subst.
Qed.

Ltac node_fields :=
  repeat match goal with
    | |- context [?g (node (upd_node ?p ?f ?w) ?m)] =>
        first [rewrite (node_proj_upd g p f w m) by (intros; reflexivity)
              |rewrite (node_proj_upd_at g p f w m); cbn [m_sector m_thing m_tprev m_tnext
                 m_sprev m_snext set_m_sector set_m_thing set_m_tprev set_m_tnext
                 set_m_sprev set_m_snext]]
    | |- context [node (upd_sector ?s ?f ?w)] =>
        change (node (upd_sector s f w)) with (node w)
    | |- context [node (upd_mem (set_headsecnode ?v) ?w)] =>
        change (node (upd_mem (set_headsecnode v) w)) with (node w)
    | |- context [node (upd_mem (set_numsecnodes ?v) ?w)] =>
        change (node (upd_mem (set_numsecnodes v) w)) with (node w)
    | |- context [node (upd_mem (set_sector_list ?v) ?w)] =>
        change (node (upd_mem (set_sector_list v) w)) with (node w)
    | |- context [sectors (upd_node ?p ?f ?w)] =>
        change (sectors (upd_node p f w)) with (sectors w)
    | |- context [sectors (upd_mem ?f ?w)] =>
        change (sectors (upd_mem f w)) with (sectors w)
    | |- context [?g (sectors (upd_sector ?s ?f ?w) ?s')] =>
        rewrite (sectors_upd_sector_at g s f w s'); cbn [sec_touching_thinglist
          set_sec_touching_thinglist]
    end.

(** The links P_DelSecnode leaves behind, field by field. *)
Lemma P_DelSecnode_fields n w :
  let w' := snd (P_DelSecnode n w) in
  let tp := m_tprev (node w n) in
  let tn := m_tnext (node w n) in
  let sp := m_sprev (node w n) in
  let sn := m_snext (node w n) in
  fst (P_DelSecnode n w) = tn
  /\ (forall m,
        m_sector (node w' m) = m_sector (node w m)
        /\ m_thing (node w' m) = m_thing (node w m)
        /\ m_tnext (node w' m) = (if decide (Some m = tp) then tn else m_tnext (node w m))
        /\ m_tprev (node w' m) = (if decide (Some m = tn) then tp else m_tprev (node w m))
        /\ m_sprev (node w' m) = (if decide (Some m = sn) then sp else m_sprev (node w m))
        /\ m_snext (node w' m) =
             (if decide (m = n) then headsecnode (mem w)
              else if decide (Some m = sp) then sn else m_snext (node w m)))
  /\ (forall s, sec_touching_thinglist (sectors w' s) =
                if decide (sp = None /\ s = m_sector (node w n)) then sn
                else sec_touching_thinglist (sectors w s))
  /\ headsecnode (mem w') = Some n
  /\ numsecnodes (mem w') = numsecnodes (mem w)
  /\ sector_list (mem w') = sector_list (mem w).
Proof.
  unfold P_DelSecnode, P_PutSecnode. cbv zeta. cbn [fst snd].
  destruct (m_tprev (node w n)) as [tp|] eqn:Htp,
           (m_tnext (node w n)) as [tn|] eqn:Htn; node_fields.
  all: destruct (m_sprev (node w n)) as [sp|] eqn:Hsp,
                (m_snext (node w n)) as [sn|] eqn:Hsn.
  all: split; [done|]. 
  all: split; [intros m; split_and!; node_fields;
               repeat case_decide; subst; try congruence; reflexivity|].
  all: split; [intros s; node_fields; repeat case_decide; subst; try congruence; naive_solver|].
  all: done.
Qed.

(** The node P_GetSecnode hands out. *)
Definition fresh_node (w : world) : node_id :=
  match headsecnode (mem w) with Some f => f | None => numsecnodes (mem w) end.

Lemma P_AddSecnode_found s thing nextnode w n :
  find (fun n => bool_decide (m_sector (node w n) = s)) (tthread w nextnode) = Some n ->
  P_AddSecnode s thing nextnode w = (nextnode, upd_node n (set_m_thing (Some thing)) w).
Proof. intros Hf. unfold P_AddSecnode. by rewrite Hf. Qed.

(** The links P_AddSecnode leaves behind when it adds a node. *)
Lemma P_AddSecnode_fields s thing nextnode w :
  find (fun n => bool_decide (m_sector (node w n) = s)) (tthread w nextnode) = None ->
  let w' := snd (P_AddSecnode s thing nextnode w) in
  let n := fresh_node w in
  let sh := sec_touching_thinglist (sectors w s) in
  fst (P_AddSecnode s thing nextnode w) = Some n
  /\ (forall m,
        m_sector (node w' m) = (if decide (m = n) then s else m_sector (node w m))
        /\ m_thing (node w' m) = (if decide (m = n) then Some thing else m_thing (node w m))
        /\ m_tnext (node w' m) = (if decide (m = n) then nextnode else m_tnext (node w m))
        /\ m_tprev (node w' m) =
             (if decide (Some m = nextnode) then Some n
              else if decide (m = n) then None else m_tprev (node w m))
        /\ m_sprev (node w' m) =
             (if decide (Some m = sh) then Some n
              else if decide (m = n) then None else m_sprev (node w m))
        /\ m_snext (node w' m) = (if decide (m = n) then sh else m_snext (node w m)))
  /\ (forall s', sec_touching_thinglist (sectors w' s') =
                 if decide (s' = s) then Some n else sec_touching_thinglist (sectors w s'))
  /\ headsecnode (mem w') =
       match headsecnode (mem w) with Some f => m_snext (node w f) | None => None end
  /\ numsecnodes (mem w') =
       match headsecnode (mem w) with
       | Some _ => numsecnodes (mem w)
       | None => S (numsecnodes (mem w))
       end
  /\ sector_list (mem w') = sector_list (mem w).
Proof.
  intros Hf. unfold P_AddSecnode, P_GetSecnode, fresh_node. rewrite Hf. cbv zeta.
  destruct (headsecnode (mem w)) as [f|] eqn:Hfree; cbn [fst snd].
  all: destruct nextnode as [nn|]; node_fields.
  all: destruct (sec_touching_thinglist (sectors w s)) as [sh|] eqn:Hsh;
    rewrite ?decide_True by done; node_fields.
  all: split; [done|].
  all: split; [intros m; split_and!; node_fields;
               repeat case_decide; subst; try congruence; reflexivity|].
  all: split; [intros s'; node_fields; repeat case_decide; subst; try congruence;
               naive_solver|].
  all: done.
Qed.

End SECNODES.

(** *** Threads as lists *)

(** [l] is doubly linked: each node points back to the node before it
    ([before] for the first) and on to the node after it. *)
Fixpoint dlist (prev next : node_id -> option node_id) (before : option node_id)
  (l : list node_id) : Prop :=
  match l with
  | [] => True
  | n :: l' => prev n = before /\ next n = head l' /\ dlist prev next (Some n) l'
  end.

(** [l] is singly linked. *)
Fixpoint slist (next : node_id -> option node_id) (l : list node_id) : Prop :=
  match l with
  | [] => True
  | n :: l' => next n = head l' /\ slist next l'
  end.

(** The node before the middle of [l1 ++ n :: l2]. *)
Definition before_mid (before : option node_id) (l1 : list node_id) : option node_id :=
  match last l1 with Some p => Some p | None => before end.

Lemma dlist_slist prev next before l : dlist prev next before l -> slist next l.
Proof.
  revert before. induction l as [|n l IH]; intros before; [done|].
  intros (_ & ? & ?). split; eauto.
Qed.

Lemma slist_walk next l (fuel : nat) :
  slist next l -> (length l <= fuel)%nat -> walk fuel next (head l) = l.
Proof.
  revert fuel. induction l as [|n l IH]; intros fuel Hl Hlen.
  - by destruct fuel.
  - destruct fuel as [|fuel]; simpl in *; [lia|].
    destruct Hl as [-> Hl]. f_equal. apply IH; [done|lia].
Qed.

Lemma dlist_ext prev next prev' next' before l :
  (forall m, m ∈ l -> prev' m = prev m /\ next' m = next m) ->
  dlist prev next before l -> dlist prev' next' before l.
Proof.
  revert before. induction l as [|n l IH]; intros before Hext; [done|].
  intros (Hp & Hn & Hl). destruct (Hext n ltac:(left)) as [Hp' Hn'].
  simpl. rewrite Hp', Hn'. split_and!; [done..|]. apply IH; [|done]. intros m Hm. apply Hext. by right.
Qed.

Lemma slist_ext next next' l :
  (forall m, m ∈ l -> next' m = next m) -> slist next l -> slist next' l.
Proof.
  induction l as [|n l IH]; intros Hext; [done|].
  intros (Hn & Hl). simpl. rewrite (Hext n ltac:(left)).
  split; [done|]. apply IH; [|done]. intros m Hm. apply Hext. by right.
Qed.

Lemma before_mid_cons before a l1 :
  before_mid before (a :: l1) = before_mid (Some a) l1.
Proof. unfold before_mid. rewrite last_cons. by destruct (last l1). Qed.

Lemma dlist_mid prev next before l1 n l2 :
  dlist prev next before (l1 ++ n :: l2) ->
  prev n = before_mid before l1 /\ next n = head l2.
Proof.
  revert before. induction l1 as [|a l1 IH]; intros before.
  - by intros (? & ? & _).
  - intros (_ & _ & Hl). destruct (IH _ Hl) as [-> ->].
    by rewrite before_mid_cons.
Qed.

Lemma before_mid_elem before l1 p :
  before_mid before l1 = Some p -> (l1 = [] /\ before = Some p) \/ p ∈ l1.
Proof.
  unfold before_mid. destruct (last l1) as [q|] eqn:Hq.
  - intros [= <-]. right. apply last_Some in Hq as [l' ->].
    apply elem_of_app. right. by left.
  - apply last_None in Hq as ->. by left.
Qed.

(** Unlinking the middle node of a doubly linked list. *)
Lemma dlist_delete prev next prev' next' before l1 n l2 :
  NoDup (l1 ++ n :: l2) ->
  (forall x, before = Some x -> x ∉ l1 ++ n :: l2) ->
  dlist prev next before (l1 ++ n :: l2) ->
  (forall m, m <> n ->
     next' m = if decide (Some m = prev n) then next n else next m) ->
  (forall m, m <> n ->
     prev' m = if decide (Some m = next n) then prev n else prev m) ->
  dlist prev' next' before (l1 ++ l2).
Proof.
  intros Hnd Hb Hl Hnext Hprev.
  destruct (dlist_mid _ _ _ _ _ _ Hl) as [Hpn Hnn].
  rewrite Hpn, Hnn in *. clear Hpn Hnn.
  revert before Hnd Hb Hl Hnext Hprev.
  induction l1 as [|a l1 IH]; intros before Hnd Hb Hl Hnext Hprev.
  - simpl in *. destruct Hl as (Hp & Hn & Hl).
    apply NoDup_cons in Hnd as [Hn2 Hnd].
    destruct l2 as [|q l3]; [done|].
    destruct Hl as (Hpq & Hnq & Hl3). apply NoDup_cons in Hnd as [Hq3 Hnd].
    assert (q <> n) as Hqn by (intros ->; apply Hn2; by left).
    assert (forall x, before = Some x -> x <> q /\ x ∉ l3) as Hb'.
    { intros x Hx. specialize (Hb x Hx).
      apply not_elem_of_cons in Hb as [_ Hb]. by apply not_elem_of_cons in Hb. }
    unfold before_mid in *. simpl in *. split_and!.
    + rewrite Hprev by done. by rewrite decide_True.
    + rewrite Hnext by done. rewrite decide_False; [done|].
      intros Heq. by destruct (Hb' q).
    + apply (dlist_ext prev next); [|done]. intros m Hm.
      assert (m <> n) by (intros ->; apply Hn2; by right).
      assert (m <> q) by (by intros ->).
      rewrite Hprev, Hnext by done. split.
      * rewrite decide_False; [done|]. congruence.
      * rewrite decide_False; [done|]. intros Heq. by destruct (Hb' m).
  - simpl in Hl. destruct Hl as (Hp & Hn & Hl).
    rewrite <- !app_comm_cons in *.
    apply NoDup_cons in Hnd as [Ha Hnd].
    apply not_elem_of_app in Ha as [Ha1 Ha2].
    apply not_elem_of_cons in Ha2 as [Han Ha2].
    rewrite before_mid_cons in *.
    simpl. split_and!.
    + rewrite Hprev by done. rewrite decide_False; [done|].
      destruct l2; simpl; [done|]. intros [= ->]. apply Ha2. by left.
    + rewrite Hnext by done. destruct l1 as [|c l1].
      * unfold before_mid. simpl. by rewrite decide_True.
      * rewrite decide_False; [by rewrite Hn|].
        intros Heq. symmetry in Heq. by apply before_mid_elem in Heq as [[? _]|Heq].
    + apply IH; try done. intros x [= <-].
      apply not_elem_of_app. split; [done|]. by apply not_elem_of_cons.
Qed.

(** Linking a node in front of a doubly linked list. *)
Lemma dlist_push prev next prev' next' n l :
  n ∉ l -> NoDup l ->
  dlist prev next None l ->
  prev' n = None -> next' n = head l ->
  (forall m, m <> n ->
     next' m = next m
     /\ prev' m = if decide (Some m = head l) then Some n else prev m) ->
  dlist prev' next' None (n :: l).
Proof.
  intros Hn Hnd Hl Hpn Hnn Hext. split_and!; [done..|].
  destruct l as [|q l]; [done|].
  destruct Hl as (Hpq & Hnq & Hl). apply NoDup_cons in Hnd as [Hq Hnd].
  apply not_elem_of_cons in Hn as [Hnq' Hn].
  destruct (Hext q ltac:(done)) as [Hq1 Hq2]. simpl in *.
  rewrite decide_True in Hq2 by done.
  split_and!; [done|congruence|].
  apply (dlist_ext prev next); [|done]. intros m Hm.
  assert (m <> n) by (by intros ->). assert (m <> q) by (by intros ->).
  destruct (Hext m ltac:(done)) as [-> ->].
  rewrite decide_False; [done|]. congruence.
Qed.

Lemma NoDup_bound_length (l : list nat) (k : nat) :
  NoDup l -> (forall n, n ∈ l -> (n < k)%nat) -> (length l <= k)%nat.
Proof.
  intros Hnd Hb.
  assert (l ⊆+ seq 0 k) as Hsub.
  { apply NoDup_submseteq; [done|]. intros n Hn. apply elem_of_seq. specialize (Hb n Hn). lia. }
  apply submseteq_length in Hsub. by rewrite length_seq in Hsub.
Qed.

(** *** The heap of sector nodes *)

Definition tprev (w : world) (n : node_id) : option node_id := m_tprev (node w n).
Definition tnext (w : world) (n : node_id) : option node_id := m_tnext (node w n).
Definition sprev (w : world) (n : node_id) : option node_id := m_sprev (node w n).
Definition snext (w : world) (n : node_id) : option node_id := m_snext (node w n).

(** The heap is well formed for the thing threads [T], the sector threads
    [Sec] and the free list [F]: the threads are doubly linked lists, a
    sector thread starts at the sector's touching_thinglist and holds nodes
    of that sector, the free list starts at headsecnode, no node is on two
    thing threads or on one and the free list, every node was handed out by
    P_GetSecnode, and a node is on a thing thread if and only if it is on
    the thread of its sector. *)
Record heap_ok (w : world) (T : list (list node_id)) (Sec : sector_id -> list node_id)
  (F : list node_id) : Prop := {
  ok_tthreads : forall l, l ∈ T -> dlist (tprev w) (tnext w) None l;
  ok_sthreads : forall s, dlist (sprev w) (snext w) None (Sec s);
  ok_sheads : forall s, sec_touching_thinglist (sectors w s) = head (Sec s);
  ok_snodup : forall s, NoDup (Sec s);
  ok_sector : forall s n, n ∈ Sec s -> m_sector (node w n) = s;
  ok_free : slist (snext w) F;
  ok_fhead : headsecnode (mem w) = head F;
  ok_nodup : NoDup (concat T ++ F);
  ok_bound : forall n, n ∈ concat T ++ F -> (n < numsecnodes (mem w))%nat;
  ok_both : forall n, n ∈ concat T <-> n ∈ Sec (m_sector (node w n))
}.

(** The heap is consistent for the thing threads [T]. *)
Definition consistent (w : world) (T : list (list node_id)) : Prop :=
  exists Sec F, heap_ok w T Sec F.

(** The two worlds have the same links. *)
Record same_links (w w' : world) : Prop := {
  sl_sector : forall m, m_sector (node w' m) = m_sector (node w m);
  sl_tprev : forall m, tprev w' m = tprev w m;
  sl_tnext : forall m, tnext w' m = tnext w m;
  sl_sprev : forall m, sprev w' m = sprev w m;
  sl_snext : forall m, snext w' m = snext w m;
  sl_shead : forall s, sec_touching_thinglist (sectors w' s)
                       = sec_touching_thinglist (sectors w s);
  sl_fhead : headsecnode (mem w') = headsecnode (mem w);
  sl_num : numsecnodes (mem w') = numsecnodes (mem w)
}.

#[global] Instance same_links_preorder : PreOrder same_links.
Proof.
  split.
  - intros w. by split.
  - intros w1 w2 w3 [] []. split; intros; etrans; eauto.
Qed.

Lemma heap_ok_same_links w w' T Sec F :
  same_links w w' -> heap_ok w T Sec F -> heap_ok w' T Sec F.
Proof.
  intros [] []. split.
  - intros l Hl. apply (dlist_ext (tprev w) (tnext w)); auto.
  - intros s. apply (dlist_ext (sprev w) (snext w)); auto.
  - intros s. rewrite sl_shead0. auto.
  - done.
  - intros s n Hn. rewrite sl_sector0. auto.
  - apply (slist_ext (snext w)); auto.
  - by rewrite sl_fhead0.
  - done.
  - intros n Hn. rewrite sl_num0. auto.
  - intros n. rewrite sl_sector0. auto.
Qed.

Lemma consistent_same_links w w' T :
  same_links w w' -> consistent w T -> consistent w' T.
Proof. intros Hl (Sec & F & Hok). exists Sec, F. by apply (heap_ok_same_links w). Qed.

Lemma sl_upd_tm f w : same_links w (upd_tm f w).
Proof. by split. Qed.

Lemma sl_set_sector_list v w : same_links w (upd_mem (set_sector_list v) w).
Proof. by split. Qed.

Lemma sl_set_m_thing p v w : same_links w (upd_node p (set_m_thing v) w).
Proof.
  split; try done; intros m; unfold tprev, tnext, sprev, snext;
    by rewrite node_proj_upd.
Qed.

Lemma elem_of_concat {A} (x : A) (ls : list (list A)) :
  x ∈ concat ls <-> exists l, x ∈ l /\ l ∈ ls.
Proof.
  induction ls as [|l ls IH]; simpl.
  - split; [by intros ?%elem_of_nil|]. by intros (? & _ & ?%elem_of_nil).
  - rewrite elem_of_app, IH. split.
    + intros [?|(l' & ? & ?)]; [exists l; split; [done|by left]|].
      exists l'. split; [done|by right].
    + intros (l' & ? & [->|?]%elem_of_cons); [by left|right; eauto].
Qed.

Lemma concat_mid_perm {A} (T1 T2 : list (list A)) L :
  concat (T1 ++ L :: T2) ≡ₚ L ++ concat (T1 ++ T2).
Proof. rewrite !concat_app, concat_cons. apply Permutation_app_swap_app. Qed.

Lemma elem_of_concat_mid {A} (T1 T2 : list (list A)) L x :
  x ∈ concat (T1 ++ L :: T2) <-> x ∈ L \/ x ∈ concat (T1 ++ T2).
Proof. by rewrite concat_mid_perm, elem_of_app. Qed.

Lemma elem_of_mid {A} (l1 l2 : list A) n x :
  x ∈ l1 ++ n :: l2 <-> x = n \/ x ∈ l1 ++ l2.
Proof. rewrite !elem_of_app, elem_of_cons. tauto. Qed.

Lemma NoDup_mid {A} (l1 l2 : list A) n :
  NoDup (l1 ++ n :: l2) <-> (n ∉ l1 ++ l2) /\ NoDup (l1 ++ l2).
Proof. by rewrite <- Permutation_middle, NoDup_cons. Qed.

(** The sectors of the nodes of [L] that are marked as kept. *)
Definition marked_sectors (w : world) (L : list node_id) (s : sector_id) : Prop :=
  exists n, n ∈ L /\ m_sector (node w n) = s /\ m_thing (node w n) <> None.

(** The first node of the thread of map object [e], as the code stores it:
    in sector_list while the thread of [e] is being rebuilt ([B] is [e]),
    otherwise in the touching_sectorlist of [e]. *)
Definition stored_root (w : world) (B : option mobj_id) (e : mobj_id) : option node_id :=
  if decide (B = Some e) then sector_list (mem w)
  else mo_touching_sectorlist (mobjs w e).

(** The heap links the map objects of [T]: no map object is listed twice,
    the heap is consistent for their threads, the thread of a map object
    starts at its stored first node, and every node of the thread records
    the map object in m_thing; the nodes of the thread that is being
    rebuilt may be unmarked instead (P_CreateSecNodeList clears m_thing
    and P_AddSecnode sets it again). *)
Definition linked (w : world) (B : option mobj_id) (T : list (mobj_id * list node_id)) : Prop :=
  NoDup T.*1
  /\ consistent w T.*2
  /\ forall e l, (e, l) ∈ T ->
       stored_root w B e = head l
       /\ forall n, n ∈ l ->
            m_thing (node w n) = Some e \/ (B = Some e /\ m_thing (node w n) = None).

Section HEAP.
Context {E : engine}.

Lemma heap_ok_in_thread w T Sec F l n :
  heap_ok w T Sec F -> l ∈ T -> n ∈ l -> n ∈ concat T.
Proof. intros _ Hl Hn. apply elem_of_concat. eauto. Qed.

Lemma heap_ok_thread_length w T Sec F l :
  heap_ok w T Sec F -> l ∈ T -> (length l <= numsecnodes (mem w))%nat.
Proof.
  intros Hok Hl. apply NoDup_bound_length.
  - pose proof (ok_nodup _ _ _ _ Hok) as Hnd. apply NoDup_app in Hnd as [Hnd _].
    apply list_elem_of_split in Hl as (T1 & T2 & ->).
    rewrite concat_app, concat_cons in Hnd.
    apply NoDup_app in Hnd as (_ & _ & Hnd). by apply NoDup_app in Hnd as [? _].
  - intros n Hn. apply (ok_bound _ _ _ _ Hok), elem_of_app. left.
    by apply (heap_ok_in_thread w T Sec F l).
Qed.

(** Walking a thing thread from its first node gives the thread. *)
Lemma heap_ok_tthread w T Sec F l :
  heap_ok w T Sec F -> l ∈ T -> tthread w (head l) = l.
Proof.
  intros Hok Hl. unfold tthread. apply (slist_walk (tnext w)).
  - eapply dlist_slist, ok_tthreads; eauto.
  - by apply (heap_ok_thread_length w T Sec F).
Qed.

(** Walking a sector thread from touching_thinglist gives the thread. *)
Lemma heap_ok_sthread w T Sec F s :
  heap_ok w T Sec F -> sthread w (sec_touching_thinglist (sectors w s)) = Sec s.
Proof.
  intros Hok. unfold sthread. rewrite (ok_sheads _ _ _ _ Hok).
  apply (slist_walk (snext w)).
  - eapply dlist_slist, ok_sthreads; eauto.
  - apply NoDup_bound_length; [by apply (ok_snodup _ _ _ _ Hok)|].
    intros n Hn. apply (ok_bound _ _ _ _ Hok), elem_of_app. left.
    apply (ok_both _ _ _ _ Hok). by rewrite (ok_sector _ _ _ _ Hok s n Hn).
Qed.

(** The equivalence: a node is reachable from the first node of one of
    the thing threads if and only if it is reachable from the
    touching_thinglist of its sector. *)
Lemma consistent_bidirectional w T n :
  consistent w T ->
  (exists l, l ∈ T /\ n ∈ tthread w (head l))
  <-> n ∈ sthread w (sec_touching_thinglist (sectors w (m_sector (node w n)))).
Proof.
  intros (Sec & F & Hok). rewrite (heap_ok_sthread w T Sec F) by done.
  rewrite <- (ok_both _ _ _ _ Hok). rewrite elem_of_concat. split.
  - intros (l & Hl & Hn). rewrite (heap_ok_tthread w T Sec F) in Hn by done. eauto.
  - intros (l & Hn & Hl). exists l. by rewrite (heap_ok_tthread w T Sec F).
Qed.

(** P_DelSecnode takes the node off its thing thread and off the thread
    of its sector, and puts it on the free list. *)
Lemma P_DelSecnode_heap_ok n w T1 l1 l2 T2 Sec F :
  heap_ok w (T1 ++ (l1 ++ n :: l2) :: T2) Sec F ->
  exists s1 s2,
    Sec (m_sector (node w n)) = s1 ++ n :: s2
    /\ heap_ok (snd (P_DelSecnode n w)) (T1 ++ (l1 ++ l2) :: T2)
         (<[m_sector (node w n) := s1 ++ s2]> Sec) (n :: F)
    /\ fst (P_DelSecnode n w) = head l2.
Proof.
  intros Hok.
  assert (n ∈ concat (T1 ++ (l1 ++ n :: l2) :: T2)) as HnT.
  { apply elem_of_concat_mid. left. apply elem_of_mid. by left. }
  pose proof (proj1 (ok_both _ _ _ _ Hok n) HnT) as HnS.
  remember (m_sector (node w n)) as s eqn:Hs.
  apply list_elem_of_split in HnS as (s1 & s2 & HS). exists s1, s2. split; [done|].
  destruct (P_DelSecnode_fields n w) as (Hfst & Hnodes & Hheads & Hfh & Hnum & _).
  cbv zeta in *. rewrite <- Hs in Hheads.
  set (w' := snd (P_DelSecnode n w)) in *.
  (* the neighbours of the node *)
  assert (l1 ++ n :: l2 ∈ T1 ++ (l1 ++ n :: l2) :: T2) as HL
    by (apply elem_of_app; right; by left).
  pose proof (ok_tthreads _ _ _ _ Hok _ HL) as HdL.
  destruct (dlist_mid _ _ _ _ _ _ HdL) as [Htp Htn].
  pose proof (ok_sthreads _ _ _ _ Hok s) as HdS. rewrite HS in HdS.
  destruct (dlist_mid _ _ _ _ _ _ HdS) as [Hsp Hsn].
  unfold tprev, tnext, sprev, snext in Htp, Htn, Hsp, Hsn.
  (* who is where *)
  pose proof (ok_nodup _ _ _ _ Hok) as Hnd.
  apply NoDup_app in Hnd as (HndT & HTF & HndF).
  rewrite concat_mid_perm in HndT. apply NoDup_app in HndT as (HndL & HLT & HndT).
  pose proof (ok_snodup _ _ _ _ Hok s) as HndS. rewrite HS in HndS.
  assert (forall s' m, m ∈ Sec s' -> m ∈ concat (T1 ++ (l1 ++ n :: l2) :: T2)) as HST.
  { intros s' m Hm. apply (ok_both _ _ _ _ Hok). by rewrite (ok_sector _ _ _ _ Hok s' m Hm). }
  assert (forall p, before_mid None l1 = Some p -> p ∈ l1 ++ n :: l2) as Hbl.
  { intros p [[_ ?]|Hp]%before_mid_elem; [done|]. apply elem_of_app. by left. }
  assert (forall p, head l2 = Some p -> p ∈ l1 ++ n :: l2) as Hhl.
  { intros p Hp. apply elem_of_app. right. right. destruct l2; simplify_eq/=. by left. }
  assert (forall p, before_mid None s1 = Some p -> p ∈ Sec s) as Hbs.
  { intros p [[_ ?]|Hp]%before_mid_elem; [done|]. rewrite HS. apply elem_of_app. by left. }
  assert (forall p, head s2 = Some p -> p ∈ Sec s) as Hhs.
  { intros p Hp. rewrite HS. apply elem_of_app. right. right.
    destruct s2; simplify_eq/=. by left. }
  assert (forall m, Some m = m_tprev (node w n) -> m ∈ l1 ++ n :: l2) as Htp'
    by (intros m Heq; apply Hbl; congruence).
  assert (forall m, Some m = m_tnext (node w n) -> m ∈ l1 ++ n :: l2) as Htn'
    by (intros m Heq; apply Hhl; congruence).
  assert (forall m, Some m = m_sprev (node w n) -> m ∈ Sec s) as Hsp'
    by (intros m Heq; apply Hbs; congruence).
  assert (forall m, Some m = m_snext (node w n) -> m ∈ Sec s) as Hsn'
    by (intros m Heq; apply Hhs; congruence).
  split; [|by rewrite Hfst, Htn].
  split.
  - (* thing threads *)
    intros l [Hl|[->|Hl]%elem_of_cons]%elem_of_app.
    + apply (dlist_ext (tprev w) (tnext w)).
      * intros m Hm. unfold tprev, tnext.
        destruct (Hnodes m) as (_ & _ & -> & -> & _).
        assert (m ∉ l1 ++ n :: l2) as Hml.
        { intros Hml. apply (HLT m Hml). apply elem_of_concat. exists l.
          split; [done|]. apply elem_of_app. by left. }
        by rewrite !decide_False
          by (intros Heq; first [apply Htp' in Heq|apply Htn' in Heq]; done).
      * apply (ok_tthreads _ _ _ _ Hok). apply elem_of_app. by left.
    + apply (dlist_delete (tprev w) (tnext w) _ _ None l1 n l2); [done|done|done|..].
      * intros m _. unfold tnext, tprev. by destruct (Hnodes m) as (_ & _ & -> & _).
      * intros m _. unfold tnext, tprev. by destruct (Hnodes m) as (_ & _ & _ & -> & _).
    + apply (dlist_ext (tprev w) (tnext w)).
      * intros m Hm. unfold tprev, tnext.
        destruct (Hnodes m) as (_ & _ & -> & -> & _).
        assert (m ∉ l1 ++ n :: l2) as Hml.
        { intros Hml. apply (HLT m Hml). apply elem_of_concat. exists l.
          split; [done|]. apply elem_of_app. by right. }
        by rewrite !decide_False
          by (intros Heq; first [apply Htp' in Heq|apply Htn' in Heq]; done).
      * apply (ok_tthreads _ _ _ _ Hok). apply elem_of_app. right. by right.
  - (* sector threads *)
    intros s'. unfold insert, fn_insert. case_decide as Hs'.
    + subst s'.
      apply (dlist_delete (sprev w) (snext w) _ _ None s1 n s2); [done|done|done|..].
      * intros m Hmn. unfold snext, sprev.
        destruct (Hnodes m) as (_ & _ & _ & _ & _ & ->). by rewrite decide_False.
      * intros m _. unfold snext, sprev. by destruct (Hnodes m) as (_ & _ & _ & _ & -> & _).
    + apply (dlist_ext (sprev w) (snext w)); [|apply (ok_sthreads _ _ _ _ Hok)].
      intros m Hm. unfold sprev, snext.
      destruct (Hnodes m) as (_ & _ & _ & _ & -> & ->).
      assert (m ∉ Sec s) as HmS.
      { intros HmS. apply Hs'. rewrite <- (ok_sector _ _ _ _ Hok s' m Hm).
        by rewrite <- (ok_sector _ _ _ _ Hok s m HmS). }
      assert (m <> n) by (intros ->; apply HmS; rewrite HS; apply elem_of_mid; by left).
      by rewrite !decide_False
        by (first [done|intros Heq; first [apply Hsp' in Heq|apply Hsn' in Heq]; done]).
  - (* heads of the sector threads *)
    intros s'. rewrite Hheads. unfold insert, fn_insert.
    destruct (decide (s = s')) as [<-|Hs'].
    + rewrite Hsp, Hsn. destruct s1 as [|a s1].
      * by rewrite decide_True.
      * rewrite decide_False.
        -- by rewrite (ok_sheads _ _ _ _ Hok), HS.
        -- intros [Hb _]. rewrite before_mid_cons in Hb. unfold before_mid in Hb.
           by destruct (last s1).
    + rewrite decide_False by (intros [_ ?]; congruence). apply (ok_sheads _ _ _ _ Hok).
  - (* no node twice on a sector thread *)
    intros s'. unfold insert, fn_insert. case_decide; [|apply (ok_snodup _ _ _ _ Hok)].
    by apply NoDup_mid in HndS as [_ ?].
  - (* the sector of a node *)
    intros s' m. destruct (Hnodes m) as (-> & _). unfold insert, fn_insert.
    case_decide; [subst s'|apply (ok_sector _ _ _ _ Hok)].
    intros Hm. apply (ok_sector _ _ _ _ Hok). rewrite HS. apply elem_of_mid. by right.
  - (* the free list *)
    split.
    + unfold snext. destruct (Hnodes n) as (_ & _ & _ & _ & _ & ->).
      rewrite decide_True by done. apply (ok_fhead _ _ _ _ Hok).
    + apply (slist_ext (snext w)); [|apply (ok_free _ _ _ _ Hok)].
      intros m Hm. unfold snext. destruct (Hnodes m) as (_ & _ & _ & _ & _ & ->).
      assert (m ∉ concat (T1 ++ (l1 ++ n :: l2) :: T2)) as HmT
        by (intros HmT; by apply (HTF m)).
      assert (m <> n) by (by intros ->).
      by rewrite !decide_False
        by (first [done|intros Heq; apply Hsp', HST in Heq; done]).
  - done.
  - (* no node twice *)
    rewrite concat_mid_perm. rewrite <- Permutation_middle.
    apply NoDup_cons. split.
    + rewrite !elem_of_app. intros [[Hn|Hn]|Hn].
      * apply NoDup_mid in HndL as [Hn' _]. apply Hn'. by apply elem_of_app.
      * apply (HLT n); [apply elem_of_mid; by left|done].
      * by apply (HTF n).
    + rewrite <- app_assoc. apply NoDup_app. split_and!.
      * by apply NoDup_mid in HndL as [_ ?].
      * intros m Hm [HmT|HmF]%elem_of_app.
        -- apply (HLT m); [apply elem_of_mid; by right|done].
        -- apply (HTF m); [|done]. apply elem_of_concat_mid. left.
           apply elem_of_mid. by right.
      * apply NoDup_app. split_and!; [done| |done].
        intros m Hm. apply HTF. apply elem_of_concat_mid. by right.
  - (* every node was handed out *)
    intros m Hm. rewrite Hnum. apply (ok_bound _ _ _ _ Hok).
    apply elem_of_app in Hm as [Hm|[->|Hm]%elem_of_cons].
    + apply elem_of_app. left. apply elem_of_concat_mid.
      apply elem_of_concat_mid in Hm as [Hm|Hm]; [left|by right].
      apply elem_of_mid. by right.
    + apply elem_of_app. by left.
    + apply elem_of_app. by right.
  - (* on a thing thread if and only if on the thread of the sector *)
    intros m. destruct (Hnodes m) as (-> & _).
    rewrite elem_of_concat_mid. unfold insert, fn_insert.
    pose proof (ok_both _ _ _ _ Hok m) as Hb. rewrite elem_of_concat_mid, elem_of_mid in Hb.
    destruct (decide (m = n)) as [->|Hmn].
    + rewrite <- Hs. rewrite decide_True by done. split.
      * intros [Hn|Hn].
        -- apply NoDup_mid in HndL as [Hn' _]. done.
        -- exfalso. apply (HLT n); [apply elem_of_mid; by left|done].
      * intros Hn. apply NoDup_mid in HndS as [Hn' _]. done.
    + case_decide as Hs'.
      * rewrite <- Hs', HS, elem_of_mid in Hb. tauto.
      * tauto.
Qed.

(** The node P_GetSecnode hands out is on no thread. *)
Lemma fresh_node_spec w T Sec F :
  heap_ok w T Sec F ->
  let n := fresh_node w in
  let F' := tail F in
  (n ∉ concat T) /\ (n ∉ F') /\ (forall s, n ∉ Sec s)
  /\ NoDup (concat T ++ F')
  /\ (forall m, m ∈ concat T ++ F' -> m ∈ concat T ++ F)
  /\ match headsecnode (mem w) with
     | Some f => m_snext (node w f) = head F' /\ (n < numsecnodes (mem w))%nat
     | None => F = []
     end.
Proof.
  intros Hok n F'. subst n F'. unfold fresh_node.
  pose proof (ok_nodup _ _ _ _ Hok) as Hnd.
  pose proof (ok_fhead _ _ _ _ Hok) as Hfh.
  pose proof (ok_free _ _ _ _ Hok) as Hfree.
  assert (forall n, n ∉ concat T -> forall s, n ∉ Sec s) as HS.
  { intros n Hn s' Hs'. apply Hn, (ok_both _ _ _ _ Hok).
    by rewrite (ok_sector _ _ _ _ Hok s' n Hs'). }
  destruct F as [|f F']; simpl in *; rewrite Hfh.
  - assert (numsecnodes (mem w) ∉ concat T) as HnT.
    { intros Hn. assert (numsecnodes (mem w) < numsecnodes (mem w))%nat; [|lia].
      apply (ok_bound _ _ _ _ Hok). apply elem_of_app. by left. }
    split_and!; auto. by intros ?%elem_of_nil.
  - apply NoDup_mid in Hnd as [Hf Hnd]. apply not_elem_of_app in Hf as [HfT HfF].
    destruct Hfree as [Hnext _].
    split_and!; auto.
    + intros m. rewrite !elem_of_app, elem_of_cons. tauto.
    + apply (ok_bound _ _ _ _ Hok). apply elem_of_app. right. by left.
Qed.

(** P_AddSecnode marks the node of the sector if the thread has one;
    otherwise it puts a new node in front of the thread and of the thread
    of the sector. *)
Lemma P_AddSecnode_heap_ok s thing w T1 L T2 Sec F :
  heap_ok w (T1 ++ L :: T2) Sec F ->
  exists L' Sec' F',
    heap_ok (snd (P_AddSecnode s thing (head L) w)) (T1 ++ L' :: T2) Sec' F'
    /\ fst (P_AddSecnode s thing (head L) w) = head L'
    /\ (forall s', marked_sectors (snd (P_AddSecnode s thing (head L) w)) L' s'
                   <-> marked_sectors w L s' \/ s' = s)
    /\ exists p,
         m_sector (node (snd (P_AddSecnode s thing (head L) w)) p) = s
         /\ (forall m, m ∈ L' <-> m = p \/ m ∈ L)
         /\ (forall m, m_thing (node (snd (P_AddSecnode s thing (head L) w)) m)
                       = if decide (m = p) then Some thing else m_thing (node w m))
         /\ (forall m, m ∈ L ->
               m_sector (node (snd (P_AddSecnode s thing (head L) w)) m)
               = m_sector (node w m)).
Proof.
  intros Hok.
  assert (L ∈ T1 ++ L :: T2) as HL by (apply elem_of_app; right; by left).
  pose proof (heap_ok_tthread _ _ _ _ _ Hok HL) as Hwalk.
  destruct (find (fun n => bool_decide (m_sector (node w n) = s)) (tthread w (head L)))
    as [n|] eqn:Hfind.
  - (* the thread has a node for the sector *)
    rewrite (P_AddSecnode_found _ _ _ _ _ Hfind). cbn [fst snd].
    apply find_some in Hfind as [Hn Hs]. rewrite Hwalk in Hn.
    apply list_elem_of_In in Hn. apply bool_decide_eq_true in Hs.
    exists L, Sec, F. split_and!; [|done| |].
    + apply (heap_ok_same_links w); [apply sl_set_m_thing|done].
    + intros s'. unfold marked_sectors. split.
      * intros (m & Hm & Hsec & Hthing).
        rewrite node_proj_upd in Hsec by done.
        destruct (decide (m = n)) as [->|Hmn]; [right; congruence|left].
        exists m. split_and!; [done..|].
        rewrite node_proj_upd_at in Hthing. by rewrite decide_False in Hthing.
      * intros [(m & Hm & Hsec & Hthing)| ->].
        -- exists m. rewrite node_proj_upd by done. split_and!; [done..|].
           rewrite node_proj_upd_at. by case_decide.
        -- exists n. rewrite node_proj_upd by done. split_and!; [done..|].
           rewrite node_proj_upd_at. by rewrite decide_True.
    + exists n. split_and!.
      * by rewrite node_proj_upd.
      * intros m. split; [by right|]. by intros [->|?].
      * intros m. by rewrite node_proj_upd_at.
      * intros m _. by rewrite node_proj_upd.
  - (* a new node *)
    destruct (P_AddSecnode_fields s thing (head L) w Hfind)
      as (Hfst & Hnodes & Hheads & Hfh & Hnum & _).
    destruct (fresh_node_spec _ _ _ _ Hok) as (HnT & HnF & HnS & HndTF & HTF & Hpop).
    cbv zeta in *.
    set (w' := snd (P_AddSecnode s thing (head L) w)) in *.
    set (n := fresh_node w) in *.
    pose proof (find_none _ _ Hfind) as Hnone. rewrite Hwalk in Hnone.
    pose proof (ok_nodup _ _ _ _ Hok) as Hnd.
    apply NoDup_app in Hnd as (HndT & _ & _).
    rewrite concat_mid_perm in HndT. apply NoDup_app in HndT as (HndL & HLT & HndT).
    assert (n ∉ L) as HnL.
    { intros Hn. apply HnT, elem_of_concat_mid. by left. }
    assert (forall m, Some m = head L -> m ∈ L) as HhL.
    { intros m Hm. destruct L; simplify_eq/=. by left. }
    assert (forall m, Some m = sec_touching_thinglist (sectors w s) -> m ∈ Sec s) as HhS.
    { intros m Hm. rewrite (ok_sheads _ _ _ _ Hok) in Hm.
      destruct (Sec s); simplify_eq/=. by left. }
    exists (n :: L), (<[s := n :: Sec s]> Sec), (tail F).
    split_and!; [|done| |].
    + split.
      * (* thing threads *)
        intros l [Hl|[->|Hl]%elem_of_cons]%elem_of_app.
        -- apply (dlist_ext (tprev w) (tnext w)).
           ++ intros m Hm. unfold tprev, tnext.
              destruct (Hnodes m) as (_ & _ & -> & -> & _).
              assert (m ∈ concat (T1 ++ T2)) as HmT.
              { apply elem_of_concat. exists l. split; [done|]. apply elem_of_app. by left. }
              assert (m <> n).
              { intros ->. apply HnT, elem_of_concat_mid. by right. }
              by rewrite !decide_False
                by (first [done|intros Heq; apply HhL in Heq; by apply HLT in Heq]).
           ++ apply (ok_tthreads _ _ _ _ Hok). apply elem_of_app. by left.
        -- apply (dlist_push (tprev w) (tnext w)); [done|done|..].
           ++ by apply (ok_tthreads _ _ _ _ Hok).
           ++ unfold tprev. destruct (Hnodes n) as (_ & _ & _ & -> & _).
              rewrite decide_False by (intros Heq; by apply HhL in Heq).
              by rewrite decide_True.
           ++ unfold tnext. destruct (Hnodes n) as (_ & _ & -> & _).
              by rewrite decide_True.
           ++ intros m Hmn. unfold tprev, tnext.
              destruct (Hnodes m) as (_ & _ & -> & -> & _).
              rewrite !(decide_False (P := m = n)) by done. done.
        -- apply (dlist_ext (tprev w) (tnext w)).
           ++ intros m Hm. unfold tprev, tnext.
              destruct (Hnodes m) as (_ & _ & -> & -> & _).
              assert (m ∈ concat (T1 ++ T2)) as HmT.
              { apply elem_of_concat. exists l. split; [done|]. apply elem_of_app. by right. }
              assert (m <> n).
              { intros ->. apply HnT, elem_of_concat_mid. by right. }
              by rewrite !decide_False
                by (first [done|intros Heq; apply HhL in Heq; by apply HLT in Heq]).
           ++ apply (ok_tthreads _ _ _ _ Hok). apply elem_of_app. right. by right.
      * (* sector threads *)
        intros s'. unfold insert, fn_insert. destruct (decide (s = s')) as [<-|Hs'].
        -- apply (dlist_push (sprev w) (snext w)); [done|..].
           ++ apply (ok_snodup _ _ _ _ Hok).
           ++ apply (ok_sthreads _ _ _ _ Hok).
           ++ unfold sprev. destruct (Hnodes n) as (_ & _ & _ & _ & -> & _).
              rewrite decide_False by (intros Heq; apply HhS in Heq; by apply HnS in Heq).
              by rewrite decide_True.
           ++ unfold snext. destruct (Hnodes n) as (_ & _ & _ & _ & _ & ->).
              rewrite decide_True by done. apply (ok_sheads _ _ _ _ Hok).
           ++ intros m Hmn. unfold sprev, snext.
              destruct (Hnodes m) as (_ & _ & _ & _ & -> & ->).
              rewrite !(decide_False (P := m = n)) by done.
              by rewrite (ok_sheads _ _ _ _ Hok).
        -- apply (dlist_ext (sprev w) (snext w)); [|apply (ok_sthreads _ _ _ _ Hok)].
           intros m Hm. unfold sprev, snext.
           destruct (Hnodes m) as (_ & _ & _ & _ & -> & ->).
           assert (m <> n) by (intros ->; by apply HnS in Hm).
           assert (m ∉ Sec s) as HmS.
           { intros HmS. apply Hs'. rewrite <- (ok_sector _ _ _ _ Hok s' m Hm).
             by rewrite <- (ok_sector _ _ _ _ Hok s m HmS). }
           by rewrite !decide_False
             by (first [done|intros Heq; by apply HhS in Heq]).
      * (* heads of the sector threads *)
        intros s'. rewrite Hheads. unfold insert, fn_insert.
        destruct (decide (s = s')) as [<-|Hs'].
        -- by rewrite decide_True.
        -- rewrite decide_False by congruence. apply (ok_sheads _ _ _ _ Hok).
      * (* no node twice on a sector thread *)
        intros s'. unfold insert, fn_insert. case_decide; [|apply (ok_snodup _ _ _ _ Hok)].
        apply NoDup_cons. split; [apply HnS|apply (ok_snodup _ _ _ _ Hok)].
      * (* the sector of a node *)
        intros s' m. destruct (Hnodes m) as (-> & _). unfold insert, fn_insert.
        destruct (decide (s = s')) as [<-|Hs'].
        -- intros [->|Hm]%elem_of_cons; [by rewrite decide_True|].
           rewrite decide_False by (intros ->; by apply HnS in Hm).
           by apply (ok_sector _ _ _ _ Hok).
        -- intros Hm. rewrite decide_False by (intros ->; by apply HnS in Hm).
           by apply (ok_sector _ _ _ _ Hok).
      * (* the free list *)
        apply (slist_ext (snext w)).
        -- intros m Hm. unfold snext. destruct (Hnodes m) as (_ & _ & _ & _ & _ & ->).
           by rewrite decide_False by (by intros ->).
        -- pose proof (ok_free _ _ _ _ Hok) as Hfree. destruct F; [done|]. by destruct Hfree.
      * rewrite Hfh. destruct (headsecnode (mem w)); [by destruct Hpop|by rewrite Hpop].
      * (* no node twice *)
        rewrite concat_mid_perm. rewrite <- app_comm_cons. simpl.
        apply NoDup_cons. split.
        -- rewrite !elem_of_app. intros [[Hn|Hn]|Hn]; [done| |done].
           apply HnT, elem_of_concat_mid. by right.
        -- by rewrite <- concat_mid_perm.
      * (* every node was handed out *)
        intros m Hm. rewrite Hnum.
        assert (m = n \/ m ∈ concat (T1 ++ L :: T2) ++ F) as [->|Hm'].
        { apply elem_of_app in Hm as [Hm|Hm].
          - apply elem_of_concat_mid in Hm as [[->|Hm]%elem_of_cons|Hm]; [by left|right..].
            + apply elem_of_app. left. apply elem_of_concat_mid. by left.
            + apply elem_of_app. left. apply elem_of_concat_mid. by right.
          - right. apply HTF. apply elem_of_app. by right. }
        -- unfold n, fresh_node in *. destruct (headsecnode (mem w)); [by destruct Hpop|lia].
        -- pose proof (ok_bound _ _ _ _ Hok m Hm'). destruct (headsecnode (mem w)); lia.
      * (* on a thing thread if and only if on the thread of the sector *)
        intros m. destruct (Hnodes m) as (-> & _).
        rewrite elem_of_concat_mid, elem_of_cons. unfold insert, fn_insert.
        pose proof (ok_both _ _ _ _ Hok m) as Hb. rewrite elem_of_concat_mid in Hb.
        destruct (decide (m = n)) as [->|Hmn].
        -- rewrite decide_True by done. split; [intros _; by left|intros _; left; by left].
        -- case_decide as Hs'.
           ++ rewrite <- Hs' in Hb. rewrite elem_of_cons. tauto.
           ++ tauto.
    + (* the marks *)
      intros s'. unfold marked_sectors. split.
      * intros (m & [->|Hm]%elem_of_cons & Hsec & Hthing).
        -- right. destruct (Hnodes n) as (Hsn & _). rewrite decide_True in Hsn by done.
           congruence.
        -- left. exists m. destruct (Hnodes m) as (Hsm & Htm & _).
           rewrite decide_False in Hsm by (intros ->; done).
           rewrite decide_False in Htm by (intros ->; done).
           split_and!; [done|congruence|congruence].
      * intros [(m & Hm & Hsec & Hthing)| ->].
        -- exists m. destruct (Hnodes m) as (Hsm & Htm & _).
           rewrite decide_False in Hsm by (intros ->; done).
           rewrite decide_False in Htm by (intros ->; done).
           split_and!; [by right|congruence|congruence].
        -- exists n. destruct (Hnodes n) as (Hsn & Htn & _).
           rewrite decide_True in Hsn by done. rewrite decide_True in Htn by done.
           split_and!; [by left|done|by rewrite Htn].
    + exists n. split_and!.
      * destruct (Hnodes n) as (-> & _). by rewrite decide_True.
      * intros m. by rewrite elem_of_cons.
      * intros m. by destruct (Hnodes m) as (_ & -> & _).
      * intros m Hm. destruct (Hnodes m) as (-> & _).
        by rewrite decide_False by (by intros ->).
Qed.

(** *** Map objects and their threads *)

Lemma NoDup_fst_inj {A B} (l : list (A * B)) x y1 y2 :
  NoDup l.*1 -> (x, y1) ∈ l -> (x, y2) ∈ l -> y1 = y2.
Proof.
  induction l as [|[a b] l IH]; simpl; intros Hnd H1 H2.
  - by apply elem_of_nil in H1.
  - apply NoDup_cons in Hnd as [Ha Hnd].
    apply elem_of_cons in H1 as [H1|H1], H2 as [H2|H2]; simplify_eq; try done.
    + exfalso. apply Ha, list_elem_of_fmap. by exists (a, y2).
    + exfalso. apply Ha, list_elem_of_fmap. by exists (a, y1).
    + by apply IH.
Qed.

Lemma linked_thread w B T e l :
  linked w B T -> (e, l) ∈ T -> tthread w (stored_root w B e) = l.
Proof.
  intros (_ & (Sec & F & Hok) & Hown) Hin.
  destruct (Hown e l Hin) as [-> _].
  apply (heap_ok_tthread w T.*2 Sec F); [done|].
  apply list_elem_of_fmap. by exists (e, l).
Qed.

Lemma linked_owner w B T e e' l n :
  linked w B T -> (e', l) ∈ T -> n ∈ l -> m_thing (node w n) = Some e -> e' = e.
Proof.
  intros (_ & _ & Hown) Hin Hn Hthing.
  destruct (Hown e' l Hin) as [_ Hl]. destruct (Hl n Hn) as [?|[_ ?]]; congruence.
Qed.

Lemma linked_node w B T e n :
  linked w B T -> e ∈ T.*1 -> m_thing (node w n) = Some e ->
  n ∈ tthread w (stored_root w B e)
  <-> n ∈ sthread w (sec_touching_thinglist (sectors w (m_sector (node w n)))).
Proof.
  intros Hl HE Hthing.
  apply list_elem_of_fmap in HE as ([e0 l] & -> & Hin). cbn [fst] in *.
  rewrite (linked_thread w B T e0 l) by done.
  pose proof Hl as (Hnd & (Sec & F & Hok) & Hown).
  rewrite (heap_ok_sthread w T.*2 Sec F) by done.
  rewrite <- (ok_both _ _ _ _ Hok). rewrite elem_of_concat. split.
  - intros Hn. exists l. split; [done|]. apply list_elem_of_fmap. by exists (e0, l).
  - intros (l' & Hn & ([e' l''] & -> & Hin')%list_elem_of_fmap). cbn [snd] in *.
    assert (e' = e0) as -> by (by apply (linked_owner w B T e0 e' l'' n)).
    by rewrite (NoDup_fst_inj T e0 l l'').
Qed.

Lemma linked_sthread w B T R n :
  linked w B T -> n ∈ sthread w (sec_touching_thinglist (sectors w R)) ->
  m_sector (node w n) = R
  /\ exists e, e ∈ T.*1 /\ n ∈ tthread w (stored_root w B e).
Proof.
  intros Hl Hn. pose proof Hl as (Hnd & (Sec & F & Hok) & Hown).
  rewrite (heap_ok_sthread w T.*2 Sec F) in Hn by done.
  pose proof (ok_sector _ _ _ _ Hok R n Hn) as Hsec. split; [done|].
  rewrite <- Hsec in Hn. apply (ok_both _ _ _ _ Hok) in Hn.
  apply elem_of_concat in Hn as (l & Hn & ([e l'] & -> & Hin)%list_elem_of_fmap).
  cbn [snd] in *. exists e. split.
  - apply list_elem_of_fmap. by exists (e, l').
  - by rewrite (linked_thread w B T e l').
Qed.

Lemma heap_ok_disjoint w T1 L T2 Sec F l n :
  heap_ok w (T1 ++ L :: T2) Sec F -> l ∈ T1 ++ T2 -> n ∈ l -> n ∉ L.
Proof.
  intros Hok Hl Hn HnL. pose proof (ok_nodup _ _ _ _ Hok) as Hnd.
  apply NoDup_app in Hnd as (Hnd & _ & _). rewrite concat_mid_perm in Hnd.
  apply NoDup_app in Hnd as (_ & Hdisj & _). apply (Hdisj n HnL).
  apply elem_of_concat. eauto.
Qed.

Lemma linked_other (T1 T2 : list (mobj_id * list node_id)) e L e' l :
  NoDup (T1 ++ (e, L) :: T2).*1 -> (e', l) ∈ T1 ++ T2 ->
  e' <> e /\ l ∈ T1.*2 ++ T2.*2.
Proof.
  intros Hnd Hin. rewrite fmap_app, fmap_cons in Hnd. cbn [fst] in Hnd.
  apply NoDup_mid in Hnd as [HE _]. split.
  - intros ->. apply HE. rewrite <- fmap_app. apply list_elem_of_fmap. by exists (e, l).
  - rewrite <- fmap_app. apply list_elem_of_fmap. by exists (e', l).
Qed.

Lemma stored_root_other w e e' :
  e' <> e -> stored_root w (Some e) e' = mo_touching_sectorlist (mobjs w e').
Proof. intros HE. unfold stored_root. rewrite decide_False; [done|congruence]. Qed.

Lemma stored_root_built w e : stored_root w (Some e) e = sector_list (mem w).
Proof. unfold stored_root. by rewrite decide_True. Qed.

(** [sector_list = P_AddSecnode(s, e, sector_list)] keeps the map objects
    linked. *)
Lemma P_AddSecnode_linked s e T1 L T2 w :
  linked w (Some e) (T1 ++ (e, L) :: T2) ->
  let r := P_AddSecnode s e (sector_list (mem w)) w in
  let w' := upd_mem (set_sector_list (fst r)) (snd r) in
  exists L',
    linked w' (Some e) (T1 ++ (e, L') :: T2)
    /\ tthread w' (stored_root w' (Some e) e) = L'
    /\ (exists n, n ∈ L' /\ m_sector (node w' n) = s /\ m_thing (node w' n) = Some e)
    /\ forall R, (exists n, n ∈ L' /\ m_sector (node w' n) = R)
                 <-> (exists n, n ∈ L /\ m_sector (node w n) = R) \/ R = s.
Proof.
  intros Hl. pose proof Hl as (Hnd & (Sec & F & Hok) & Hown). cbv zeta.
  rewrite fmap_app, fmap_cons in Hok. cbn [snd] in Hok.
  assert ((e, L) ∈ T1 ++ (e, L) :: T2) as HEL by (apply elem_of_app; right; by left).
  destruct (Hown e L HEL) as [Hroot HownL]. rewrite stored_root_built in Hroot.
  rewrite Hroot.
  destruct (P_AddSecnode_heap_ok s e w T1.*2 L T2.*2 Sec F Hok)
    as (L' & Sec' & F' & Hok' & Hfst & _ & p & Hps & HL' & Hthing & Hsec).
  pose proof (hf_mobjs _ _ (hf_P_AddSecnode s e (head L) w)) as Hmobjs.
  set (r := P_AddSecnode s e (head L) w) in *.
  set (w' := upd_mem (set_sector_list (fst r)) (snd r)).
  assert (forall m, node w' m = node (snd r) m) as Hnode by done.
  assert (heap_ok w' (T1.*2 ++ L' :: T2.*2) Sec' F') as Hokw
    by (apply (heap_ok_same_links (snd r)); [apply sl_set_sector_list|done]).
  assert (linked w' (Some e) (T1 ++ (e, L') :: T2)) as Hl'.
  { split_and!.
    - by rewrite fmap_app, fmap_cons in Hnd |- *.
    - exists Sec', F'. by rewrite fmap_app, fmap_cons.
    - intros e' l [Hin|[Heq|Hin]%elem_of_cons]%elem_of_app.
      + destruct (linked_other T1 T2 e L e' l Hnd) as [HE Hl2];
          [apply elem_of_app; by left|].
        destruct (Hown e' l) as [Hr Ho]; [apply elem_of_app; by left|].
        rewrite stored_root_other in Hr |- * by done. split.
        * rewrite <- Hr. unfold w'. simpl. by rewrite Hmobjs.
        * intros n Hn. rewrite Hnode, Hthing. rewrite decide_False; [by apply Ho|].
          intros ->. apply (heap_ok_disjoint _ _ _ _ _ _ l p Hok' Hl2 Hn).
          apply HL'. by left.
      + simplify_eq. rewrite stored_root_built. split; [done|].
        intros n Hn. rewrite Hnode, Hthing. case_decide; [by left|].
        apply HownL. apply HL' in Hn as [?|?]; done.
      + destruct (linked_other T1 T2 e L e' l Hnd) as [HE Hl2];
          [apply elem_of_app; by right|].
        destruct (Hown e' l) as [Hr Ho]; [apply elem_of_app; right; by right|].
        rewrite stored_root_other in Hr |- * by done. split.
        * rewrite <- Hr. unfold w'. simpl. by rewrite Hmobjs.
        * intros n Hn. rewrite Hnode, Hthing. rewrite decide_False; [by apply Ho|].
          intros ->. apply (heap_ok_disjoint _ _ _ _ _ _ l p Hok' Hl2 Hn).
          apply HL'. by left. }
  exists L'. split_and!.
  - done.
  - apply (linked_thread w' (Some e) (T1 ++ (e, L') :: T2)); [done|].
    apply elem_of_app. right. by left.
  - exists p. split_and!.
    + apply HL'. by left.
    + by rewrite Hnode.
    + rewrite Hnode, Hthing. by rewrite decide_True.
  - intros R. split.
    + intros (n & Hn & HR). apply HL' in Hn as [->|Hn].
      * right. rewrite Hnode in HR. congruence.
      * left. exists n. split; [done|]. rewrite Hnode, Hsec in HR; done.
    + intros [(n & Hn & HR)| ->].
      * exists n. split; [apply HL'; by right|]. by rewrite Hnode, Hsec.
      * exists p. split; [apply HL'; by left|]. by rewrite Hnode.
Qed.

(** [if (node == sector_list) sector_list = node->m_tnext;
     node = P_DelSecnode(node)] keeps the map objects linked. *)
Lemma P_DelSecnode_linked n e T1 l1 l2 T2 w :
  linked w (Some e) (T1 ++ (e, l1 ++ n :: l2) :: T2) ->
  let w0 := if decide (sector_list (mem w) = Some n)
            then upd_mem (set_sector_list (m_tnext (node w n))) w else w in
  let r := P_DelSecnode n w0 in
  linked (snd r) (Some e) (T1 ++ (e, l1 ++ l2) :: T2)
  /\ tthread (snd r) (stored_root (snd r) (Some e) e) = l1 ++ l2
  /\ fst r = head l2.
Proof.
  intros Hl. pose proof Hl as (Hnd & (Sec & F & Hok) & Hown). cbv zeta.
  rewrite fmap_app, fmap_cons in Hok. cbn [snd] in Hok.
  assert ((e, l1 ++ n :: l2) ∈ T1 ++ (e, l1 ++ n :: l2) :: T2) as HEL
    by (apply elem_of_app; right; by left).
  destruct (Hown e _ HEL) as [Hroot HownL]. rewrite stored_root_built in Hroot.
  (* the links of the node *)
  assert (l1 ++ n :: l2 ∈ T1.*2 ++ (l1 ++ n :: l2) :: T2.*2) as HL
    by (apply elem_of_app; right; by left).
  pose proof (ok_tthreads _ _ _ _ Hok _ HL) as HdL.
  destruct (dlist_mid _ _ _ _ _ _ HdL) as [Htp Htn]. unfold tprev, tnext in Htp, Htn.
  pose proof (ok_nodup _ _ _ _ Hok) as HndL.
  apply NoDup_app in HndL as (HndL & _ & _). rewrite concat_mid_perm in HndL.
  apply NoDup_app in HndL as (HndL & _ & _).
  set (w0 := if decide (sector_list (mem w) = Some n)
             then upd_mem (set_sector_list (m_tnext (node w n))) w else w).
  assert (same_links w w0) as Hsl.
  { unfold w0. case_decide; [apply sl_set_sector_list|done]. }
  assert (forall m, node w0 m = node w m) as Hnode0.
  { intros m. unfold w0. by case_decide. }
  assert (mobjs w0 = mobjs w) as Hmobjs0.
  { unfold w0. by case_decide. }
  assert (sector_list (mem w0) = head (l1 ++ l2)) as Hsl0.
  { unfold w0. rewrite Hroot. destruct l1 as [|a l1]; simpl.
    - rewrite decide_True by done. simpl. by rewrite Htn.
    - rewrite decide_False; [by rewrite Hroot|].
      intros [= ->]. apply NoDup_cons in HndL as [Ha _]. apply Ha, elem_of_app.
      right. by left. }
  pose proof (heap_ok_same_links _ _ _ _ _ Hsl Hok) as Hok0.
  destruct (P_DelSecnode_heap_ok n w0 T1.*2 l1 l2 T2.*2 Sec F Hok0)
    as (s1 & s2 & _ & Hok' & Hfst).
  destruct (P_DelSecnode_fields n w0) as (_ & Hnodes & _ & _ & _ & Hslist).
  pose proof (hf_mobjs _ _ (hf_P_DelSecnode n w0)) as Hmobjs.
  cbv zeta in *.
  set (w' := snd (P_DelSecnode n w0)) in *.
  assert (forall m, m_thing (node w' m) = m_thing (node w m)) as Hthing.
  { intros m. destruct (Hnodes m) as (_ & -> & _). by rewrite Hnode0. }
  assert (linked w' (Some e) (T1 ++ (e, l1 ++ l2) :: T2)) as Hl'.
  { split_and!.
    - by rewrite fmap_app, fmap_cons in Hnd |- *.
    - eexists _, _. rewrite fmap_app, fmap_cons. exact Hok'.
    - intros e' l [Hin|[Heq|Hin]%elem_of_cons]%elem_of_app.
      + destruct (linked_other T1 T2 e _ e' l Hnd) as [HE _];
          [apply elem_of_app; by left|].
        destruct (Hown e' l) as [Hr Ho]; [apply elem_of_app; by left|].
        rewrite stored_root_other in Hr |- * by done. split.
        * by rewrite Hmobjs, Hmobjs0.
        * intros m Hm. rewrite Hthing. by apply Ho.
      + simplify_eq. rewrite stored_root_built. split; [by rewrite Hslist|].
        intros m Hm. rewrite Hthing. apply HownL. apply elem_of_mid. by right.
      + destruct (linked_other T1 T2 e _ e' l Hnd) as [HE _];
          [apply elem_of_app; by right|].
        destruct (Hown e' l) as [Hr Ho]; [apply elem_of_app; right; by right|].
        rewrite stored_root_other in Hr |- * by done. split.
        * by rewrite Hmobjs, Hmobjs0.
        * intros m Hm. rewrite Hthing. by apply Ho. }
  split_and!; [done| |done].
  apply (linked_thread w' (Some e) (T1 ++ (e, l1 ++ l2) :: T2)); [done|].
  apply elem_of_app. right. by left.
Qed.

(** C2 (bidirectional consistency).  [T] lists map objects with their
    threads of sector nodes; the first node of the thread of [e] is what
    the code stores for it, sector_list for the map object [B] whose thread
    is being rebuilt and touching_sectorlist for every other.  If the heap
    links the map objects of [T]:

    - a node that links [e] (its m_thing) is reachable from the stored
      first node of [e] along m_tnext if and only if it is reachable from
      the touching_thinglist of its sector along m_snext;
    - so [e] has a node for sector [R] on its thread if and only if [R]
      has a node for [e] on its thread;
    - every node on the thread of a sector [R] has m_sector [R] and is on
      the thread of one of the map objects;
    - after [sector_list = P_AddSecnode(s, e, sector_list)] the heap links
      the same map objects, the thread of [e] holds a node of sector [s]
      that records [e], and its sectors are those it had and [s];
    - after [if (node == sector_list) sector_list = node->m_tnext;
      node = P_DelSecnode(node)] for a node of the thread of [e] the heap
      links the same map objects, the thread of [e] without that node, and
      the call returns the node that followed it. *)
Theorem secnode_bidirectional w B T :
  linked w B T ->
  (forall e n, e ∈ T.*1 -> m_thing (node w n) = Some e ->
     n ∈ tthread w (stored_root w B e)
     <-> n ∈ sthread w (sec_touching_thinglist (sectors w (m_sector (node w n)))))
  /\ (forall e R, e ∈ T.*1 ->
        (exists n, n ∈ tthread w (stored_root w B e)
                   /\ m_thing (node w n) = Some e /\ m_sector (node w n) = R)
        <-> (exists n, n ∈ sthread w (sec_touching_thinglist (sectors w R))
                       /\ m_thing (node w n) = Some e))
  /\ (forall R n, n ∈ sthread w (sec_touching_thinglist (sectors w R)) ->
        m_sector (node w n) = R
        /\ exists e, e ∈ T.*1 /\ n ∈ tthread w (stored_root w B e))
  /\ (forall s e T1 L T2,
        B = Some e -> T = T1 ++ (e, L) :: T2 ->
        let r := P_AddSecnode s e (sector_list (mem w)) w in
        let w' := upd_mem (set_sector_list (fst r)) (snd r) in
        exists L',
          linked w' B (T1 ++ (e, L') :: T2)
          /\ tthread w' (stored_root w' B e) = L'
          /\ (exists n, n ∈ L' /\ m_sector (node w' n) = s
                        /\ m_thing (node w' n) = Some e)
          /\ forall R, (exists n, n ∈ L' /\ m_sector (node w' n) = R)
                       <-> (exists n, n ∈ L /\ m_sector (node w n) = R) \/ R = s)
  /\ (forall n e T1 l1 l2 T2,
        B = Some e -> T = T1 ++ (e, l1 ++ n :: l2) :: T2 ->
        let w0 := if decide (sector_list (mem w) = Some n)
                  then upd_mem (set_sector_list (m_tnext (node w n))) w else w in
        let r := P_DelSecnode n w0 in
        linked (snd r) B (T1 ++ (e, l1 ++ l2) :: T2)
        /\ tthread (snd r) (stored_root (snd r) B e) = l1 ++ l2
        /\ fst r = head l2).
Proof.
  intros Hl. split_and!.
  - intros e n HE Hn. by apply (linked_node w B T).
  - intros e R HE. split.
    + intros (n & Hn & Hthing & <-). exists n. split; [|done].
      by apply (linked_node w B T e n).
    + intros (n & Hn & Hthing).
      destruct (linked_sthread w B T R n Hl Hn) as (Hsec & _).
      exists n. split_and!; [|done..].
      apply (linked_node w B T e n); [done..|]. by rewrite Hsec.
  - intros R n Hn. by apply (linked_sthread w B T).
  - intros s e T1 L T2 -> ->. by apply P_AddSecnode_linked.
  - intros n e T1 l1 l2 T2 -> ->. by apply P_DelSecnode_linked.
Qed.

End HEAP.

(** *** Rebuilding the sector list of a thing *)

(** The sector list is being rebuilt: the heap is well formed, sector_list
    is the first node of its first thing thread, and the sectors of the
    marked nodes of that thread are those of [A]. *)
Definition building (T2 : list (list node_id)) (w : world) (A : sector_id -> Prop) : Prop :=
  exists L Sec F,
    heap_ok w (L :: T2) Sec F
    /\ sector_list (mem w) = head L
    /\ forall s, marked_sectors w L s <-> A s.

Section REBUILD.
Context {E : engine}.

(** The sectors PIT_GetSectors adds for a line: none if the box misses the
    line, else the front sector and the back sector if it is another one. *)
Definition line_sectors (box : bbox_t) (ld : line_id) : list sector_id :=
  let l := lines ld in
  if decide (BOXRIGHT box <= BOXLEFT (ld_bbox l)
             \/ BOXRIGHT (ld_bbox l) <= BOXLEFT box
             \/ BOXTOP box <= BOXBOTTOM (ld_bbox l)
             \/ BOXTOP (ld_bbox l) <= BOXBOTTOM box)
  then []
  else if decide (P_BoxOnLineSide box ld <> -1) then []
  else
    ld_frontsector l
    :: match ld_backsector l with
       | Some back => if decide (back <> ld_frontsector l) then [back] else []
       | None => []
       end.

(** The lines of a blockmap cell. *)
Definition cell_lines (bx by_ : Z) : list line_id :=
  if decide (bx < 0 \/ by_ < 0 \/ bmapwidth <= bx \/ bmapheight <= by_) then []
  else blockmap bx by_.

(** The lines of the blockmap cells that a box touches. *)
Definition lines_near (box : bbox_t) : list line_id :=
  bx ← int_range (P_GetSafeBlockX (sub32 (BOXLEFT box) bmaporgx))
                 (P_GetSafeBlockX (sub32 (BOXRIGHT box) bmaporgx));
  by_ ← int_range (P_GetSafeBlockY (sub32 (BOXBOTTOM box) bmaporgy))
                  (P_GetSafeBlockY (sub32 (BOXTOP box) bmaporgy));
  cell_lines bx by_.

(** The sectors a thing at (x, y) touches: those of the lines that cross
    its box, and the sector of its subsector. *)
Definition touched (thing : mobj_id) (x y : Z) (w : world) (s : sector_id) : Prop :=
  let box := box_around x y (mi_pickupradius (mo_info (mobjs w thing))) in
  (exists ld, ld ∈ lines_near box /\ s ∈ line_sectors box ld)
  \/ s = subsector_sector (mo_subsector (mobjs w thing)).

(** The sectors of the nodes on the sector list. *)
Definition membership (w : world) : gset sector_id :=
  list_to_set ((fun n => m_sector (node w n)) <$> tthread w (sector_list (mem w))).

Lemma building_iff T2 w A A' :
  (forall s, A s <-> A' s) -> building T2 w A -> building T2 w A'.
Proof.
  intros HA (L & Sec & F & ? & ? & Hm). exists L, Sec, F. split_and!; [done..|].
  intros s. by rewrite Hm.
Qed.

Lemma add_building T2 w A s thing h w1 :
  building T2 w A ->
  P_AddSecnode s thing (sector_list (mem w)) w = (h, w1) ->
  building T2 (upd_mem (set_sector_list h) w1) (fun s' => A s' \/ s' = s)
  /\ heap_frame w (upd_mem (set_sector_list h) w1).
Proof.
  intros (L & Sec & F & Hok & Hsl & HA) Heq. split.
  - rewrite Hsl in Heq.
    destruct (P_AddSecnode_heap_ok s thing w [] L T2 Sec F Hok)
      as (L' & Sec' & F' & Hok' & Hfst & Hmarks & _).
    rewrite Heq in *. cbn [fst snd] in *. exists L', Sec', F'. split_and!.
    + by apply (heap_ok_same_links w1); [apply sl_set_sector_list|].
    + done.
    + intros s'. rewrite <- HA. apply Hmarks.
  - pose proof (hf_P_AddSecnode s thing (sector_list (mem w)) w) as Hf.
    rewrite Heq in Hf. etrans; [exact Hf|]. apply hf_upd_mem.
Qed.

Lemma PIT_GetSectors_building T2 w A ld :
  building T2 w A ->
  building T2 (snd (PIT_GetSectors ld w))
    (fun s => A s \/ s ∈ line_sectors (tmbbox (tm w)) ld)
  /\ heap_frame w (snd (PIT_GetSectors ld w))
  /\ fst (PIT_GetSectors ld w) = true.
Proof.
  intros Hb. unfold PIT_GetSectors, line_sectors. cbv zeta.
  case_decide.
  { split_and!; [|done..]. eapply building_iff; [|done]. intros s.
    rewrite elem_of_nil. tauto. }
  case_decide.
  { split_and!; [|done..]. eapply building_iff; [|done]. intros s.
    rewrite elem_of_nil. tauto. }
  destruct (P_AddSecnode (ld_frontsector (lines ld)) _ _ w) as [h w1] eqn:Hadd.
  destruct (add_building _ _ _ _ _ _ _ Hb Hadd) as [Hb1 Hf1].
  set (W1 := upd_mem (set_sector_list h) w1) in *. clearbody W1. clear Hadd.
  destruct (ld_backsector (lines ld)) as [back|].
  - case_decide.
    + destruct (P_AddSecnode back _ _ W1) as [h2 w2] eqn:Hadd2.
      destruct (add_building _ _ _ _ _ _ _ Hb1 Hadd2) as [Hb2 Hf2].
      cbn [fst snd]. split_and!; [|by etrans|done].
      eapply building_iff; [|done]. intros s. cbn beta.
      rewrite !elem_of_cons, elem_of_nil. tauto.
    + cbn [fst snd]. split_and!; [|done..].
      eapply building_iff; [|done]. intros s. cbn beta.
      rewrite !elem_of_cons, elem_of_nil. tauto.
  - cbn [fst snd]. split_and!; [|done..].
    eapply building_iff; [|done]. intros s. cbn beta.
    rewrite !elem_of_cons, elem_of_nil. tauto.
Qed.

(** The state of the rebuild while the blockmap is scanned: the lines of
    [seen] are the ones stamped with the current validcount, and the marked
    sectors are those of the lines of [seen] that cross the box. *)
Definition scanning (T2 : list (list node_id)) (w0 : world) (seen : list line_id)
  (w : world) : Prop :=
  building T2 w (fun s => exists ld, ld ∈ seen /\ s ∈ line_sectors (tmbbox (tm w0)) ld)
  /\ (forall ld, line_validcount w ld = validcount w0 <-> ld ∈ seen)
  /\ (forall ld, line_validcount w ld = line_validcount w0 ld
                 \/ line_validcount w ld = validcount w0)
  /\ tm w = tm w0 /\ validcount w = validcount w0 /\ mobjs w = mobjs w0.

Lemma scanning_line T2 w0 seen w ld :
  scanning T2 w0 seen w ->
  let r := if decide (line_validcount w ld = validcount w) then (true, w)
           else PIT_GetSectors ld
                  (set_line_validcount (<[ld := validcount w]> (line_validcount w)) w) in
  scanning T2 w0 (seen ++ [ld]) (snd r) /\ fst r = true.
Proof.
  intros (Hb & Hseen & Hold & Htm & Hv & Hm). cbv zeta. case_decide as Hld.
  - cbn [fst snd]. split; [|done]. rewrite Hv in Hld. apply Hseen in Hld.
    split_and!; try done.
    + eapply building_iff; [|done]. intros s. split.
      * intros (ld' & Hin & Hs). exists ld'. split; [|done]. apply elem_of_app. by left.
      * intros (ld' & [Hin| ->%list_elem_of_singleton]%elem_of_app & Hs); eauto.
    + intros ld'. rewrite Hseen, elem_of_app, list_elem_of_singleton.
      split; [tauto|]. by intros [?| ->].
  - set (w1 := set_line_validcount _ w).
    assert (building T2 w1
              (fun s => exists ld, ld ∈ seen /\ s ∈ line_sectors (tmbbox (tm w0)) ld)) as Hb1.
    { destruct Hb as (L & Sec & F & Hok & Hsl & HA). exists L, Sec, F.
      split_and!; [|done..]. by apply (heap_ok_same_links w). }
    destruct (PIT_GetSectors_building T2 w1 _ ld Hb1) as (Hb2 & Hf & Hok).
    split; [|done].
    assert (tmbbox (tm w1) = tmbbox (tm w0)) as Hbox by (by rewrite <- Htm).
    rewrite Hbox in Hb2.
    split_and!.
    + eapply building_iff; [|done]. intros s. cbn beta. split.
      * intros [(ld' & Hin & Hs)|Hs].
        -- exists ld'. split; [|done]. apply elem_of_app. by left.
        -- exists ld. split; [|done]. apply elem_of_app. right. by left.
      * intros (ld' & [Hin| ->%list_elem_of_singleton]%elem_of_app & Hs); eauto.
    + intros ld'. rewrite (hf_line_validcount _ _ Hf). subst w1. simpl.
      rewrite elem_of_app, list_elem_of_singleton, <- Hseen.
      unfold insert, fn_insert. case_decide; [subst|]; rewrite ?Hv; naive_solver.
    + intros ld'. rewrite (hf_line_validcount _ _ Hf). subst w1. simpl.
      unfold insert, fn_insert. case_decide; [right; by rewrite Hv|apply Hold].
    + by rewrite (hf_tm _ _ Hf).
    + by rewrite (hf_validcount _ _ Hf).
    + by rewrite (hf_mobjs _ _ Hf).
Qed.

Lemma scanning_cell T2 w0 seen w bx by_ :
  scanning T2 w0 seen w ->
  scanning T2 w0 (seen ++ cell_lines bx by_)
    (snd (P_BlockLinesIterator bx by_ PIT_GetSectors w)).
Proof.
  unfold P_BlockLinesIterator, cell_lines. case_decide; [by rewrite app_nil_r|].
  generalize (blockmap bx by_). intros l. revert seen w.
  induction l as [|ld l IH]; intros seen w Hs; [by rewrite app_nil_r|].
  cbn [iterate].
  destruct (scanning_line T2 w0 seen w ld Hs) as [Hs' Hok]. cbv zeta in *.
  destruct (if decide (line_validcount w ld = validcount w) then _ else _) as [ok w'].
  cbn [fst snd] in *. subst ok.
  rewrite (cons_middle ld seen l), app_assoc. by apply IH.
Qed.

Lemma scanning_cells T2 w0 seen w xs ys :
  scanning T2 w0 seen w ->
  scanning T2 w0 (seen ++ (bx ← xs; by_ ← ys; cell_lines bx by_))
    (fold_left
       (fun w bx => fold_left
                      (fun w by_ => snd (P_BlockLinesIterator bx by_ PIT_GetSectors w)) ys w)
       xs w).
Proof.
  revert seen w. induction xs as [|bx xs IH]; intros seen w Hs; [by rewrite app_nil_r|].
  cbn [fold_left mbind list_bind]. rewrite app_assoc. apply IH.
  clear IH. revert seen w Hs. induction ys as [|by_ ys IH]; intros seen w Hs;
    [by rewrite app_nil_r|].
  cbn [fold_left mbind list_bind]. rewrite app_assoc. apply IH.
  by apply scanning_cell.
Qed.

Lemma clear_marks_spec w T Sec F L :
  heap_ok w T Sec F -> L ∈ T -> sector_list (mem w) = head L ->
  same_links w (clear_marks w) /\ heap_frame w (clear_marks w)
  /\ sector_list (mem (clear_marks w)) = sector_list (mem w)
  /\ forall n, n ∈ L -> m_thing (node (clear_marks w) n) = None.
Proof.
  intros Hok HL Hsl. unfold clear_marks.
  assert (tthread w (sector_list (mem w)) = L) as ->
    by (by rewrite Hsl, (heap_ok_tthread w T Sec F)).
  clear. revert w. induction L as [|a L IH]; intros w.
  { split_and!; [reflexivity|reflexivity|done|by intros n ?%elem_of_nil]. }
  cbn [fold_left]. destruct (IH (upd_node a (set_m_thing None) w)) as (H1 & H2 & H3 & H4).
  split_and!.
  - etrans; [apply sl_set_m_thing|done].
  - etrans; [apply hf_upd_node|done].
  - by rewrite H3.
  - intros n [Hna|Hn]%elem_of_cons; [subst a|by apply H4].
    destruct (decide (n ∈ L)); [by apply H4|].
    assert (forall l w0, n ∉ l ->
              m_thing (node (fold_left (fun w n => upd_node n (set_m_thing None) w) l w0) n)
              = m_thing (node w0 n)) as Hkeep.
    { clear. induction l as [|b l IH]; intros w0 Hn; [done|].
      apply not_elem_of_cons in Hn as [Hnb Hn]. cbn [fold_left]. rewrite IH by done.
      rewrite node_proj_upd_at. by rewrite decide_False. }
    rewrite Hkeep by done. rewrite node_proj_upd_at. by rewrite decide_True.
Qed.

(** The last loop keeps the marked nodes of the thread and deletes the
    others. *)
Lemma delete_unused_spec T2 rest :
  forall (fuel : nat) done w Sec F,
    heap_ok w ((done ++ rest) :: T2) Sec F ->
    sector_list (mem w) = head (done ++ rest) ->
    (length rest <= fuel)%nat ->
    exists keep Sec' F',
      heap_ok (delete_unused fuel (head rest) w) ((done ++ keep) :: T2) Sec' F'
      /\ sector_list (mem (delete_unused fuel (head rest) w)) = head (done ++ keep)
      /\ (forall n, n ∈ keep <-> n ∈ rest /\ m_thing (node w n) <> None)
      /\ (forall m, m_sector (node (delete_unused fuel (head rest) w) m) = m_sector (node w m)
                    /\ m_thing (node (delete_unused fuel (head rest) w) m) = m_thing (node w m))
      /\ heap_frame w (delete_unused fuel (head rest) w).
Proof.
  induction rest as [|n rest IH]; intros fuel done w Sec F Hok Hsl Hfuel.
  { exists [], Sec, F. cbn [head].
    assert (delete_unused fuel None w = w) as -> by (by destruct fuel).
    split_and!; try done. intros n. rewrite elem_of_nil. tauto. }
  destruct fuel as [|fuel]; [simpl in Hfuel; lia|].
  cbn [head delete_unused]. simpl in Hfuel.
  assert (done ++ n :: rest ∈ (done ++ n :: rest) :: T2) as HL by (by left).
  pose proof (ok_tthreads _ _ _ _ Hok _ HL) as HdL.
  destruct (dlist_mid _ _ _ _ _ _ HdL) as [_ Htn]. unfold tnext in Htn.
  case_decide as Hmark.
  - (* an unmarked node *)
    set (w1 := if decide (sector_list (mem w) = Some n)
               then upd_mem (set_sector_list (m_tnext (node w n))) w else w).
    assert (same_links w w1 /\ heap_frame w w1
            /\ sector_list (mem w1) = head (done ++ rest)
            /\ forall m, node w1 m = node w m) as (Hl1 & Hf1 & Hsl1 & Hn1).
    { subst w1. case_decide as Hhead.
      - split_and!; [apply sl_set_sector_list|apply hf_upd_mem| |done].
        destruct done as [|a done]; [by rewrite Htn|].
        rewrite Hsl in Hhead. simpl in Hhead. injection Hhead as ->.
        pose proof (ok_nodup _ _ _ _ Hok) as Hnd. simpl in Hnd.
        apply NoDup_cons in Hnd as [Hn _]. exfalso. apply Hn.
        rewrite !elem_of_app, elem_of_cons. auto.
      - split_and!; [done..| |done]. rewrite Hsl in *.
        destruct done as [|a done]; [done|]. done. }
    clearbody w1.
    apply (heap_ok_same_links w w1) in Hok; [|done].
    destruct (P_DelSecnode_heap_ok n w1 [] done rest T2 Sec F Hok)
      as (s1 & s2 & _ & Hok' & Hfst).
    destruct (P_DelSecnode_fields n w1) as (_ & Hnodes & _ & _ & Hnum & Hsl2).
    pose proof (hf_P_DelSecnode n w1) as Hf2.
    cbv zeta in *.
    destruct (P_DelSecnode n w1) as [next w2]. cbn [fst snd] in *. subst next.
    simpl in Hok'.
    destruct (IH fuel done w2 _ _ Hok') as (keep & Sec' & F' & Hok3 & Hsl3 & Hkeep & Hsame & Hf3);
      [by rewrite Hsl2|lia|].
    exists keep, Sec', F'. split_and!; [done..| | |].
    + intros m. rewrite Hkeep, elem_of_cons.
      destruct (Hnodes m) as (_ & -> & _). rewrite Hn1. split; [tauto|].
      intros [[->|?] ?]; [done|tauto].
    + intros m. destruct (Hsame m) as [-> ->].
      destruct (Hnodes m) as (-> & -> & _). by rewrite Hn1.
    + etrans; [exact Hf1|]. by etrans.
  - (* a marked node *)
    rewrite Htn.
    destruct (IH fuel (done ++ [n]) w Sec F) as (keep & Sec' & F' & Hok3 & Hsl3 & Hkeep & Hsame & Hf3);
      [by rewrite <- app_assoc|by rewrite <- app_assoc|lia|].
    rewrite <- app_assoc in Hok3, Hsl3.
    exists (n :: keep), Sec', F'. split_and!; [done..| |done|done].
    intros m. rewrite !elem_of_cons, Hkeep. split; [|tauto].
    intros [->|?]; [|tauto]. split; [by left|done].
Qed.

Lemma rebuild_setup_spec thing x y radius w :
  let w' := rebuild_setup thing x y radius w in
  same_links w w' /\ mem w' = mem w /\ mobjs w' = mobjs w
  /\ tmbbox (tm w') = box_around x y radius
  /\ validcount w' = add32 (validcount w) 1
  /\ line_validcount w' = line_validcount w.
Proof. by split_and!. Qed.

Lemma restore_trial_spec a b c w :
  let w' := restore_trial a b c w in
  same_links w w' /\ mem w' = mem w /\ mobjs w' = mobjs w
  /\ validcount w' = validcount w /\ line_validcount w' = line_validcount w.
Proof. unfold restore_trial. cbv zeta. by destruct (tmthing _). Qed.

(** What P_CreateSecNodeList builds: the sector list holds one node for
    each sector the thing touches at (x, y). *)
Lemma P_CreateSecNodeList_spec thing x y w L T2 :
  consistent w (L :: T2) -> sector_list (mem w) = head L ->
  (forall ld, line_validcount w ld <> add32 (validcount w) 1) ->
  let w' := P_CreateSecNodeList thing x y w in
  (exists L', consistent w' (L' :: T2) /\ sector_list (mem w') = head L')
  /\ (forall s, s ∈ membership w' <-> touched thing x y w s)
  /\ mobjs w' = mobjs w
  /\ validcount w' = add32 (validcount w) 1
  /\ (forall ld, line_validcount w' ld = line_validcount w ld
                 \/ line_validcount w' ld = add32 (validcount w) 1).
Proof.
  intros (Sec & F & Hok) Hsl Hfresh. unfold P_CreateSecNodeList. cbv zeta.
  generalize (tmthing (tm w)) (tmx (tm w)) (tmy (tm w)). intros saved1 saved2 saved3.
  (* the marks are cleared *)
  destruct (clear_marks_spec w (L :: T2) Sec F L Hok ltac:(by left) Hsl)
    as (Hl1 & Hf1 & Hsl1 & Hm1).
  apply (heap_ok_same_links w (clear_marks w)) in Hok; [|done].
  rewrite Hsl in Hsl1.
  generalize dependent (clear_marks w). intros w1 **.
  (* the trial is set up *)
  destruct (rebuild_setup_spec thing x y (mi_pickupradius (mo_info (mobjs w thing))) w1)
    as (Hl2 & Hmem2 & Hmobjs2 & Hbox2 & Hv2 & Hlv2).
  apply (heap_ok_same_links w1 (rebuild_setup thing x y
           (mi_pickupradius (mo_info (mobjs w thing))) w1)) in Hok; [|done].
  assert (forall n, n ∈ L ->
            m_thing (node (rebuild_setup thing x y
                             (mi_pickupradius (mo_info (mobjs w thing))) w1) n) = None)
    as Hm2 by (intros n Hn; unfold node; rewrite Hmem2; by apply Hm1).
  rewrite <- Hmem2 in Hsl1. clear Hm1 Hl2 Hl1.
  rewrite (hf_validcount _ _ Hf1) in Hv2. rewrite (hf_line_validcount _ _ Hf1) in Hlv2.
  rewrite (hf_mobjs _ _ Hf1) in Hmobjs2. clear Hf1 Hmem2.
  generalize dependent (rebuild_setup thing x y
                          (mi_pickupradius (mo_info (mobjs w thing))) w1).
  clear w1. intros w2 **.
  (* the lines are scanned *)
  assert (scanning T2 w2 [] w2) as Hscan.
  { split_and!; try done.
    - exists L, Sec, F. split_and!; [done..|]. intros s. split.
      + intros (n & Hn & _ & Hthing). by rewrite Hm2 in Hthing.
      + by intros (ld & ?%elem_of_nil & _).
    - intros ld. rewrite elem_of_nil, Hlv2, Hv2. split; [|done]. apply Hfresh.
    - intros ld. by left. }
  unfold scan_lines. cbv zeta.
  pose proof (scanning_cells T2 w2 [] w2
                (int_range (P_GetSafeBlockX (sub32 (BOXLEFT (tmbbox (tm w2))) bmaporgx))
                           (P_GetSafeBlockX (sub32 (BOXRIGHT (tmbbox (tm w2))) bmaporgx)))
                (int_range (P_GetSafeBlockY (sub32 (BOXBOTTOM (tmbbox (tm w2))) bmaporgy))
                           (P_GetSafeBlockY (sub32 (BOXTOP (tmbbox (tm w2))) bmaporgy)))
                Hscan) as Hscan3.
  simpl app in Hscan3. fold (lines_near (tmbbox (tm w2))) in Hscan3.
  match type of Hscan3 with scanning _ _ _ ?W => generalize dependent W end.
  intros w3 (Hb3 & _ & Hlv3 & _ & Hv3 & Hmobjs3). clear Hscan Hm2 Hok.
  (* the own sector is added *)
  unfold add_own_sector.
  destruct (P_AddSecnode _ thing (sector_list (mem w3)) w3) as [h w4'] eqn:Hadd.
  destruct (add_building _ _ _ _ _ _ _ Hb3 Hadd) as [Hb4 Hf4].
  generalize dependent (upd_mem (set_sector_list h) w4'). intros w4 **. clear Hadd Hb3.
  (* the unmarked nodes are deleted *)
  destruct Hb4 as (L4 & Sec4 & F4 & Hok4 & Hsl4 & HA4).
  pose proof (heap_ok_thread_length _ _ _ _ _ Hok4 ltac:(by left)) as Hlen.
  destruct (delete_unused_spec T2 L4 (numsecnodes (mem w4)) [] w4 Sec4 F4 Hok4 Hsl4 Hlen)
    as (keep & Sec5 & F5 & Hok5 & Hsl5 & Hkeep & Hnodes5 & Hf5).
  rewrite <- Hsl4 in *. simpl app in *.
  generalize dependent (delete_unused (numsecnodes (mem w4)) (sector_list (mem w4)) w4).
  intros w5 **.
  (* the trial is restored *)
  destruct (restore_trial_spec saved1 saved2 saved3 w5) as (Hl6 & Hmem6 & Hmobjs6 & Hv6 & Hlv6).
  apply (heap_ok_same_links w5 (restore_trial saved1 saved2 saved3 w5)) in Hok5; [|done].
  assert (forall m, node (restore_trial saved1 saved2 saved3 w5) m = node w5 m) as Hnode6
    by (intros m; unfold node; by rewrite Hmem6).
  rewrite <- Hmem6 in Hsl5.
  generalize dependent (restore_trial saved1 saved2 saved3 w5). intros w6 **.
  split_and!.
  - exists keep. split; [by exists Sec5, F5|done].
  - intros s. unfold membership. rewrite Hsl5.
    rewrite (heap_ok_tthread w6 (keep :: T2) Sec5 F5) by (done || by left).
    rewrite elem_of_list_to_set, list_elem_of_fmap. unfold touched. cbv zeta.
    rewrite <- Hbox2, <- Hmobjs2, <- Hmobjs3.
    rewrite <- (HA4 s). unfold marked_sectors. split.
    + intros (n & -> & [Hn Hthing]%Hkeep). exists n. rewrite Hnode6.
      by destruct (Hnodes5 n) as [-> _].
    + intros (n & Hn & Hsec & Hthing). exists n. rewrite Hnode6.
      destruct (Hnodes5 n) as [-> _]. split; [done|]. by apply Hkeep.
  - by rewrite Hmobjs6, (hf_mobjs _ _ Hf5), (hf_mobjs _ _ Hf4), Hmobjs3.
  - by rewrite Hv6, (hf_validcount _ _ Hf5), (hf_validcount _ _ Hf4), Hv3.
  - intros ld. rewrite Hlv6, (hf_line_validcount _ _ Hf5), (hf_line_validcount _ _ Hf4).
    rewrite <- Hv2, <- Hlv2. apply Hlv3.
Qed.

(** C8 (the rebuild is idempotent).  In a consistent heap whose
    sector_list starts a thing thread, with no line stamped beyond the
    current validcount and validcount two steps away from overflow, a
    second P_CreateSecNodeList for the same thing at the same (x, y) right
    after the first leaves the same set of sectors on the sector list. *)
Theorem P_CreateSecNodeList_idempotent thing x y w L T2 :
  consistent w (L :: T2) -> sector_list (mem w) = head L ->
  (forall ld, line_validcount w ld <= validcount w) ->
  - 2 ^ 31 <= validcount w -> validcount w + 2 < 2 ^ 31 ->
  membership (P_CreateSecNodeList thing x y (P_CreateSecNodeList thing x y w))
  = membership (P_CreateSecNodeList thing x y w).
Proof.
  intros Hc Hsl Hlines Hlo Hhi.
  assert (add32 (validcount w) 1 = validcount w + 1) as Hv1
    by (apply add32_fits; unfold fits32; lia).
  destruct (P_CreateSecNodeList_spec thing x y w L T2 Hc Hsl)
    as ((L1 & Hc1 & Hsl1) & Hmem1 & Hmobjs1 & Hval1 & Hlines1).
  { intros ld. specialize (Hlines ld). lia. }
  rewrite Hv1 in *.
  assert (add32 (validcount w + 1) 1 = validcount w + 2) as Hv2.
  { rewrite add32_fits; unfold fits32; lia. }
  destruct (P_CreateSecNodeList_spec thing x y _ L1 T2 Hc1 Hsl1)
    as (_ & Hmem2 & _).
  { intros ld. rewrite Hval1, Hv2. specialize (Hlines ld).
    destruct (Hlines1 ld) as [-> | ->]; lia. }
  apply set_eq. intros s. rewrite Hmem1, Hmem2. unfold touched. by rewrite Hmobjs1.
Qed.

End REBUILD.

(** ** The claims on the concrete level *)

Lemma demo_linker_ok : linker_ok (E := demo_engine).
Proof.
  intros thing w. split; [by split|].
  split; try done. intros m. simpl. unfold insert, fn_insert. by case_decide; subst.
Qed.

(** A monster at x = 120 standing at height [z] in sector 1. *)
Definition ledge_world (z : Z) : world :=
  demo_world (fun _ => demo_mobj 120 z 6 None) (fun _ _ => []).

(** A mover (thing 1) at x = 0 and a shootable occupant (thing 2) at
    x = 64, height 24, listed in the blockmap cell it stands in. *)
Definition telefrag_world : world :=
  demo_world (fun m => if decide (m = 2%nat) then demo_mobj 64 24 6 None
                       else demo_mobj 0 0 6 None)
    (fun bx by_ => if decide (bx = 2 /\ by_ = 2) then [2%nat] else []).

(** A blast (thing 1) at x = 0, height 28, and a shootable thing 2 at
    x = 64 whose middle is at height 28. *)
Definition blast_world : world :=
  demo_world (fun m => if decide (m = 2%nat) then demo_mobj 64 0 6 None
                       else demo_mobj 0 28 0 None)
    (fun bx by_ => if decide (bx = 2 /\ by_ = 2) then [2%nat] else []).

(** A monster at x = 120, height 25, in sector 1 that has MF_TELEPORT. *)
Definition teleporting_world : world :=
  demo_world (fun _ => demo_mobj 120 25 32774 None) (fun _ _ => []).




(** A mover (thing 1) at (0, 0) with momentum (8, 8) and a solid thing 2
    at (0, 44), listed in the blockmap cell of its centre. *)
Definition stairs_world : world :=
  demo_world (fun m => if decide (m = 2%nat) then set_mo_y (fx 44) (demo_mobj 0 0 6 None)
                       else set_mo_momx (fx 8) (set_mo_momy (fx 8) (demo_mobj 0 0 6 None)))
    (fun bx by_ => if decide (bx = 2 /\ by_ = 2) then [2%nat] else []).

Lemma empty_heap_consistent things links : consistent (demo_world things links) [[]].
Proof.
  exists (fun _ => []), []. split; try done.
  - by intros l ->%list_elem_of_singleton.
  - intros s. by destruct s as [|[|?]].
  - intros s. constructor.
  - intros s n ?%elem_of_nil. done.
  - constructor.
  - intros n ?%elem_of_nil. done.
Qed.

(** C1, as stated, fails: the monster steps from the floor of sector 0 up
    to the floor of sector 1, 24 units higher; the move is accepted and the
    committed floorz is above z. *)
Lemma P_TryMove_floor_above_feet :
  let r := P_TryMove (E := demo_engine) 1%nat (fx 64) 0 true monster_world in
  fst r = true
  /\ ~ (mo_floorz (mobjs (snd r) 1%nat) <= mo_z (mobjs (snd r) 1%nat)).
Proof.
  cbv zeta.
  assert (fst (P_TryMove (E := demo_engine) 1%nat (fx 64) 0 true monster_world) = true) as Hok
    by (vm_compute; reflexivity).
  assert (mo_floorz (mobjs (snd (P_TryMove (E := demo_engine) 1%nat (fx 64) 0 true
                                   monster_world)) 1%nat) = 1572864) as ->
    by (vm_compute; reflexivity).
  assert (mo_z (mobjs (snd (P_TryMove (E := demo_engine) 1%nat (fx 64) 0 true
                              monster_world)) 1%nat) = 0) as ->
    by (vm_compute; reflexivity).
  split; [done|lia].
Qed.

(** C3, as stated, fails: a monster with MF_TELEPORT makes the step of the
    monster of [ledge_world 25]; the move is accepted and committed, the
    special line between sector 1 and sector 2 is on the trial list and has
    the old and the new position on different sides, and nothing fires. *)
Lemma special_line_crossed_without_trigger :
  let w := teleporting_world in
  let w1 := snd (P_CheckPosition (E := demo_engine) 1%nat (fx 170) 0 (trial_start w)) in
  let r := P_TryMove (E := demo_engine) 1%nat (fx 170) 0 true w in
  fst r = true
  /\ mo_x (mobjs (snd r) 1%nat) = fx 170
  /\ trial_list w1 = [1%nat]
  /\ ld_special (lines (engine := demo_engine) 1%nat) = 97
  /\ P_PointOnLineSide (engine := demo_engine) (fx 120) 0 1%nat = 1
  /\ P_PointOnLineSide (engine := demo_engine) (fx 170) 0 1%nat = 0
  /\ events (snd r) = [].
Proof. cbv zeta. split_and!; vm_compute; reflexivity. Qed.



(** C4, as stated, fails: a player's own body in sector 1 tries a spot in
    sector 2 whose floor is 25 units above its feet; no line is contacted,
    and P_TryMove returns true. *)
Lemma P_TryMove_high_step_not_rejected :
  let w := player_world in
  let w1 := snd (P_CheckPosition (E := demo_engine) 1%nat (fx 190) 0 (trial_start w)) in
  tst (mo_flags (mobjs w 1%nat)) (MF_NOCLIP (engine := demo_engine)) = false
  /\ tst (mo_flags (mobjs w 1%nat)) (MF_TELEPORT (engine := demo_engine)) = false
  /\ freeze (cv w) = false
  /\ sub32 (tmfloorz (tm w1)) (mo_z (mobjs w 1%nat)) = 25 * FRACUNIT (E := demo_engine)
  /\ fst (P_TryMove (E := demo_engine) 1%nat (fx 190) 0 true w) = true.
Proof. cbv zeta. split_and!; vm_compute; reflexivity. Qed.

(** C10 on the level: the monster on the floor of sector 1 (height 24) is
    refused the 25 unit step up into sector 2, and stays as it was. *)
Lemma P_TryMove_rejected_atomic_witness :
  let w := ledge_world 24 in
  let r := P_TryMove (E := demo_engine) 1%nat (fx 170) 0 true w in
  fst r = false
  /\ mo_x (mobjs (snd r) 1%nat) = mo_x (mobjs w 1%nat)
  /\ mo_floorz (mobjs (snd r) 1%nat) = mo_floorz (mobjs w 1%nat)
  /\ mem (snd r) = mem w.
Proof.
  cbv zeta.
  assert (fst (P_TryMove (E := demo_engine) 1%nat (fx 170) 0 true (ledge_world 24)) = false)
    as Hf by (vm_compute; reflexivity).
  pose proof (P_TryMove_rejected_atomic (E := demo_engine) 1%nat (fx 170) 0 true
                (ledge_world 24) Hf) as H.
  cbv zeta in H. destruct H as (Hx & _ & _ & Hfl & _ & _ & _ & _ & Hmem & _).
  exact (conj Hf (conj Hx (conj Hfl Hmem))).
Defined.

(** C1 on the level: the monster's step up to sector 1 is accepted and
    committed, with the floor 24 units above its feet. *)
Lemma P_TryMove_accepted_bounds_witness :
  let w := monster_world in
  let r := P_TryMove (E := demo_engine) 1%nat (fx 64) 0 true w in
  let mo := mobjs w 1%nat in
  let mo' := mobjs (snd r) 1%nat in
  fst r = true
  /\ mo_x mo' = fx 64 /\ mo_y mo' = 0 /\ mo_z mo' = mo_z mo
  /\ mo_height mo' <= sub32 (mo_ceilingz mo') (mo_floorz mo')
  /\ mo_height mo' <= sub32 (mo_ceilingz mo') (mo_z mo')
  /\ sub32 (mo_floorz mo') (mo_z mo') <= 24 * FRACUNIT (E := demo_engine).
Proof.
  cbv zeta.
  assert (fst (P_TryMove (E := demo_engine) 1%nat (fx 64) 0 true monster_world) = true)
    as Hok by (vm_compute; reflexivity).
  split; [exact Hok|].
  destruct (P_TryMove_accepted_bounds (E := demo_engine) 1%nat (fx 64) 0 true monster_world
              demo_linker_ok) as [(Hstuck & _)|(_ & H)];
    [vm_compute; reflexivity..|exact Hok| |].
  - exfalso. revert Hstuck. unfold does_not_fit. vm_compute.
    intros [H|[H|H]]; discriminate H.
  - cbv zeta in H. tauto.
Defined.

(** C4 on the level: the monster at height 25 in sector 1 steps up exactly
    24 units into sector 2 and is moved there. *)
Lemma P_TryMove_step_height_witness :
  let w := ledge_world 25 in
  let w1 := snd (P_CheckPosition (E := demo_engine) 1%nat (fx 170) 0 (trial_start w)) in
  let r := P_TryMove (E := demo_engine) 1%nat (fx 170) 0 true w in
  sub32 (tmfloorz (tm w1)) (mo_z (mobjs w 1%nat)) = 24 * FRACUNIT (E := demo_engine)
  /\ fst r = true /\ mo_x (mobjs (snd r) 1%nat) = fx 170
  /\ mo_y (mobjs (snd r) 1%nat) = 0
  /\ mo_floorz (mobjs (snd r) 1%nat) = tmfloorz (tm w1).
Proof.
  cbv zeta. split; [vm_compute; reflexivity|].
  destruct (P_TryMove_step_height (E := demo_engine) 1%nat (fx 170) 0 true (ledge_world 25)
              demo_linker_ok) as [Hstep _]; [vm_compute; reflexivity..|].
  cbv zeta in Hstep. apply Hstep.
  - vm_compute. discriminate.
  - vm_compute. discriminate.
  - vm_compute. discriminate.
  - right. left. reflexivity.
  - left. vm_compute. reflexivity.
Defined.

(** C3 on the level: that step crosses the special line between sector 1
    and sector 2, which fires once. *)
Lemma special_lines_fire_once_witness :
  let w := ledge_world 25 in
  let r := P_TryMove (E := demo_engine) 1%nat (fx 170) 0 true w in
  fst r = true /\ crossings (events (snd r)) = [(1%nat, 1, 1%nat)].
Proof.
  cbv zeta.
  assert (fst (P_TryMove (E := demo_engine) 1%nat (fx 170) 0 true (ledge_world 25)) = true)
    as Hok by (vm_compute; reflexivity).
  split; [exact Hok|].
  destruct (special_lines_fire_once (E := demo_engine) 1%nat (fx 170) 0 true (ledge_world 25)
              demo_linker_ok) as (_ & _ & Hfire & _).
  cbv zeta in Hfire. rewrite Hfire; [vm_compute; reflexivity..|].
  unfold does_not_fit. vm_compute. intros [H|[H|H]]; discriminate H.
Defined.



(** C2 on the level: after [sector_list = P_AddSecnode(0, 1, sector_list)]
    on the empty heap, map object 1 has a node for sector 0 on its thread,
    so sector 0 has a node for map object 1 on its thread. *)
Lemma secnode_bidirectional_witness :
  let r := P_AddSecnode 0%nat 1%nat None monster_world in
  let w1 := upd_mem (set_sector_list (fst r)) (snd r) in
  linked monster_world (Some 1%nat) [(1%nat, [])]
  /\ exists n, n ∈ sthread w1 (sec_touching_thinglist (sectors w1 0%nat))
               /\ m_thing (node w1 n) = Some 1%nat.
Proof.
  cbv zeta.
  assert (linked monster_world (Some 1%nat) [(1%nat, [])]) as H0.
  { split_and!.
    - apply NoDup_singleton.
    - apply empty_heap_consistent.
    - intros e l [= -> ->]%list_elem_of_singleton. split; [reflexivity|].
      intros n Hn. by apply elem_of_nil in Hn. }
  split; [exact H0|].
  destruct (secnode_bidirectional monster_world (Some 1%nat) [(1%nat, [])] H0)
    as (_ & _ & _ & Hadd & _).
  destruct (Hadd 0%nat 1%nat [] [] [] eq_refl eq_refl)
    as (L' & Hl' & Hthread & (n & Hn & Hs & Ht) & _).
  destruct (secnode_bidirectional _ _ _ Hl') as (_ & Hedge & _).
  apply (Hedge 1%nat 0%nat); [by left|].
  exists n. by rewrite Hthread.
Defined.

(** C8 on the level: rebuilding the sector list of the monster twice. *)
Lemma P_CreateSecNodeList_idempotent_witness :
  membership (P_CreateSecNodeList (E := demo_engine) 1%nat 0 0
                (P_CreateSecNodeList (E := demo_engine) 1%nat 0 0 monster_world))
  = membership (P_CreateSecNodeList (E := demo_engine) 1%nat 0 0 monster_world).
Proof.
  apply (P_CreateSecNodeList_idempotent (E := demo_engine) 1%nat 0 0 monster_world [] []
           (empty_heap_consistent _ _)).
  - reflexivity.
  - intros ld. vm_compute. discriminate.
  - vm_compute. discriminate.
  - vm_compute. reflexivity.
Defined.

(** * Further properties of the movement code *)

Section MOVES.
Context {E : engine}.

(** X1.  P_CheckPosition is purely informative, nothing is modified except
    through the calls it makes (things picked up, damage done, states
    set): in a run that makes no call, whatever it answers, no map object
    is moved, resized or relinked, none gets new cached bounds, and the
    sectors, the blockmap lists and the sector nodes are as before. *)
Theorem P_CheckPosition_informative thing x y w m :
  let w' := snd (P_CheckPosition thing x y w) in
  events w' = events w ->
  mo_x (mobjs w' m) = mo_x (mobjs w m) /\ mo_y (mobjs w' m) = mo_y (mobjs w m)
  /\ mo_z (mobjs w' m) = mo_z (mobjs w m)
  /\ mo_radius (mobjs w' m) = mo_radius (mobjs w m)
  /\ mo_height (mobjs w' m) = mo_height (mobjs w m)
  /\ mo_floorz (mobjs w' m) = mo_floorz (mobjs w m)
  /\ mo_ceilingz (mobjs w' m) = mo_ceilingz (mobjs w m)
  /\ mo_dropoffz (mobjs w' m) = mo_dropoffz (mobjs w m)
  /\ mo_subsector (mobjs w' m) = mo_subsector (mobjs w m)
  /\ mo_touching_sectorlist (mobjs w' m) = mo_touching_sectorlist (mobjs w m)
  /\ mem w' = mem w /\ sectors w' = sectors w /\ blocklinks w' = blocklinks w.
Proof.
  cbv zeta. intros _. pose proof (vf_P_CheckPosition thing x y w) as Hv.
  destruct (place_of_fields _ _ (vf_places _ _ Hv m))
    as (? & ? & ? & ? & ? & ? & ? & ? & _ & _ & ? & ?).
  split_and!; try done; by destruct Hv.
Qed.

Lemma tst_lor_r flags a b : tst flags b = true -> tst flags (Z.lor a b) = true.
Proof.
  unfold tst. intros Hb%bool_decide_eq_true. apply bool_decide_eq_true.
  rewrite Z.land_lor_distr_r. intros [_ ?]%Z.lor_eq_0_iff. done.
Qed.

Lemma check_setup_spec thing x y w :
  let w' := check_setup thing x y w in
  let newsec := sectors w (subsector_sector (R_PointInSubsector x y)) in
  mobjs w' = mobjs w /\ cv w' = cv w /\ events w' = events w
  /\ tmfloorz (tm w') = sec_floorheight newsec
  /\ tmceilingz (tm w') = sec_ceilingheight newsec
  /\ tmdropoffz (tm w') = sec_floorheight newsec.
Proof. done. Qed.

(** X2.  A thing that does not clip (MF_NOCLIP, or freeze mode) is never
    refused: P_TryMove returns true and puts the thing at (x, y) with the
    floor and the ceiling of the sector there as its bounds; z is unchanged
    and no special line is triggered. *)
Theorem P_TryMove_noclip thing x y dropoff w :
  linker_ok ->
  tst (mo_flags (mobjs w thing)) MF_NOCLIP = true \/ freeze (cv w) = true ->
  let r := P_TryMove thing x y dropoff w in
  let newsec := sectors w (subsector_sector (R_PointInSubsector x y)) in
  let mo' := mobjs (snd r) thing in
  fst r = true
  /\ mo_x mo' = x /\ mo_y mo' = y /\ mo_z mo' = mo_z (mobjs w thing)
  /\ mo_floorz mo' = sec_floorheight newsec
  /\ mo_ceilingz mo' = sec_ceilingheight newsec
  /\ mo_dropoffz mo' = sec_floorheight newsec
  /\ crossings (events (snd r)) = crossings (events w).
Proof.
  intros Hlink Hnoclip. unfold P_TryMove, P_CheckPosition. cbv zeta. fold (trial_start w).
  destruct (check_setup_spec thing x y (trial_start w)) as (Hm & Hcv & Hev & Hf & Hc & Hd).
  assert (tst (mo_flags (mobjs (check_setup thing x y (trial_start w)) thing)) MF_NOCLIP
          || freeze (cv (check_setup thing x y (trial_start w))) = true) as Hskip.
  { rewrite Hm, Hcv. change (mobjs (trial_start w)) with (mobjs w).
    change (freeze (cv (trial_start w))) with (freeze (cv w)).
    destruct Hnoclip as [Hn|Hfz]; [by rewrite Hn|]. rewrite Hfz. apply orb_true_r. }
  rewrite Hskip. cbn [negb].
  assert (negb (tst (mo_flags (mobjs (check_setup thing x y (trial_start w)) thing)) MF_NOCLIP)
          && negb (freeze (cv (check_setup thing x y (trial_start w)))) = false) as ->.
  { apply orb_true_iff in Hskip as [-> | ->]; [done|apply andb_false_r]. }
  cbn [fst snd].
  destruct (commit_move_spec thing x y (check_setup thing x y (trial_start w)) Hlink)
    as (Hx & Hy & Hz & _ & Hfl & Hce & Hdr & Hcr).
  rewrite Hx, Hy, Hz, Hfl, Hce, Hdr, Hcr, Hf, Hc, Hd, Hm, Hev.
  split_and!; try done.
  assert (negb (tst (mo_flags (mobjs (trial_start w) thing)) (Z.lor MF_TELEPORT MF_NOCLIP))
          && negb (freeze (cv (check_setup thing x y (trial_start w)))) = false) as ->.
  { rewrite Hcv. change (freeze (cv (trial_start w))) with (freeze (cv w)).
    change (mobjs (trial_start w)) with (mobjs w).
    destruct Hnoclip as [Hn| ->]; [|apply andb_false_r].
    by rewrite (tst_lor_r _ _ _ Hn). }
  apply app_nil_r.
Qed.

End MOVES.

Section TELEPORTS.
Context {E : engine}.

Lemma stomp_walk_idle l w :
  telefrag (tm w) = false -> snd (iterate PIT_StompThing l w) = w.
Proof.
  intros Htele. induction l as [|t l IH]; [done|]. cbn [iterate].
  pose proof (PIT_StompThing_no_telefrag t w Htele) as Hs.
  destruct (PIT_StompThing t w) as [[] w']; cbn [snd] in *; by subst w'.
Qed.

(** X3.  A refused teleport is atomic: P_TeleportMove returns false only
    when telefragging is off (the mover is no player and no boss), and
    then no map object, no blockmap list, no sector node and no sector has
    changed, and no call into the damage code was made. *)
Theorem P_TeleportMove_refused_atomic thing x y z boss w :
  fst (P_TeleportMove thing x y z boss w) = false ->
  let w' := snd (P_TeleportMove thing x y z boss w) in
  (mo_player (mobjs w thing) = None /\ boss = false)
  /\ mobjs w' = mobjs w /\ blocklinks w' = blocklinks w /\ mem w' = mem w
  /\ sectors w' = sectors w /\ events w' = events w.
Proof.
  unfold P_TeleportMove. cbv zeta.
  destruct (stomp_setup_spec thing x y z boss w)
    as (Hm & He & Hb & _ & _ & _ & _ & _ & _ & Htele).
  assert (mem (stomp_setup thing x y z boss w) = mem w) as Hmem by done.
  assert (sectors (stomp_setup thing x y z boss w) = sectors w) as Hsec by done.
  generalize dependent (stomp_setup thing x y z boss w). intros w0 **.
  rewrite stomp_things_walk in *.
  destruct (telefrag (tm w0)) eqn:Ht.
  - destruct (stomp_walk_runs (things_near w0 (tmbbox (tm w0))) w0 Ht) as [Hok _].
    destruct (iterate PIT_StompThing _ w0) as [ok w1]. cbn [fst] in Hok. subst ok.
    done.
  - pose proof (stomp_walk_idle (things_near w0 (tmbbox (tm w0))) w0 Ht) as Hidle.
    destruct (iterate PIT_StompThing _ w0) as [[] w1]; cbn [snd negb] in *; [done|].
    subst w1. split_and!; try done.
    + symmetry in Htele. apply orb_false_iff in Htele as [[Hp _]%orb_false_iff _].
      apply bool_decide_eq_false in Hp. destruct (mo_player _); [|done].
      exfalso. apply Hp. by eexists.
    + symmetry in Htele. by apply orb_false_iff in Htele as [[_ ?]%orb_false_iff _].
Qed.

Lemma teleport_commit_fields thing x y w :
  linker_ok ->
  let mo' := mobjs (teleport_commit thing x y w) thing in
  mo_x mo' = x /\ mo_y mo' = y /\ mo_z mo' = mo_z (mobjs w thing)
  /\ mo_floorz mo' = tmfloorz (tm w) /\ mo_ceilingz mo' = tmceilingz (tm w)
  /\ mo_dropoffz mo' = tmdropoffz (tm w).
Proof.
  intros Hl. unfold teleport_commit. cbv zeta.
  destruct (Hl thing w) as [H1 _].
  pose proof (f_equal mo_z (lf_bodies _ _ H1 thing)) as Hz1.
  pose proof (lf_tmfloorz _ _ H1) as Hf1. pose proof (lf_tmceilingz _ _ H1) as Hc1.
  pose proof (lf_tmdropoffz _ _ H1) as Hd1. simpl in Hz1. clear H1.
  generalize dependent (P_UnsetThingPosition thing w). intros w1 **.
  match goal with |- context [P_SetThingPosition thing ?W] => set (w2 := W) end.
  assert (mo_x (mobjs w2 thing) = x /\ mo_y (mobjs w2 thing) = y
          /\ mo_z (mobjs w2 thing) = mo_z (mobjs w1 thing)
          /\ mo_floorz (mobjs w2 thing) = tmfloorz (tm w1)
          /\ mo_ceilingz (mobjs w2 thing) = tmceilingz (tm w1)
          /\ mo_dropoffz (mobjs w2 thing) = tmdropoffz (tm w1)) as Hw2.
  { subst w2. simpl. by rewrite !fn_lookup_insert. }
  clearbody w2. destruct (Hl thing w2) as [_ H3].
  pose proof (cf_update_feetclip thing (P_SetThingPosition thing w2)) as H4.
  generalize dependent (P_SetThingPosition thing w2). intros w3 **.
  generalize dependent (update_feetclip thing w3). intros w4 **.
  pose proof (f_equal unlinked (cf_cores _ _ H4 thing)) as Hc. 
  pose proof (lf_bodies _ _ H3 thing) as Hb.
  destruct Hw2 as (Hx & Hy & Hz & Hf & Hce & Hd).
  pose proof (f_equal mo_x (cf_cores _ _ H4 thing)) as Hx4.
  pose proof (f_equal mo_y (cf_cores _ _ H4 thing)) as Hy4.
  pose proof (f_equal mo_z (cf_cores _ _ H4 thing)) as Hz4.
  pose proof (f_equal mo_floorz (cf_cores _ _ H4 thing)) as Hf4.
  pose proof (f_equal mo_ceilingz (cf_cores _ _ H4 thing)) as Hc4.
  pose proof (f_equal mo_dropoffz (cf_cores _ _ H4 thing)) as Hd4.
  pose proof (f_equal mo_x Hb) as Hx3. pose proof (f_equal mo_y Hb) as Hy3.
  pose proof (f_equal mo_z Hb) as Hz3. pose proof (f_equal mo_floorz Hb) as Hf3.
  pose proof (f_equal mo_ceilingz Hb) as Hc3. pose proof (f_equal mo_dropoffz Hb) as Hd3.
  simpl in *. split_and!; congruence.
Qed.

(** X4.  The teleport of a player or of a boss is never refused:
    P_TeleportMove returns true and puts the thing at (x, y) with the floor
    and the ceiling of the sector there as its bounds.  It does not write
    the z it is given: the thing keeps its own z. *)
Theorem P_TeleportMove_telefrag thing x y z boss w :
  linker_ok ->
  is_Some (mo_player (mobjs w thing)) \/ boss = true ->
  let r := P_TeleportMove thing x y z boss w in
  let newsec := sectors w (subsector_sector (R_PointInSubsector x y)) in
  let mo' := mobjs (snd r) thing in
  fst r = true
  /\ mo_x mo' = x /\ mo_y mo' = y /\ mo_z mo' = mo_z (mobjs w thing)
  /\ mo_floorz mo' = sec_floorheight newsec
  /\ mo_ceilingz mo' = sec_ceilingheight newsec
  /\ mo_dropoffz mo' = sec_floorheight newsec.
Proof.
  intros Hl Hwho. unfold P_TeleportMove. cbv zeta.
  destruct (stomp_setup_spec thing x y z boss w)
    as (Hm & _ & _ & _ & _ & _ & _ & _ & _ & Htele).
  assert (telefrag (tm (stomp_setup thing x y z boss w)) = true) as Ht.
  { rewrite Htele. destruct Hwho as [Hp| ->].
    - by rewrite (bool_decide_eq_true_2 _ Hp).
    - by rewrite orb_true_r. }
  assert (tmfloorz (tm (stomp_setup thing x y z boss w))
            = sec_floorheight (sectors w (subsector_sector (R_PointInSubsector x y)))
          /\ tmceilingz (tm (stomp_setup thing x y z boss w))
            = sec_ceilingheight (sectors w (subsector_sector (R_PointInSubsector x y)))
          /\ tmdropoffz (tm (stomp_setup thing x y z boss w))
            = sec_floorheight (sectors w (subsector_sector (R_PointInSubsector x y))))
    as (Hf & Hc & Hd) by done.
  clear Htele.
  generalize dependent (stomp_setup thing x y z boss w). intros w0 **.
  rewrite stomp_things_walk.
  destruct (stomp_walk_runs (things_near w0 (tmbbox (tm w0))) w0 Ht) as [Hok Ho].
  destruct (iterate PIT_StompThing _ w0) as [ok w1]. cbn [fst snd] in *. subst ok.
  cbn [negb fst snd].
  destruct (teleport_commit_fields thing x y w1 Hl) as (-> & -> & -> & -> & -> & ->).
  rewrite (oe_tm _ _ Ho), (oe_mobjs _ _ Ho), Hm, Hf, Hc, Hd. done.
Qed.

End TELEPORTS.

Section BLASTS.
Context {E : engine}.

Lemma PIT_RadiusAttack_spared thing w :
  (tst (mo_flags (mobjs w thing)) MF_SHOOTABLE = false
   /\ tst (mo_flags (mobjs w thing)) MF_CORPSE = false)
  \/ mo_type (mobjs w thing) = MT_CYBORG \/ mo_type (mobjs w thing) = MT_SPIDER ->
  snd (PIT_RadiusAttack thing w) = w.
Proof.
  intros Hwho. unfold PIT_RadiusAttack. cbv zeta.
  destruct (negb _ && negb _) eqn:Hshoot; [done|].
  rewrite decide_True; [done|].
  destruct Hwho as [[Hs Hc]|Hboss]; [|done].
  by rewrite Hs, Hc in Hshoot.
Qed.

(** X5.  A radius attack spares what cannot be hurt by blasts: a thing
    that is neither shootable nor a corpse, and the two boss types
    MT_CYBORG and MT_SPIDER, get no P_DamageMobj call from P_RadiusAttack,
    however close they are and however often the scan meets them. *)
Theorem P_RadiusAttack_spares spot source damage verticality thing w :
  (tst (mo_flags (mobjs w thing)) MF_SHOOTABLE = false
   /\ tst (mo_flags (mobjs w thing)) MF_CORPSE = false)
  \/ mo_type (mobjs w thing) = MT_CYBORG \/ mo_type (mobjs w thing) = MT_SPIDER ->
  damage_to thing (events (P_RadiusAttack spot source damage verticality w))
  = damage_to thing (events w).
Proof.
  intros Hwho.
  destruct (P_RadiusAttack_walk spot source damage verticality w)
    as (w0 & -> & Hf & Hm & He & _).
  rewrite <- He. rewrite <- Hm in Hwho. clear Hf Hm He.
  generalize (radius_things w spot damage). intros l. revert w0 Hwho.
  induction l as [|t l IH]; intros w0 Hwho; [done|].
  cbn [iterate].
  pose proof (PIT_RadiusAttack_true t w0) as Ht.
  pose proof (PIT_RadiusAttack_frame t w0) as Hf.
  destruct (decide (t = thing)) as [->|Hne].
  - pose proof (PIT_RadiusAttack_spared thing w0 Hwho) as Hw.
    destruct (PIT_RadiusAttack thing w0) as [b w']. cbn [fst snd] in *. subst b w'.
    by apply IH.
  - pose proof (PIT_RadiusAttack_other thing t w0 Hne) as Ho.
    destruct (PIT_RadiusAttack t w0) as [b w']. cbn [fst snd] in *. subst b.
    rewrite IH; [done|].
    change (mo_flags (mobjs w' thing)) with (mo_flags (set_mo_nudge 0 (mobjs w' thing))).
    change (mo_type (mobjs w' thing)) with (mo_type (set_mo_nudge 0 (mobjs w' thing))).
    by rewrite (bf_bodies _ _ Hf).
Qed.

(** A call a blast of [damage] at [spot] may make: P_DamageMobj on some
    thing, inflicted by the spot on behalf of the source, of the damage
    less a distance below it. *)
Definition blast_call (spot : mobj_id) (source : option mobj_id) (damage : Z) (e : event)
  : Prop :=
  exists t dist,
    e = P_DamageMobj t (Some spot) source (sub32 damage dist) true /\ 0 <= dist < damage.

Lemma PIT_RadiusAttack_calls t w :
  exists evs,
    events (snd (PIT_RadiusAttack t w)) = events w ++ evs
    /\ Forall (blast_call (deref (bombspot (bomb w))) (bombsource (bomb w))
                 (bombdamage (bomb w))) evs.
Proof.
  assert (exists evs, events w = events w ++ evs
            /\ Forall (blast_call (deref (bombspot (bomb w))) (bombsource (bomb w))
                         (bombdamage (bomb w))) evs) as Hnone
    by (exists []; by rewrite app_nil_r).
  unfold PIT_RadiusAttack. cbv zeta.
  destruct (negb _ && negb _); [done|]. case_decide; [done|].
  destruct (negb _ || _ || _).
  - case_decide as Hr; [done|]. destruct (P_CheckSight _ _ _); [|done].
    eexists [_]. split.
    + cbn [snd]. destruct (_ && _ && _); simpl; [by case_decide|done].
    + apply Forall_singleton. eexists _, _. split; [done|].
      split; [apply MAX_le_l|lia].
  - case_decide as Hr; [done|]. case_decide; [done|].
    destruct (P_CheckSight _ _ _); [|done].
    eexists [_]. split.
    + cbn [snd]. destruct (_ && _ && _); simpl; [by case_decide|done].
    + apply Forall_singleton. eexists _, _. split; [done|].
      split; [apply MAX_le_l|lia].
Qed.

(** X6.  The calls a radius attack makes into other code: P_DamageMobj
    calls only, each inflicted by the spot on behalf of the source, and
    each of a damage above 0 and at most the damage of the blast.  (Its own
    writes, the nudge counter of the spot and the shot statistics, are
    not in the log of calls.) *)
Theorem P_RadiusAttack_calls spot source damage verticality w :
  fits32 damage ->
  exists evs,
    events (P_RadiusAttack spot source damage verticality w) = events w ++ evs
    /\ Forall (fun e => exists t d, e = P_DamageMobj t (Some spot) source d true
                                    /\ 0 < d <= damage) evs.
Proof.
  intros Hfits.
  destruct (P_RadiusAttack_walk spot source damage verticality w)
    as (w0 & -> & _ & _ & He & Hb).
  rewrite <- He. clear He.
  assert (forall l w1, bomb w1 = bomb w0 ->
            exists evs, events (snd (iterate PIT_RadiusAttack l w1)) = events w1 ++ evs
                        /\ Forall (blast_call spot source damage) evs) as Hwalk.
  { induction l as [|t l IH]; intros w1 Hb1.
    - exists []. by rewrite app_nil_r.
    - cbn [iterate].
      pose proof (PIT_RadiusAttack_true t w1) as Ht.
      pose proof (PIT_RadiusAttack_bomb t w1) as Hb2.
      destruct (PIT_RadiusAttack_calls t w1) as (e1 & He1 & Hc1).
      rewrite Hb1, Hb in Hc1. cbn [bombspot bombsource bombdamage deref default id] in Hc1.
      destruct (PIT_RadiusAttack t w1) as [b w2]. cbn [fst snd] in *. subst b.
      destruct (IH w2) as (e2 & He2 & Hc2); [congruence|].
      exists (e1 ++ e2). split; [by rewrite He2, He1, app_assoc|by apply Forall_app]. }
  destruct (Hwalk (radius_things w spot damage) w0 eq_refl) as (evs & Hevs & Hcalls).
  exists evs. split; [done|].
  eapply Forall_impl; [exact Hcalls|]. intros e (t & dist & -> & Hd).
  exists t, (sub32 damage dist). split; [done|].
  rewrite sub32_fits; unfold fits32 in *; lia.
Qed.

End BLASTS.

Section NODES.
Context {E : engine}.

(** X7.  The free list is last in, first out: the node P_PutSecnode
    returns to it is the one the next P_GetSecnode hands out, after which
    the free list and the number of nodes are as before; no other node and
    no sector has changed. *)
Theorem P_PutSecnode_P_GetSecnode n w :
  let r := P_GetSecnode (P_PutSecnode n w) in
  fst r = n
  /\ headsecnode (mem (snd r)) = headsecnode (mem w)
  /\ numsecnodes (mem (snd r)) = numsecnodes (mem w)
  /\ sector_list (mem (snd r)) = sector_list (mem w)
  /\ (forall m, m <> n -> node (snd r) m = node w m)
  /\ sectors (snd r) = sectors w.
Proof.
  cbv zeta. unfold P_GetSecnode, P_PutSecnode. cbv zeta. cbn [mem upd_mem set_mem
    headsecnode set_headsecnode fst snd].
  split_and!; try done.
  - change (m_snext (node (upd_node n (set_m_snext (headsecnode (mem w))) w) n)
            = headsecnode (mem w)).
    rewrite node_proj_upd_at. by rewrite decide_True.
  - intros m Hm. unfold node. simpl. unfold insert, fn_insert. by rewrite decide_False.
Qed.

(** X8.  P_GetSecnode never hands out a node that is in use: in a
    consistent heap the node it returns is on no thing thread and on no
    sector thread, and the heap stays consistent.  With an empty free list
    the node is a new one, numbered numsecnodes. *)
Theorem P_GetSecnode_unused w T :
  consistent w T ->
  let n := fst (P_GetSecnode w) in
  let w' := snd (P_GetSecnode w) in
  (forall l, l ∈ T -> n ∉ l)
  /\ (forall s, n ∉ sthread w (sec_touching_thinglist (sectors w s)))
  /\ consistent w' T
  /\ (headsecnode (mem w) = None ->
      n = numsecnodes (mem w) /\ numsecnodes (mem w') = S (numsecnodes (mem w))).
Proof.
  intros (Sec & F & Hok). cbv zeta.
  destruct (fresh_node_spec w T Sec F Hok) as (HnT & HnF & HnS & Hnd & Hsub & Hpop).
  cbv zeta in *.
  assert (fst (P_GetSecnode w) = fresh_node w) as Hfst.
  { unfold P_GetSecnode, fresh_node. by destruct (headsecnode (mem w)). }
  rewrite Hfst. split_and!.
  - intros l Hl Hn. apply HnT, elem_of_concat. eauto.
  - intros s. rewrite (heap_ok_sthread w T Sec F s Hok). apply HnS.
  - exists Sec, (tail F). unfold P_GetSecnode.
    pose proof (ok_fhead _ _ _ _ Hok) as Hfh.
    destruct (headsecnode (mem w)) as [f|] eqn:Hhead; cbn [snd].
    + destruct Hpop as [Hnext _].
      destruct Hok as [Ht Hs Hsh Hsn Hsec Hfree Hfhd Hndp Hbd Hboth]. split; try done.
      * destruct F; [done|]. by destruct Hfree.
      * intros m Hm. apply Hbd. by apply Hsub.
    + subst F. destruct Hok as [Ht Hs Hsh Hsn Hsec Hfree Hfhd Hndp Hbd Hboth].
      split; try done.
      intros m Hm. specialize (Hbd m Hm). simpl. lia.
  - intros Hnone. unfold P_GetSecnode, fresh_node. by rewrite Hnone.
Qed.

Lemma P_DelSeclist_loop_spec T1 T2 L :
  forall (fuel : nat) w Sec F,
    heap_ok w (T1 ++ L :: T2) Sec F -> (length L <= fuel)%nat ->
    exists Sec' F',
      heap_ok (P_DelSeclist_loop fuel (head L) w) (T1 ++ [] :: T2) Sec' F'
      /\ (forall n, n ∈ L -> n ∈ F').
Proof.
  induction L as [|n L IH]; intros fuel w Sec F Hok Hfuel.
  - exists Sec, F. cbn [head]. assert (P_DelSeclist_loop fuel None w = w) as -> by (by destruct fuel).
    split; [done|]. by intros n ?%elem_of_nil.
  - destruct fuel as [|fuel]; [simpl in Hfuel; lia|]. cbn [head P_DelSeclist_loop].
    destruct (P_DelSecnode_heap_ok n w T1 [] L T2 Sec F Hok) as (s1 & s2 & _ & Hok' & Hfst).
    destruct (P_DelSecnode n w) as [next w1]. cbn [fst snd] in *. subst next.
    simpl in Hfuel.
    destruct (IH fuel w1 _ _ Hok' ltac:(lia)) as (Sec' & F' & Hok2 & HF).
    exists Sec', F'. split; [done|].
    intros m [->|Hm]%elem_of_cons; [|by apply HF].
    (* the free list only grows while the rest is deleted *)
    assert (forall l (k : nat) w0 Sec0 F0,
              heap_ok w0 (T1 ++ l :: T2) Sec0 F0 -> (length l <= k)%nat ->
              forall Sec1 F1, heap_ok (P_DelSeclist_loop k (head l) w0) (T1 ++ [] :: T2) Sec1 F1 ->
              forall x, x ∈ F0 -> x ∈ F1) as Hgrow.
    { clear. induction l as [|a l IHl]; intros k w0 Sec0 F0 Hok0 Hk Sec1 F1 Hok1 x Hx.
      - assert (P_DelSeclist_loop k (head (@nil node_id)) w0 = w0) as Heq by (by destruct k).
        rewrite Heq in Hok1.
        assert (F1 = F0) as ->; [|done].
        pose proof (ok_free _ _ _ _ Hok0) as Hf0. pose proof (ok_free _ _ _ _ Hok1) as Hf1.
        pose proof (ok_fhead _ _ _ _ Hok0) as Hh0. pose proof (ok_fhead _ _ _ _ Hok1) as Hh1.
        rewrite Hh0 in Hh1. clear -Hf0 Hf1 Hh1. revert F1 Hf1 Hh1.
        induction F0 as [|b F0 IH]; intros [|c F1] Hf1 Hh1; try done.
        simpl in Hh1. injection Hh1 as ->. destruct Hf0 as [Hn0 Hf0], Hf1 as [Hn1 Hf1].
        f_equal. apply IH; [done..|congruence].
      - destruct k as [|k]; [simpl in Hk; lia|]. cbn [head P_DelSeclist_loop] in Hok1.
        destruct (P_DelSecnode_heap_ok a w0 T1 [] l T2 Sec0 F0 Hok0)
          as (s1 & s2 & _ & Hok' & Hfst).
        destruct (P_DelSecnode a w0) as [next w1]. cbn [fst snd] in *. subst next.
        simpl in Hk.
        apply (IHl k w1 _ _ Hok' ltac:(lia) Sec1 F1 Hok1). by right. }
    apply (Hgrow L fuel w1 _ _ Hok' ltac:(lia) Sec' F' Hok2). by left.
Qed.

(** X9.  P_DelSeclist deletes an entire thing thread: in a consistent
    heap, applied to the first node of a thread, it leaves the heap
    consistent with that thread empty, and no node of the thread is on the
    thread of any sector any more. *)
Theorem P_DelSeclist_empties w T1 L T2 :
  consistent w (T1 ++ L :: T2) ->
  let w' := P_DelSeclist (head L) w in
  consistent w' (T1 ++ [] :: T2)
  /\ forall n s, n ∈ L -> n ∉ sthread w' (sec_touching_thinglist (sectors w' s)).
Proof.
  intros (Sec & F & Hok). cbv zeta. unfold P_DelSeclist.
  pose proof (heap_ok_thread_length w _ Sec F L Hok
                ltac:(apply elem_of_app; right; by left)) as Hlen.
  destruct (P_DelSeclist_loop_spec T1 T2 L (numsecnodes (mem w)) w Sec F Hok Hlen)
    as (Sec' & F' & Hok' & HF).
  split; [by exists Sec', F'|].
  intros n s Hn. rewrite (heap_ok_sthread _ _ Sec' F' s Hok'). intros HnS.
  pose proof (ok_nodup _ _ _ _ Hok') as Hnd. apply NoDup_app in Hnd as (_ & Hdisj & _).
  apply (Hdisj n); [|by apply HF].
  apply (ok_both _ _ _ _ Hok'). by rewrite (ok_sector _ _ _ _ Hok' s n HnS).
Qed.

(** X10.  Adding a sector twice is adding it once: after P_AddSecnode has
    put sector [s] on a thread, a second P_AddSecnode for [s] on the
    thread it returned takes no node from the free list, allocates none,
    changes no link and returns the same first node. *)
Theorem P_AddSecnode_again s thing thing' w T1 L T2 :
  consistent w (T1 ++ L :: T2) ->
  let r1 := P_AddSecnode s thing (head L) w in
  let r2 := P_AddSecnode s thing' (fst r1) (snd r1) in
  fst r2 = fst r1 /\ same_links (snd r1) (snd r2).
Proof.
  intros (Sec & F & Hok). cbv zeta.
  destruct (P_AddSecnode_heap_ok s thing w T1 L T2 Sec F Hok)
    as (L' & Sec' & F' & Hok' & Hfst & Hmarks & _).
  destruct (P_AddSecnode s thing (head L) w) as [h w1]. cbn [fst snd] in *. subst h.
  destruct (proj2 (Hmarks s) (or_intror eq_refl)) as (n & Hn & Hsec & _).
  assert (L' ∈ T1 ++ L' :: T2) as HL' by (apply elem_of_app; right; by left).
  pose proof (heap_ok_tthread _ _ _ _ _ Hok' HL') as Hwalk.
  destruct (find (fun n => bool_decide (m_sector (node w1 n) = s)) (tthread w1 (head L')))
    as [n'|] eqn:Hfind.
  - rewrite (P_AddSecnode_found _ _ _ _ _ Hfind). split; [done|]. apply sl_set_m_thing.
  - exfalso. pose proof (find_none _ _ Hfind n) as Hnone. rewrite Hwalk in Hnone.
    apply list_elem_of_In in Hn. specialize (Hnone Hn).
    by rewrite bool_decide_eq_true_2 in Hnone.
Qed.

End NODES.

(** ** What P_CheckPosition reports *)

(** The floor can only rise and the dropoff can only fall while the
    blockmap is scanned. *)
Record narrowing (w w' : world) : Prop := {
  nr_floor : tmfloorz (tm w) <= tmfloorz (tm w');
  nr_dropoff : tmdropoffz (tm w') <= tmdropoffz (tm w)
}.

#[global] Instance narrowing_preorder : PreOrder narrowing.
Proof.
  split.
  - intros w. split; lia.
  - intros w1 w2 w3 [] []. split; lia.
Qed.

#[global] Hint Extern 5 (narrowing _ _) => split; simpl; lia : frame.

Definition is_damage (e : event) : bool :=
  match e with P_DamageMobj _ _ _ _ _ => true | _ => false end.

Definition is_pickup (e : event) : bool :=
  match e with P_TouchSpecialThing _ _ _ _ => true | _ => false end.

(** The calls of P_DamageMobj among the recorded calls. *)
Definition damage_calls (evs : list event) : list event :=
  filter (fun e => is_damage e = true) evs.

(** The calls of P_TouchSpecialThing among the recorded calls. *)
Definition pickup_calls (evs : list event) : list event :=
  filter (fun e => is_pickup e = true) evs.

(** Nothing but the scratch variables of the trial, validcount and the
    marks of the lines is written, and no call is made. *)
Record scratch_only (w w' : world) : Prop := {
  so_mobjs : mobjs w' = mobjs w;
  so_players : players w' = players w;
  so_sectors : sectors w' = sectors w;
  so_mem : mem w' = mem w;
  so_cv : cv w' = cv w;
  so_blocklinks : blocklinks w' = blocklinks w;
  so_events : events w' = events w
}.

#[global] Instance scratch_only_preorder : PreOrder scratch_only.
Proof.
  split.
  - intros w. by split.
  - intros w1 w2 w3 [] []. split; congruence.
Qed.

#[global] Hint Extern 5 (scratch_only _ _) => split; reflexivity : frame.

Section REPORT.
Context {E : engine}.

Lemma so_spechit_push ld w : scratch_only w (spechit_push ld w).
Proof. unfold spechit_push. frame. Qed.

Hint Resolve so_spechit_push : frame.

Lemma so_PIT_CheckLine ld w : scratch_only w (snd (PIT_CheckLine ld w)).
Proof. unfold PIT_CheckLine. frame. Qed.

(** The moving thing is neither a flying skull nor a missile. *)
Definition walking (thing : mobj_id) (w : world) : Prop :=
  tmthing (tm w) = Some thing
  /\ tst (mo_flags (mobjs w thing)) MF_SKULLFLY = false
  /\ tst (mo_flags (mobjs w thing)) MF_MISSILE = false.

(** While a walking thing is checked, nothing is damaged, and nothing is
    picked up unless the thing has MF_PICKUP. *)
Definition harmless (thing : mobj_id) (w w' : world) : Prop :=
  walking thing w ->
  walking thing w'
  /\ mo_flags (mobjs w' thing) = mo_flags (mobjs w thing)
  /\ damage_calls (events w') = damage_calls (events w)
  /\ (tst (mo_flags (mobjs w thing)) MF_PICKUP = false ->
      pickup_calls (events w') = pickup_calls (events w)).

#[global] Instance harmless_preorder thing : PreOrder (harmless thing).
Proof.
  split.
  - intros w Hw. by split_and!.
  - intros w1 w2 w3 H12 H23 Hw. destruct (H12 Hw) as (Hw2 & Hf2 & Hd2 & Hp2).
    destruct (H23 Hw2) as (Hw3 & Hf3 & Hd3 & Hp3). split_and!; [done|congruence|congruence|].
    intros Hp. rewrite Hp3, Hp2; [done..|by rewrite Hf2].
Qed.

Lemma nr_spechit_push ld w : narrowing w (spechit_push ld w).
Proof. unfold spechit_push. frame. Qed.

Lemma nr_nudge_corpse thing w : narrowing w (nudge_corpse thing w).
Proof. unfold nudge_corpse. frame. Qed.

Lemma nr_count_shot_hit w : narrowing w (count_shot_hit w).
Proof. unfold count_shot_hit. frame. Qed.

Hint Resolve nr_spechit_push nr_nudge_corpse nr_count_shot_hit : frame.

Lemma nr_PIT_CheckThing thing w : narrowing w (snd (PIT_CheckThing thing w)).
Proof. unfold PIT_CheckThing, random_damage. frame. Qed.

Lemma nr_PIT_CheckLine ld w : narrowing w (snd (PIT_CheckLine ld w)).
Proof.
  unfold PIT_CheckLine. cbv zeta.
  case_decide; [reflexivity|]. case_decide; [reflexivity|].
  destruct (ld_backsector (lines ld)); [|split; simpl; lia].
  destruct (_ && _); [reflexivity|]. destruct (_ && _); [reflexivity|].
  cbn [snd].
  set (o := P_LineOpening (sectors w) ld).
  assert (forall w1, narrowing w w1 ->
            narrowing w (if decide (ld_special (lines ld) <> 0) then spechit_push ld w1 else w1))
    as Hpush.
  { intros w1 H1. case_decide; [|done]. etrans; [exact H1|apply nr_spechit_push]. }
  apply Hpush. clear Hpush.
  set (w1 := if decide (opentop o < tmceilingz (tm w)) then _ else w).
  assert (tmfloorz (tm w1) = tmfloorz (tm w) /\ tmdropoffz (tm w1) = tmdropoffz (tm w))
    as [Hf1 Hd1] by (subst w1; by case_decide).
  clearbody w1.
  set (w2 := if decide (tmfloorz (tm w1) < openbottom o) then _ else w1).
  assert (tmfloorz (tm w1) <= tmfloorz (tm w2) /\ tmdropoffz (tm w2) = tmdropoffz (tm w1))
    as [Hf2 Hd2] by (subst w2; case_decide; simpl; split; lia).
  clearbody w2.
  case_decide; split; simpl; lia.
Qed.

(** X11.  The floor P_CheckPosition reports is never below the floor of
    the sector at (x, y) and the dropoff it reports is never above it,
    whatever it answers; the trial it leaves behind is that of [thing] at
    (x, y). *)
Theorem P_CheckPosition_floor_bounds thing x y w :
  let w' := snd (P_CheckPosition thing x y w) in
  let newsec := sectors w (subsector_sector (R_PointInSubsector x y)) in
  sec_floorheight newsec <= tmfloorz (tm w')
  /\ tmdropoffz (tm w') <= sec_floorheight newsec
  /\ tmthing (tm w') = Some thing /\ tmx (tm w') = x /\ tmy (tm w') = y.
Proof.
  cbv zeta. unfold P_CheckPosition. cbv zeta.
  assert (narrowing (check_setup thing x y w) (snd (check_things (check_setup thing x y w))))
    as Hn1.
  { apply (frame_for_each_block narrowing). intros.
    apply (frame_P_BlockThingsIterator narrowing). apply nr_PIT_CheckThing. }
  pose proof (st_check_things (check_setup thing x y w)) as Hs1.
  assert (forall w0, narrowing w0 (snd (check_lines thing x y w0))
                     /\ tmthing (tm (snd (check_lines thing x y w0))) = tmthing (tm w0)
                     /\ tmx (tm (snd (check_lines thing x y w0))) = tmx (tm w0)
                     /\ tmy (tm (snd (check_lines thing x y w0))) = tmy (tm w0)) as Hlines.
  { intros w0. unfold check_lines. cbv zeta.
    set (w1 := if _ && _ then _ else w0).
    assert (narrowing w0 w1 /\ tmthing (tm w1) = tmthing (tm w0)
            /\ tmx (tm w1) = tmx (tm w0) /\ tmy (tm w1) = tmy (tm w0))
      as (Hn & Ht & Hx & Hy) by (subst w1; destruct (_ && _); split_and!; done).
    clearbody w1.
    set (r := for_each_block _ _ _ _ _ w1).
    assert (narrowing w1 (snd r)) as Hn2.
    { apply (frame_for_each_block narrowing). intros.
      apply (frame_P_BlockLinesIterator narrowing); [by split|]. apply nr_PIT_CheckLine. }
    assert (same_trial w1 (snd r)) as Hs2.
    { apply (frame_for_each_block same_trial). intros.
      apply (frame_P_BlockLinesIterator same_trial); [by split|]. apply st_PIT_CheckLine. }
    destruct Hs2. split_and!; [by etrans|congruence..]. }
  assert (tmfloorz (tm (check_setup thing x y w))
          = sec_floorheight (sectors w (subsector_sector (R_PointInSubsector x y)))
          /\ tmdropoffz (tm (check_setup thing x y w))
             = sec_floorheight (sectors w (subsector_sector (R_PointInSubsector x y)))
          /\ tmthing (tm (check_setup thing x y w)) = Some thing
          /\ tmx (tm (check_setup thing x y w)) = x /\ tmy (tm (check_setup thing x y w)) = y)
    as (Hf & Hd & Ht & Hx & Hy) by done.
  generalize dependent (check_setup thing x y w). intros w0 **.
  destruct (_ || _); cbn [snd]; [split_and!; [lia|lia|done..]|].
  destruct (check_things w0) as [ok w1]. cbn [snd] in *.
  destruct Hn1, Hs1.
  destruct ok; cbn [negb snd]; [|split_and!; [lia|lia|congruence..]].
  destruct (Hlines w1) as ([] & Ht2 & Hx2 & Hy2).
  split_and!; [lia|lia|congruence..].
Qed.

Lemma hl_emit thing e w :
  match e with
  | P_DamageMobj _ _ _ _ _ | P_TouchSpecialThing _ _ _ _ => False
  | _ => True
  end ->
  harmless thing w (emit e w).
Proof.
  intros He Hw. split_and!; [done..| |].
  - unfold damage_calls. simpl. rewrite filter_app, filter_cons, filter_nil.
    destruct e; try done; by rewrite decide_False, app_nil_r by done.
  - intros _. unfold pickup_calls. simpl. rewrite filter_app, filter_cons, filter_nil.
    destruct e; try done; by rewrite decide_False, app_nil_r by done.
Qed.

Lemma hl_same thing w w' :
  tmthing (tm w') = tmthing (tm w) -> mo_flags (mobjs w' thing) = mo_flags (mobjs w thing) ->
  events w' = events w -> harmless thing w w'.
Proof.
  intros Ht Hf He (Hw1 & Hw2 & Hw3). unfold walking. rewrite Ht, Hf, He. by split_and!.
Qed.

Lemma flags_upd_mobj p f w m :
  (forall mo, mo_flags (f mo) = mo_flags mo) ->
  mo_flags (mobjs (upd_mobj p f w) m) = mo_flags (mobjs w m).
Proof. intros Hf. simpl. unfold insert, fn_insert. case_decide; [subst; apply Hf|done]. Qed.

Lemma hl_upd_mobj thing p f w :
  (forall mo, mo_flags (f mo) = mo_flags mo) -> harmless thing w (upd_mobj p f w).
Proof. intros Hf. apply hl_same; [done|by apply flags_upd_mobj|done]. Qed.

Hint Extern 1 (harmless _ _ (upd_mobj _ _ _)) =>
  apply hl_upd_mobj; intros; reflexivity : frame.
Hint Extern 5 (harmless _ _ _) => apply hl_same; reflexivity : frame.

Lemma hl_nudge_corpse thing t w : harmless thing w (nudge_corpse t w).
Proof. unfold nudge_corpse. frame. Qed.

Lemma hl_PIT_CheckThing thing t w : harmless thing w (snd (PIT_CheckThing t w)).
Proof.
  intros Hw. pose proof Hw as (Htm & Hskull & Hmissile). revert Hw.
  change (harmless thing w (snd (PIT_CheckThing t w))).
  unfold PIT_CheckThing. cbv zeta. rewrite Htm. change (deref (Some thing)) with thing.
  case_decide; [reflexivity|].
  pose proof (hl_nudge_corpse thing t w) as Hn.
  assert (nudge_corpse t w = nudge_corpse t w) as Hkeep by done.
  rewrite Hskull, Hmissile. cbn [andb].
  generalize dependent (nudge_corpse t w). intros w1 **.
  destruct (negb _); [done|]. case_decide; [done|].
  destruct (_ && _); [done|].
  destruct (tst (mo_flags (mobjs w t)) MF_SPECIAL) eqn:Hspecial.
  - cbn [snd]. destruct (tst (mo_flags (mobjs w thing)) MF_PICKUP) eqn:Hpick; [|done].
    etrans; [exact Hn|]. intros Hw1. split_and!; [done..| |].
    + unfold damage_calls. simpl. rewrite filter_app, filter_cons, filter_nil.
      by rewrite decide_False, app_nil_r by done.
    + destruct (Hn ltac:(by split_and!)) as (_ & Hf & _). rewrite Hf, Hpick. done.
  - destruct (_ && _); [done|]. destruct (_ && _); cbn [snd]; [|done].
    etrans; [exact Hn|]. by apply hl_same.
Qed.

Lemma hl_PIT_CheckLine thing ld w : harmless thing w (snd (PIT_CheckLine ld w)).
Proof.
  pose proof (st_PIT_CheckLine ld w) as Hs.
  destruct (so_PIT_CheckLine ld w) as [Hm _ _ _ _ _ He].
  apply hl_same; [by destruct Hs|by rewrite Hm|done].
Qed.

(** X12.  Walking into things hurts nobody: when the thing checked is
    neither a flying skull nor a missile, P_CheckPosition makes no call of
    P_DamageMobj, whatever it answers; and unless the thing has MF_PICKUP
    it makes no call of P_TouchSpecialThing either. *)
Theorem P_CheckPosition_walking_harmless thing x y w :
  tst (mo_flags (mobjs w thing)) MF_SKULLFLY = false ->
  tst (mo_flags (mobjs w thing)) MF_MISSILE = false ->
  let w' := snd (P_CheckPosition thing x y w) in
  damage_calls (events w') = damage_calls (events w)
  /\ (tst (mo_flags (mobjs w thing)) MF_PICKUP = false ->
      pickup_calls (events w') = pickup_calls (events w)).
Proof.
  intros Hskull Hmissile. cbv zeta. unfold P_CheckPosition. cbv zeta.
  assert (walking thing (check_setup thing x y w)) as Hw by (by split_and!).
  change (events w) with (events (check_setup thing x y w)).
  change (mo_flags (mobjs w thing))
    with (mo_flags (mobjs (check_setup thing x y w) thing)).
  clear Hskull Hmissile.
  assert (forall w0, harmless thing w0 (snd (check_things w0))) as Hthings.
  { intros w0. apply (frame_for_each_block (harmless thing)). intros.
    apply (frame_P_BlockThingsIterator (harmless thing)). apply hl_PIT_CheckThing. }
  assert (forall w0, harmless thing w0 (snd (check_lines thing x y w0))) as Hlines.
  { intros w0. unfold check_lines. cbv zeta.
    etrans; [|apply (frame_for_each_block (harmless thing)); intros;
              apply (frame_P_BlockLinesIterator (harmless thing));
              [intros; by apply hl_same|apply hl_PIT_CheckLine]].
    destruct (_ && _); [by apply hl_same|reflexivity]. }
  generalize dependent (check_setup thing x y w). intros w0 **.
  destruct (_ || _); [done|].
  specialize (Hthings w0). destruct (check_things w0) as [ok w1]. cbn [snd] in *.
  destruct ok; cbn [negb snd].
  - by destruct ((transitivity Hthings (Hlines w1)) Hw) as (_ & _ & Hd & Hp).
  - by destruct (Hthings Hw) as (_ & _ & Hd & Hp).
Qed.

End REPORT.

Section SURFACES.
Context {E : engine}.

(** X13.  The friction and the move factor P_GetFriction returns always
    belong together: they are the defaults, or the friction and the move
    factor of one and the same sector on the thing's thread, a sector with
    friction enabled whose floor (or whose height sector's floor) is not
    below the thing. *)
Theorem P_GetFriction_pair mo w :
  P_GetFriction mo w = (ORIG_FRICTION, ORIG_FRICTION_FACTOR)
  \/ exists m,
       m ∈ tthread w (mo_touching_sectorlist (mobjs w mo))
       /\ friction_applies w mo m = true
       /\ P_GetFriction mo w = (sec_friction (sectors w (m_sector (node w m))),
                                sec_movefactor (sectors w (m_sector (node w m)))).
Proof.
  unfold P_GetFriction. destruct (tst _ _); [by left|].
  generalize (tthread w (mo_touching_sectorlist (mobjs w mo))). intros l.
  induction l as [|m l IH] using rev_ind; [by left|].
  rewrite fold_left_app. cbn [fold_left].
  destruct (fold_left _ l _) as [fr mf] eqn:Hfold.
  destruct (tst (sec_special (sectors w (m_sector (node w m)))) FRICTION_MASK
            && (bool_decide (sec_friction (sectors w (m_sector (node w m))) < fr)
                || bool_decide (fr = ORIG_FRICTION))
            && _) eqn:Htake.
  - right. exists m. split; [apply elem_of_app; right; by left|]. split; [|done].
    unfold friction_applies. cbv zeta.
    apply andb_true_iff in Htake as [[-> _]%andb_true_iff ->]. done.
  - destruct IH as [IH|(m' & Hin & Happ & IH)]; [by left|].
    right. exists m'. split; [apply elem_of_app; by left|]. done.
Qed.

(** X14.  Muddy has precedence over icy: for a thing that clips and falls,
    if none of the sectors to which friction applies has the default
    friction itself, P_GetFriction returns the lowest friction among those
    sectors, and the default friction if there is no such sector. *)
Theorem P_GetFriction_lowest_region mo w :
  tst (mo_flags (mobjs w mo)) (Z.lor MF_NOCLIP MF_NOGRAVITY) = false ->
  (forall f, f ∈ friction_regions w mo -> f <> ORIG_FRICTION) ->
  (friction_regions w mo = [] -> fst (P_GetFriction mo w) = ORIG_FRICTION)
  /\ (friction_regions w mo <> [] ->
      fst (P_GetFriction mo w) ∈ friction_regions w mo
      /\ forall g, g ∈ friction_regions w mo -> fst (P_GetFriction mo w) <= g).
Proof.
  intros Hclip Hne. pose proof (P_GetFriction_lowest mo w Hclip Hne) as Hlow.
  destruct (friction_regions w mo) as [|a l]; [by split|].
  split; [done|]. intros _. by apply lowest_of_cons in Hlow.
Qed.

End SURFACES.

Section REBUILDS.
Context {E : engine}.

(** The trial and the map objects are not written. *)
Record keeps_trial (w w' : world) : Prop := {
  kt_tm : tm w' = tm w;
  kt_mobjs : mobjs w' = mobjs w;
  kt_blocklinks : blocklinks w' = blocklinks w;
  kt_events : events w' = events w
}.

#[local] Instance keeps_trial_preorder : PreOrder keeps_trial.
Proof.
  split.
  - intros w. by split.
  - intros w1 w2 w3 [] []. split; congruence.
Qed.

Lemma kt_heap_frame w w' : heap_frame w w' -> keeps_trial w w'.
Proof. intros []. by split. Qed.

Lemma kt_clear_marks w : keeps_trial w (clear_marks w).
Proof.
  unfold clear_marks. generalize (tthread w (sector_list (mem w))). intros l. revert w.
  induction l as [|n l IH]; intros w; [reflexivity|]. cbn [fold_left].
  etrans; [|apply IH]. by split.
Qed.

Lemma kt_PIT_GetSectors ld w : keeps_trial w (snd (PIT_GetSectors ld w)).
Proof.
  unfold PIT_GetSectors. cbv zeta.
  case_decide; [reflexivity|]. case_decide; [reflexivity|].
  pose proof (hf_P_AddSecnode (ld_frontsector (lines ld)) (deref (tmthing (tm w)))
                (sector_list (mem w)) w) as H1.
  destruct (P_AddSecnode (ld_frontsector (lines ld)) _ _ w) as [h w1]. cbn [snd] in H1.
  apply kt_heap_frame in H1.
  assert (keeps_trial w (upd_mem (set_sector_list h) w1)) as H2.
  { etrans; [exact H1|]. by split. }
  generalize dependent (upd_mem (set_sector_list h) w1). intros w2 H2.
  destruct (ld_backsector (lines ld)) as [back|]; [|done].
  case_decide; [|done].
  pose proof (hf_P_AddSecnode back (deref (tmthing (tm w2))) (sector_list (mem w2)) w2)
    as Hadd.
  destruct (P_AddSecnode back _ _ w2) as [h3 w3]. cbn [snd] in *.
  apply kt_heap_frame in Hadd. etrans; [exact H2|]. etrans; [exact Hadd|]. by split.
Qed.

Lemma kt_scan_lines w : keeps_trial w (scan_lines w).
Proof.
  unfold scan_lines. cbv zeta.
  generalize (int_range (P_GetSafeBlockX (sub32 (BOXLEFT (tmbbox (tm w))) bmaporgx))
                (P_GetSafeBlockX (sub32 (BOXRIGHT (tmbbox (tm w))) bmaporgx))).
  generalize (int_range (P_GetSafeBlockY (sub32 (BOXBOTTOM (tmbbox (tm w))) bmaporgy))
                (P_GetSafeBlockY (sub32 (BOXTOP (tmbbox (tm w))) bmaporgy))).
  intros ys xs.
  revert w. induction xs as [|bx xs IH]; intros w0; [reflexivity|]. cbn [fold_left].
  etrans; [|apply IH]. clear IH.
  revert w0. induction ys as [|by_ ys IH]; intros w1; [reflexivity|]. cbn [fold_left].
  etrans; [|apply IH].
  apply (frame_P_BlockLinesIterator keeps_trial); [by split|apply kt_PIT_GetSectors].
Qed.

Lemma kt_add_own_sector thing w : keeps_trial w (add_own_sector thing w).
Proof.
  unfold add_own_sector.
  pose proof (hf_P_AddSecnode (subsector_sector (mo_subsector (mobjs w thing))) thing
                (sector_list (mem w)) w) as H1.
  destruct (P_AddSecnode _ _ _ w) as [h w1]. cbn [snd] in H1.
  apply kt_heap_frame in H1. etrans; [exact H1|]. by split.
Qed.

Lemma kt_delete_unused (fuel : nat) p w : keeps_trial w (delete_unused fuel p w).
Proof.
  revert p w. induction fuel as [|fuel IH]; intros p w; [reflexivity|].
  destruct p as [n|]; [|reflexivity]. cbn [delete_unused].
  case_decide; [|apply IH].
  set (w1 := if decide (sector_list (mem w) = Some n) then _ else w).
  assert (keeps_trial w w1) as H1 by (subst w1; case_decide; by split).
  clearbody w1.
  pose proof (hf_P_DelSecnode n w1) as H2. apply kt_heap_frame in H2.
  destruct (P_DelSecnode n w1) as [next w2]. cbn [snd] in H2.
  etrans; [exact H1|]. etrans; [exact H2|]. apply IH.
Qed.

(** X15.  P_CreateSecNodeList gives the trial back: tmthing, tmx and tmy
    are restored to what they were before the call, and tmbbox is the box
    of the restored thing at the restored position; only when there was
    no tmthing does the box of the thing just processed stay behind.  No
    map object, blockmap list or recorded call changes. *)
Theorem P_CreateSecNodeList_restores thing x y w :
  let w' := P_CreateSecNodeList thing x y w in
  tmthing (tm w') = tmthing (tm w) /\ tmx (tm w') = tmx (tm w) /\ tmy (tm w') = tmy (tm w)
  /\ tmbbox (tm w') =
       match tmthing (tm w) with
       | Some t => box_around (tmx (tm w)) (tmy (tm w)) (mo_radius (mobjs w t))
       | None => box_around x y (mi_pickupradius (mo_info (mobjs w thing)))
       end
  /\ mobjs w' = mobjs w /\ blocklinks w' = blocklinks w /\ events w' = events w.
Proof.
  cbv zeta. unfold P_CreateSecNodeList. cbv zeta.
  generalize (mi_pickupradius (mo_info (mobjs w thing))). intros radius.
  pose proof (kt_clear_marks w) as H1.
  generalize dependent (clear_marks w). intros w1 H1.
  assert (tmbbox (tm (rebuild_setup thing x y radius w1)) = box_around x y radius
          /\ mobjs (rebuild_setup thing x y radius w1) = mobjs w
          /\ blocklinks (rebuild_setup thing x y radius w1) = blocklinks w
          /\ events (rebuild_setup thing x y radius w1) = events w)
    as (Hbox & Hm & Hb & He) by (destruct H1; by split_and!).
  generalize dependent (rebuild_setup thing x y radius w1). intros w2 **.
  pose proof (kt_scan_lines w2) as H3.
  generalize dependent (scan_lines w2). intros w3 H3.
  pose proof (kt_add_own_sector thing w3) as H4.
  generalize dependent (add_own_sector thing w3). intros w4 H4.
  pose proof (kt_delete_unused (numsecnodes (mem w4)) (sector_list (mem w4)) w4) as H5.
  generalize dependent (delete_unused (numsecnodes (mem w4)) (sector_list (mem w4)) w4).
  intros w5 H5.
  assert (keeps_trial w2 w5) as [Htm Hm5 Hb5 He5] by (etrans; [exact H3|]; by etrans).
  unfold restore_trial. cbv zeta. cbn [tmthing tm upd_tm set_tm set_tmthing set_tmx set_tmy
    tmx tmy].
  destruct (tmthing (tm w)) as [t|]; cbn [tm upd_tm set_tm set_tmbbox tmthing tmx tmy tmbbox
    mobjs blocklinks events set_tmthing set_tmx set_tmy].
  - split_and!; congruence.
  - split_and!; congruence.
Qed.

(** X16.  What P_CreateSecNodeList builds: in a consistent heap whose
    first thread is the sector list, with no line already stamped with the
    next validcount, the sector list afterwards holds exactly the sectors
    the thing touches at (x, y): those of the lines that cross its box
    (pickup radius) and the sector of its subsector.  The heap stays
    consistent and the other threads are as before. *)
Theorem P_CreateSecNodeList_touched thing x y w L T2 :
  consistent w (L :: T2) -> sector_list (mem w) = head L ->
  (forall ld, line_validcount w ld <> add32 (validcount w) 1) ->
  let w' := P_CreateSecNodeList thing x y w in
  (exists L', consistent w' (L' :: T2) /\ sector_list (mem w') = head L'
              /\ forall s, (exists n, n ∈ L' /\ m_sector (node w' n) = s)
                           <-> touched thing x y w s)
  /\ subsector_sector (mo_subsector (mobjs w thing)) ∈ membership w'.
Proof.
  intros Hc Hsl Hfresh. cbv zeta.
  destruct (P_CreateSecNodeList_spec thing x y w L T2 Hc Hsl Hfresh)
    as ((L' & Hc' & Hsl') & Hmem & _).
  split; [|apply Hmem; by right].
  exists L'. split_and!; [done..|]. intros s. rewrite <- Hmem. unfold membership.
  destruct Hc' as (Sec & F & Hok).
  rewrite Hsl', (heap_ok_tthread _ _ Sec F L' Hok) by (by left).
  rewrite elem_of_list_to_set, list_elem_of_fmap. naive_solver.
Qed.

End REBUILDS.

(** * Further functions of p_map.c *)

(** ** P_CheckLineSide *)

(** The file statics [pe_x], [pe_y], [ls_x], [ls_y]: the two ends of the
    trajectory.  P_CheckLineSide writes them before it walks the blockmap
    and PIT_CrossLine reads them; nothing else in the file names them. *)
Record trajectory_t := Build_trajectory {
  pe_x : Z;
  pe_y : Z;
  ls_x : Z;
  ls_y : Z
}.

(** What a scan of the lines leaves alone: everything but tmbbox, validcount
    and the marks of the lines. *)
Record scan_frame (w w' : world) : Prop := {
  sf_mobjs : mobjs w' = mobjs w;
  sf_players : players w' = players w;
  sf_sectors : sectors w' = sectors w;
  sf_mem : mem w' = mem w;
  sf_cv : cv w' = cv w;
  sf_blocklinks : blocklinks w' = blocklinks w;
  sf_events : events w' = events w;
  sf_trial : set_tmbbox (Build_bbox 0 0 0 0) (tm w') = set_tmbbox (Build_bbox 0 0 0 0) (tm w)
}.

#[global] Instance scan_frame_preorder : PreOrder scan_frame.
Proof.
  split.
  - intros w. by split.
  - intros w1 w2 w3 [] []. split; congruence.
Qed.

#[global] Hint Extern 5 (scan_frame _ _) => split; reflexivity : frame.

Section ITERATE_MORE.
Context {A B : Type}.

(** An iteration that was cut short met an element on which the callback
    returned false, in a state that an invariant of the calls describes. *)
Lemma iterate_false (Inv : world -> Prop) (func : A -> world -> bool * world) l w :
  (forall a w, Inv w -> Inv (snd (func a w))) ->
  Inv w -> fst (iterate func l w) = false ->
  exists a w0, a ∈ l /\ Inv w0 /\ fst (func a w0) = false
               /\ snd (iterate func l w) = snd (func a w0).
Proof.
  intros Hstep. revert w. induction l as [|a l IH]; intros w Hinv Hres; [done|].
  cbn [iterate] in *. pose proof (Hstep a w Hinv) as Hinv'.
  destruct (func a w) as [ok w'] eqn:Hf. destruct ok.
  - destruct (IH w' Hinv' Hres) as (b & w0 & Hb & Hw0 & Hfalse & Hlast).
    exists b, w0. split_and!; [by right|done..].
  - exists a, w. split_and!; [by left|done|by rewrite Hf|by rewrite Hf].
Qed.

(** An iteration that ran to its end has processed the items of every
    element, in order. *)
Lemma iterate_seen (P : list B -> world -> Prop) (g : A -> list B)
    (func : A -> world -> bool * world) l seen w :
  (forall a seen w, P seen w -> fst (func a w) = true -> P (seen ++ g a) (snd (func a w))) ->
  P seen w -> fst (iterate func l w) = true ->
  P (seen ++ (l ≫= g)) (snd (iterate func l w)).
Proof.
  intros Hstep. revert seen w. induction l as [|a l IH]; intros seen w HP Hres.
  { cbn. by rewrite app_nil_r. }
  cbn [iterate] in *. cbn [mbind list_bind]. pose proof (Hstep a seen w HP) as Ha.
  destruct (func a w) as [ok w']. destruct ok; [|done].
  rewrite app_assoc. apply IH; [by apply Ha|done].
Qed.

End ITERATE_MORE.

Section LINESIDE.
Context {E : engine}.

(** PIT_CrossLine: checks to see if a PE->LS trajectory line crosses a
    blocking line.  Returns false if it does. *)
Definition PIT_CrossLine (tr : trajectory_t) (ld : line_id) (w : world) : bool * world :=
  let l := lines ld in
  (bool_decide (Z.land (Z.lxor (ld_flags l) ML_TWOSIDED) (Z.lor ML_TWOSIDED ML_BLOCKING) = 0)
   || bool_decide (BOXRIGHT (ld_bbox l) < BOXLEFT (tmbbox (tm w)))
   || bool_decide (BOXRIGHT (tmbbox (tm w)) < BOXLEFT (ld_bbox l))
   || bool_decide (BOXTOP (tmbbox (tm w)) < BOXBOTTOM (ld_bbox l))
   || bool_decide (BOXTOP (ld_bbox l) < BOXBOTTOM (tmbbox (tm w)))
   || bool_decide (P_PointOnLineSide (pe_x tr) (pe_y tr) ld
                   = P_PointOnLineSide (ls_x tr) (ls_y tr) ld), w).

(** The bounding box of the trajectory. *)
Definition trajectory_box (tr : trajectory_t) : bbox_t :=
  {| BOXTOP := MAX (pe_y tr) (ls_y tr); BOXBOTTOM := MIN (pe_y tr) (ls_y tr);
     BOXLEFT := MIN (pe_x tr) (ls_x tr); BOXRIGHT := MAX (pe_x tr) (ls_x tr) |}.

(** P_CheckLineSide: draw an imaginary line between the PE and the new
    Lost Soul spawn spot.  If that line crosses a 'blocking' line, return
    true, otherwise false. *)
Definition P_CheckLineSide (actor : mobj_id) (x y : Z) (w : world) : bool * world :=
  let tr := {| pe_x := mo_x (mobjs w actor); pe_y := mo_y (mobjs w actor);
               ls_x := x; ls_y := y |} in
  (* here is the bounding box of the trajectory *)
  let w := upd_tm (set_tmbbox (trajectory_box tr)) w in
  (* determine which blocks to look in for blocking lines *)
  let xl := P_GetSafeBlockX (sub32 (BOXLEFT (tmbbox (tm w))) bmaporgx) in
  let xh := P_GetSafeBlockX (sub32 (BOXRIGHT (tmbbox (tm w))) bmaporgx) in
  let yl := P_GetSafeBlockY (sub32 (BOXBOTTOM (tmbbox (tm w))) bmaporgy) in
  let yh := P_GetSafeBlockY (sub32 (BOXTOP (tmbbox (tm w))) bmaporgy) in
  let w := set_validcount (add32 (validcount w) 1) w in  (* prevents checking same line twice *)
  let '(ok, w) :=
    for_each_block xl xh yl yh
      (fun bx by_ => P_BlockLinesIterator bx by_ (PIT_CrossLine tr)) w in
  (negb ok, w).

(** The line blocks the trajectory: it is one-sided or blocks everything,
    its box touches the box of the trajectory, and the two ends of the
    trajectory are on different sides of it. *)
Definition crosses (tr : trajectory_t) (ld : line_id) : Prop :=
  let l := lines ld in
  let box := trajectory_box tr in
  Z.land (Z.lxor (ld_flags l) ML_TWOSIDED) (Z.lor ML_TWOSIDED ML_BLOCKING) <> 0
  /\ BOXLEFT box <= BOXRIGHT (ld_bbox l) /\ BOXLEFT (ld_bbox l) <= BOXRIGHT box
  /\ BOXBOTTOM (ld_bbox l) <= BOXTOP box /\ BOXBOTTOM box <= BOXTOP (ld_bbox l)
  /\ P_PointOnLineSide (pe_x tr) (pe_y tr) ld <> P_PointOnLineSide (ls_x tr) (ls_y tr) ld.

Lemma PIT_CrossLine_crosses tr ld w :
  tmbbox (tm w) = trajectory_box tr ->
  fst (PIT_CrossLine tr ld w) = false <-> crosses tr ld.
Proof.
  intros Hbox. unfold PIT_CrossLine, crosses. cbv zeta. cbn [fst]. rewrite Hbox.
  rewrite !orb_false_iff, !bool_decide_eq_false. split.
  - intros (((((? & ?) & ?) & ?) & ?) & ?). split_and!; [done|lia..|done].
  - intros (? & ? & ? & ? & ? & ?). split_and!; [done|lia..|done].
Qed.

Lemma sf_P_CheckLineSide_walk tr xl xh yl yh w :
  let r := for_each_block xl xh yl yh
             (fun bx by_ => P_BlockLinesIterator bx by_ (PIT_CrossLine tr)) w in
  scan_frame w (snd r) /\ tmbbox (tm (snd r)) = tmbbox (tm w)
  /\ validcount (snd r) = validcount w.
Proof.
  cbv zeta.
  set (R := fun w w' : world => scan_frame w w' /\ tmbbox (tm w') = tmbbox (tm w)
                                /\ validcount w' = validcount w).
  assert (PreOrder R) as HR.
  { split.
    - intros w0. unfold R. by split_and!.
    - intros w1 w2 w3 (? & ? & ?) (? & ? & ?). unfold R.
      split_and!; [by etrans|congruence..]. }
  change (R w (snd (for_each_block xl xh yl yh
             (fun bx by_ => P_BlockLinesIterator bx by_ (PIT_CrossLine tr)) w))).
  apply (frame_for_each_block R). intros.
  apply (frame_P_BlockLinesIterator R); [intros; unfold R; by split_and!|].
  intros ld w1. unfold R. by split_and!.
Qed.

Lemma sf_P_CheckLineSide actor x y w : scan_frame w (snd (P_CheckLineSide actor x y w)).
Proof.
  unfold P_CheckLineSide. cbv zeta.
  set (tr := {| pe_x := mo_x (mobjs w actor); pe_y := mo_y (mobjs w actor);
                ls_x := x; ls_y := y |}).
  set (w1 := set_validcount _ (upd_tm (set_tmbbox (trajectory_box tr)) w)).
  assert (scan_frame w w1) as Hf1 by (by split).
  clearbody w1.
  match goal with |- context [for_each_block ?xl ?xh ?yl ?yh _ w1] =>
    destruct (sf_P_CheckLineSide_walk tr xl xh yl yh w1) as (Hf2 & _ & _) end.
  cbv zeta in Hf2.
  destruct (for_each_block _ _ _ _ _ w1) as [ok w2]. cbn [fst snd] in *. by etrans.
Qed.

Lemma P_CheckLineSide_true_crosses actor x y w :
  let tr := {| pe_x := mo_x (mobjs w actor); pe_y := mo_y (mobjs w actor);
               ls_x := x; ls_y := y |} in
  fst (P_CheckLineSide actor x y w) = true ->
  exists ld, ld ∈ lines_near (trajectory_box tr) /\ crosses tr ld.
Proof.
  cbv zeta. unfold P_CheckLineSide. cbv zeta.
  set (tr := {| pe_x := mo_x (mobjs w actor); pe_y := mo_y (mobjs w actor);
                ls_x := x; ls_y := y |}).
  set (w1 := set_validcount _ (upd_tm (set_tmbbox (trajectory_box tr)) w)).
  change (tmbbox (tm (upd_tm (set_tmbbox (trajectory_box tr)) w))) with (trajectory_box tr).
  assert (tmbbox (tm w1) = trajectory_box tr) as Hbox by done.
  clearbody w1.
  destruct (for_each_block _ _ _ _ _ w1) as [ok w2] eqn:Hwalk. cbn [fst snd] in *.
  intros Hok. destruct ok; [done|]. clear Hok.
  pose proof (f_equal fst Hwalk) as Hfalse. cbn [fst] in Hfalse. clear Hwalk.
  unfold for_each_block in Hfalse.
  set (Inv := fun w0 : world => tmbbox (tm w0) = trajectory_box tr).
  assert (forall bx by_ w0, Inv w0 ->
            Inv (snd (P_BlockLinesIterator bx by_ (PIT_CrossLine tr) w0))) as Hcell.
  { intros bx by_ w0 Hw0. unfold Inv.
    destruct (sf_P_CheckLineSide_walk tr bx bx by_ by_ w0) as (_ & _ & _).
    set (R := fun w w' : world => tmbbox (tm w') = tmbbox (tm w)).
    assert (PreOrder R) as HR.
    { split; [by intros ?|]. intros ? ? ? ? ?. unfold R in *. congruence. }
    rewrite <- Hw0.
    change (R w0 (snd (P_BlockLinesIterator bx by_ (PIT_CrossLine tr) w0))).
    apply (frame_P_BlockLinesIterator R); [done|done]. }
  assert (forall bx w0, Inv w0 ->
            Inv (snd (iterate (fun by_ => P_BlockLinesIterator bx by_ (PIT_CrossLine tr))
                        (int_range
                           (P_GetSafeBlockY (sub32 (BOXBOTTOM (trajectory_box tr)) bmaporgy))
                           (P_GetSafeBlockY (sub32 (BOXTOP (trajectory_box tr)) bmaporgy)))
                        w0))) as Hcol.
  { intros bx w0. apply (iterate_rel (fun w w' => Inv w -> Inv w')); [auto|auto|].
    intros by_ w4 _. apply Hcell. }
  destruct (iterate_false Inv _ _ _ Hcol Hbox Hfalse) as (bx & w3 & Hbx & Hw3 & Hfalse3 & _).
  destruct (iterate_false Inv _ _ _ (Hcell bx) Hw3 Hfalse3)
    as (by_ & w4 & Hby & Hw4 & Hfalse4 & _).
  unfold P_BlockLinesIterator in Hfalse4.
  destruct (decide (bx < 0 \/ by_ < 0 \/ bmapwidth <= bx \/ bmapheight <= by_)) as [|Hin];
    [done|].
  assert (forall ld w0, Inv w0 ->
            Inv (snd (if decide (line_validcount w0 ld = validcount w0) then (true, w0)
                      else PIT_CrossLine tr ld
                             (set_line_validcount
                                (<[ld:=validcount w0]> (line_validcount w0)) w0)))) as Hline.
  { intros ld w0 Hw0. by case_decide. }
  destruct (iterate_false Inv _ _ _ Hline Hw4 Hfalse4) as (ld & w5 & Hld & Hw5 & Hfalse5 & _).
  exists ld. split.
    + unfold lines_near. apply list_elem_of_bind. exists bx. split; [|done].
      apply list_elem_of_bind. exists by_. split; [|done].
      unfold cell_lines. by rewrite decide_False.
    + destruct (decide (line_validcount w5 ld = validcount w5)); [done|].
      by apply (PIT_CrossLine_crosses tr ld
                  (set_line_validcount (<[ld:=validcount w5]> (line_validcount w5)) w5)).
Qed.

(** The state of the walk of P_CheckLineSide: the lines of [seen] are
    stamped, and no stamped line blocks the trajectory. *)
Definition crossing_scan (tr : trajectory_t) (vc : Z) (seen : list line_id) (w : world)
  : Prop :=
  tmbbox (tm w) = trajectory_box tr /\ validcount w = vc
  /\ (forall ld, line_validcount w ld = vc -> ~ crosses tr ld)
  /\ (forall ld, ld ∈ seen -> line_validcount w ld = vc).

Lemma crossing_scan_cell tr vc bx by_ seen w :
  crossing_scan tr vc seen w ->
  fst (P_BlockLinesIterator bx by_ (PIT_CrossLine tr) w) = true ->
  crossing_scan tr vc (seen ++ cell_lines bx by_)
    (snd (P_BlockLinesIterator bx by_ (PIT_CrossLine tr) w)).
Proof.
  unfold P_BlockLinesIterator, cell_lines. case_decide; [by rewrite app_nil_r|].
  intros Hs Hok.
  assert (blockmap bx by_ = blockmap bx by_ ≫= (fun ld => [ld])) as Hbind.
  { generalize (blockmap bx by_). intros l. induction l as [|a l IH]; [done|].
    cbn [mbind list_bind]. cbn. by f_equal. }
  rewrite Hbind at 1.
  apply (iterate_seen (crossing_scan tr vc) (fun ld => [ld])); [|done..].
  clear. intros ld seen w (Hbox & Hv & Hpass & Hseen). case_decide as Hmark.
  - intros _. cbn [snd]. split_and!; [done..|].
    intros ld' [?| ->%list_elem_of_singleton]%elem_of_app; [auto|congruence].
  - intros Hok. cbn [PIT_CrossLine snd].
    assert (~ crosses tr ld) as Hld.
    { intros Hc.
      apply (PIT_CrossLine_crosses tr ld
               (set_line_validcount (<[ld:=validcount w]> (line_validcount w)) w)) in Hc;
        [congruence|done]. }
    split_and!; [done..| |].
    + intros ld'. simpl. unfold insert, fn_insert. case_decide; [by subst|auto].
    + intros ld' Hin. simpl. unfold insert, fn_insert. case_decide; [done|].
      apply elem_of_app in Hin as [?| ?%list_elem_of_singleton]; [auto|done].
Qed.

(** X17.  When P_CheckLineSide answers true, a line of the blockmap cells
    under the trajectory's box blocks the trajectory: it is one-sided or
    blocks everything, its box touches the box of the trajectory, and the
    actor and (x, y) are on different sides of it.  Whatever it answers,
    P_CheckLineSide leaves the map objects, the players, the sectors, the
    sector nodes, the blockmap lists, the recorded calls and, but for
    tmbbox, the trial as they were. *)
Theorem P_CheckLineSide_blocked actor x y w :
  let r := P_CheckLineSide actor x y w in
  let tr := {| pe_x := mo_x (mobjs w actor); pe_y := mo_y (mobjs w actor);
               ls_x := x; ls_y := y |} in
  (fst r = true -> exists ld, ld ∈ lines_near (trajectory_box tr) /\ crosses tr ld)
  /\ scan_frame w (snd r).
Proof.
  cbv zeta. split; [apply P_CheckLineSide_true_crosses|apply sf_P_CheckLineSide].
Qed.

(** X18.  A trajectory that ends where it starts is never blocked:
    P_CheckLineSide for the actor's own position answers false. *)
Theorem P_CheckLineSide_same_spot actor w :
  fst (P_CheckLineSide actor (mo_x (mobjs w actor)) (mo_y (mobjs w actor)) w) = false.
Proof.
  destruct (fst (P_CheckLineSide actor _ _ w)) eqn:Hres; [|done].
  destruct (P_CheckLineSide_true_crosses actor (mo_x (mobjs w actor)) (mo_y (mobjs w actor)) w
              Hres) as (ld & _ & Hcross).
  by destruct Hcross as (_ & _ & _ & _ & _ & Hside).
Qed.

(** X19.  P_CheckLineSide misses no line: if no line is already stamped
    with the next validcount and some line of the blockmap cells under the
    trajectory's box blocks the trajectory, the answer is true. *)
Theorem P_CheckLineSide_complete actor x y w ld :
  let tr := {| pe_x := mo_x (mobjs w actor); pe_y := mo_y (mobjs w actor);
               ls_x := x; ls_y := y |} in
  (forall ld, line_validcount w ld <> add32 (validcount w) 1) ->
  ld ∈ lines_near (trajectory_box tr) -> crosses tr ld ->
  fst (P_CheckLineSide actor x y w) = true.
Proof.
  cbv zeta. intros Hfresh Hnear Hcross. unfold P_CheckLineSide. cbv zeta.
  set (tr := {| pe_x := mo_x (mobjs w actor); pe_y := mo_y (mobjs w actor);
                ls_x := x; ls_y := y |}) in *.
  set (w1 := set_validcount _ (upd_tm (set_tmbbox (trajectory_box tr)) w)).
  change (tmbbox (tm (upd_tm (set_tmbbox (trajectory_box tr)) w))) with (trajectory_box tr).
  assert (crossing_scan tr (add32 (validcount w) 1) [] w1) as Hscan.
  { split_and!; [done..| |by intros ? ?%elem_of_nil].
    intros ld' Hmark. by destruct (Hfresh ld'). }
  clearbody w1. unfold for_each_block. unfold lines_near in Hnear.
  generalize dependent (int_range
                          (P_GetSafeBlockX (sub32 (BOXLEFT (trajectory_box tr)) bmaporgx))
                          (P_GetSafeBlockX (sub32 (BOXRIGHT (trajectory_box tr)) bmaporgx))).
  generalize dependent (int_range
                          (P_GetSafeBlockY (sub32 (BOXBOTTOM (trajectory_box tr)) bmaporgy))
                          (P_GetSafeBlockY (sub32 (BOXTOP (trajectory_box tr)) bmaporgy))).
  intros ys xs Hnear.
  assert (forall bx seen w0,
            crossing_scan tr (add32 (validcount w) 1) seen w0 ->
            fst (iterate (fun by_ => P_BlockLinesIterator bx by_ (PIT_CrossLine tr)) ys w0)
            = true ->
            crossing_scan tr (add32 (validcount w) 1) (seen ++ (ys ≫= cell_lines bx))
              (snd (iterate (fun by_ => P_BlockLinesIterator bx by_ (PIT_CrossLine tr))
                      ys w0))) as Hstep.
  { intros bx seen w0 Hs Hr.
    apply (iterate_seen (crossing_scan tr (add32 (validcount w) 1)) (cell_lines bx));
      [|done..].
    intros. by apply crossing_scan_cell. }
  pose proof (iterate_seen (crossing_scan tr (add32 (validcount w) 1))
                (fun bx => ys ≫= cell_lines bx) _ xs [] w1 Hstep Hscan) as Hall.
  destruct (iterate _ xs w1) as [ok w2]. cbn [fst snd] in *.
  destruct ok; [|done]. exfalso.
  destruct (Hall eq_refl) as (_ & _ & Hpass & Hseen).
  apply (Hpass ld); [|done]. apply Hseen. exact Hnear.
Qed.

End LINESIDE.

(** ** P_CheckOnmobj *)

(** Constants of p_local.h and p_mobj.h that P_FakeZMovement names. *)
Class physics := Build_physics {
  GRAVITY : Z;
  FLOATSPEED : Z;
  MF_INFLOAT : Z
}.

Definition set_mo_z (v : Z) (mo : mobj_t) : mobj_t :=
  {| mo_x := mo_x mo; mo_y := mo_y mo; mo_z := v; mo_radius := mo_radius mo;
     mo_height := mo_height mo; mo_momx := mo_momx mo; mo_momy := mo_momy mo;
     mo_momz := mo_momz mo; mo_flags := mo_flags mo; mo_flags2 := mo_flags2 mo;
     mo_floorz := mo_floorz mo; mo_ceilingz := mo_ceilingz mo; mo_dropoffz := mo_dropoffz mo;
     mo_type := mo_type mo; mo_info := mo_info mo; mo_player := mo_player mo;
     mo_target := mo_target mo; mo_nudge := mo_nudge mo; mo_health := mo_health mo;
     mo_interpolate := mo_interpolate mo; mo_subsector := mo_subsector mo;
     mo_touching_sectorlist := mo_touching_sectorlist mo |}.

Definition set_onmobj (v : option mobj_id) (t : trial_t) : trial_t :=
  {| tmthing := tmthing t; tmx := tmx t; tmy := tmy t; tmz := tmz t; tmbbox := tmbbox t;
     tmfloorz := tmfloorz t; tmceilingz := tmceilingz t; tmdropoffz := tmdropoffz t;
     ceilingline := ceilingline t; blockline := blockline t; floorline := floorline t;
     tmunstuck := tmunstuck t; spechit := spechit t; numspechit := numspechit t;
     spechit_max := spechit_max t; floatok := floatok t; felldown := felldown t;
     telefrag := telefrag t; onmobj := v |}.

Section ONMOBJ.
Context {E : engine} {P : physics}.

(** The parts of P_FakeZMovement, in order.  First, adjust height. *)
Definition fake_adjust (mo : mobj_id) (w : world) : world :=
  let w := upd_mobj mo (fun m => set_mo_z (add32 (mo_z m) (mo_momz m)) m) w in
  match mo_target (mobjs w mo) with
  | Some target =>
      if tst (mo_flags (mobjs w mo)) MF_FLOAT then
        (* float down towards target if too close *)
        if negb (tst (mo_flags (mobjs w mo)) MF_SKULLFLY)
           && negb (tst (mo_flags (mobjs w mo)) MF_INFLOAT) then
          let m := mobjs w mo in
          let t := mobjs w target in
          let delta := mul32 (sub32 (add32 (mo_z t) (shr32 (mo_height m) 1)) (mo_z m)) 3 in
          if decide (P_ApproxDistance (sub32 (mo_x m) (mo_x t)) (sub32 (mo_y m) (mo_y t))
                     < ABS delta)
          then upd_mobj mo
                 (fun m => set_mo_z (add32 (mo_z m)
                                       (if decide (delta < 0) then neg32 FLOATSPEED
                                        else FLOATSPEED)) m) w
          else w
        else w
      else w
  | None => w
  end.

(** clip movement *)
Definition fake_floor (mo : mobj_id) (w : world) : world :=
  if decide (mo_z (mobjs w mo) <= mo_floorz (mobjs w mo)) then
    (* hit the floor *)
    let w :=
      if tst (mo_flags (mobjs w mo)) MF_SKULLFLY
      then upd_mobj mo (fun m => set_mo_momz (neg32 (mo_momz m)) m) w
      else w in                               (* the skull slammed into something *)
    let w := if decide (mo_momz (mobjs w mo) < 0) then upd_mobj mo (set_mo_momz 0) w else w in
    upd_mobj mo (fun m => set_mo_z (mo_floorz m) m) w
  else if negb (tst (mo_flags (mobjs w mo)) MF_NOGRAVITY) then
    let w := if decide (mo_momz (mobjs w mo) = 0)
             then upd_mobj mo (set_mo_momz (neg32 GRAVITY)) w else w in
    upd_mobj mo (fun m => set_mo_momz (sub32 (mo_momz m) GRAVITY) m) w
  else w.

Definition fake_ceiling (mo : mobj_id) (w : world) : world :=
  if decide (mo_ceilingz (mobjs w mo) < add32 (mo_z (mobjs w mo)) (mo_height (mobjs w mo))) then
    (* hit the ceiling *)
    let w := if decide (0 < mo_momz (mobjs w mo)) then upd_mobj mo (set_mo_momz 0) w else w in
    let w :=
      if tst (mo_flags (mobjs w mo)) MF_SKULLFLY
      then upd_mobj mo (fun m => set_mo_momz (neg32 (mo_momz m)) m) w
      else w in                               (* the skull slammed into something *)
    upd_mobj mo (fun m => set_mo_z (sub32 (mo_ceilingz m) (mo_height m)) m) w
  else w.

(** P_FakeZMovement: the z movement of a thing, without its effects
    outside the thing. *)
Definition P_FakeZMovement (mo : mobj_id) (w : world) : world :=
  fake_ceiling mo (fake_floor mo (fake_adjust mo w)).

Definition PIT_CheckOnmobjZ (thing : mobj_id) (w : world) : bool * world :=
  let t := mobjs w thing in
  let mover := mobjs w (deref (tmthing (tm w))) in
  if negb (tst (mo_flags t) MF_SOLID) then (true, w)
  (* [RH] Corpses and specials don't block moves *)
  else if tst (mo_flags t) (Z.lor MF_CORPSE MF_SPECIAL) then (true, w)
  (* Don't clip against self *)
  else if decide (tmthing (tm w) = Some thing) then (true, w)
  (* over/under thing *)
  else if decide (add32 (mo_z t) (mo_height t) < mo_z mover) then (true, w)
  else if decide (add32 (mo_z mover) (mo_height mover) <= mo_z t) then (true, w)
  else
    let blockdist := add32 (mo_radius t) (mo_radius mover) in
    if decide (blockdist <= ABS (sub32 (mo_x t) (tmx (tm w)))
               \/ blockdist <= ABS (sub32 (mo_y t) (tmy (tm w))))
    then (true, w)                                        (* Didn't hit thing *)
    else (false, upd_tm (set_onmobj (Some thing)) w).

(** P_CheckOnmobj up to the test of MF_NOCLIP. *)
Definition onmobj_setup (thing : mobj_id) (w : world) : world :=
  let x := mo_x (mobjs w thing) in
  let y := mo_y (mobjs w thing) in
  let w := upd_tm (set_tmthing (Some thing)) w in
  let w := P_FakeZMovement thing w in
  let w := upd_tm (set_tmx x) w in
  let w := upd_tm (set_tmy y) w in
  let radius := mo_radius (mobjs w thing) in
  let w := upd_tm (set_tmbbox (box_around x y radius)) w in
  let newsec := sectors w (subsector_sector (R_PointInSubsector x y)) in
  let w := upd_tm (set_ceilingline None) w in
  (* the base floor/ceiling is from the subsector that contains the point *)
  let w := upd_tm (set_tmdropoffz (sec_floorheight newsec)) w in
  let w := upd_tm (set_tmfloorz (sec_floorheight newsec)) w in
  let w := upd_tm (set_tmceilingz (sec_ceilingheight newsec)) w in
  let w := set_validcount (add32 (validcount w) 1) w in
  upd_tm (set_numspechit 0) w.

Definition onmobj_things (w : world) : bool * world :=
  let xl := P_GetSafeBlockX (sub32 (sub32 (BOXLEFT (tmbbox (tm w))) bmaporgx) MAXRADIUS) in
  let xh := P_GetSafeBlockX (add32 (sub32 (BOXRIGHT (tmbbox (tm w))) bmaporgx) MAXRADIUS) in
  let yl := P_GetSafeBlockY (sub32 (sub32 (BOXBOTTOM (tmbbox (tm w))) bmaporgy) MAXRADIUS) in
  let yh := P_GetSafeBlockY (add32 (sub32 (BOXTOP (tmbbox (tm w))) bmaporgy) MAXRADIUS) in
  for_each_block xl xh yl yh (fun bx by_ => P_BlockThingsIterator bx by_ PIT_CheckOnmobjZ) w.

(** P_CheckOnmobj: checks if the new Z position is legal. *)
Definition P_CheckOnmobj (thing : mobj_id) (w : world) : option mobj_id * world :=
  let oldmo := mobjs w thing in      (* save the old mobj before the fake zmovement *)
  let w := onmobj_setup thing w in
  if tst (mo_flags (mobjs w thing)) MF_NOCLIP || freeze (cv w) then (None, w)
  else
    let '(ok, w) := onmobj_things w in
    if negb ok then
      let w := upd_mobj thing (fun _ => oldmo) w in      (* *tmthing = oldmo *)
      (onmobj (tm w), w)
    else
      let w := upd_mobj thing (fun _ => oldmo) w in
      (None, w).

(** ** Properties *)

(** Only the z and the momz of map object [mo] are written. *)
Record z_only (mo : mobj_id) (w w' : world) : Prop := {
  zo_others : forall m, m <> mo -> mobjs w' m = mobjs w m;
  zo_body : set_mo_z 0 (set_mo_momz 0 (mobjs w' mo)) = set_mo_z 0 (set_mo_momz 0 (mobjs w mo));
  zo_players : players w' = players w;
  zo_sectors : sectors w' = sectors w;
  zo_mem : mem w' = mem w;
  zo_tm : tm w' = tm w;
  zo_cv : cv w' = cv w;
  zo_blocklinks : blocklinks w' = blocklinks w;
  zo_events : events w' = events w
}.

#[local] Instance z_only_preorder mo : PreOrder (z_only mo).
Proof.
  split.
  - intros w. by split.
  - intros w1 w2 w3 [] []. split; try congruence.
    intros m Hm. by rewrite zo_others1, zo_others0.
Qed.

Lemma zo_upd_mobj mo f w :
  (forall m, set_mo_z 0 (set_mo_momz 0 (f m)) = set_mo_z 0 (set_mo_momz 0 m)) ->
  z_only mo w (upd_mobj mo f w).
Proof.
  intros Hf. split; try done.
  - intros m Hm. simpl. unfold insert, fn_insert. by rewrite decide_False.
  - simpl. unfold insert, fn_insert. rewrite decide_True by done. apply Hf.
Qed.

Hint Extern 1 (z_only _ _ (upd_mobj _ _ _)) =>
  apply zo_upd_mobj; intros; reflexivity : frame.
Hint Extern 5 (z_only _ _ _) => reflexivity : frame.

Lemma wrap32_add_l a b : wrap32 (wrap32 a + b) = wrap32 (a + b).
Proof.
  unfold wrap32. f_equal.
  replace (((a + 2 ^ 31) mod 2 ^ 32 - 2 ^ 31 + b + 2 ^ 31))
    with ((a + 2 ^ 31) mod 2 ^ 32 + b) by lia.
  rewrite Zplus_mod_idemp_l. f_equal. lia.
Qed.

Lemma zo_fake_adjust mo w : z_only mo w (fake_adjust mo w).
Proof. unfold fake_adjust. frame. Qed.

Lemma zo_fake_floor mo w : z_only mo w (fake_floor mo w).
Proof. unfold fake_floor. frame. Qed.

Lemma zo_fake_ceiling mo w : z_only mo w (fake_ceiling mo w).
Proof. unfold fake_ceiling. frame. Qed.

Lemma zo_P_FakeZMovement mo w : z_only mo w (P_FakeZMovement mo w).
Proof.
  unfold P_FakeZMovement.
  etrans; [apply zo_fake_adjust|]. etrans; [apply zo_fake_floor|]. apply zo_fake_ceiling.
Qed.

(** The fields of the thing that a z movement reads and keeps. *)
Lemma z_only_fields mo w w' :
  z_only mo w w' ->
  mo_height (mobjs w' mo) = mo_height (mobjs w mo)
  /\ mo_floorz (mobjs w' mo) = mo_floorz (mobjs w mo)
  /\ mo_ceilingz (mobjs w' mo) = mo_ceilingz (mobjs w mo)
  /\ mo_flags (mobjs w' mo) = mo_flags (mobjs w mo).
Proof.
  intros Hz. pose proof (zo_body _ _ _ Hz) as Hb.
  split_and!; [exact (f_equal mo_height Hb)|exact (f_equal mo_floorz Hb)
              |exact (f_equal mo_ceilingz Hb)|exact (f_equal mo_flags Hb)].
Qed.

Lemma mobjs_upd_mobj_same p f w : mobjs (upd_mobj p f w) p = f (mobjs w p).
Proof. simpl. by rewrite fn_lookup_insert. Qed.

Lemma fake_floor_z mo w :
  mo_floorz (mobjs w mo) <= mo_z (mobjs (fake_floor mo w) mo).
Proof.
  unfold fake_floor. case_decide as Hlow.
  - cbv zeta. rewrite mobjs_upd_mobj_same. cbn [mo_z set_mo_z].
    match goal with |- _ <= mo_floorz (mobjs ?w0 mo) =>
      assert (z_only mo w w0) as Hz by frame end.
    destruct (z_only_fields _ _ _ Hz) as (_ & -> & _). lia.
  - destruct (negb _); [|lia]. cbv zeta. rewrite mobjs_upd_mobj_same. cbn [mo_z set_mo_momz].
    case_decide; [rewrite mobjs_upd_mobj_same; cbn [mo_z set_mo_momz]|]; lia.
Qed.

Lemma fake_ceiling_z mo w :
  let m := mobjs w mo in
  let m' := mobjs (fake_ceiling mo w) mo in
  (mo_ceilingz m < add32 (mo_z m) (mo_height m)
   /\ mo_z m' = sub32 (mo_ceilingz m) (mo_height m))
  \/ (add32 (mo_z m) (mo_height m) <= mo_ceilingz m /\ mo_z m' = mo_z m).
Proof.
  cbv zeta. unfold fake_ceiling. case_decide as Hhigh; [left|right; split; [lia|done]].
  split; [done|]. cbv zeta. rewrite mobjs_upd_mobj_same. cbn [mo_z set_mo_z].
  match goal with |- sub32 (mo_ceilingz (mobjs ?w0 mo)) _ = _ =>
    assert (z_only mo w w0) as Hz by frame end.
  by destruct (z_only_fields _ _ _ Hz) as (-> & _ & -> & _).
Qed.

(** X20.  P_FakeZMovement clips: afterwards the head of the thing is not
    above its ceiling, and when the thing fits between its floor and its
    ceiling its feet are not below its floor.  Of the map objects it
    writes only the z and the momz of the thing; players, sectors, sector
    nodes, the trial, blockmap lists and recorded calls are untouched. *)
Theorem P_FakeZMovement_clips mo w :
  let m := mobjs w mo in
  let m' := mobjs (P_FakeZMovement mo w) mo in
  fits32 (mo_ceilingz m) -> fits32 (mo_ceilingz m - mo_height m) ->
  add32 (mo_z m') (mo_height m') <= mo_ceilingz m'
  /\ (mo_floorz m + mo_height m <= mo_ceilingz m -> mo_floorz m' <= mo_z m')
  /\ z_only mo w (P_FakeZMovement mo w).
Proof.
  cbv zeta. intros Hc Hch.
  pose proof (zo_P_FakeZMovement mo w) as Hz.
  destruct (z_only_fields _ _ _ Hz) as (Hh & Hfl & Hce & _). rewrite Hh, Hfl, Hce.
  split_and!; [| |done]; clear Hz; unfold P_FakeZMovement.
  all: assert (z_only mo w (fake_floor mo (fake_adjust mo w))) as Hz2
    by (etrans; [apply zo_fake_adjust|apply zo_fake_floor]).
  all: destruct (z_only_fields _ _ _ Hz2) as (Hh2 & Hfl2 & Hce2 & _).
  all: pose proof (fake_floor_z mo (fake_adjust mo w)) as Hfloor.
  all: destruct (z_only_fields _ _ _ (zo_fake_adjust mo w)) as (_ & Hfl1 & _).
  all: rewrite Hfl1 in Hfloor.
  all: destruct (fake_ceiling_z mo (fake_floor mo (fake_adjust mo w))) as [[Hhigh ->]|[Hok ->]].
  - rewrite Hh2, Hce2. unfold add32, sub32. rewrite wrap32_add_l.
    replace (mo_ceilingz (mobjs w mo) - mo_height (mobjs w mo) + mo_height (mobjs w mo))
      with (mo_ceilingz (mobjs w mo)) by lia.
    rewrite wrap32_fits by done. lia.
  - rewrite Hh2, Hce2 in Hok. done.
  - intros Hfit. rewrite Hh2, Hce2, sub32_fits by done. lia.
  - intros _. lia.
Qed.

Lemma upd_mobj_upd_tm p g f w : upd_mobj p g (upd_tm f w) = upd_tm f (upd_mobj p g w).
Proof. done. Qed.

Lemma mobjs_upd_tm f w : mobjs (upd_tm f w) = mobjs w.
Proof. done. Qed.

Ltac commute_tm :=
  repeat first [ progress rewrite ?upd_mobj_upd_tm, ?mobjs_upd_tm in *
               | reflexivity
               | contradiction
               | case_decide
               | match goal with |- context [if ?c then _ else _] => destruct c end
               | case_match ].

Lemma fake_adjust_upd_tm mo f w : fake_adjust mo (upd_tm f w) = upd_tm f (fake_adjust mo w).
Proof. unfold fake_adjust. cbv zeta. commute_tm. Qed.

Lemma fake_floor_upd_tm mo f w : fake_floor mo (upd_tm f w) = upd_tm f (fake_floor mo w).
Proof. unfold fake_floor. cbv zeta. commute_tm. Qed.

Lemma fake_ceiling_upd_tm mo f w : fake_ceiling mo (upd_tm f w) = upd_tm f (fake_ceiling mo w).
Proof. unfold fake_ceiling. cbv zeta. commute_tm. Qed.

(** P_FakeZMovement neither reads nor writes the scratch variables. *)
Lemma P_FakeZMovement_upd_tm mo f w :
  P_FakeZMovement mo (upd_tm f w) = upd_tm f (P_FakeZMovement mo w).
Proof.
  unfold P_FakeZMovement.
  by rewrite fake_adjust_upd_tm, fake_floor_upd_tm, fake_ceiling_upd_tm.
Qed.

Lemma onmobj_setup_spec thing w :
  let w1 := onmobj_setup thing w in
  mobjs w1 = mobjs (P_FakeZMovement thing w)
  /\ scratch_only (P_FakeZMovement thing w) w1
  /\ tmthing (tm w1) = Some thing
  /\ tmx (tm w1) = mo_x (mobjs w thing) /\ tmy (tm w1) = mo_y (mobjs w thing).
Proof.
  cbv zeta. unfold onmobj_setup. cbv zeta. rewrite P_FakeZMovement_upd_tm.
  generalize (P_FakeZMovement thing w). intros wz.
  split_and!; [reflexivity|by split|reflexivity..].
Qed.

Lemma so_PIT_CheckOnmobjZ t w : scratch_only w (snd (PIT_CheckOnmobjZ t w)).
Proof. unfold PIT_CheckOnmobjZ. frame. Qed.

Lemma so_onmobj_things w : scratch_only w (snd (onmobj_things w)).
Proof.
  apply (frame_for_each_block scratch_only). intros.
  apply (frame_P_BlockThingsIterator scratch_only). apply so_PIT_CheckOnmobjZ.
Qed.

(** Thing [t] is in the way of the z movement of [mover], which stands at
    (x, y): it is another thing, solid, neither a corpse nor a special,
    and the two overlap in height and on the map. *)
Definition in_the_way (w : world) (mover : mobj_id) (x y : Z) (t : mobj_id) : Prop :=
  let blockdist := add32 (mo_radius (mobjs w t)) (mo_radius (mobjs w mover)) in
  t <> mover
  /\ tst (mo_flags (mobjs w t)) MF_SOLID = true
  /\ tst (mo_flags (mobjs w t)) (Z.lor MF_CORPSE MF_SPECIAL) = false
  /\ mo_z (mobjs w mover) <= add32 (mo_z (mobjs w t)) (mo_height (mobjs w t))
  /\ mo_z (mobjs w t) < add32 (mo_z (mobjs w mover)) (mo_height (mobjs w mover))
  /\ ABS (sub32 (mo_x (mobjs w t)) x) < blockdist
  /\ ABS (sub32 (mo_y (mobjs w t)) y) < blockdist.

Lemma PIT_CheckOnmobjZ_false t w mover :
  tmthing (tm w) = Some mover ->
  fst (PIT_CheckOnmobjZ t w) = false ->
  in_the_way w mover (tmx (tm w)) (tmy (tm w)) t
  /\ onmobj (tm (snd (PIT_CheckOnmobjZ t w))) = Some t.
Proof.
  intros Htm. unfold PIT_CheckOnmobjZ, in_the_way. cbv zeta. rewrite Htm.
  change (deref (Some mover)) with mover.
  destruct (tst (mo_flags (mobjs w t)) MF_SOLID); [|done]. cbn [negb].
  destruct (tst (mo_flags (mobjs w t)) (Z.lor MF_CORPSE MF_SPECIAL)); [done|].
  repeat (case_decide; [done|]). intros _. cbn [snd].
  split; [|done]. split_and!; [congruence|done|done|lia..].
Qed.

(** The scratch variables the walk of P_CheckOnmobj reads. *)
Definition onmobj_trial (thing : mobj_id) (x y : Z) (ms : mobj_id -> mobj_t) (w : world)
  : Prop :=
  tmthing (tm w) = Some thing /\ tmx (tm w) = x /\ tmy (tm w) = y /\ mobjs w = ms.

Lemma onmobj_trial_step thing x y ms t w :
  onmobj_trial thing x y ms w -> onmobj_trial thing x y ms (snd (PIT_CheckOnmobjZ t w)).
Proof.
  intros (Ht & Hx & Hy & Hm). unfold onmobj_trial.
  pose proof (so_mobjs _ _ (so_PIT_CheckOnmobjZ t w)) as Hm'. rewrite Hm'.
  unfold PIT_CheckOnmobjZ. cbv zeta.
  repeat first [case_decide | match goal with |- context [if ?c then _ else _] =>
                                destruct c end]; done.
Qed.

(** X21.  The thing P_CheckOnmobj returns is in the way of the z movement:
    it is another thing, solid, neither a corpse nor a special, listed in
    the blockmap, and it overlaps the thing, as moved by P_FakeZMovement,
    both in height and on the map. *)
Theorem P_CheckOnmobj_found thing w t :
  fst (P_CheckOnmobj thing w) = Some t ->
  in_the_way (P_FakeZMovement thing w) thing (mo_x (mobjs w thing)) (mo_y (mobjs w thing)) t
  /\ exists bx by_, t ∈ blocklinks w bx by_.
Proof.
  unfold P_CheckOnmobj. cbv zeta.
  destruct (onmobj_setup_spec thing w) as (Hm & Hso & Ht & Hx & Hy). cbv zeta in *.
  pose proof (so_blocklinks _ _ Hso) as Hbl.
  pose proof (zo_blocklinks _ _ _ (zo_P_FakeZMovement thing w)) as Hbl0. rewrite Hbl0 in Hbl.
  assert (onmobj_trial thing (mo_x (mobjs w thing)) (mo_y (mobjs w thing))
            (mobjs (P_FakeZMovement thing w)) (onmobj_setup thing w)) as Htrial by done.
  clear Hm Hso Ht Hx Hy Hbl0.
  generalize dependent (onmobj_setup thing w). intros w1 Hbl Htrial.
  destruct (_ || _); [done|].
  destruct (onmobj_things w1) as [ok w2] eqn:Hwalk.
  destruct ok; cbn [negb fst]; [done|].
  change (onmobj (tm (upd_mobj thing (fun _ => mobjs w thing) w2))) with (onmobj (tm w2)).
  pose proof (f_equal fst Hwalk) as Hfalse. pose proof (f_equal snd Hwalk) as Hw2.
  cbn [fst snd] in Hfalse, Hw2. clear Hwalk.
  unfold onmobj_things, for_each_block in *. cbv zeta in *.
  set (Inv := fun w0 : world =>
                onmobj_trial thing (mo_x (mobjs w thing)) (mo_y (mobjs w thing))
                  (mobjs (P_FakeZMovement thing w)) w0
                /\ blocklinks w0 = blocklinks w).
  assert (forall t0 w0, Inv w0 -> Inv (snd (PIT_CheckOnmobjZ t0 w0))) as Hthing.
  { intros t0 w0 [Hw0 Hb0]. split; [by apply onmobj_trial_step|].
    by rewrite (so_blocklinks _ _ (so_PIT_CheckOnmobjZ t0 w0)). }
  assert (forall bx by_ w0, Inv w0 ->
            Inv (snd (P_BlockThingsIterator bx by_ PIT_CheckOnmobjZ w0))) as Hcell.
  { intros bx by_ w0. unfold P_BlockThingsIterator. case_decide; [done|].
    apply (iterate_rel (fun w w' => Inv w -> Inv w')); [auto|auto|].
    intros t0 w4 _. apply Hthing. }
  match type of Hfalse with
  | fst (iterate (fun bx => iterate _ ?ys) ?xs w1) = false =>
      assert (forall bx w0, Inv w0 ->
                Inv (snd (iterate
                            (fun by_ => P_BlockThingsIterator bx by_ PIT_CheckOnmobjZ) ys w0)))
        as Hcol
  end.
  { intros bx w0. apply (iterate_rel (fun w w' => Inv w -> Inv w')); [auto|auto|].
    intros by_ w4 _. apply Hcell. }
  destruct (iterate_false Inv _ _ _ Hcol (conj Htrial Hbl) Hfalse)
    as (bx & w3 & _ & Hw3 & Hfalse3 & Hlast3).
  destruct (iterate_false Inv _ _ _ (Hcell bx) Hw3 Hfalse3)
    as (by_ & w4 & _ & Hw4 & Hfalse4 & Hlast4).
  unfold P_BlockThingsIterator in Hfalse4, Hlast4.
  destruct (decide (bx < 0 \/ by_ < 0 \/ bmapwidth <= bx \/ bmapheight <= by_)); [done|].
  destruct (iterate_false Inv _ _ _ Hthing Hw4 Hfalse4)
    as (t0 & w5 & Hin & [(Ht5 & Hx5 & Hy5 & Hm5) Hb5] & Hfalse5 & Hlast5).
  assert (w2 = snd (PIT_CheckOnmobjZ t0 w5)) as ->.
  { rewrite <- Hw2. etrans; [exact Hlast3|]. etrans; [exact Hlast4|]. exact Hlast5. }
  destruct (PIT_CheckOnmobjZ_false t0 w5 thing Ht5 Hfalse5) as [Hway Hon].
  rewrite Hon. intros [= ->]. split.
  - unfold in_the_way in *. by rewrite Hm5, Hx5, Hy5 in Hway.
  - exists bx, by_. pose proof (proj2 Hw4) as Hb4. by rewrite <- Hb4.
Qed.

(** X22.  P_CheckOnmobj undoes the fake z movement: unless the thing has
    MF_NOCLIP or freeze mode is on, every map object is afterwards as it
    was, whatever is returned; players, sectors, sector nodes, blockmap
    lists and recorded calls are untouched. *)
Theorem P_CheckOnmobj_restores thing w :
  tst (mo_flags (mobjs w thing)) MF_NOCLIP = false -> freeze (cv w) = false ->
  let w' := snd (P_CheckOnmobj thing w) in
  (forall m, mobjs w' m = mobjs w m)
  /\ players w' = players w /\ sectors w' = sectors w /\ mem w' = mem w
  /\ blocklinks w' = blocklinks w /\ events w' = events w.
Proof.
  intros Hclip Hfreeze. cbv zeta. unfold P_CheckOnmobj. cbv zeta.
  destruct (onmobj_setup_spec thing w) as (Hm & Hso & _). cbv zeta in *.
  pose proof (zo_P_FakeZMovement thing w) as Hz.
  destruct (z_only_fields _ _ _ Hz) as (_ & _ & _ & Hfl).
  rewrite Hm, Hfl, Hclip, (so_cv _ _ Hso), (zo_cv _ _ _ Hz), Hfreeze. cbn [orb].
  pose proof (so_onmobj_things (onmobj_setup thing w)) as Hso2.
  destruct (onmobj_things (onmobj_setup thing w)) as [ok w2]. cbn [snd] in Hso2.
  assert (scratch_only (P_FakeZMovement thing w) w2) as [Hm2 Hp2 Hs2 Hme2 _ Hb2 He2]
    by (by etrans).
  assert (forall m, mobjs (upd_mobj thing (fun _ => mobjs w thing) w2) m = mobjs w m) as Hall.
  { intros m. simpl. unfold insert, fn_insert. case_decide; [by subst|].
    rewrite Hm2. by apply (zo_others _ _ _ Hz). }
  destruct Hz.
  destruct ok; cbn [negb snd]; (split_and!; [exact Hall|simpl; congruence..]).
Qed.

(** X23.  For a thing with MF_NOCLIP, or in freeze mode, P_CheckOnmobj
    returns no thing and leaves before it restores the thing: the fake z
    movement stays. *)
Theorem P_CheckOnmobj_noclip thing w :
  tst (mo_flags (mobjs w thing)) MF_NOCLIP = true \/ freeze (cv w) = true ->
  fst (P_CheckOnmobj thing w) = None
  /\ mobjs (snd (P_CheckOnmobj thing w)) = mobjs (P_FakeZMovement thing w).
Proof.
  intros Hskip. unfold P_CheckOnmobj. cbv zeta.
  destruct (onmobj_setup_spec thing w) as (Hm & Hso & _). cbv zeta in *.
  pose proof (zo_P_FakeZMovement thing w) as Hz.
  destruct (z_only_fields _ _ _ Hz) as (_ & _ & _ & Hfl).
  rewrite Hm, Hfl, (so_cv _ _ Hso), (zo_cv _ _ _ Hz).
  assert (tst (mo_flags (mobjs w thing)) MF_NOCLIP || freeze (cv w) = true) as ->.
  { destruct Hskip as [-> | ->]; [done|apply orb_true_r]. }
  cbn [fst snd]. by rewrite Hm.
Qed.

End ONMOBJ.

(** ** What a move leaves alone *)

(** A map object without what the linker and a validation may write. *)
Definition still_of (mo : mobj_t) : mobj_t := unlinked (place_of mo).

(** A map object without what a move may write to the thing it moves. *)
Definition frame_of (mo : mobj_t) : mobj_t :=
  set_mo_x 0 (set_mo_y 0 (set_mo_floorz 0 (set_mo_ceilingz 0 (set_mo_dropoffz 0
    (set_mo_flags2 0 (still_of mo)))))).

(** Only [thing] is moved. *)
Record moves_only (thing : mobj_id) (w w' : world) : Prop := {
  mv_all : forall m, frame_of (mobjs w' m) = frame_of (mobjs w m);
  mv_others : forall m, m <> thing -> still_of (mobjs w' m) = still_of (mobjs w m)
}.

#[global] Instance moves_only_preorder thing : PreOrder (moves_only thing).
Proof.
  split.
  - intros w. by split.
  - intros w1 w2 w3 [Ha Ho] [Ha' Ho']. split.
    + intros m. by rewrite Ha', Ha.
    + intros m Hm. by rewrite Ho', Ho.
Qed.

Lemma mv_still thing w w' :
  (forall m, still_of (mobjs w' m) = still_of (mobjs w m)) -> moves_only thing w w'.
Proof.
  intros H. split; [|auto]. intros m. unfold frame_of. by rewrite H.
Qed.

Lemma mv_validation thing w w' : validation_frame w w' -> moves_only thing w w'.
Proof.
  intros Hv. apply mv_still. intros m. unfold still_of. by rewrite (vf_places _ _ Hv m).
Qed.

Lemma mv_linker thing w w' : linker_frame w w' -> moves_only thing w w'.
Proof.
  intros Hl. apply mv_still. intros m.
  exact (f_equal place_of (lf_bodies _ _ Hl m)).
Qed.

Lemma mv_upd_mobj thing f w :
  (forall mo, frame_of (f mo) = frame_of mo) -> moves_only thing w (upd_mobj thing f w).
Proof.
  intros Hf. split.
  - intros m. simpl. unfold insert, fn_insert. case_decide; [subst; apply Hf|done].
  - intros m Hm. simpl. unfold insert, fn_insert. by rewrite decide_False.
Qed.

Lemma mv_same thing w w' : mobjs w' = mobjs w -> moves_only thing w w'.
Proof. intros H. apply mv_still. intros m. by rewrite H. Qed.

#[global] Hint Extern 1 (moves_only _ _ (upd_mobj _ _ _)) =>
  apply mv_upd_mobj; intros; reflexivity : frame.
#[global] Hint Extern 5 (moves_only _ _ _) => apply mv_same; reflexivity : frame.

(** What [moves_only] says of the fields of a map object. *)
Lemma moves_only_fields thing w w' m :
  moves_only thing w w' ->
  (mo_z (mobjs w' m) = mo_z (mobjs w m)
   /\ mo_radius (mobjs w' m) = mo_radius (mobjs w m)
   /\ mo_height (mobjs w' m) = mo_height (mobjs w m)
   /\ mo_health (mobjs w' m) = mo_health (mobjs w m)
   /\ mo_type (mobjs w' m) = mo_type (mobjs w m)
   /\ mo_player (mobjs w' m) = mo_player (mobjs w m))
  /\ (m <> thing ->
      mo_x (mobjs w' m) = mo_x (mobjs w m) /\ mo_y (mobjs w' m) = mo_y (mobjs w m)
      /\ mo_floorz (mobjs w' m) = mo_floorz (mobjs w m)
      /\ mo_ceilingz (mobjs w' m) = mo_ceilingz (mobjs w m)
      /\ mo_dropoffz (mobjs w' m) = mo_dropoffz (mobjs w m)
      /\ mo_flags2 (mobjs w' m) = mo_flags2 (mobjs w m)).
Proof.
  intros [Hall Hothers]. split.
  - specialize (Hall m).
    split_and!; [exact (f_equal mo_z Hall)|exact (f_equal mo_radius Hall)
                |exact (f_equal mo_height Hall)|exact (f_equal mo_health Hall)
                |exact (f_equal mo_type Hall)|exact (f_equal mo_player Hall)].
  - intros Hm. specialize (Hothers m Hm).
    split_and!; [exact (f_equal mo_x Hothers)|exact (f_equal mo_y Hothers)
                |exact (f_equal mo_floorz Hothers)|exact (f_equal mo_ceilingz Hothers)
                |exact (f_equal mo_dropoffz Hothers)|exact (f_equal mo_flags2 Hothers)].
Qed.

Section BODIES.
Context {E : engine}.
Hypothesis Hlink : linker_ok.

Lemma mv_cross_specials (n : nat) thing oldx oldy w :
  moves_only thing w (cross_specials n thing oldx oldy w).
Proof. apply mv_same. apply cross_specials_frame. Qed.

Lemma mv_fire_specials thing oldx oldy w :
  moves_only thing w (fire_specials thing oldx oldy w).
Proof. unfold fire_specials. destruct (_ && _); [apply mv_cross_specials|reflexivity]. Qed.

Lemma mv_update_feetclip thing w : moves_only thing w (update_feetclip thing w).
Proof. unfold update_feetclip. frame. Qed.

Lemma mv_count_distance thing x y oldx oldy w :
  moves_only thing w (count_distance thing x y oldx oldy w).
Proof. unfold count_distance. frame. Qed.

Lemma mv_place_thing thing x y w : moves_only thing w (place_thing thing x y w).
Proof. unfold place_thing. frame. Qed.

Lemma mv_commit_move thing x y w : moves_only thing w (commit_move thing x y w).
Proof.
  unfold commit_move. cbv zeta.
  etrans; [apply mv_linker, (proj1 (Hlink thing w))|].
  etrans; [|apply mv_fire_specials].
  etrans; [|apply mv_update_feetclip].
  etrans; [|apply mv_count_distance].
  etrans; [|apply mv_linker, (proj2 (Hlink thing _))].
  apply mv_place_thing.
Qed.

Lemma mv_P_TryMove thing x y dropoff w :
  moves_only thing w (snd (P_TryMove thing x y dropoff w)).
Proof.
  unfold P_TryMove. cbv zeta. fold (trial_start w).
  pose proof (vf_P_CheckPosition thing x y (trial_start w)) as Hv.
  apply (mv_validation thing) in Hv.
  destruct (P_CheckPosition thing x y (trial_start w)) as [ok w1]. cbn [snd] in Hv.
  assert (moves_only thing w w1) as H1 by (etrans; [|exact Hv]; by apply mv_same).
  clear Hv. etrans; [exact H1|]. clear H1.
  assert (forall w0, moves_only thing w0 (commit_move thing x y w0)) as Hc
    by (intros; apply mv_commit_move).
  repeat lazymatch goal with
    | |- _ ?w ?w => reflexivity
    | |- _ _ (snd (_, _)) => cbn [snd]
    | |- _ _ (snd (if ?c then _ else _)) => destruct c
    | |- _ _ (if ?c then _ else _) => destruct c
    | |- _ _ (commit_move _ _ _ ?w') => etrans; [|apply Hc]
    | |- _ ?w (?f ?w') => transitivity w'; [|by apply mv_same]
    end.
Qed.

(** X24.  P_TryMove itself moves nothing but the thing: in a run that makes
    no call into other code (no damage, pickup, state change, sound or line
    trigger), whatever it answers, every map object keeps its z, radius,
    height, health, type and player, and every map object other than the
    thing keeps its position, its cached floor, ceiling and dropoff, and
    its flags2. *)
Theorem P_TryMove_moves_only_thing thing x y dropoff w m :
  let w' := snd (P_TryMove thing x y dropoff w) in
  events w' = events w ->
  (mo_z (mobjs w' m) = mo_z (mobjs w m)
   /\ mo_radius (mobjs w' m) = mo_radius (mobjs w m)
   /\ mo_height (mobjs w' m) = mo_height (mobjs w m)
   /\ mo_health (mobjs w' m) = mo_health (mobjs w m)
   /\ mo_type (mobjs w' m) = mo_type (mobjs w m)
   /\ mo_player (mobjs w' m) = mo_player (mobjs w m))
  /\ (m <> thing ->
      mo_x (mobjs w' m) = mo_x (mobjs w m) /\ mo_y (mobjs w' m) = mo_y (mobjs w m)
      /\ mo_floorz (mobjs w' m) = mo_floorz (mobjs w m)
      /\ mo_ceilingz (mobjs w' m) = mo_ceilingz (mobjs w m)
      /\ mo_dropoffz (mobjs w' m) = mo_dropoffz (mobjs w m)
      /\ mo_flags2 (mobjs w' m) = mo_flags2 (mobjs w m)).
Proof. cbv zeta. intros _. apply moves_only_fields, mv_P_TryMove. Qed.

Lemma mv_stairstep mo w : moves_only mo w (stairstep mo w).
Proof.
  unfold stairstep.
  pose proof (mv_P_TryMove mo (mo_x (mobjs w mo))
                (add32 (mo_y (mobjs w mo)) (mo_momy (mobjs w mo))) true w) as H1.
  destruct (P_TryMove mo _ _ true w) as [ok w1]. cbn [snd] in H1.
  destruct ok; [done|]. etrans; [exact H1|]. apply mv_P_TryMove.
Qed.

Lemma PTR_SlideTraverse_mobjs i w : mobjs (snd (PTR_SlideTraverse i w)) = mobjs w.
Proof.
  unfold PTR_SlideTraverse. cbv zeta.
  repeat first [case_decide | match goal with |- context [if ?c then _ else _] =>
                                destruct c end]; done.
Qed.

Lemma mv_P_PathTraverse mo x1 y1 x2 y2 w :
  moves_only mo w (snd (P_PathTraverse x1 y1 x2 y2 PTR_SlideTraverse w)).
Proof.
  unfold P_PathTraverse.
  apply iterate_rel; [reflexivity|apply PreOrder_Transitive|].
  intros i w0 _. apply mv_same, PTR_SlideTraverse_mobjs.
Qed.

Lemma mv_slide_trace mo radius w : moves_only mo w (slide_trace mo radius w).
Proof.
  unfold slide_trace. cbv zeta.
  destruct (decide (0 < mo_momx _)), (decide (0 < mo_momy _)).
  all: etrans; [|apply mv_P_PathTraverse]; etrans; [|apply mv_P_PathTraverse];
    etrans; [|apply mv_P_PathTraverse]; by apply mv_same.
Qed.

Lemma mv_oof mo w : moves_only mo w (oof w).
Proof. unfold oof. frame. Qed.

Hint Resolve mv_oof : frame.

Lemma mv_P_HitSlideLine mo ld w : moves_only mo w (P_HitSlideLine ld w).
Proof. unfold P_HitSlideLine. frame. Qed.

Lemma mv_slide_redirect mo w : moves_only mo w (slide_redirect mo w).
Proof.
  unfold slide_redirect. cbv zeta.
  match goal with |- context [P_HitSlideLine ?ld ?w0] =>
    pose proof (mv_P_HitSlideLine mo ld w0) as Hh;
    generalize dependent (P_HitSlideLine ld w0) end.
  intros w1 Hh.
  transitivity w1; [etrans; [|exact Hh]; by apply mv_same|].
  frame.
Qed.

Lemma mv_slide_pass again mo radius hitcount w w' :
  (forall h w0 w1, again h w0 = Some w1 -> moves_only mo w0 w1) ->
  slide_pass again mo radius hitcount w = Some w' -> moves_only mo w w'.
Proof.
  intros Hagain. unfold slide_pass. cbv zeta.
  case_decide; [intros [= <-]; apply mv_stairstep|].
  pose proof (mv_slide_trace mo radius w) as H1.
  generalize dependent (slide_trace mo radius w). intros w1 H1.
  case_decide; [intros [= <-]; etrans; [exact H1|apply mv_stairstep]|].
  set (w2 := upd_slide _ w1).
  assert (moves_only mo w w2) as H2 by (etrans; [exact H1|by apply mv_same]).
  clearbody w2.
  set (r := if decide (0 < bestslidefrac (slide w2)) then _ else (true, w2)).
  assert (moves_only mo w (snd r)) as H3.
  { subst r. case_decide; [|done]. etrans; [exact H2|apply mv_P_TryMove]. }
  destruct r as [moved w3]. cbn [snd] in H3.
  destruct moved; cbn [negb]; [|intros [= <-]; etrans; [exact H3|apply mv_stairstep]].
  set (w4 := upd_slide _ w3).
  assert (moves_only mo w w4) as H4 by (etrans; [exact H3|by apply mv_same]).
  clearbody w4.
  assert (forall w5, moves_only mo w w5 ->
            (let w6 := slide_redirect mo w5 in
             let '(ok, w7) := P_TryMove mo (add32 (mo_x (mobjs w6 mo)) (tmxmove (slide w6)))
                                (add32 (mo_y (mobjs w6 mo)) (tmymove (slide w6))) true w6 in
             if ok then Some w7 else again (sub32 hitcount 1) w7) = Some w' ->
            moves_only mo w w') as Halong.
  { intros w5 H5. cbv zeta.
    pose proof (mv_slide_redirect mo w5) as H6.
    generalize dependent (slide_redirect mo w5). intros w6 H6.
    pose proof (mv_P_TryMove mo (add32 (mo_x (mobjs w6 mo)) (tmxmove (slide w6)))
                  (add32 (mo_y (mobjs w6 mo)) (tmymove (slide w6))) true w6) as H7.
    destruct (P_TryMove mo _ _ true w6) as [ok w7]. cbn [snd] in H7.
    assert (moves_only mo w w7) as H8 by (etrans; [exact H5|]; by etrans).
    destruct ok; [by intros [= <-]|].
    intros Ha. etrans; [exact H8|]. by eapply Hagain. }
  case_decide.
  - apply Halong. etrans; [exact H4|by apply mv_same].
  - case_decide; [by intros [= <-]|]. by apply Halong.
Qed.

Lemma mv_P_SlideMove_loop (fuel : nat) mo radius hitcount w w' :
  P_SlideMove_loop fuel mo radius hitcount w = Some w' -> moves_only mo w w'.
Proof.
  revert hitcount w w'. induction fuel as [|fuel IH]; intros hitcount w w'; [done|].
  cbn [P_SlideMove_loop]. apply mv_slide_pass. intros h w0 w1. apply IH.
Qed.

(** X25.  P_SlideMove, which always ends within three passes, itself moves
    nothing but the sliding thing: in a run that makes no call into other
    code, every map object keeps its z, radius, height, health, type and
    player, and every other map object keeps its position, its cached
    floor, ceiling and dropoff, and its flags2. *)
Theorem P_SlideMove_moves_only_thing mo w m :
  exists w',
    P_SlideMove 3 mo w = Some w'
    /\ (events w' = events w ->
        mo_z (mobjs w' m) = mo_z (mobjs w m)
        /\ mo_radius (mobjs w' m) = mo_radius (mobjs w m)
        /\ mo_height (mobjs w' m) = mo_height (mobjs w m)
        /\ mo_health (mobjs w' m) = mo_health (mobjs w m)
        /\ mo_type (mobjs w' m) = mo_type (mobjs w m)
        /\ mo_player (mobjs w' m) = mo_player (mobjs w m))
    /\ (events w' = events w -> m <> mo ->
        mo_x (mobjs w' m) = mo_x (mobjs w m) /\ mo_y (mobjs w' m) = mo_y (mobjs w m)
        /\ mo_floorz (mobjs w' m) = mo_floorz (mobjs w m)
        /\ mo_ceilingz (mobjs w' m) = mo_ceilingz (mobjs w m)
        /\ mo_dropoffz (mobjs w' m) = mo_dropoffz (mobjs w m)
        /\ mo_flags2 (mobjs w' m) = mo_flags2 (mobjs w m)).
Proof.
  assert (exists w', P_SlideMove 3 mo w = Some w') as [w' Hres].
  { unfold P_SlideMove. cbv zeta. cbn [P_SlideMove_loop].
    generalize (mo_radius (mobjs w mo)) (upd_slide (set_slidemo (Some mo)) w).
    intros radius w0.
    destruct (slide_pass_result mo radius 3 w0) as [[w' H3]|[_ [w2 H3]]];
      [exists w'; by rewrite H3|].
    rewrite H3. change (sub32 3 1) with 2.
    destruct (slide_pass_result mo radius 2 w2) as [[w' H2]|[_ [w1 H2]]];
      [exists w'; by rewrite H2|].
    rewrite H2. change (sub32 2 1) with 1.
    exists (stairstep mo w1). apply slide_pass_last. }
  exists w'. split; [done|].
  assert (moves_only mo w w') as Hmv.
  { unfold P_SlideMove in Hres. cbv zeta in Hres.
    apply mv_P_SlideMove_loop in Hres. etrans; [|exact Hres]. by apply mv_same. }
  destruct (moves_only_fields mo w w' m Hmv) as [H1 H2].
  split; [by intros _|intros _; exact H2].
Qed.

End BODIES.

Section SLIDES.
Context {E : engine}.

Lemma PTR_SlideTraverse_cases i w :
  PTR_SlideTraverse i w = (true, w)
  \/ (PTR_SlideTraverse i w = (false, w) /\ bestslidefrac (slide w) <= in_frac i)
  \/ (PTR_SlideTraverse i w
      = (false, upd_slide (set_bestslideline (Some (in_line i)))
                  (upd_slide (set_bestslidefrac (in_frac i)) w))
      /\ in_frac i < bestslidefrac (slide w)).
Proof.
  unfold PTR_SlideTraverse. cbv zeta.
  destruct (decide (in_frac i < bestslidefrac (slide w))) as [Hlt|Hge].
  - repeat first [case_decide | match goal with |- context [if ?c then _ else _] =>
                                  destruct c end]; try (by left); right; right; done.
  - repeat first [case_decide | match goal with |- context [if ?c then _ else _] =>
                                  destruct c end]; try (by left); right; left;
      (split; [done|lia]).
Qed.

(** X26.  A slide trace records at most one hit: P_PathTraverse with
    PTR_SlideTraverse either leaves the world as it was, or it stops at an
    intercept of the path that is closer than the best so far and makes
    that intercept the best; it writes nothing else. *)
Theorem slide_trace_one_hit x1 y1 x2 y2 w :
  let w' := snd (P_PathTraverse x1 y1 x2 y2 PTR_SlideTraverse w) in
  w' = w
  \/ exists i,
       i ∈ path_intercepts w x1 y1 x2 y2
       /\ in_frac i < bestslidefrac (slide w)
       /\ w' = upd_slide (set_bestslideline (Some (in_line i)))
                 (upd_slide (set_bestslidefrac (in_frac i)) w).
Proof.
  cbv zeta. unfold P_PathTraverse.
  generalize (path_intercepts w x1 y1 x2 y2). intros l.
  induction l as [|i l IH]; [by left|]. cbn [iterate].
  destruct (PTR_SlideTraverse_cases i w) as [->|[[-> _]|[-> Hlt]]].
  - destruct IH as [IH|(j & Hj & Hlt & IH)]; [by left|].
    right. exists j. split_and!; [by right|done..].
  - by left.
  - right. exists i. split_and!; [by left|done..].
Qed.

(** X27.  A thing that is in the air, or that moves slowly, does not
    bounce off a wall: for a horizontal or vertical line P_HitSlideLine
    makes no sound, clears the component of the move into the wall and
    keeps the component along it. *)
Theorem P_HitSlideLine_no_bounce ld w :
  let mo := mobjs w (deref (slidemo (slide w))) in
  mo_floorz mo < mo_z mo
  \/ P_ApproxDistance (tmxmove (slide w)) (tmymove (slide w)) <= 4 * FRACUNIT ->
  (ld_slopetype (lines ld) = ST_HORIZONTAL ->
   P_HitSlideLine ld w = upd_slide (set_tmymove 0) w)
  /\ (ld_slopetype (lines ld) = ST_VERTICAL ->
      P_HitSlideLine ld w = upd_slide (set_tmxmove 0) w).
Proof.
  cbv zeta. intros Hcalm. unfold P_HitSlideLine. cbv zeta.
  assert (bool_decide (4 * FRACUNIT
                       < P_ApproxDistance (tmxmove (slide w)) (tmymove (slide w)))
          && bool_decide (mo_z (mobjs w (deref (slidemo (slide w))))
                          <= mo_floorz (mobjs w (deref (slidemo (slide w)))))
          && bool_decide (ORIG_FRICTION < fst (P_GetFriction (deref (slidemo (slide w))) w))
          = false) as ->.
  { destruct Hcalm as [Hair|Hslow].
    - rewrite (bool_decide_eq_false_2 (mo_z _ <= _)) by lia.
      by rewrite andb_false_r.
    - by rewrite (bool_decide_eq_false_2 (4 * FRACUNIT < _)) by lia. }
  cbn [andb]. split; intros Hs; rewrite Hs.
  - by rewrite decide_True.
  - rewrite decide_False by done. by rewrite decide_True.
Qed.

End SLIDES.

(** ** The list of special lines *)

(** The array [spechit] has [spechit_max] cells, of which the first
    [numspechit] are in use. *)
Definition spechit_ok (w : world) : Prop :=
  0 <= numspechit (tm w) <= spechit_max (tm w)
  /\ length (spechit (tm w)) = Z.to_nat (spechit_max (tm w)).

Section SPECHIT.
Context {E : engine}.

Lemma I_Realloc_length arr n : length (I_Realloc arr n) = Z.to_nat n.
Proof.
  unfold I_Realloc. rewrite length_app, length_take, length_replicate. lia.
Qed.

Lemma I_Realloc_lookup arr n (k : nat) :
  (k < length arr)%nat -> (k < Z.to_nat n)%nat -> I_Realloc arr n !! k = arr !! k.
Proof.
  intros Hk Hn. unfold I_Realloc.
  rewrite lookup_app_l by (rewrite length_take; lia). by rewrite lookup_take_lt.
Qed.

(** X28.  The array of special lines is never written out of bounds: when
    the first numspechit of its spechit_max cells are in use and
    spechit_max can still be doubled, the push at the end of PIT_CheckLine
    stores the line in cell numspechit, keeps the cells below it, counts
    it, and leaves the array with spechit_max cells again; the array grows
    (to 8 cells, or to twice its size) only when it is full. *)
Theorem spechit_push_in_bounds ld w :
  spechit_ok w -> spechit_max (tm w) < 2 ^ 30 ->
  let w' := spechit_push ld w in
  spechit_ok w'
  /\ numspechit (tm w') = numspechit (tm w) + 1
  /\ spechit (tm w') !! Z.to_nat (numspechit (tm w)) = Some ld
  /\ (forall k : nat, (k < Z.to_nat (numspechit (tm w)))%nat ->
        spechit (tm w') !! k = spechit (tm w) !! k)
  /\ (numspechit (tm w) < spechit_max (tm w) -> spechit_max (tm w') = spechit_max (tm w)).
Proof.
  intros [[Hlo Hhi] Hlen] Hmax. cbv zeta. unfold spechit_push, spechit_ok. cbv zeta.
  assert (add32 (numspechit (tm w)) 1 = numspechit (tm w) + 1) as Hnext
    by (apply add32_fits; unfold fits32; lia).
  destruct (decide (spechit_max (tm w) <= numspechit (tm w))) as [Hfull|Hroom].
  - set (new_max := if decide (spechit_max (tm w) <> 0) then mul32 (spechit_max (tm w)) 2
                    else 8).
    assert (numspechit (tm w) < new_max /\ 0 <= new_max) as [Hnew Hpos].
    { subst new_max. case_decide; [|lia].
      unfold mul32. rewrite wrap32_fits by (unfold fits32; lia). lia. }
    cbn [tm upd_tm set_tm numspechit spechit spechit_max set_numspechit set_spechit
         set_spechit_max].
    rewrite Hnext, length_insert, I_Realloc_length.
    split_and!; [lia|lia|done|done| | |lia].
    + apply list_lookup_insert_eq. rewrite I_Realloc_length. lia.
    + intros k Hk. rewrite list_lookup_insert_ne by lia.
      apply I_Realloc_lookup; lia.
  - cbn [tm upd_tm set_tm numspechit spechit spechit_max set_numspechit set_spechit].
    rewrite Hnext, length_insert.
    split_and!; [lia|lia|done|done| | |done].
    + apply list_lookup_insert_eq. lia.
    + intros k Hk. by rewrite list_lookup_insert_ne by lia.
Qed.

End SPECHIT.

(** ** The further properties on the concrete level *)

(** The level with its two lines made impassable. *)
Definition wall_lines (ld : line_id) : line_t :=
  let l := demo_lines ld in
  {| ld_v1x := ld_v1x l; ld_v1y := ld_v1y l; ld_dx := ld_dx l; ld_dy := ld_dy l;
     ld_flags := 1; ld_special := ld_special l; ld_bbox := ld_bbox l;
     ld_slopetype := ld_slopetype l; ld_frontsector := ld_frontsector l;
     ld_backsector := ld_backsector l |}.

Definition wall_engine : engine :=
  {| FRACBITS := 16; MAXRADIUS := fx 32; TICRATE := 35;
     ORIG_FRICTION := 59392; ORIG_FRICTION_FACTOR := 2048; FRICTION_MASK := 256;
     ANG45 := 536870912; ANG90 := 1073741824; ANG180 := 2147483648;
     ANGLETOFINESHIFT := 19; finesine := fun _ => 0; finecosine := fun _ => 65536;
     MF_SPECIAL := 1; MF_SOLID := 2; MF_SHOOTABLE := 4; MF_SPAWNCEILING := 256;
     MF_NOGRAVITY := 512; MF_DROPOFF := 1024; MF_PICKUP := 2048; MF_NOCLIP := 4096;
     MF_FLOAT := 16384; MF_TELEPORT := 32768; MF_MISSILE := 65536; MF_DROPPED := 131072;
     MF_CORPSE := 1048576; MF_SKULLFLY := 16777216; MF_FRIEND := 268435456;
     MF2_PASSMOBJ := 8; MF2_FOOTCLIP := 64; MF2_FEETARECLIPPED := 256;
     MF2_FALLING := 2; MF2_RESURRECTING := 16;
     ML_BLOCKING := 1; ML_BLOCKMONSTERS := 2; ML_TWOSIDED := 4;
     lines := wall_lines; subsector_sector := fun ss => ss;
     bmaporgx := fx (-256); bmaporgy := fx (-256); bmapwidth := 5; bmapheight := 4;
     blockmap := fun x y => if decide (x = 2) then [0%nat]
                            else if decide (x = 3) then [1%nat] else [];
     FixedMul := demo_FixedMul;
     SafeAdd := fun a b => a + b;
     hypot := fun a b => Z.sqrt (a * a + b * b);
     M_Random := fun _ => 0; M_RandomInt := fun _ lo _ => lo;
     M_RandomIntNoRepeat := fun _ lo _ _ => lo;
     R_PointInSubsector := demo_PointInSubsector;
     R_PointToAngle2 := fun _ _ _ _ => 0;
     P_ApproxDistance := demo_ApproxDistance;
     P_PointOnLineSide := demo_PointOnLineSide;
     P_BoxOnLineSide := demo_BoxOnLineSide;
     P_LineOpening := demo_LineOpening;
     P_GetSafeBlockX := fun c => Z.shiftr c 23;
     P_GetSafeBlockY := fun c => Z.shiftr c 23;
     P_CheckSight := fun _ _ _ => true;
     path_intercepts := fun _ _ _ _ _ => [];
     P_UnsetThingPosition := fun _ w => w;
     P_SetThingPosition := demo_SetThingPosition |}.

(** GRAVITY is FRACUNIT, FLOATSPEED is 4 * FRACUNIT. *)
Definition demo_physics : physics :=
  {| GRAVITY := 65536; FLOATSPEED := 262144; MF_INFLOAT := 2097152 |}.

(** A thing that does not clip. *)
Definition ghost_world : world :=
  demo_world (fun _ => demo_mobj 0 0 4096 None) (fun _ _ => []).

(** A mover (thing 1) at x = 0 and a solid thing 2 at x = 16, both on the
    floor of sector 0. *)
Definition stack_world : world :=
  demo_world (fun m => if decide (m = 2%nat) then demo_mobj 16 0 6 None
                       else demo_mobj 0 0 6 None)
    (fun bx by_ => if decide (bx = 2 /\ by_ = 2) then [2%nat] else []).

(** The level with its two lines made impassable and an engine whose path
    traversal reports line 0 halfway along every path. *)
Definition corner_engine : engine :=
  {| FRACBITS := 16; MAXRADIUS := fx 32; TICRATE := 35;
     ORIG_FRICTION := 59392; ORIG_FRICTION_FACTOR := 2048; FRICTION_MASK := 256;
     ANG45 := 536870912; ANG90 := 1073741824; ANG180 := 2147483648;
     ANGLETOFINESHIFT := 19; finesine := fun _ => 0; finecosine := fun _ => 65536;
     MF_SPECIAL := 1; MF_SOLID := 2; MF_SHOOTABLE := 4; MF_SPAWNCEILING := 256;
     MF_NOGRAVITY := 512; MF_DROPOFF := 1024; MF_PICKUP := 2048; MF_NOCLIP := 4096;
     MF_FLOAT := 16384; MF_TELEPORT := 32768; MF_MISSILE := 65536; MF_DROPPED := 131072;
     MF_CORPSE := 1048576; MF_SKULLFLY := 16777216; MF_FRIEND := 268435456;
     MF2_PASSMOBJ := 8; MF2_FOOTCLIP := 64; MF2_FEETARECLIPPED := 256;
     MF2_FALLING := 2; MF2_RESURRECTING := 16;
     ML_BLOCKING := 1; ML_BLOCKMONSTERS := 2; ML_TWOSIDED := 4;
     lines := wall_lines; subsector_sector := fun ss => ss;
     bmaporgx := fx (-256); bmaporgy := fx (-256); bmapwidth := 5; bmapheight := 4;
     blockmap := fun x y => if decide (x = 2) then [0%nat]
                            else if decide (x = 3) then [1%nat] else [];
     FixedMul := demo_FixedMul;
     SafeAdd := fun a b => a + b;
     hypot := fun a b => Z.sqrt (a * a + b * b);
     M_Random := fun _ => 0; M_RandomInt := fun _ lo _ => lo;
     M_RandomIntNoRepeat := fun _ lo _ _ => lo;
     R_PointInSubsector := demo_PointInSubsector;
     R_PointToAngle2 := fun _ _ _ _ => 0;
     P_ApproxDistance := demo_ApproxDistance;
     P_PointOnLineSide := demo_PointOnLineSide;
     P_BoxOnLineSide := demo_BoxOnLineSide;
     P_LineOpening := demo_LineOpening;
     P_GetSafeBlockX := fun c => Z.shiftr c 23;
     P_GetSafeBlockY := fun c => Z.shiftr c 23;
     P_CheckSight := fun _ _ _ => true;
     path_intercepts := fun _ _ _ _ _ => [{| in_frac := 32768; in_line := 0%nat |}];
     P_UnsetThingPosition := fun _ w => w;
     P_SetThingPosition := demo_SetThingPosition |}.

(** A mover (thing 1) at (120, 0) in sector 1 with momentum (-8, 8) and a
    solid thing 2 at (116, 46), listed in the blockmap cell of its
    centre. *)
Definition corner_world : world :=
  demo_world (fun m => if decide (m = 2%nat) then set_mo_y (fx 46) (demo_mobj 116 24 6 None)
                       else set_mo_momx (fx (-8))
                              (set_mo_momy (fx 8) (demo_mobj 120 24 6 None)))
    (fun bx by_ => if decide (bx = 2 /\ by_ = 2) then [2%nat] else []).

(** C6 on the level.  In [stairs_world] no wall is traced, so the first
    pass takes the stairstep: the move along Y alone, to (0, 8), is refused
    because of the thing at (0, 44), and the move along X alone takes the
    mover to (8, 0).  In [corner_world] the first pass moves up to the
    wall and redirects the rest of the move along it, to momentum (0, 4),
    which thing 2 refuses; the second pass does the same with momentum
    (0, 2); the third pass is the stairstep, and the mover ends at
    (116.25, 5.625). *)
Lemma P_SlideMove_three_passes_witness :
  (let w0 := slide_trace (E := demo_engine) 1%nat (fx 20)
               (upd_slide (set_slidemo (Some 1%nat)) stairs_world) in
   fst (P_TryMove (E := demo_engine) 1%nat 0 (fx 8) true w0) = false
   /\ exists w', P_SlideMove (E := demo_engine) 3 1%nat stairs_world = Some w'
                 /\ mo_x (mobjs w' 1%nat) = fx 8 /\ mo_y (mobjs w' 1%nat) = 0)
  /\ (let p1 := slide_attempt (E := corner_engine) 1%nat (fx 20)
                  (upd_slide (set_slidemo (Some 1%nat)) corner_world) in
      let p2 := slide_attempt (E := corner_engine) 1%nat (fx 20) (pass_world p1) in
      is_refused p1 = true
      /\ mo_momx (mobjs (pass_world p1) 1%nat) = 0
      /\ mo_momy (mobjs (pass_world p1) 1%nat) = fx 4
      /\ is_refused p2 = true
      /\ mo_momx (mobjs (pass_world p2) 1%nat) = 0
      /\ mo_momy (mobjs (pass_world p2) 1%nat) = fx 2
      /\ exists w', P_SlideMove (E := corner_engine) 3 1%nat corner_world = Some w'
                    /\ w' = try_y_then_x (E := corner_engine) 1%nat (pass_world p2)
                    /\ mo_x (mobjs w' 1%nat) = 7618560
                    /\ mo_y (mobjs w' 1%nat) = 368640).
Proof.
  split.
  - cbv zeta. split; [vm_compute; reflexivity|].
    destruct (P_SlideMove_three_passes (E := demo_engine) 1%nat stairs_world)
      as (_ & _ & -> & _).
    eexists. split; [reflexivity|]. split; vm_compute; reflexivity.
  - cbv zeta. split_and!; try (vm_compute; reflexivity).
    destruct (P_SlideMove_three_passes (E := corner_engine) 1%nat corner_world)
      as (_ & _ & -> & _).
    exists (slide_or_stairstep (E := corner_engine) 1%nat corner_world).
    split; [reflexivity|]. split_and!; vm_compute; reflexivity.
Defined.

(** X1 on the level: the validation of the monster's step makes no call
    and leaves the monster and the sector nodes as they were. *)
Lemma P_CheckPosition_informative_witness :
  let w' := snd (P_CheckPosition (E := demo_engine) 1%nat (fx 64) 0 monster_world) in
  events w' = events monster_world
  /\ mo_x (mobjs w' 1%nat) = mo_x (mobjs monster_world 1%nat)
  /\ mem w' = mem monster_world.
Proof.
  cbv zeta.
  assert (events (snd (P_CheckPosition (E := demo_engine) 1%nat (fx 64) 0 monster_world))
          = events monster_world) as Hev by (vm_compute; reflexivity).
  split; [exact Hev|].
  destruct (P_CheckPosition_informative (E := demo_engine) 1%nat (fx 64) 0 monster_world
              1%nat Hev) as (Hx & _ & _ & _ & _ & _ & _ & _ & _ & _ & Hmem & _).
  exact (conj Hx Hmem).
Defined.

(** X2 on the level: the ghost is moved into sector 1. *)
Lemma P_TryMove_noclip_witness :
  let r := P_TryMove (E := demo_engine) 1%nat (fx 64) 0 false ghost_world in
  fst r = true /\ mo_x (mobjs (snd r) 1%nat) = fx 64
  /\ mo_floorz (mobjs (snd r) 1%nat) = fx 24.
Proof.
  cbv zeta.
  destruct (P_TryMove_noclip (E := demo_engine) 1%nat (fx 64) 0 false ghost_world
              demo_linker_ok) as (H1 & H2 & _ & _ & H3 & _).
  - left. vm_compute. reflexivity.
  - cbv zeta in *. split_and!; [exact H1|exact H2|]. rewrite H3. vm_compute. reflexivity.
Defined.

(** X3 on the level: the plain monster's teleport onto the occupant. *)
Lemma P_TeleportMove_refused_atomic_witness :
  let r := P_TeleportMove (E := demo_engine) 1%nat (fx 64) 0 (fx 24) false telefrag_world in
  fst r = false /\ mobjs (snd r) = mobjs telefrag_world
  /\ events (snd r) = events telefrag_world.
Proof.
  cbv zeta.
  assert (fst (P_TeleportMove (E := demo_engine) 1%nat (fx 64) 0 (fx 24) false telefrag_world)
          = false) as Hf by (vm_compute; reflexivity).
  destruct (P_TeleportMove_refused_atomic (E := demo_engine) 1%nat (fx 64) 0 (fx 24) false
              telefrag_world Hf) as (_ & Hm & _ & _ & _ & He).
  exact (conj Hf (conj Hm He)).
Defined.

(** X4 on the level: the boss's teleport onto the occupant. *)
Lemma P_TeleportMove_telefrag_witness :
  let r := P_TeleportMove (E := demo_engine) 1%nat (fx 64) 0 (fx 24) true telefrag_world in
  fst r = true /\ mo_x (mobjs (snd r) 1%nat) = fx 64
  /\ mo_z (mobjs (snd r) 1%nat) = mo_z (mobjs telefrag_world 1%nat).
Proof.
  cbv zeta.
  destruct (P_TeleportMove_telefrag (E := demo_engine) 1%nat (fx 64) 0 (fx 24) true
              telefrag_world demo_linker_ok) as (H1 & H2 & _ & H3 & _).
  - right. reflexivity.
  - exact (conj H1 (conj H2 H3)).
Defined.

(** X5 on the level: the blast itself, which is not shootable. *)
Lemma P_RadiusAttack_spares_witness :
  damage_to 1%nat (events (P_RadiusAttack (E := demo_engine) 1%nat None 128 true blast_world))
  = damage_to 1%nat (events blast_world).
Proof.
  apply (P_RadiusAttack_spares (E := demo_engine) 1%nat None 128 true 1%nat blast_world).
  left. split; vm_compute; reflexivity.
Defined.

(** X6 on the level: the blast of 128. *)
Lemma P_RadiusAttack_calls_witness :
  exists evs,
    events (P_RadiusAttack (E := demo_engine) 1%nat None 128 true blast_world)
    = events blast_world ++ evs
    /\ Forall (fun e => exists t d, e = P_DamageMobj t (Some 1%nat) None d true
                                    /\ 0 < d <= 128) evs.
Proof.
  apply (P_RadiusAttack_calls (E := demo_engine) 1%nat None 128 true blast_world).
  unfold fits32. lia.
Defined.

(** X8 on the level: the first node handed out in the empty heap. *)
Lemma P_GetSecnode_unused_witness :
  fst (P_GetSecnode monster_world) = 0%nat
  /\ consistent (snd (P_GetSecnode monster_world)) [[]].
Proof.
  destruct (P_GetSecnode_unused monster_world [[]] (empty_heap_consistent _ _))
    as (_ & _ & Hc & Hnew).
  split; [apply Hnew; reflexivity|exact Hc].
Defined.

(** X9 on the level: a thread of one node is deleted. *)
Lemma P_DelSeclist_empties_witness :
  let r := P_AddSecnode 0%nat 1%nat None monster_world in
  consistent (P_DelSeclist (fst r) (snd r)) [[]].
Proof.
  cbv zeta.
  destruct (empty_heap_consistent (fun _ => demo_mobj 0 0 6 None) (fun _ _ => []))
    as (Sec & F & Hok).
  destruct (P_AddSecnode_heap_ok 0%nat 1%nat monster_world [] [] [] Sec F Hok)
    as (L' & Sec' & F' & Hok' & Hfst & _).
  cbn [head] in Hfst. rewrite Hfst.
  apply (P_DelSeclist_empties (snd (P_AddSecnode 0%nat 1%nat None monster_world)) [] L' []).
  by exists Sec', F'.
Defined.

(** X10 on the level: sector 0 is added twice to the empty thread. *)
Lemma P_AddSecnode_again_witness :
  let r1 := P_AddSecnode 0%nat 1%nat None monster_world in
  fst (P_AddSecnode 0%nat 2%nat (fst r1) (snd r1)) = fst r1.
Proof.
  cbv zeta.
  apply (P_AddSecnode_again 0%nat 1%nat 2%nat monster_world [] [] []
           (empty_heap_consistent _ _)).
Defined.

(** X12 on the level: the monster walks. *)
Lemma P_CheckPosition_walking_harmless_witness :
  damage_calls (events (snd (P_CheckPosition (E := demo_engine) 1%nat (fx 64) 0 monster_world)))
  = damage_calls (events monster_world).
Proof.
  apply (P_CheckPosition_walking_harmless (E := demo_engine) 1%nat (fx 64) 0 monster_world);
    vm_compute; reflexivity.
Defined.

(** X14 on the level: two icy sectors. *)
Lemma P_GetFriction_lowest_region_witness :
  fst (P_GetFriction (E := demo_engine) 1%nat (friction_world 4%nat 5%nat))
  ∈ friction_regions (E := demo_engine) (friction_world 4%nat 5%nat) 1%nat.
Proof.
  assert (friction_regions (E := demo_engine) (friction_world 4%nat 5%nat) 1%nat
          = [61440; 61440]) as Hr by (vm_compute; reflexivity).
  apply (P_GetFriction_lowest_region (E := demo_engine) 1%nat (friction_world 4%nat 5%nat)).
  - vm_compute. reflexivity.
  - intros f Hf. rewrite Hr in Hf.
    apply elem_of_cons in Hf as [->|Hf]; [vm_compute; discriminate|].
    apply list_elem_of_singleton in Hf as ->. vm_compute. discriminate.
  - rewrite Hr. discriminate.
Defined.

(** X16 on the level: the sector list of the monster is built. *)
Lemma P_CreateSecNodeList_touched_witness :
  subsector_sector (engine := demo_engine) (mo_subsector (mobjs monster_world 1%nat))
  ∈ membership (P_CreateSecNodeList (E := demo_engine) 1%nat 0 0 monster_world).
Proof.
  apply (P_CreateSecNodeList_touched (E := demo_engine) 1%nat 0 0 monster_world [] []
           (empty_heap_consistent _ _)).
  - reflexivity.
  - intros ld. vm_compute. discriminate.
Defined.

(** X19 on the level: the wall at x = 32 between the actor and x = 64. *)
Lemma P_CheckLineSide_complete_witness :
  fst (P_CheckLineSide (E := wall_engine) 1%nat (fx 64) 0 monster_world) = true.
Proof.
  apply (P_CheckLineSide_complete (E := wall_engine) 1%nat (fx 64) 0 monster_world 0%nat).
  - intros ld. vm_compute. discriminate.
  - assert (lines_near (E := wall_engine)
              (trajectory_box {| pe_x := mo_x (mobjs monster_world 1%nat);
                                 pe_y := mo_y (mobjs monster_world 1%nat);
                                 ls_x := fx 64; ls_y := 0 |}) = [0%nat]) as ->
      by (vm_compute; reflexivity).
    apply list_elem_of_here.
  - unfold crosses. cbv zeta. split_and!; vm_compute; discriminate.
Defined.

(** X20 on the level: the monster standing on the floor. *)
Lemma P_FakeZMovement_clips_witness :
  let m' := mobjs (P_FakeZMovement (E := demo_engine) (P := demo_physics) 1%nat monster_world)
              1%nat in
  add32 (mo_z m') (mo_height m') <= mo_ceilingz m'.
Proof.
  cbv zeta.
  apply (P_FakeZMovement_clips (E := demo_engine) (P := demo_physics) 1%nat monster_world).
  - unfold fits32. split; vm_compute; [discriminate|reflexivity].
  - unfold fits32. split; vm_compute; [discriminate|reflexivity].
Defined.

(** X21 on the level: the mover stands in thing 2. *)
Lemma P_CheckOnmobj_found_witness :
  fst (P_CheckOnmobj (E := demo_engine) (P := demo_physics) 1%nat stack_world) = Some 2%nat
  /\ exists bx by_, 2%nat ∈ blocklinks stack_world bx by_.
Proof.
  assert (fst (P_CheckOnmobj (E := demo_engine) (P := demo_physics) 1%nat stack_world)
          = Some 2%nat) as Hf by (vm_compute; reflexivity).
  split; [exact Hf|].
  apply (P_CheckOnmobj_found (E := demo_engine) (P := demo_physics) 1%nat stack_world 2%nat Hf).
Defined.

(** X22 on the level: the mover is as it was. *)
Lemma P_CheckOnmobj_restores_witness :
  mobjs (snd (P_CheckOnmobj (E := demo_engine) (P := demo_physics) 1%nat stack_world)) 1%nat
  = mobjs stack_world 1%nat.
Proof.
  destruct (P_CheckOnmobj_restores (E := demo_engine) (P := demo_physics) 1%nat stack_world)
    as [Hall _]; [vm_compute; reflexivity..|].
  apply Hall.
Defined.

(** X23 on the level: the ghost keeps the fake z movement. *)
Lemma P_CheckOnmobj_noclip_witness :
  fst (P_CheckOnmobj (E := demo_engine) (P := demo_physics) 1%nat ghost_world) = None.
Proof.
  apply (P_CheckOnmobj_noclip (E := demo_engine) (P := demo_physics) 1%nat ghost_world).
  left. vm_compute. reflexivity.
Defined.

(** X24 on the level: the monster's step, which makes no call, leaves
    thing 2 where it is. *)
Lemma P_TryMove_moves_only_thing_witness :
  events (snd (P_TryMove (E := demo_engine) 1%nat (fx 64) 0 true monster_world))
  = events monster_world
  /\ mo_x (mobjs (snd (P_TryMove (E := demo_engine) 1%nat (fx 64) 0 true monster_world))
             2%nat)
     = mo_x (mobjs monster_world 2%nat).
Proof.
  assert (events (snd (P_TryMove (E := demo_engine) 1%nat (fx 64) 0 true monster_world))
          = events monster_world) as Hev by (vm_compute; reflexivity).
  split; [exact Hev|].
  destruct (P_TryMove_moves_only_thing (E := demo_engine) demo_linker_ok 1%nat (fx 64) 0 true
              monster_world 2%nat Hev) as [_ Hothers].
  apply Hothers. discriminate.
Defined.

(** X25 on the level: the monster's slide, which makes no call, leaves
    thing 2 where it is. *)
Lemma P_SlideMove_moves_only_thing_witness :
  exists w',
    P_SlideMove (E := demo_engine) 3 1%nat monster_world = Some w'
    /\ events w' = events monster_world
    /\ mo_x (mobjs w' 2%nat) = mo_x (mobjs monster_world 2%nat).
Proof.
  destruct (P_SlideMove_moves_only_thing (E := demo_engine) demo_linker_ok 1%nat
              monster_world 2%nat) as (w' & Hres & _ & Hothers).
  assert (events w' = events monster_world) as Hev.
  { assert (P_SlideMove (E := demo_engine) 3 1%nat monster_world
            = Some (stairstep (E := demo_engine) 1%nat
                      (slide_trace (E := demo_engine) 1%nat (fx 20)
                         (upd_slide (set_slidemo (Some 1%nat)) monster_world)))) as Hrun
      by (vm_compute; reflexivity).
    rewrite Hrun in Hres. injection Hres as <-. vm_compute. reflexivity. }
  exists w'. split; [exact Hres|]. split; [exact Hev|]. apply Hothers; [exact Hev|discriminate].
Defined.

(** X27 on the level: a thing at rest against the vertical line 0. *)
Lemma P_HitSlideLine_no_bounce_witness :
  P_HitSlideLine (E := demo_engine) 0%nat monster_world
  = upd_slide (set_tmxmove 0) monster_world.
Proof.
  apply (P_HitSlideLine_no_bounce (E := demo_engine) 0%nat monster_world).
  - right. vm_compute. discriminate.
  - reflexivity.
Defined.

(** X28 on the level: the first special line goes into a new array of 8
    cells. *)
Lemma spechit_push_in_bounds_witness :
  spechit (tm (spechit_push 1%nat monster_world)) !! 0%nat = Some 1%nat.
Proof.
  apply (spechit_push_in_bounds 1%nat monster_world).
  - split; [split; vm_compute; discriminate|reflexivity].
  - vm_compute. reflexivity.
Defined.
